(** * dm-crypt (drivers/md/dm-crypt.c): a shallow embedding and its properties

    The device-mapper crypt target, in both of its builds: with the
    kernel's synchronous block cipher API, and with the OCF offload engine
    ([CONFIG_OCF_DM_CRYPT]).

    Integers are [Z] with the C wrap-around written out ([sector_t] is
    taken 64 bits wide), byte buffers are lists of byte values or, where
    the code goes by address, functions from offsets to bytes, C strings
    are [string] (the terminating NUL left out), NULL pointers are [None].
    State is passed explicitly.  What the kernel provides from outside the
    file (crypto API, allocators, the offload engine) enters through
    records of oracles, and what the code does to the outside (cipher
    calls, requests handed to the engine, bio completions, log messages)
    is kept in logs that the statements talk about.  A result of [None]
    stands for a fault such as a NULL dereference, or for a loop that runs
    out of fuel. *)

From Stdlib Require Import ZArith String Ascii List Lia Bool.
Import ListNotations.
Open Scope Z_scope.

(* ================================================================== *)
(** * Part I: the embedding *)
(* ================================================================== *)

(** ** Error numbers *)

(** Modelled from the spec: the error numbers the file returns
    (asm-generic/errno-base.h) are not under src. *)
Definition EPERM  : Z := 1.
Definition EIO    : Z := 5.
Definition EAGAIN : Z := 11.
Definition ENOMEM : Z := 12.
Definition EINVAL : Z := 22.

(** ** Machine integers *)

(** [unsigned int] and [u32], [u64] and [sector_t], [int] and [u8] values
    are kept as mathematical integers; every C operation that can leave
    the range is followed by the matching wrap. *)
Definition wrap32 (x : Z) : Z := x mod 2 ^ 32.
Definition wrap64 (x : Z) : Z := x mod 2 ^ 64.
Definition wrap_int (x : Z) : Z := (x + 2 ^ 31) mod 2 ^ 32 - 2 ^ 31.
Definition wrap8 (x : Z) : Z := x mod 256.

(** ** C strings *)

(** The value of a character as [unsigned char]. *)
Definition uchar (c : ascii) : Z := Z.of_N (N_of_ascii c).

(** Modelled from the spec: [strlen] (lib/string.c) is not under src. *)
Definition strlen (s : string) : Z := Z.of_nat (String.length s).

(** Modelled from the spec: [strcmp] (lib/string.c) is not under src; the
    kernel's version answers -1, 0 or 1. *)
Fixpoint strcmp (cs ct : string) : Z :=
  match cs, ct with
  | EmptyString, EmptyString => 0
  | EmptyString, String _ _ => -1
  | String _ _, EmptyString => 1
  | String c1 cs', String c2 ct' =>
      if (uchar c1 =? uchar c2) then strcmp cs' ct'
      else if (uchar c1 <? uchar c2) then -1 else 1
  end.

(** Modelled from the spec: [tolower] (linux/ctype.h) is not under src. *)
Definition tolower (c : ascii) : ascii :=
  let n := uchar c in
  if (65 <=? n) && (n <=? 90) then ascii_of_N (Z.to_N (n + 32)) else c.

(** Modelled from the spec: [strnicmp] (lib/string.c) is not under src.
    It compares at most [len] characters without regard to case; the
    terminating NUL of either string takes part in the comparison, and the
    result is the difference of the last pair of characters read. *)
Fixpoint strnicmp (s1 s2 : string) (len : nat) : Z :=
  match len with
  | O => 0
  | S len' =>
      match s1, s2 with
      | String c1 s1', String c2 s2' =>
          if (uchar c1 =? uchar c2) then strnicmp s1' s2' len'
          else if (uchar (tolower c1) =? uchar (tolower c2))
               then strnicmp s1' s2' len'
               else uchar (tolower c1) - uchar (tolower c2)
      | EmptyString, String c2 _ => 0 - uchar c2
      | String c1 _, EmptyString => uchar c1 - 0
      | EmptyString, EmptyString => 0
      end
  end.

(** [MESG_STR(x)] expands to [x, sizeof(x)]: the length handed to
    [strnicmp] counts the terminating NUL. *)
Definition MESG_STR (x : string) : string * nat := (x, S (String.length x)).

(** Whether [c] is one of the delimiters [ct]. *)
Definition is_delim (ct : string) (c : ascii) : bool :=
  existsb (fun d => uchar d =? uchar c) (list_ascii_of_string ct).

(** The search of [strsep] for the first delimiter: the text before it
    and, when one was found, the text after it. *)
Fixpoint split_at_delim (ct : string) (s : string) : string * option string :=
  match s with
  | EmptyString => (EmptyString, None)
  | String c s' =>
      if is_delim ct c then (EmptyString, Some s')
      else let (tok, rest) := split_at_delim ct s' in (String c tok, rest)
  end.

(** Modelled from the spec: [strsep] (lib/string.c) is not under src.
    [strsep(&s, ct)] gives the token and the new value of [s]; [None] is
    the NULL pointer. *)
Definition strsep (s : option string) (ct : string) : option string * option string :=
  match s with
  | None => (None, None)
  | Some str => let (tok, rest) := split_at_delim ct str in (Some tok, rest)
  end.

(** The value of a hexadecimal digit of either case. *)
Definition hex_value (c : ascii) : option Z :=
  let n := uchar c in
  if (48 <=? n) && (n <=? 57) then Some (n - 48)
  else if (97 <=? n) && (n <=? 102) then Some (n - 97 + 10)
  else if (65 <=? n) && (n <=? 70) then Some (n - 65 + 10)
  else None.

(** The digit loop of the base-16 parser: the value read and the number
    of characters consumed. *)
Fixpoint parse_hex_digits (cp : list ascii) (acc : Z) (used : nat) : Z * nat :=
  match cp with
  | [] => (acc, used)
  | c :: cp' =>
      match hex_value c with
      | Some v => parse_hex_digits cp' (acc * 16 + v) (S used)
      | None => (acc, used)
      end
  end.

(** Modelled from the spec: [simple_strtoul] (lib/vsprintf.c) is the
    kernel's hex parsing glue and is not under src.  With base 16 it skips
    an optional [0x] prefix, reads hexadecimal digits of either case up to
    the first other character (the NUL included) and reports through
    [endp] how many characters it consumed.  The buffer is given without
    its terminating NUL. *)
Definition simple_strtoul16 (cp : list ascii) : Z * nat :=
  match cp with
  | c0 :: c1 :: cp' =>
      if (uchar c0 =? 48) && (uchar (tolower c1) =? 120)
      then let (v, used) := parse_hex_digits cp' 0 0 in (v, (2 + used)%nat)
      else parse_hex_digits cp 0 0
  | _ => parse_hex_digits cp 0 0
  end.

(** Modelled from the spec: [isspace] (linux/ctype.h) is not under src. *)
Definition is_space (c : ascii) : bool :=
  let n := uchar c in ((9 <=? n) && (n <=? 13)) || (n =? 32) || (n =? 160).

(** The remainder of a string after its leading white space. *)
Fixpoint skip_spaces (s : list ascii) : list ascii :=
  match s with
  | c :: s' => if is_space c then skip_spaces s' else s
  | [] => []
  end.

(** The digit loop of the base-10 parser, on 64 bits. *)
Fixpoint parse_decimal (s : list ascii) (acc : Z) : Z :=
  match s with
  | c :: s' =>
      let n := uchar c in
      if (48 <=? n) && (n <=? 57)
      then parse_decimal s' (wrap64 (acc * 10 + (n - 48)))
      else acc
  | [] => acc
  end.

(** Modelled from the spec: [sscanf] (lib/vsprintf.c) is not under src.
    [sscanf(s, "%llu", &v) == 1] skips white space and reads a decimal
    unsigned 64-bit number; [None] when no digit is there. *)
Definition sscanf_llu (s : string) : option Z :=
  match skip_spaces (list_ascii_of_string s) with
  | c :: s' =>
      if (48 <=? uchar c) && (uchar c <=? 57)
      then Some (parse_decimal (c :: s') 0)
      else None
  | [] => None
  end.

(** ** Bit operations on flag words *)

(** Modelled from the spec: [set_bit] (asm/bitops.h) is not under src. *)
Definition set_bit (nr : Z) (addr : Z) : Z := Z.lor addr (Z.shiftl 1 nr).

(** Modelled from the spec: [clear_bit] (asm/bitops.h) is not under src. *)
Definition clear_bit (nr : Z) (addr : Z) : Z :=
  Z.land addr (Z.lnot (Z.shiftl 1 nr)).

(** Modelled from the spec: [test_bit] (asm/bitops.h) is not under src. *)
Definition test_bit (nr : Z) (addr : Z) : bool := Z.testbit addr nr.

(** ** Byte buffers *)

(** [n] bytes of [v], least significant first. *)
Fixpoint le_bytes (n : nat) (v : Z) : list Z :=
  match n with
  | O => []
  | S n' => (v mod 256) :: le_bytes n' (v / 256)
  end.

(** Modelled from the spec: [cpu_to_le32], [cpu_to_le64] and
    [cpu_to_be64] (asm/byteorder.h) are not under src.  Each is given
    together with the store that follows it: the bytes in memory order. *)
Definition cpu_to_le32 (v : Z) : list Z := le_bytes 4 v.
Definition cpu_to_le64 (v : Z) : list Z := le_bytes 8 v.
Definition cpu_to_be64 (v : Z) : list Z := rev (le_bytes 8 v).

(** The value a big-endian byte string stands for. *)
Definition be_value (bytes : list Z) : Z :=
  fold_left (fun acc b => acc * 256 + b) bytes 0.

(** Modelled from the spec: [memset] (lib/string.c) is not under src.
    [memset(buf, c, n)] on a buffer of known size; [None] when the store
    would leave the buffer ([n] is a [size_t], so a negative [n] is a huge
    count). *)
Definition memset (buf : list Z) (c : Z) (n : Z) : option (list Z) :=
  if (0 <=? n) && (n <=? Z.of_nat (List.length buf))
  then Some (repeat c (Z.to_nat n) ++ skipn (Z.to_nat n) buf)
  else None.

(** A store of [bytes] at [buf + off]; [None] when it would leave the
    buffer. *)
Definition store_bytes (buf : list Z) (off : Z) (bytes : list Z) : option (list Z) :=
  if (0 <=? off) && (off + Z.of_nat (List.length bytes) <=? Z.of_nat (List.length buf))
  then Some (firstn (Z.to_nat off) buf ++ bytes
             ++ skipn (Z.to_nat off + List.length bytes) buf)
  else None.

(** A store of one byte at [buf + i], for a buffer that is gone through
    by address. *)
Definition store_byte (buf : nat -> Z) (i : nat) (v : Z) : nat -> Z :=
  fun j => if Nat.eqb j i then v else buf j.

(** [memset(buf, c, n)] for such a buffer. *)
Definition memset_fn (buf : nat -> Z) (c : Z) (n : Z) : nat -> Z :=
  fun j => if (Z.of_nat j <? n) then c else buf j.

(** ** Block I/O descriptors *)

(** Modelled from the spec: [SECTOR_SHIFT] (linux/device-mapper.h) and
    the page size (asm/page.h) are not under src; a sector has 512 bytes
    and a page 4096. *)
Definition SECTOR_SHIFT : Z := 9.
Definition PAGE_SHIFT : Z := 12.
Definition PAGE_SIZE : Z := Z.shiftl 1 PAGE_SHIFT.

(** Modelled from the spec: [struct bio_vec] (linux/bio.h) is not under
    src.  Pages are named by their page frame. *)
Record bio_vec := {
  bv_page : Z;
  bv_len : Z;
  bv_offset : Z
}.

(** Modelled from the spec: [struct bio] (linux/bio.h) is not under src;
    the members this file reads and writes.  [bi_private] of a bounced bio
    points to the bio it stands in for. *)
#[local] Unset Elimination Schemes.
Inductive bio := Build_bio {
  bi_sector : Z;
  bi_rw : Z;
  bi_flags : Z;
  bi_vcnt : Z;
  bi_idx : Z;
  bi_size : Z;
  bi_io_vec : list bio_vec;
  bi_private : option bio
}.
#[local] Set Elimination Schemes.

(** Modelled from the spec: the flag [BIO_BOUNCED] and the directions
    [READ] and [WRITE] (linux/bio.h, linux/fs.h) are not under src. *)
Definition BIO_BOUNCED : Z := 5.
Definition READ : Z := 0.
Definition WRITE : Z := 1.

(** Modelled from the spec: [bio_flagged] (linux/bio.h) is not under src. *)
Definition bio_flagged (b : bio) (flag : Z) : bool :=
  negb (Z.land (bi_flags b) (Z.shiftl 1 flag) =? 0).

(** Modelled from the spec: [bio_data_dir] (linux/bio.h) is not under
    src. *)
Definition bio_data_dir (b : bio) : Z := Z.land (bi_rw b) 1.

(** Modelled from the spec: [struct scatterlist] (linux/scatterlist.h) is
    not under src; the members [sg_set_page] fills. *)
Record scatterlist := {
  sg_page : Z;
  sg_length : Z;
  sg_offset : Z
}.

(** Modelled from the spec: [struct dm_target] (linux/device-mapper.h) is
    not under src.  [ti->private] and [ti->error] are passed separately. *)
Record dm_target := {
  begin : Z;
  len : Z
}.

(** ** The target's configuration *)

(** [enum flags { DM_CRYPT_SUSPENDED, DM_CRYPT_KEY_VALID }] *)
Definition DM_CRYPT_SUSPENDED : Z := 0.
Definition DM_CRYPT_KEY_VALID : Z := 1.

(** Modelled from the spec: [CRYPTO_MAX_ALG_NAME] (linux/crypto.h) is not
    under src. *)
Definition CRYPTO_MAX_ALG_NAME : Z := 64.

(** Modelled from the spec: the OCF algorithm identifiers
    (crypto/ocf/cryptodev.h) are not under src. *)
Definition CRYPTO_DES_CBC  : Z := 1.
Definition CRYPTO_3DES_CBC : Z := 2.
Definition CRYPTO_AES_CBC  : Z := 11.

(** Modelled from the spec: [struct crypto_cipher] (linux/crypto.h) is
    not under src.  A single-block cipher handle: the algorithm, its block
    size and the key set on it. *)
Record crypto_cipher := {
  cipher_alg : string;
  cipher_blocksize : Z;
  cipher_key : list Z
}.

(** Modelled from the spec: [struct crypto_blkcipher] (linux/crypto.h) is
    not under src.  A chained block cipher handle: the algorithm, its
    block size and its IV size. *)
Record crypto_blkcipher := {
  blk_alg : string;
  blk_blocksize : Z;
  blk_ivsize : Z
}.

(** Modelled from the spec: [struct cryptoini] (crypto/ocf/cryptodev.h)
    is not under src.  The parameters of an OCF session; [cri_key] always
    designates [cc->key]. *)
Record cryptoini := {
  cri_alg : Z;
  cri_klen : Z
}.

(** The four tables of [struct crypt_iv_operations]; a pointer to one of
    them, or NULL, sits in [crypt_config.iv_gen_ops]. *)
Inductive crypt_iv_operations :=
| crypt_iv_plain_ops
| crypt_iv_essiv_ops
| crypt_iv_benbi_ops
| crypt_iv_null_ops.

(** The union [iv_gen_private]. *)
Inductive iv_gen_private_t :=
| private_zero
| essiv_tfm (t : crypto_cipher)
| benbi_shift (s : Z).

(** [struct crypt_config].  The pools and the bio set are kept as the fact
    that they exist.  [key] gives the byte stored at [cc->key + i]; the
    structure was allocated with room for [key_alloc] of them, and what
    lies behind belongs to the rest of the heap. *)
Record crypt_config := {
  dev : option string;
  start : Z;
  io_pool : bool;
  page_pool : bool;
  bs : bool;
  iv_gen_ops : option crypt_iv_operations;
  iv_mode : option string;
  iv_gen_private : iv_gen_private_t;
  iv_offset : Z;
  iv_size : Z;
  cipher : string;
  chainmode : string;
  cr_dm : cryptoini;
  ocf_cryptoid : Z;
  tfm : option crypto_blkcipher;
  flags : Z;
  key_size : Z;
  key : nat -> Z;
  key_alloc : Z
}.

(** What [kzalloc] of the structure plus [alloc] key bytes hands back:
    zeros as far as the allocation goes, and behind it the [heap] as it
    is. *)
Definition kzalloc_crypt_config (alloc : Z) (heap : nat -> Z) : crypt_config :=
  {| dev := None; start := 0; io_pool := false; page_pool := false;
     bs := false; iv_gen_ops := None; iv_mode := None;
     iv_gen_private := private_zero; iv_offset := 0; iv_size := 0;
     cipher := EmptyString; chainmode := EmptyString;
     cr_dm := {| cri_alg := 0; cri_klen := 0 |}; ocf_cryptoid := 0;
     tfm := None; flags := 0; key_size := 0;
     key := fun i => if Z.of_nat i <? alloc then 0 else heap i;
     key_alloc := alloc |}.

(** Assignments to single members of the configuration. *)
Definition with_dev (cc : crypt_config) (v : option string) : crypt_config :=
  {| dev := v; start := start cc; io_pool := io_pool cc;
     page_pool := page_pool cc; bs := bs cc; iv_gen_ops := iv_gen_ops cc;
     iv_mode := iv_mode cc; iv_gen_private := iv_gen_private cc;
     iv_offset := iv_offset cc; iv_size := iv_size cc; cipher := cipher cc;
     chainmode := chainmode cc; cr_dm := cr_dm cc;
     ocf_cryptoid := ocf_cryptoid cc; tfm := tfm cc; flags := flags cc;
     key_size := key_size cc; key := key cc; key_alloc := key_alloc cc |}.

Definition with_start (cc : crypt_config) (v : Z) : crypt_config :=
  {| dev := dev cc; start := v; io_pool := io_pool cc;
     page_pool := page_pool cc; bs := bs cc; iv_gen_ops := iv_gen_ops cc;
     iv_mode := iv_mode cc; iv_gen_private := iv_gen_private cc;
     iv_offset := iv_offset cc; iv_size := iv_size cc; cipher := cipher cc;
     chainmode := chainmode cc; cr_dm := cr_dm cc;
     ocf_cryptoid := ocf_cryptoid cc; tfm := tfm cc; flags := flags cc;
     key_size := key_size cc; key := key cc; key_alloc := key_alloc cc |}.

Definition with_io_pool (cc : crypt_config) (v : bool) : crypt_config :=
  {| dev := dev cc; start := start cc; io_pool := v;
     page_pool := page_pool cc; bs := bs cc; iv_gen_ops := iv_gen_ops cc;
     iv_mode := iv_mode cc; iv_gen_private := iv_gen_private cc;
     iv_offset := iv_offset cc; iv_size := iv_size cc; cipher := cipher cc;
     chainmode := chainmode cc; cr_dm := cr_dm cc;
     ocf_cryptoid := ocf_cryptoid cc; tfm := tfm cc; flags := flags cc;
     key_size := key_size cc; key := key cc; key_alloc := key_alloc cc |}.

Definition with_page_pool (cc : crypt_config) (v : bool) : crypt_config :=
  {| dev := dev cc; start := start cc; io_pool := io_pool cc;
     page_pool := v; bs := bs cc; iv_gen_ops := iv_gen_ops cc;
     iv_mode := iv_mode cc; iv_gen_private := iv_gen_private cc;
     iv_offset := iv_offset cc; iv_size := iv_size cc; cipher := cipher cc;
     chainmode := chainmode cc; cr_dm := cr_dm cc;
     ocf_cryptoid := ocf_cryptoid cc; tfm := tfm cc; flags := flags cc;
     key_size := key_size cc; key := key cc; key_alloc := key_alloc cc |}.

Definition with_bs (cc : crypt_config) (v : bool) : crypt_config :=
  {| dev := dev cc; start := start cc; io_pool := io_pool cc;
     page_pool := page_pool cc; bs := v; iv_gen_ops := iv_gen_ops cc;
     iv_mode := iv_mode cc; iv_gen_private := iv_gen_private cc;
     iv_offset := iv_offset cc; iv_size := iv_size cc; cipher := cipher cc;
     chainmode := chainmode cc; cr_dm := cr_dm cc;
     ocf_cryptoid := ocf_cryptoid cc; tfm := tfm cc; flags := flags cc;
     key_size := key_size cc; key := key cc; key_alloc := key_alloc cc |}.

Definition with_iv_gen_ops (cc : crypt_config) (v : option crypt_iv_operations)
    : crypt_config :=
  {| dev := dev cc; start := start cc; io_pool := io_pool cc;
     page_pool := page_pool cc; bs := bs cc; iv_gen_ops := v;
     iv_mode := iv_mode cc; iv_gen_private := iv_gen_private cc;
     iv_offset := iv_offset cc; iv_size := iv_size cc; cipher := cipher cc;
     chainmode := chainmode cc; cr_dm := cr_dm cc;
     ocf_cryptoid := ocf_cryptoid cc; tfm := tfm cc; flags := flags cc;
     key_size := key_size cc; key := key cc; key_alloc := key_alloc cc |}.

Definition with_iv_mode (cc : crypt_config) (v : option string) : crypt_config :=
  {| dev := dev cc; start := start cc; io_pool := io_pool cc;
     page_pool := page_pool cc; bs := bs cc; iv_gen_ops := iv_gen_ops cc;
     iv_mode := v; iv_gen_private := iv_gen_private cc;
     iv_offset := iv_offset cc; iv_size := iv_size cc; cipher := cipher cc;
     chainmode := chainmode cc; cr_dm := cr_dm cc;
     ocf_cryptoid := ocf_cryptoid cc; tfm := tfm cc; flags := flags cc;
     key_size := key_size cc; key := key cc; key_alloc := key_alloc cc |}.

Definition with_iv_gen_private (cc : crypt_config) (v : iv_gen_private_t)
    : crypt_config :=
  {| dev := dev cc; start := start cc; io_pool := io_pool cc;
     page_pool := page_pool cc; bs := bs cc; iv_gen_ops := iv_gen_ops cc;
     iv_mode := iv_mode cc; iv_gen_private := v; iv_offset := iv_offset cc;
     iv_size := iv_size cc; cipher := cipher cc; chainmode := chainmode cc;
     cr_dm := cr_dm cc; ocf_cryptoid := ocf_cryptoid cc; tfm := tfm cc;
     flags := flags cc; key_size := key_size cc; key := key cc;
     key_alloc := key_alloc cc |}.

Definition with_iv_offset (cc : crypt_config) (v : Z) : crypt_config :=
  {| dev := dev cc; start := start cc; io_pool := io_pool cc;
     page_pool := page_pool cc; bs := bs cc; iv_gen_ops := iv_gen_ops cc;
     iv_mode := iv_mode cc; iv_gen_private := iv_gen_private cc;
     iv_offset := v; iv_size := iv_size cc; cipher := cipher cc;
     chainmode := chainmode cc; cr_dm := cr_dm cc;
     ocf_cryptoid := ocf_cryptoid cc; tfm := tfm cc; flags := flags cc;
     key_size := key_size cc; key := key cc; key_alloc := key_alloc cc |}.

Definition with_iv_size (cc : crypt_config) (v : Z) : crypt_config :=
  {| dev := dev cc; start := start cc; io_pool := io_pool cc;
     page_pool := page_pool cc; bs := bs cc; iv_gen_ops := iv_gen_ops cc;
     iv_mode := iv_mode cc; iv_gen_private := iv_gen_private cc;
     iv_offset := iv_offset cc; iv_size := v; cipher := cipher cc;
     chainmode := chainmode cc; cr_dm := cr_dm cc;
     ocf_cryptoid := ocf_cryptoid cc; tfm := tfm cc; flags := flags cc;
     key_size := key_size cc; key := key cc; key_alloc := key_alloc cc |}.

Definition with_cipher (cc : crypt_config) (v : string) : crypt_config :=
  {| dev := dev cc; start := start cc; io_pool := io_pool cc;
     page_pool := page_pool cc; bs := bs cc; iv_gen_ops := iv_gen_ops cc;
     iv_mode := iv_mode cc; iv_gen_private := iv_gen_private cc;
     iv_offset := iv_offset cc; iv_size := iv_size cc; cipher := v;
     chainmode := chainmode cc; cr_dm := cr_dm cc;
     ocf_cryptoid := ocf_cryptoid cc; tfm := tfm cc; flags := flags cc;
     key_size := key_size cc; key := key cc; key_alloc := key_alloc cc |}.

Definition with_chainmode (cc : crypt_config) (v : string) : crypt_config :=
  {| dev := dev cc; start := start cc; io_pool := io_pool cc;
     page_pool := page_pool cc; bs := bs cc; iv_gen_ops := iv_gen_ops cc;
     iv_mode := iv_mode cc; iv_gen_private := iv_gen_private cc;
     iv_offset := iv_offset cc; iv_size := iv_size cc; cipher := cipher cc;
     chainmode := v; cr_dm := cr_dm cc; ocf_cryptoid := ocf_cryptoid cc;
     tfm := tfm cc; flags := flags cc; key_size := key_size cc;
     key := key cc; key_alloc := key_alloc cc |}.

Definition with_cr_dm (cc : crypt_config) (v : cryptoini) : crypt_config :=
  {| dev := dev cc; start := start cc; io_pool := io_pool cc;
     page_pool := page_pool cc; bs := bs cc; iv_gen_ops := iv_gen_ops cc;
     iv_mode := iv_mode cc; iv_gen_private := iv_gen_private cc;
     iv_offset := iv_offset cc; iv_size := iv_size cc; cipher := cipher cc;
     chainmode := chainmode cc; cr_dm := v;
     ocf_cryptoid := ocf_cryptoid cc; tfm := tfm cc; flags := flags cc;
     key_size := key_size cc; key := key cc; key_alloc := key_alloc cc |}.

Definition with_ocf_cryptoid (cc : crypt_config) (v : Z) : crypt_config :=
  {| dev := dev cc; start := start cc; io_pool := io_pool cc;
     page_pool := page_pool cc; bs := bs cc; iv_gen_ops := iv_gen_ops cc;
     iv_mode := iv_mode cc; iv_gen_private := iv_gen_private cc;
     iv_offset := iv_offset cc; iv_size := iv_size cc; cipher := cipher cc;
     chainmode := chainmode cc; cr_dm := cr_dm cc; ocf_cryptoid := v;
     tfm := tfm cc; flags := flags cc; key_size := key_size cc;
     key := key cc; key_alloc := key_alloc cc |}.

Definition with_tfm (cc : crypt_config) (v : option crypto_blkcipher)
    : crypt_config :=
  {| dev := dev cc; start := start cc; io_pool := io_pool cc;
     page_pool := page_pool cc; bs := bs cc; iv_gen_ops := iv_gen_ops cc;
     iv_mode := iv_mode cc; iv_gen_private := iv_gen_private cc;
     iv_offset := iv_offset cc; iv_size := iv_size cc; cipher := cipher cc;
     chainmode := chainmode cc; cr_dm := cr_dm cc;
     ocf_cryptoid := ocf_cryptoid cc; tfm := v; flags := flags cc;
     key_size := key_size cc; key := key cc; key_alloc := key_alloc cc |}.

Definition with_flags (cc : crypt_config) (v : Z) : crypt_config :=
  {| dev := dev cc; start := start cc; io_pool := io_pool cc;
     page_pool := page_pool cc; bs := bs cc; iv_gen_ops := iv_gen_ops cc;
     iv_mode := iv_mode cc; iv_gen_private := iv_gen_private cc;
     iv_offset := iv_offset cc; iv_size := iv_size cc; cipher := cipher cc;
     chainmode := chainmode cc; cr_dm := cr_dm cc;
     ocf_cryptoid := ocf_cryptoid cc; tfm := tfm cc; flags := v;
     key_size := key_size cc; key := key cc; key_alloc := key_alloc cc |}.

Definition with_key_size (cc : crypt_config) (v : Z) : crypt_config :=
  {| dev := dev cc; start := start cc; io_pool := io_pool cc;
     page_pool := page_pool cc; bs := bs cc; iv_gen_ops := iv_gen_ops cc;
     iv_mode := iv_mode cc; iv_gen_private := iv_gen_private cc;
     iv_offset := iv_offset cc; iv_size := iv_size cc; cipher := cipher cc;
     chainmode := chainmode cc; cr_dm := cr_dm cc;
     ocf_cryptoid := ocf_cryptoid cc; tfm := tfm cc; flags := flags cc;
     key_size := v; key := key cc; key_alloc := key_alloc cc |}.

Definition with_key (cc : crypt_config) (v : nat -> Z) : crypt_config :=
  {| dev := dev cc; start := start cc; io_pool := io_pool cc;
     page_pool := page_pool cc; bs := bs cc; iv_gen_ops := iv_gen_ops cc;
     iv_mode := iv_mode cc; iv_gen_private := iv_gen_private cc;
     iv_offset := iv_offset cc; iv_size := iv_size cc; cipher := cipher cc;
     chainmode := chainmode cc; cr_dm := cr_dm cc;
     ocf_cryptoid := ocf_cryptoid cc; tfm := tfm cc; flags := flags cc;
     key_size := key_size cc; key := v; key_alloc := key_alloc cc |}.

(** ** The conversion context *)

(** [struct convert_context]. *)
Record convert_context := {
  bio_in : option bio;
  bio_out : option bio;
  offset_in : Z;
  offset_out : Z;
  idx_in : Z;
  idx_out : Z;
  sector : Z;
  write : Z
}.

(** ** Per-bio private data *)

(** [struct crypt_io]. *)
Record crypt_io := {
  target : dm_target;
  base_bio : bio;
  pending : Z;
  error : Z;
  post_process : Z
}.

(** What [dec_pending] does to the world outside the [crypt_io]. *)
Inductive io_event :=
| copy_back (to_page from_page offset length : Z)
| mempool_free_page (page : Z)
| bio_put (b : bio)
| bio_endio (b : bio) (err : Z)
| mempool_free_io.

(** Modelled from the spec: [atomic_dec_and_test] (asm/atomic.h) is not
    under src.  The new counter and whether it is zero. *)
Definition atomic_dec_and_test (v : Z) : Z * bool :=
  let v' := wrap_int (v - 1) in (v', v' =? 0).

(** The copy-back loop of [dec_pending] over the segments of the original
    bio, [tovec] from the original and [fromvec] from the bounced bio. *)
Fixpoint bounce_copy_back (tovecs fromvecs : list bio_vec) : list io_event :=
  match tovecs, fromvecs with
  | tovec :: ts, fromvec :: fs =>
      if bv_page tovec =? bv_page fromvec then bounce_copy_back ts fs
      else copy_back (bv_page tovec) (bv_page fromvec)
                     (bv_offset tovec) (bv_len tovec)
           :: bounce_copy_back ts fs
  | _, _ => []
  end.

(** The loop that frees the bounced pages. *)
Fixpoint bounce_free (fromvecs tovecs : list bio_vec) : list io_event :=
  match fromvecs, tovecs with
  | fromvec :: fs, tovec :: ts =>
      if bv_page tovec =? bv_page fromvec then bounce_free fs ts
      else mempool_free_page (bv_page fromvec) :: bounce_free fs ts
  | _, _ => []
  end.

(** [dec_pending(io, error)]: the [crypt_io] afterwards and what happened
    outside it, in order.  [highmem] is [CONFIG_HIGHMEM]; [None] is the
    NULL dereference of a bounced bio without [bi_private]. *)
Definition dec_pending (highmem : bool) (io : crypt_io) (err : Z)
    : option (crypt_io * list io_event) :=
  let b := base_bio io in
  let io1 :=
    if err <? 0
    then {| target := target io; base_bio := base_bio io;
            pending := pending io; error := err;
            post_process := post_process io |}
    else io in
  let (p, last) := atomic_dec_and_test (pending io1) in
  let io2 := {| target := target io1; base_bio := base_bio io1;
                pending := p; error := error io1;
                post_process := post_process io1 |} in
  if negb last then Some (io2, [])
  else if highmem && bio_flagged b BIO_BOUNCED then
    match bi_private b with
    | None => None
    | Some origbio =>
        Some (io2,
          (if bio_data_dir b =? READ
           then bounce_copy_back
                  (firstn (Z.to_nat (bi_vcnt origbio)) (bi_io_vec origbio))
                  (bi_io_vec b)
           else [])
          ++ bounce_free (firstn (Z.to_nat (bi_vcnt b)) (bi_io_vec b))
                         (bi_io_vec origbio)
          ++ [bio_put b; bio_endio origbio (error io2); mempool_free_io])
    end
  else Some (io2, [bio_endio b (error io2); mempool_free_io]).

(** ** What construction asks of the kernel *)

(** Allocation functions answer with the handle's relevant size or with a
    negative error ([IS_ERR] / [PTR_ERR]); the others with their return
    value.  [heap_behind] is the memory that follows the configuration's
    allocation. *)
Record ctr_env := {
  kzalloc_fails : bool;
  heap_behind : nat -> Z;
  crypto_alloc_blkcipher : string -> crypto_blkcipher + Z;
  crypto_blkcipher_setkey : crypto_blkcipher -> list Z -> Z;
  crypto_newsession : cryptoini -> list Z -> Z * Z;
  crypto_alloc_hash : string -> Z + Z;
  kmalloc_salt_fails : bool;
  crypto_hash_digest : string -> list Z -> Z * list Z;
  crypto_alloc_cipher : string -> Z + Z;
  crypto_cipher_setkey : string -> list Z -> Z;
  mempool_create_slab_pool_fails : bool;
  mempool_create_page_pool_fails : bool;
  bioset_create_fails : bool;
  dm_get_device : string -> Z;
  kmalloc_iv_mode_fails : bool
}.

(** ** IV generators *)

(** [crypt_iv_plain_gen]. *)
Definition crypt_iv_plain_gen (cc : crypt_config) (iv : list Z) (sect : Z)
    : option (Z * list Z) :=
  match memset iv 0 (iv_size cc) with
  | None => None
  | Some iv1 =>
      match store_bytes iv1 0 (cpu_to_le32 (Z.land sect 4294967295)) with
      | None => None
      | Some iv2 => Some (0, iv2)
      end
  end.

(** [crypt_iv_essiv_ctr]: the result, the configuration and [ti->error].
    [ocf] is [CONFIG_OCF_DM_CRYPT]; [None] is a NULL [cc->tfm]. *)
Definition crypt_iv_essiv_ctr (ocf : bool) (env : ctr_env) (cc : crypt_config)
    (opts : option string) : option (Z * crypt_config * option string) :=
  match opts with
  | None =>
      Some (- EINVAL, cc, Some "Digest algorithm missing for ESSIV mode"%string)
  | Some hash =>
      match crypto_alloc_hash env hash with
      | inr e => Some (e, cc, Some "Error initializing ESSIV hash"%string)
      | inl saltsize =>
          if kmalloc_salt_fails env
          then Some (- ENOMEM, cc,
                     Some "Error kmallocing salt storage in ESSIV"%string)
          else
            let (err, salt) :=
              crypto_hash_digest env hash
                (map (key cc) (seq 0 (Z.to_nat (key_size cc)))) in
            if negb (err =? 0)
            then Some (err, cc, Some "Error calculating hash in ESSIV"%string)
            else
              match crypto_alloc_cipher env (cipher cc) with
              | inr e =>
                  Some (e, cc,
                        Some "Error allocating crypto tfm for ESSIV"%string)
              | inl blocksize =>
                  match (if ocf then Some (iv_size cc)
                         else match tfm cc with
                              | Some t => Some (blk_ivsize t)
                              | None => None
                              end) with
                  | None => None
                  | Some ivsize =>
                      if negb (blocksize =? ivsize)
                      then Some (- EINVAL, cc,
                                 Some ("Block size of ESSIV cipher does "
                                       ++ "not match IV size of block cipher")%string)
                      else
                        let err := crypto_cipher_setkey env (cipher cc)
                                     (firstn (Z.to_nat saltsize) salt) in
                        if negb (err =? 0)
                        then Some (err, cc,
                                   Some "Failed to set key for ESSIV cipher"%string)
                        else
                          Some (0,
                            with_iv_gen_private cc
                              (essiv_tfm
                                 {| cipher_alg := cipher cc;
                                    cipher_blocksize := blocksize;
                                    cipher_key :=
                                      firstn (Z.to_nat saltsize) salt |}),
                            None)
                  end
              end
      end
  end.

(** [crypt_iv_essiv_dtr]. *)
Definition crypt_iv_essiv_dtr (cc : crypt_config) : crypt_config :=
  with_iv_gen_private cc private_zero.

(** [crypt_iv_essiv_gen]; [encrypt_one] is [crypto_cipher_encrypt_one],
    which turns one block of the cipher's block size into another. *)
Definition crypt_iv_essiv_gen
    (encrypt_one : crypto_cipher -> list Z -> list Z)
    (cc : crypt_config) (iv : list Z) (sect : Z) : option (Z * list Z) :=
  match memset iv 0 (iv_size cc) with
  | None => None
  | Some iv1 =>
      match store_bytes iv1 0 (cpu_to_le64 sect) with
      | None => None
      | Some iv2 =>
          match iv_gen_private cc with
          | essiv_tfm t =>
              let n := Z.to_nat (cipher_blocksize t) in
              match store_bytes iv2 0 (firstn n (encrypt_one t (firstn n iv2))) with
              | None => None
              | Some iv3 => Some (0, iv3)
              end
          | _ => None
          end
      end
  end.

(** Modelled from the spec: [ilog2] (linux/log2.h) is not under src: the
    position of the highest set bit, and -1 for 0. *)
Definition ilog2 (n : Z) : Z := if n =? 0 then -1 else Z.log2 n.

(** [crypt_iv_benbi_ctr]: the result, the configuration and [ti->error].
    [None] stands for a NULL [cc->tfm] or a shift by a negative count. *)
Definition crypt_iv_benbi_ctr (cc : crypt_config)
    : option (Z * crypt_config * option string) :=
  match tfm cc with
  | None => None
  | Some t =>
      let bsz := blk_blocksize t in
      let log := ilog2 bsz in
      if log <? 0 then None
      else if negb (wrap32 (Z.shiftl 1 log) =? bsz)
      then Some (- EINVAL, cc, Some "cypher blocksize is not a power of 2"%string)
      else if 9 <? log
      then Some (- EINVAL, cc, Some "cypher blocksize is > 512"%string)
      else Some (0, with_iv_gen_private cc (benbi_shift (9 - log)), None)
  end.

(** [crypt_iv_benbi_dtr]. *)
Definition crypt_iv_benbi_dtr (cc : crypt_config) : crypt_config := cc.

(** The [int benbi_shift] member of the union; an [essiv_tfm] pointer read
    through it is not given a value here. *)
Definition read_benbi_shift (p : iv_gen_private_t) : option Z :=
  match p with
  | benbi_shift s => Some s
  | private_zero => Some 0
  | essiv_tfm _ => None
  end.

(** [crypt_iv_benbi_gen]. *)
Definition crypt_iv_benbi_gen (cc : crypt_config) (iv : list Z) (sect : Z)
    : option (Z * list Z) :=
  match memset iv 0 (iv_size cc - 8) with
  | None => None
  | Some iv1 =>
      match read_benbi_shift (iv_gen_private cc) with
      | None => None
      | Some s =>
          if (s <? 0) || (64 <=? s) then None
          else
            let val := cpu_to_be64 (wrap64 (wrap64 (Z.shiftl sect s) + 1)) in
            match store_bytes iv1 (iv_size cc - 8) val with
            | None => None
            | Some iv2 => Some (0, iv2)
            end
      end
  end.

(** [crypt_iv_null_gen]. *)
Definition crypt_iv_null_gen (cc : crypt_config) (iv : list Z) (sect : Z)
    : option (Z * list Z) :=
  match memset iv 0 (iv_size cc) with
  | None => None
  | Some iv1 => Some (0, iv1)
  end.

(** The [.ctr] and [.dtr] members of each operations table; [None] is a
    NULL member. *)
Definition ops_ctr (ocf : bool) (env : ctr_env) (ops : crypt_iv_operations)
    : option (crypt_config -> option string
              -> option (Z * crypt_config * option string)) :=
  match ops with
  | crypt_iv_plain_ops => None
  | crypt_iv_essiv_ops => Some (crypt_iv_essiv_ctr ocf env)
  | crypt_iv_benbi_ops => Some (fun cc _ => crypt_iv_benbi_ctr cc)
  | crypt_iv_null_ops => None
  end.

Definition ops_dtr (ops : crypt_iv_operations)
    : option (crypt_config -> crypt_config) :=
  match ops with
  | crypt_iv_plain_ops => None
  | crypt_iv_essiv_ops => Some crypt_iv_essiv_dtr
  | crypt_iv_benbi_ops => Some crypt_iv_benbi_dtr
  | crypt_iv_null_ops => None
  end.

(** The [.generator] member of each operations table. *)
Definition generator (encrypt_one : crypto_cipher -> list Z -> list Z)
    (ops : crypt_iv_operations)
    : crypt_config -> list Z -> Z -> option (Z * list Z) :=
  match ops with
  | crypt_iv_plain_ops => crypt_iv_plain_gen
  | crypt_iv_essiv_ops => crypt_iv_essiv_gen encrypt_one
  | crypt_iv_benbi_ops => crypt_iv_benbi_gen
  | crypt_iv_null_ops => crypt_iv_null_gen
  end.

(** The array [u8 iv[cc->iv_size]]; its contents are indeterminate in C,
    and every generator overwrites all of it. *)
Definition iv_buffer (cc : crypt_config) : list Z :=
  repeat 0 (Z.to_nat (iv_size cc)).

(** ** The OCF offload backend ([CONFIG_OCF_DM_CRYPT]) *)

(** Modelled from the spec: the flag values and [EALG_MAX_BLOCK_LEN] of
    crypto/ocf/cryptodev.h are not under src. *)
Definition CRD_F_ENCRYPT : Z := 1.
Definition CRD_F_IV_PRESENT : Z := 2.
Definition CRD_F_IV_EXPLICIT : Z := 4.
Definition CRYPTO_F_BATCH : Z := 8.
Definition CRYPTO_F_CBIMM : Z := 16.
Definition EALG_MAX_BLOCK_LEN : Z := 16.

(** The two completion callbacks a request can carry. *)
Inductive crp_callback_t :=
| dm_ocf_wr_cb_fn
| dm_ocf_rd_cb_fn.

(** What [crp_opaque] points to: nothing, the [crypt_io] of the request,
    or the private structure of the write conversion. *)
Inductive crp_opaque_t :=
| opaque_NULL
| opaque_io
| opaque_wr_priv.

(** Modelled from the spec: [struct cryptodesc] (crypto/ocf/cryptodev.h)
    is not under src; [crd_key] always designates [cc->key]. *)
Record cryptodesc := {
  crd_flags : Z;
  crd_alg : Z;
  crd_skip : Z;
  crd_len : Z;
  crd_inject : Z;
  crd_klen : Z;
  crd_iv : list Z
}.

(** Modelled from the spec: [struct cryptop] (crypto/ocf/cryptodev.h) is
    not under src. *)
Record cryptop := {
  crp_ilen : Z;
  crp_flags : Z;
  crp_buf : Z;
  crp_opaque : crp_opaque_t;
  crp_callback : crp_callback_t;
  crp_sid : Z;
  crp_desc : cryptodesc
}.

(** [struct ocf_wr_priv], without its wait queue. *)
Record ocf_wr_priv := {
  dm_ocf_wr_completed : Z;
  dm_ocf_wr_pending : Z
}.

(** Messages of the [printk] calls that matter below. *)
Inductive ocf_message :=
| msg_only_cbc
| msg_getreq_failed
| msg_iv_too_big
| msg_out_of_memory
| msg_scatterlist_failed
| msg_wr_not_finished (timeout pending completed : Z).

(** The state the offload path works on: kernel memory by address, the
    global request counter, the requests the engine has accepted and not
    yet completed, every accepted request with the contents its buffer had
    when it was handed over, the private structure of the write conversion
    under way, the request's [crypt_io] with what [dec_pending] did
    outside it, the log, and the number of [crypto_getreq] calls. *)
Record ocf_world := {
  mem : Z -> Z;
  _crypt_requests : Z;
  inflight : list cryptop;
  dispatched : list (cryptop * list Z);
  wr_priv : option ocf_wr_priv;
  the_io : crypt_io;
  io_events : list io_event;
  klog : list ocf_message;
  getreq_calls : nat
}.

(** What the offload path asks of the rest of the kernel: the address of a
    page, the single-block cipher of essiv, which [crypto_getreq] and
    [kmalloc] calls fail, how often [crypto_dispatch] refuses each request
    before it accepts it, and how many of the outstanding completions
    arrive before the 30 seconds of the write barrier are over. *)
Record ocf_env := {
  CONFIG_HIGHMEM : bool;
  page_address : Z -> Z;
  ocf_encrypt_one : crypto_cipher -> list Z -> list Z;
  crypto_getreq_fails : nat -> bool;
  crypto_dispatch_refusals : nat -> nat;
  kmalloc_wr_priv_fails : bool;
  completions_in_time : nat
}.

(** Modelled from the spec: [sg_virt] (linux/scatterlist.h) is not under
    src. *)
Definition sg_virt (env : ocf_env) (sg : scatterlist) : Z :=
  page_address env (sg_page sg) + sg_offset sg.

(** The [n] bytes at [addr]. *)
Definition read_bytes (m : Z -> Z) (addr : Z) (n : Z) : list Z :=
  map (fun i => m (addr + Z.of_nat i)) (seq 0 (Z.to_nat n)).

(** Modelled from the spec: [memcpy] (lib/string.c) is not under src.
    [memcpy(dst, src, n)], for ranges that are disjoint (its contract). *)
Definition memcpy (m : Z -> Z) (dst src n : Z) : Z -> Z :=
  fun a => if (dst <=? a) && (a <? dst + n) then m (src + (a - dst)) else m a.

(** Assignments to single members of the world. *)
Definition set_mem (w : ocf_world) (m : Z -> Z) : ocf_world :=
  {| mem := m; _crypt_requests := _crypt_requests w; inflight := inflight w;
     dispatched := dispatched w; wr_priv := wr_priv w; the_io := the_io w;
     io_events := io_events w; klog := klog w;
     getreq_calls := getreq_calls w |}.

Definition set_wr_priv (w : ocf_world) (p : option ocf_wr_priv) : ocf_world :=
  {| mem := mem w; _crypt_requests := _crypt_requests w;
     inflight := inflight w; dispatched := dispatched w; wr_priv := p;
     the_io := the_io w; io_events := io_events w; klog := klog w;
     getreq_calls := getreq_calls w |}.

(** A message to the log. *)
Definition printk (w : ocf_world) (m : ocf_message) : ocf_world :=
  {| mem := mem w; _crypt_requests := _crypt_requests w;
     inflight := inflight w; dispatched := dispatched w;
     wr_priv := wr_priv w; the_io := the_io w; io_events := io_events w;
     klog := klog w ++ [m]; getreq_calls := getreq_calls w |}.

(** The end of both callbacks: one request less under [_crypt_lock]. *)
Definition crypt_requests_dec (w : ocf_world) : ocf_world :=
  {| mem := mem w;
     _crypt_requests := if 0 <? _crypt_requests w
                        then _crypt_requests w - 1 else _crypt_requests w;
     inflight := inflight w; dispatched := dispatched w;
     wr_priv := wr_priv w; the_io := the_io w; io_events := io_events w;
     klog := klog w; getreq_calls := getreq_calls w |}.

(** [dm_ocf_wr_cb(crp)] for a request that is there; [None] when the
    private structure is gone. *)
Definition dm_ocf_wr_cb (w : ocf_world) (crp : cryptop) : option ocf_world :=
  match wr_priv w with
  | None => None
  | Some p =>
      let p' := {| dm_ocf_wr_completed := wrap32 (dm_ocf_wr_completed p + 1);
                   dm_ocf_wr_pending := dm_ocf_wr_pending p |} in
      Some (crypt_requests_dec (set_wr_priv w (Some p')))
  end.

(** [dm_ocf_rd_cb(crp)] for a request that is there. *)
Definition dm_ocf_rd_cb (env : ocf_env) (w : ocf_world) (crp : cryptop)
    : option ocf_world :=
  match crp_opaque crp with
  | opaque_NULL => Some (crypt_requests_dec w)
  | _ =>
      match dec_pending (CONFIG_HIGHMEM env) (the_io w) 0 with
      | None => None
      | Some (io', evs) =>
          Some (crypt_requests_dec
                  {| mem := mem w; _crypt_requests := _crypt_requests w;
                     inflight := inflight w; dispatched := dispatched w;
                     wr_priv := wr_priv w; the_io := io';
                     io_events := io_events w ++ evs; klog := klog w;
                     getreq_calls := getreq_calls w |})
      end
  end.

(** The engine completes the oldest outstanding request and runs its
    callback; [None] when nothing is outstanding (the waiter sleeps for
    good) or the callback faults. *)
Definition complete_one (env : ocf_env) (w : ocf_world) : option ocf_world :=
  match inflight w with
  | [] => None
  | crp :: rest =>
      let w1 := {| mem := mem w; _crypt_requests := _crypt_requests w;
                   inflight := rest; dispatched := dispatched w;
                   wr_priv := wr_priv w; the_io := the_io w;
                   io_events := io_events w; klog := klog w;
                   getreq_calls := getreq_calls w |} in
      match crp_callback crp with
      | dm_ocf_wr_cb_fn => dm_ocf_wr_cb w1 crp
      | dm_ocf_rd_cb_fn => dm_ocf_rd_cb env w1 crp
      end
  end.

(** The loop around [crypto_dispatch] in [dm_ocf_process], for a request
    the engine refuses [refusals] times: after a refusal the caller yields
    when no request is counted, and otherwise sleeps until the counter has
    gone down, that is until a callback has run. *)
Fixpoint dispatch_loop (env : ocf_env) (refusals : nat) (w : ocf_world)
    (crp : cryptop) : option ocf_world :=
  match refusals with
  | O =>
      Some {| mem := mem w;
              _crypt_requests := wrap32 (_crypt_requests w + 1);
              inflight := inflight w ++ [crp];
              dispatched :=
                dispatched w
                ++ [(crp, read_bytes (mem w) (crp_buf crp) (crp_ilen crp))];
              wr_priv := wr_priv w; the_io := the_io w;
              io_events := io_events w; klog := klog w;
              getreq_calls := getreq_calls w |}
  | S refusals' =>
      if _crypt_requests w =? 0 then dispatch_loop env refusals' w crp
      else
        match complete_one env w with
        | None => None
        | Some w' => dispatch_loop env refusals' w' crp
        end
  end.

(** [dm_ocf_process]; [iv] is [None] for the NULL pointer. *)
Definition dm_ocf_process (env : ocf_env) (cc : crypt_config)
    (out inp : scatterlist) (length : Z) (iv : option (list Z)) (ivsize : Z)
    (wr : Z) (priv : crp_opaque_t) (w : ocf_world)
    : option (Z * ocf_world) :=
  match iv with
  | None => Some (- EPERM, printk w msg_only_cbc)
  | Some ivb =>
      let n := getreq_calls w in
      let w := {| mem := mem w; _crypt_requests := _crypt_requests w;
                  inflight := inflight w; dispatched := dispatched w;
                  wr_priv := wr_priv w; the_io := the_io w;
                  io_events := io_events w; klog := klog w;
                  getreq_calls := S n |} in
      if crypto_getreq_fails env n
      then Some (- ENOMEM, printk w msg_getreq_failed)
      else
        let crda :=
          {| crd_flags :=
               Z.lor (if negb (wr =? 0) then CRD_F_ENCRYPT else 0)
                     (Z.lor CRD_F_IV_EXPLICIT CRD_F_IV_PRESENT);
             crd_alg := cri_alg (cr_dm cc);
             crd_skip := 0;
             crd_len := length;
             crd_inject := 0;
             crd_klen := cri_klen (cr_dm cc);
             crd_iv := firstn (Z.to_nat ivsize) ivb |} in
        let w := if EALG_MAX_BLOCK_LEN <? ivsize
                 then printk w msg_iv_too_big else w in
        let w := if negb (sg_virt env out =? sg_virt env inp)
                 then set_mem w (memcpy (mem w) (sg_virt env out)
                                        (sg_virt env inp) length)
                 else w in
        let crp :=
          {| crp_ilen := length;
             crp_flags := Z.lor CRYPTO_F_CBIMM CRYPTO_F_BATCH;
             crp_buf := sg_virt env out;
             crp_opaque := priv;
             crp_callback := if negb (wr =? 0) then dm_ocf_wr_cb_fn
                             else dm_ocf_rd_cb_fn;
             crp_sid := ocf_cryptoid cc;
             crp_desc := crda |} in
        match dispatch_loop env (crypto_dispatch_refusals env n) w crp with
        | None => None
        | Some w' => Some (0, w')
        end
  end.

(** [ocf_crypt_convert_scatterlist]. *)
Definition ocf_crypt_convert_scatterlist (env : ocf_env) (cc : crypt_config)
    (out inp : scatterlist) (length : Z) (wr : Z) (sect : Z)
    (priv : crp_opaque_t) (w : ocf_world) : option (Z * ocf_world) :=
  match iv_gen_ops cc with
  | Some ops =>
      match generator (ocf_encrypt_one env) ops cc (iv_buffer cc) sect with
      | None => None
      | Some (r, iv) =>
          if r <? 0 then Some (r, w)
          else dm_ocf_process env cc out inp length (Some iv) (iv_size cc)
                 wr priv w
      end
  | None => dm_ocf_process env cc out inp length None 0 wr priv w
  end.

(** The loop of [ocf_crypt_convert], with [r], [num] and [priv] as they
    stand and [fuel] bounding the number of rounds; the cursor statements
    are those of [crypt_convert].  [None] is a fault as there, a request
    that is never accepted, or fuel used up. *)
Fixpoint ocf_crypt_convert_loop (fuel : nat) (env : ocf_env)
    (cc : crypt_config) (ctx : convert_context) (r num : Z)
    (priv : crp_opaque_t) (w : ocf_world)
    : option (Z * convert_context * Z * ocf_world) :=
  match fuel with
  | O => None
  | S fuel' =>
      match bio_in ctx, bio_out ctx with
      | Some bin, Some bout =>
          if (idx_in ctx <? bi_vcnt bin) && (idx_out ctx <? bi_vcnt bout) then
            match nth_error (bi_io_vec bin) (Z.to_nat (idx_in ctx)),
                  nth_error (bi_io_vec bout) (Z.to_nat (idx_out ctx)) with
            | Some bv_in, Some bv_out =>
                let sg_in :=
                  {| sg_page := bv_page bv_in;
                     sg_length := Z.shiftl 1 SECTOR_SHIFT;
                     sg_offset := wrap32 (bv_offset bv_in + offset_in ctx) |} in
                let sg_out :=
                  {| sg_page := bv_page bv_out;
                     sg_length := Z.shiftl 1 SECTOR_SHIFT;
                     sg_offset := wrap32 (bv_offset bv_out + offset_out ctx) |} in
                let off_in := wrap32 (offset_in ctx + sg_length sg_in) in
                let in_done := bv_len bv_in <=? off_in in
                let off_out := wrap32 (offset_out ctx + sg_length sg_out) in
                let out_done := bv_len bv_out <=? off_out in
                let ctx1 :=
                  {| bio_in := bio_in ctx;
                     bio_out := bio_out ctx;
                     offset_in := if in_done then 0 else off_in;
                     offset_out := if out_done then 0 else off_out;
                     idx_in := if in_done then wrap32 (idx_in ctx + 1)
                               else idx_in ctx;
                     idx_out := if out_done then wrap32 (idx_out ctx + 1)
                                else idx_out ctx;
                     sector := sector ctx;
                     write := write ctx |} in
                let num1 := if negb (write ctx1 =? 0) then wrap_int (num + 1)
                            else num in
                (* the last read of the context carries the io *)
                let priv1 :=
                  if negb (write ctx1 =? 0) then priv
                  else if negb ((idx_in ctx1 <? bi_vcnt bin)
                                && (idx_out ctx1 <? bi_vcnt bout))
                  then opaque_io else priv in
                match ocf_crypt_convert_scatterlist env cc sg_out sg_in
                        (sg_length sg_in) (write ctx1) (sector ctx1)
                        priv1 w with
                | None => None
                | Some (r', w') =>
                    if r' <? 0
                    then Some (r', ctx1, num1,
                               printk w' msg_scatterlist_failed)
                    else
                      ocf_crypt_convert_loop fuel' env cc
                        {| bio_in := bio_in ctx1;
                           bio_out := bio_out ctx1;
                           offset_in := offset_in ctx1;
                           offset_out := offset_out ctx1;
                           idx_in := idx_in ctx1;
                           idx_out := idx_out ctx1;
                           sector := wrap64 (sector ctx1 + 1);
                           write := write ctx1 |}
                        r' num1 priv1 w'
                end
            | _, _ => None
            end
          else Some (r, ctx, num, w)
      | _, _ => None
      end
  end.

(** [wait_event_timeout] on the private queue of a write conversion: the
    waiter goes on as soon as [pending == completed]; until then the
    completions that arrive in time, at most [n], run their callbacks. *)
Fixpoint wr_barrier (env : ocf_env) (n : nat) (w : ocf_world)
    : option ocf_world :=
  match wr_priv w with
  | None => None
  | Some p =>
      if dm_ocf_wr_pending p =? dm_ocf_wr_completed p then Some w
      else
        match n with
        | O => Some w
        | S n' =>
            match inflight w with
            | [] => Some w
            | _ :: _ =>
                match complete_one env w with
                | None => None
                | Some w' => wr_barrier env n' w'
                end
            end
        end
  end.

(** [ocf_crypt_convert(cc, ctx, io)], with [io] the [crypt_io] of the
    world: the result, the context and the world afterwards. *)
Definition ocf_crypt_convert (fuel : nat) (env : ocf_env) (cc : crypt_config)
    (ctx : convert_context) (w : ocf_world)
    : option (Z * convert_context * ocf_world) :=
  let wr_timeout := 30000 in
  if negb (write ctx =? 0) then
    if kmalloc_wr_priv_fails env
    then Some (- ENOMEM, ctx, printk w msg_out_of_memory)
    else
      let w := set_wr_priv w (Some {| dm_ocf_wr_completed := 0;
                                      dm_ocf_wr_pending := 0 |}) in
      match ocf_crypt_convert_loop fuel env cc ctx 0 0 opaque_wr_priv w with
      | None => None
      | Some (r, ctx', num, w) =>
          match wr_priv w with
          | None => None
          | Some p =>
              let w := set_wr_priv w
                         (Some {| dm_ocf_wr_completed := dm_ocf_wr_completed p;
                                  dm_ocf_wr_pending :=
                                    wrap32 (dm_ocf_wr_pending p + num) |}) in
              match wr_barrier env (completions_in_time env) w with
              | None => None
              | Some w =>
                  match wr_priv w with
                  | None => None
                  | Some p =>
                      let wr_tm := dm_ocf_wr_pending p =? dm_ocf_wr_completed p in
                      let w := if negb wr_tm
                               then printk w (msg_wr_not_finished wr_timeout
                                                (dm_ocf_wr_pending p)
                                                (dm_ocf_wr_completed p))
                               else w in
                      Some (r, ctx', set_wr_priv w None)
                  end
              end
          end
      end
  else
    match ocf_crypt_convert_loop fuel env cc ctx 0 0 opaque_NULL w with
    | None => None
    | Some (r, ctx', num, w) => Some (r, ctx', w)
    end.

(** ** The synchronous cipher *)

(** The four entry points of the block cipher API that
    [crypt_convert_scatterlist] calls. *)
Inductive blkcipher_op :=
| crypto_blkcipher_encrypt_iv
| crypto_blkcipher_decrypt_iv
| crypto_blkcipher_encrypt
| crypto_blkcipher_decrypt.

(** One call into the block cipher API: the entry point, the IV handed
    over in [desc.info] (none for the entry points that take no IV), the
    scatterlists and the byte count. *)
Record blkcipher_call := {
  call_op : blkcipher_op;
  call_iv : option (list Z);
  call_dst : scatterlist;
  call_src : scatterlist;
  call_nbytes : Z
}.

(** The crypto API as the synchronous path sees it: the single-block
    encryption used by essiv, and the result of each block cipher call,
    which may depend on the calls made before it. *)
Record blkcipher_env := {
  crypto_cipher_encrypt_one : crypto_cipher -> list Z -> list Z;
  blkcipher_result : list blkcipher_call -> blkcipher_call -> Z
}.

(** [crypt_convert_scatterlist]: the result and the calls made so far.
    [None] is a fault inside the IV generator. *)
Definition crypt_convert_scatterlist (env : blkcipher_env) (cc : crypt_config)
    (out inp : scatterlist) (length : Z) (wr : Z) (sect : Z)
    (hist : list blkcipher_call) : option (Z * list blkcipher_call) :=
  match iv_gen_ops cc with
  | Some ops =>
      match generator (crypto_cipher_encrypt_one env) ops cc (iv_buffer cc) sect with
      | None => None
      | Some (r, iv) =>
          if r <? 0 then Some (r, hist)
          else
            let call :=
              {| call_op := if negb (wr =? 0) then crypto_blkcipher_encrypt_iv
                            else crypto_blkcipher_decrypt_iv;
                 call_iv := Some iv; call_dst := out; call_src := inp;
                 call_nbytes := length |} in
            Some (blkcipher_result env hist call, hist ++ [call])
      end
  | None =>
      let call :=
        {| call_op := if negb (wr =? 0) then crypto_blkcipher_encrypt
                      else crypto_blkcipher_decrypt;
           call_iv := None; call_dst := out; call_src := inp;
           call_nbytes := length |} in
      Some (blkcipher_result env hist call, hist ++ [call])
  end.

(** [crypt_convert_init]; every member of the context is assigned. *)
Definition crypt_convert_init (cc : crypt_config)
    (bout bin : option bio) (sect : Z) (wr : Z) : convert_context :=
  {| bio_in := bin;
     bio_out := bout;
     offset_in := 0;
     offset_out := 0;
     idx_in := match bin with Some b => bi_idx b | None => 0 end;
     idx_out := match bout with Some b => bi_idx b | None => 0 end;
     sector := wrap64 (sect + iv_offset cc);
     write := wr |}.

(** The loop of [crypt_convert], with [r] the result so far and [fuel]
    bounding the number of rounds.  [None] is a NULL bio, a segment index
    outside the vector, a fault in the IV generator, or fuel used up. *)
Fixpoint crypt_convert_loop (fuel : nat) (env : blkcipher_env)
    (cc : crypt_config) (ctx : convert_context) (r : Z)
    (hist : list blkcipher_call)
    : option (Z * convert_context * list blkcipher_call) :=
  match fuel with
  | O => None
  | S fuel' =>
      match bio_in ctx, bio_out ctx with
      | Some bin, Some bout =>
          if (idx_in ctx <? bi_vcnt bin) && (idx_out ctx <? bi_vcnt bout) then
            match nth_error (bi_io_vec bin) (Z.to_nat (idx_in ctx)),
                  nth_error (bi_io_vec bout) (Z.to_nat (idx_out ctx)) with
            | Some bv_in, Some bv_out =>
                let sg_in :=
                  {| sg_page := bv_page bv_in;
                     sg_length := Z.shiftl 1 SECTOR_SHIFT;
                     sg_offset := wrap32 (bv_offset bv_in + offset_in ctx) |} in
                let sg_out :=
                  {| sg_page := bv_page bv_out;
                     sg_length := Z.shiftl 1 SECTOR_SHIFT;
                     sg_offset := wrap32 (bv_offset bv_out + offset_out ctx) |} in
                let off_in := wrap32 (offset_in ctx + sg_length sg_in) in
                let in_done := bv_len bv_in <=? off_in in
                let off_out := wrap32 (offset_out ctx + sg_length sg_out) in
                let out_done := bv_len bv_out <=? off_out in
                let ctx1 :=
                  {| bio_in := bio_in ctx;
                     bio_out := bio_out ctx;
                     offset_in := if in_done then 0 else off_in;
                     offset_out := if out_done then 0 else off_out;
                     idx_in := if in_done then wrap32 (idx_in ctx + 1)
                               else idx_in ctx;
                     idx_out := if out_done then wrap32 (idx_out ctx + 1)
                                else idx_out ctx;
                     sector := sector ctx;
                     write := write ctx |} in
                match crypt_convert_scatterlist env cc sg_out sg_in
                        (sg_length sg_in) (write ctx1) (sector ctx1) hist with
                | None => None
                | Some (r', hist') =>
                    if r' <? 0 then Some (r', ctx1, hist')
                    else
                      crypt_convert_loop fuel' env cc
                        {| bio_in := bio_in ctx1;
                           bio_out := bio_out ctx1;
                           offset_in := offset_in ctx1;
                           offset_out := offset_out ctx1;
                           idx_in := idx_in ctx1;
                           idx_out := idx_out ctx1;
                           sector := wrap64 (sector ctx1 + 1);
                           write := write ctx1 |}
                        r' hist'
                end
            | _, _ => None
            end
          else Some (r, ctx, hist)
      | _, _ => None
      end
  end.

(** [crypt_convert(cc, ctx)]: the result, the context afterwards and the
    calls into the cipher, those before the conversion included. *)
Definition crypt_convert (fuel : nat) (env : blkcipher_env)
    (cc : crypt_config) (ctx : convert_context)
    (hist : list blkcipher_call)
    : option (Z * convert_context * list blkcipher_call) :=
  crypt_convert_loop fuel env cc ctx 0 hist.

(** ** Key handling *)

(** The loop of [crypt_decode_key], from index [i], with [size - i]
    iterations left and [hex] the characters not yet read.  Two characters
    are moved into [buffer] per round; past the end of [hex] the NUL is
    read, which [simple_strtoul] does not consume. *)
Fixpoint crypt_decode_key_loop (keybuf : nat -> Z) (hex : list ascii)
    (i left : nat) : Z * (nat -> Z) :=
  match left with
  | O =>
      match hex with
      | [] => (0, keybuf)
      | _ :: _ => (- EINVAL, keybuf)
      end
  | S left' =>
      let buffer :=
        match hex with
        | c0 :: c1 :: _ => [c0; c1]
        | [c0] => [c0]
        | [] => []
        end in
      let (v, endp) := simple_strtoul16 buffer in
      let keybuf' := store_byte keybuf i (wrap8 v) in
      if negb (Nat.eqb endp 2) then (- EINVAL, keybuf')
      else crypt_decode_key_loop keybuf' (skipn 2 hex) (S i) left'
  end.

(** [crypt_decode_key(key, hex, size)]: the result and the bytes left in
    [key]. *)
Definition crypt_decode_key (keybuf : nat -> Z) (hex : string) (size : Z)
    : Z * (nat -> Z) :=
  crypt_decode_key_loop keybuf (list_ascii_of_string hex) 0 (Z.to_nat size).

(** [crypt_set_key(cc, key)]. *)
Definition crypt_set_key (cc : crypt_config) (k : string) : Z * crypt_config :=
  let ksize := wrap32 (Z.shiftr (strlen k) 1) in
  if negb (key_size cc =? 0) && negb (key_size cc =? ksize) then (- EINVAL, cc)
  else
    let cc1 := with_key_size cc ksize in
    if (ksize =? 0) && negb (strcmp k "-" =? 0) then (- EINVAL, cc1)
    else if negb (ksize =? 0) then
      let (r, kb) := crypt_decode_key (key cc1) k ksize in
      let cc2 := with_key cc1 kb in
      if r <? 0 then (- EINVAL, cc2)
      else (0, with_flags cc2 (set_bit DM_CRYPT_KEY_VALID (flags cc2)))
    else (0, with_flags cc1 (set_bit DM_CRYPT_KEY_VALID (flags cc1))).

(** [crypt_wipe_key(cc)]. *)
Definition crypt_wipe_key (cc : crypt_config) : Z * crypt_config :=
  let cc1 := with_flags cc (clear_bit DM_CRYPT_KEY_VALID (flags cc)) in
  (0, with_key cc1 (memset_fn (key cc1) 0 (key_size cc1 * 1))).

(** ** Construction *)

(** The outcome of [crypt_ctr]: the return value, [ti->error] and
    [ti->private]. *)
Definition ctr_outcome : Type := Z * option string * option crypt_config.

(** The way out through [bad1] to [bad5]: -EINVAL and a message. *)
Definition ctr_bad (msg : string) : option ctr_outcome :=
  Some (- EINVAL, Some msg, None).

(** The choice of the IV mode in [crypt_ctr]: [Some None] is the NULL
    table, [None] the invalid mode. *)
Definition choose_iv_gen_ops (ocf : bool) (ivmode : option string)
    : option (option crypt_iv_operations) :=
  match ivmode with
  | None => Some None
  | Some m =>
      if strcmp m "plain" =? 0 then Some (Some crypt_iv_plain_ops)
      else if strcmp m "essiv" =? 0 then Some (Some crypt_iv_essiv_ops)
      else if negb ocf && (strcmp m "benbi" =? 0)
      then Some (Some crypt_iv_benbi_ops)
      else if strcmp m "null" =? 0 then Some (Some crypt_iv_null_ops)
      else None
  end.

(** The call of the generator's constructor in [crypt_ctr], when there is
    a generator and it has one: whether to go on ([false] is the jump to
    [bad2] on a negative result), the configuration and [ti->error]. *)
Definition iv_gen_ctr (ocf : bool) (env : ctr_env) (cc : crypt_config)
    (ivopts : option string) : option (bool * crypt_config * option string) :=
  match iv_gen_ops cc with
  | None => Some (true, cc, None)
  | Some o =>
      match ops_ctr ocf env o with
      | None => Some (true, cc, None)
      | Some ctr =>
          match ctr cc ivopts with
          | None => None
          | Some (rc, cc', err) =>
              if rc <? 0 then Some (false, cc', err)
              else Some (true, cc', err)
          end
      end
  end.

(** The second half of [crypt_ctr], from the [snprintf] of the cipher name
    to the end, with the values the first half leaves in its locals:
    [cipher_name], [chain] and [ivmode] after the compatibility defaults,
    [ivopts], the local [key_size] and the remaining arguments. *)
Definition crypt_ctr_setup (ocf : bool) (env : ctr_env) (cc : crypt_config)
    (cipher_name chain : string) (ivmode ivopts : option string)
    (ksize : Z) (arg_iv_offset arg_dev arg_start : string)
    : option ctr_outcome :=
  if CRYPTO_MAX_ALG_NAME <=? strlen chain + strlen cipher_name + 2
  then ctr_bad "Chain mode + cipher name is too long"
  else
    let cc := with_cipher cc (chain ++ "(" ++ cipher_name ++ ")")%string in
    (* the OCF session, or the block cipher *)
    match
      (if ocf then
         let alg :=
           if (strcmp cipher_name "aes" =? 0) && (strcmp chain "cbc" =? 0)
           then Some CRYPTO_AES_CBC
           else if (strcmp cipher_name "des" =? 0) && (strcmp chain "cbc" =? 0)
           then Some CRYPTO_DES_CBC
           else if (strcmp cipher_name "des3_ede" =? 0)
                   && (strcmp chain "cbc" =? 0)
           then Some CRYPTO_3DES_CBC
           else None in
         match alg with
         | None =>
             inr "cryptusing OCF: unknown cipher or bad chain mode"%string
         | Some a =>
             let ini := {| cri_alg := a; cri_klen := wrap32 (key_size cc * 8) |} in
             let cc := with_cr_dm cc ini in
             let (rc, sid) :=
               crypto_newsession env ini
                 (map (key cc) (seq 0 (Z.to_nat (key_size cc)))) in
             if negb (rc =? 0) then inr "cryptcrypto_newsession failed"%string
             else inl (with_ocf_cryptoid cc sid, None)
         end
       else
         match crypto_alloc_blkcipher env (cipher cc) with
         | inr _ => inr "Error allocating crypto tfm"%string
         | inl t => inl (cc, Some t)
         end)
    with
    | inr msg => ctr_bad msg
    | inl (cc, t) =>
        let cc := with_cipher cc cipher_name in
        let cc := with_chainmode cc chain in
        let cc := if ocf then cc else with_tfm cc t in
        match choose_iv_gen_ops ocf ivmode with
        | None => ctr_bad "Invalid IV mode"
        | Some ops =>
            let cc := with_iv_gen_ops cc ops in
            (* the generator's constructor and the IV size, in the order
               of the build at hand *)
            let sized :=
              if ocf then
                iv_gen_ctr ocf env (with_iv_size cc
                           (if cri_alg (cr_dm cc) =? CRYPTO_AES_CBC
                            then 16 else 8)) ivopts
              else
                match iv_gen_ctr ocf env cc ivopts with
                | None => None
                | Some (false, cc, err) => Some (false, cc, err)
                | Some (true, cc, err) =>
                    let ivsz := match t with
                                | Some t' => blk_ivsize t'
                                | None => 0
                                end in
                    if negb (ivsz =? 0)
                    then Some (true, with_iv_size cc (Z.max ivsz 8), err)
                    else
                      let cc := with_iv_size cc 0 in
                      match iv_gen_ops cc with
                      | Some o =>
                          let cc := match ops_dtr o with
                                    | Some dtr => dtr cc
                                    | None => cc
                                    end in
                          Some (true, with_iv_gen_ops cc None, err)
                      | None => Some (true, cc, err)
                      end
                end in
            match sized with
            | None => None
            | Some (false, _, err) => Some (- EINVAL, err, None)
            | Some (true, cc, err) =>
                if mempool_create_slab_pool_fails env
                then ctr_bad "Cannot allocate crypt io mempool"
                else
                let cc := with_io_pool cc true in
                if mempool_create_page_pool_fails env
                then ctr_bad "Cannot allocate page mempool"
                else
                let cc := with_page_pool cc true in
                if bioset_create_fails env
                then ctr_bad "Cannot allocate crypt bioset"
                else
                let cc := with_bs cc true in
                if negb ocf
                   && match t with
                      | Some t' =>
                          crypto_blkcipher_setkey env t'
                            (map (key cc) (seq 0 (Z.to_nat ksize))) <? 0
                      | None => false
                      end
                then ctr_bad "Error setting key"
                else
                match sscanf_llu arg_iv_offset with
                | None => ctr_bad "Invalid iv_offset sector"
                | Some tmpll =>
                    let cc := with_iv_offset cc tmpll in
                    match sscanf_llu arg_start with
                    | None => ctr_bad "Invalid device sector"
                    | Some tmpll =>
                        let cc := with_start cc tmpll in
                        if negb (dm_get_device env arg_dev =? 0)
                        then ctr_bad "Device lookup failed"
                        else
                        let cc := with_dev cc (Some arg_dev) in
                        match ivmode, iv_gen_ops cc with
                        | Some m, Some _ =>
                            if kmalloc_iv_mode_fails env
                            then ctr_bad "Error kmallocing iv_mode string"
                            else
                              Some (0, err,
                                    Some (with_iv_mode cc
                                            (Some match ivopts with
                                                  | Some o => (m ++ ":" ++ o)%string
                                                  | None => m
                                                  end)))
                        | _, _ => Some (0, err, Some (with_iv_mode cc None))
                        end
                    end
                end
            end
        end
    end.

(** [crypt_ctr(ti, argc, argv)], with [argc] the length of [argv].
    [None] is a fault (a NULL string where one is needed, a shift by a
    negative count in the benbi constructor). *)
Definition crypt_ctr (ocf : bool) (env : ctr_env) (argv : list string)
    : option ctr_outcome :=
  match argv with
  | [arg_cipher; arg_key; arg_iv_offset; arg_dev; arg_start] =>
      let tmp := Some arg_cipher in
      let (cipher_tok, tmp) := strsep tmp "-" in
      let (chain_tok, tmp) := strsep tmp "-" in
      let (ivopts, tmp) := strsep tmp "-" in
      let (ivmode, ivopts) := strsep ivopts ":" in
      let ksize := wrap32 (Z.shiftr (strlen arg_key) 1) in
      if kzalloc_fails env
      then Some (- ENOMEM,
                 Some "Cannot allocate transparent encryption context"%string,
                 None)
      else
        let (rk, cc) := crypt_set_key (kzalloc_crypt_config ksize (heap_behind env))
                        arg_key in
        if negb (rk =? 0) then ctr_bad "Error decoding key"
        else
          (* Compatiblity mode for old dm-crypt cipher strings *)
          let (chain_tok, ivmode) :=
            match chain_tok, ivmode with
            | None, _ => (Some "cbc"%string, Some "plain"%string)
            | Some c, None =>
                if strcmp c "plain" =? 0
                then (Some "cbc"%string, Some "plain"%string)
                else (chain_tok, ivmode)
            | Some _, Some _ => (chain_tok, ivmode)
            end in
          match cipher_tok, chain_tok with
          | Some cipher_name, Some chain =>
              if negb (strcmp chain "ecb" =? 0)
                 && match ivmode with None => true | Some _ => false end
              then ctr_bad "This chaining mode requires an IV mechanism"
              else crypt_ctr_setup ocf env cc cipher_name chain ivmode ivopts
                     ksize arg_iv_offset arg_dev arg_start
          | _, _ => None
          end
  | _ => ctr_bad "Not enough arguments"
  end.

(** ** Suspend, resume and the message interface *)

(** [cc] stands for [ti->private] in the target callbacks below. *)
Definition crypt_postsuspend (cc : crypt_config) : crypt_config :=
  with_flags cc (set_bit DM_CRYPT_SUSPENDED (flags cc)).

Definition crypt_preresume (cc : crypt_config) : Z :=
  if negb (test_bit DM_CRYPT_KEY_VALID (flags cc)) then - EAGAIN else 0.

Definition crypt_resume (cc : crypt_config) : crypt_config :=
  with_flags cc (clear_bit DM_CRYPT_SUSPENDED (flags cc)).

(** [crypt_message(ti, argc, argv)], with [argc] the length of [argv]. *)
Definition crypt_message (cc : crypt_config) (argv : list string)
    : Z * crypt_config :=
  let argc := Z.of_nat (List.length argv) in
  if argc <? 2 then (- EINVAL, cc)
  else
    match argv with
    | a0 :: a1 :: rest =>
        if strnicmp a0 (fst (MESG_STR "key")) (snd (MESG_STR "key")) =? 0 then
          if negb (test_bit DM_CRYPT_SUSPENDED (flags cc)) then (- EINVAL, cc)
          else if (argc =? 3)
                  && (strnicmp a1 (fst (MESG_STR "set")) (snd (MESG_STR "set")) =? 0)
          then crypt_set_key cc (nth 0 rest EmptyString)
          else if (argc =? 2)
                  && (strnicmp a1 (fst (MESG_STR "wipe")) (snd (MESG_STR "wipe")) =? 0)
          then crypt_wipe_key cc
          else (- EINVAL, cc)
        else (- EINVAL, cc)
    | _ => (- EINVAL, cc)
    end.

(* ================================================================== *)

(** ** The status line *)

(** Modelled from the spec: [status_type_t] (linux/device-mapper.h) is not
    under src. *)
Inductive status_type_t :=
| STATUSTYPE_INFO
| STATUSTYPE_TABLE.

(** The first [n] characters of a string. *)
Fixpoint string_take (n : nat) (s : string) : string :=
  match n, s with
  | S n', String c s' => String c (string_take n' s')
  | _, _ => EmptyString
  end.

(** Modelled from the spec: [scnprintf] (lib/vsprintf.c) is not under src.
    Given the formatted text, it writes what fits in front of the
    terminating NUL of a buffer of [size] bytes and answers the number of
    characters written, which is the length of what is returned here. *)
Definition scnprintf (size : Z) (text : string) : string :=
  string_take (Z.to_nat (size - 1)) text.

(** Modelled from the spec: the macro [DMEMIT] (linux/device-mapper.h) is
    not under src: [sz += (sz >= maxlen) ? 0 : scnprintf(result + sz,
    maxlen - sz, ...)].  [result] holds the [sz] characters written so
    far. *)
Definition DMEMIT (maxlen : Z) (result : string) (text : string) : string :=
  let sz := strlen result in
  if maxlen <=? sz then result
  else (result ++ scnprintf (maxlen - sz) text)%string.

(** The digit [d] of a number in lower case. *)
Definition digit_char (d : Z) : ascii :=
  ascii_of_N (Z.to_N (if d <? 10 then 48 + d else 87 + d)).

(** Modelled from the spec: the conversion [%02x] of [vsnprintf], for a
    value that fits a byte. *)
Definition format_02x (b : Z) : string :=
  String (digit_char (b / 16)) (String (digit_char (b mod 16)) EmptyString).

(** The decimal digits of [v] in front of [acc], most significant first;
    [fuel] bounds their number. *)
Fixpoint decimal_digits (fuel : nat) (v : Z) (acc : list ascii) : list ascii :=
  match fuel with
  | O => acc
  | S fuel' =>
      let acc' := digit_char (v mod 10) :: acc in
      if v / 10 =? 0 then acc' else decimal_digits fuel' (v / 10) acc'
  end.

(** Modelled from the spec: the conversion [%llu] of [vsnprintf]; a
    64-bit value has at most twenty digits. *)
Definition format_llu (v : Z) : string :=
  string_of_list_ascii (decimal_digits 20 (wrap64 v) []).

(** [crypt_status]: the characters written to [result] (a NUL follows
    them).  [None] is the NULL dereference of a target without device. *)
Definition crypt_status (cc : crypt_config) (type : status_type_t)
    (maxlen : Z) : option string :=
  match type with
  | STATUSTYPE_INFO => Some EmptyString
  | STATUSTYPE_TABLE =>
      let result := EmptyString in
      let result :=
        match iv_mode cc with
        | Some m =>
            DMEMIT maxlen result
              (cipher cc ++ "-" ++ chainmode cc ++ "-" ++ m ++ " ")%string
        | None =>
            DMEMIT maxlen result
              (cipher cc ++ "-" ++ chainmode cc ++ " ")%string
        end in
      let result :=
        if 0 <? key_size cc
        then fold_left
               (fun res i => DMEMIT maxlen res (format_02x (wrap8 (key cc i))))
               (seq 0 (Z.to_nat (key_size cc))) result
        else DMEMIT maxlen result "-" in
      match dev cc with
      | None => None
      | Some name =>
          Some (DMEMIT maxlen result
                  (" " ++ format_llu (iv_offset cc) ++ " " ++ name ++ " "
                   ++ format_llu (start cc))%string)
      end
  end.

(** ** The request paths *)

(** [MIN_BIO_PAGES]. *)
Definition MIN_BIO_PAGES : Z := 8.

(** Modelled from the spec: the flag [BIO_UPTODATE] (linux/bio.h) and the
    answer [DM_MAPIO_SUBMITTED] (linux/device-mapper.h) are not under
    src. *)
Definition BIO_UPTODATE : Z := 0.
Definition DM_MAPIO_SUBMITTED : Z := 0.

(** [unsigned short], the type of [bi_vcnt] and [bi_idx]. *)
Definition wrap16 (x : Z) : Z := x mod 2 ^ 16.

(** Modelled from the spec: [bio_segments] and [bio_sectors] (linux/bio.h)
    are not under src. *)
Definition bio_segments (b : bio) : Z := bi_vcnt b - bi_idx b.
Definition bio_sectors (b : bio) : Z := Z.shiftr (bi_size b) SECTOR_SHIFT.

(** Modelled from the spec: [atomic_inc] (asm/atomic.h) is not under
    src. *)
Definition atomic_inc (v : Z) : Z := wrap_int (v + 1).

(** What the request paths ask of the kernel: whether [CONFIG_HIGHMEM] is
    set; the block cipher; the page that each [mempool_alloc] from the
    page pool returns (0 is NULL), given the number of the call and
    whether its mask allows waiting; which calls of [bio_alloc_bioset]
    (and of [bio_alloc], which goes through it) fail, given the number of
    the call and the number of vectors asked for; and which pages lie in
    high memory. *)
Record kcryptd_env := {
  k_highmem : bool;
  k_cipher : blkcipher_env;
  page_pool_alloc : nat -> bool -> Z;
  bio_alloc_bioset_fails : nat -> Z -> bool;
  PageHighMem : Z -> bool
}.

(** What the request paths do outside the [crypt_io]: what [dec_pending]
    does; data copied into a bounce page; clones handed to the block layer
    (with [bi_bdev], the device they go to); work queued for kcryptd; and
    waits for congestion to clear. *)
Inductive request_event :=
| io_ev (e : io_event)
| bounce_copy (to_page from_page offset length : Z)
| generic_make_request (clone : bio) (bdev : string)
| queue_work
| congestion_wait.

(** The state the request paths work on: the [crypt_io] of the request,
    the calls into the cipher so far, the events so far, and the numbers
    of [mempool_alloc] calls on the page pool and of bio allocations so
    far. *)
Record kcryptd_state := {
  k_io : crypt_io;
  k_hist : list blkcipher_call;
  k_events : list request_event;
  k_pages : nat;
  k_bios : nat
}.

(** Assignments to single members of the [crypt_io] and of the state. *)
Definition io_with_pending (io : crypt_io) (v : Z) : crypt_io :=
  {| target := target io; base_bio := base_bio io; pending := v;
     error := error io; post_process := post_process io |}.

Definition io_with_post_process (io : crypt_io) (v : Z) : crypt_io :=
  {| target := target io; base_bio := base_bio io; pending := pending io;
     error := error io; post_process := v |}.

Definition set_io (st : kcryptd_state) (io : crypt_io) : kcryptd_state :=
  {| k_io := io; k_hist := k_hist st; k_events := k_events st;
     k_pages := k_pages st; k_bios := k_bios st |}.

Definition set_hist (st : kcryptd_state) (h : list blkcipher_call)
    : kcryptd_state :=
  {| k_io := k_io st; k_hist := h; k_events := k_events st;
     k_pages := k_pages st; k_bios := k_bios st |}.

Definition set_pages (st : kcryptd_state) (n : nat) : kcryptd_state :=
  {| k_io := k_io st; k_hist := k_hist st; k_events := k_events st;
     k_pages := n; k_bios := k_bios st |}.

Definition bio_allocated (st : kcryptd_state) : kcryptd_state :=
  {| k_io := k_io st; k_hist := k_hist st; k_events := k_events st;
     k_pages := k_pages st; k_bios := S (k_bios st) |}.

Definition emit (st : kcryptd_state) (evs : list request_event)
    : kcryptd_state :=
  {| k_io := k_io st; k_hist := k_hist st; k_events := k_events st ++ evs;
     k_pages := k_pages st; k_bios := k_bios st |}.

(** [atomic_inc(&io->pending)] on the state. *)
Definition inc_pending (st : kcryptd_state) : kcryptd_state :=
  set_io st (io_with_pending (k_io st) (atomic_inc (pending (k_io st)))).

(** [dec_pending(io, error)] on the state; [None] is its fault. *)
Definition do_dec_pending (env : kcryptd_env) (st : kcryptd_state) (err : Z)
    : option kcryptd_state :=
  match dec_pending (k_highmem env) (k_io st) err with
  | None => None
  | Some (io', evs) => Some (emit (set_io st io') (map io_ev evs))
  end.

(** Assignments to [bi_sector] and to the vector of a bio. *)
Definition bio_with_sector (b : bio) (v : Z) : bio :=
  Build_bio v (bi_rw b) (bi_flags b) (bi_vcnt b) (bi_idx b) (bi_size b)
            (bi_io_vec b) (bi_private b).

Definition bio_with_io_vec (b : bio) (v : list bio_vec) : bio :=
  Build_bio (bi_sector b) (bi_rw b) (bi_flags b) (bi_vcnt b) (bi_idx b)
            (bi_size b) v (bi_private b).

(** Modelled from the spec: what [bio_alloc_bioset] returns (fs/bio.c) is
    not under src: a bio without segments that is flagged up to date. *)
Definition fresh_bio : bio :=
  Build_bio 0 0 (Z.shiftl 1 BIO_UPTODATE) 0 0 0 [] None.

(** [clone_init(io, clone)]: the clone takes the direction of the
    original.  [bi_private] of a clone is the [crypt_io] of the state and
    [bi_end_io] is [crypt_endio]; [bi_bdev] is kept with the event that
    submits the clone.  [None] is the NULL dereference of [cc->dev]. *)
Definition clone_init (cc : crypt_config) (io : crypt_io) (clone : bio)
    : option bio :=
  match dev cc with
  | None => None
  | Some _ =>
      Some (Build_bio (bi_sector clone) (bi_rw (base_bio io))
              (bi_flags clone) (bi_vcnt clone) (bi_idx clone)
              (bi_size clone) (bi_io_vec clone) (bi_private clone))
  end.

(** The page loop of [crypt_alloc_buffer] at vector [i], with [left]
    vectors to go: the clone, the bytes still wanted, whether the mask
    still allows waiting, and the number of [mempool_alloc] calls made.
    The vector of the clone holds the segments filled so far. *)
Fixpoint crypt_alloc_buffer_loop (env : kcryptd_env) (left : nat) (i : Z)
    (wait : bool) (clone : bio) (size : Z) (pages : nat) : bio * nat :=
  match left with
  | O => (clone, pages)
  | S left' =>
      let page := page_pool_alloc env pages wait in
      if page =? 0 then (clone, S pages)
      else
        let wait' := if i =? MIN_BIO_PAGES - 1 then false else wait in
        let len := if PAGE_SIZE <? size then PAGE_SIZE else size in
        let bv := {| bv_page := page; bv_len := len; bv_offset := 0 |} in
        let clone' :=
          Build_bio (bi_sector clone) (bi_rw clone) (bi_flags clone)
                    (wrap16 (bi_vcnt clone + 1)) (bi_idx clone)
                    (wrap32 (bi_size clone + len))
                    (bi_io_vec clone ++ [bv]) (bi_private clone) in
        crypt_alloc_buffer_loop env left' (wrap32 (i + 1)) wait' clone'
          (wrap32 (size - len)) (S pages)
  end.

(** [crypt_alloc_buffer(io, size)]: the clone, or [None] inside for NULL;
    [None] outside is the fault of [clone_init]. *)
Definition crypt_alloc_buffer (env : kcryptd_env) (cc : crypt_config)
    (st : kcryptd_state) (size : Z) : option (option bio * kcryptd_state) :=
  let nr_iovecs := Z.shiftr (wrap32 (size + PAGE_SIZE - 1)) PAGE_SHIFT in
  let st1 := bio_allocated st in
  if bio_alloc_bioset_fails env (k_bios st) nr_iovecs then Some (None, st1)
  else
    match clone_init cc (k_io st) fresh_bio with
    | None => None
    | Some clone =>
        let (clone, pages) :=
          crypt_alloc_buffer_loop env (Z.to_nat nr_iovecs) 0 true clone size
            (k_pages st) in
        let st2 := set_pages st1 pages in
        if bi_size clone =? 0
        then Some (None, emit st2 [io_ev (bio_put clone)])
        else Some (Some clone, st2)
    end.

(** The loop of [crypt_free_buffer_pages] over the segments that are
    left: the segments afterwards and the pages given back.  [None] is the
    [BUG_ON] of a segment without page. *)
Fixpoint free_pages_loop (vecs : list bio_vec)
    : option (list bio_vec * list io_event) :=
  match vecs with
  | [] => Some ([], [])
  | bv :: vecs' =>
      if bv_page bv =? 0 then None
      else
        match free_pages_loop vecs' with
        | None => None
        | Some (vs, evs) =>
            Some ({| bv_page := 0; bv_len := bv_len bv;
                     bv_offset := bv_offset bv |} :: vs,
                  mempool_free_page (bv_page bv) :: evs)
        end
  end.

(** [crypt_free_buffer_pages(cc, clone)]; [None] is the [BUG_ON], or a
    [bi_vcnt] beyond the vector. *)
Definition crypt_free_buffer_pages (clone : bio)
    : option (bio * list io_event) :=
  let n := Z.to_nat (bi_vcnt clone) in
  if (List.length (bi_io_vec clone) <? n)%nat then None
  else
    match free_pages_loop (firstn n (bi_io_vec clone)) with
    | None => None
    | Some (vs, evs) =>
        Some (bio_with_io_vec clone (vs ++ skipn n (bi_io_vec clone)), evs)
    end.

(** [kcryptd_queue_io(io)]. *)
Definition kcryptd_queue_io (st : kcryptd_state) : kcryptd_state :=
  emit st [queue_work].

(** The sequence [crypt_free_buffer_pages(cc, clone); bio_put(clone);
    dec_pending(io, error)], by which both [crypt_endio] and
    [process_write] let go of an encryption buffer. *)
Definition put_buffer_clone (env : kcryptd_env) (clone : bio) (err : Z)
    (st : kcryptd_state) : option kcryptd_state :=
  match crypt_free_buffer_pages clone with
  | None => None
  | Some (clone', evs) =>
      do_dec_pending env
        (emit st (map io_ev evs ++ [io_ev (bio_put clone')])) err
  end.

(** [crypt_endio(clone, error)]. *)
Definition crypt_endio (env : kcryptd_env) (clone : bio) (err : Z)
    (st : kcryptd_state) : option kcryptd_state :=
  let read_io := bio_data_dir clone =? READ in
  if negb read_io then put_buffer_clone env clone err st
  else if negb (bio_flagged clone BIO_UPTODATE) then
    do_dec_pending env (emit st [io_ev (bio_put clone)]) (- EIO)
  else
    Some (kcryptd_queue_io
            (set_io (emit st [io_ev (bio_put clone)])
                    (io_with_post_process (k_io st) 1))).

(** [process_read(io)].  The clone gets the segments of the original from
    [bi_idx] on; [None] is the fault of [clone_init], or a copy that
    reaches outside one of the two vectors. *)
Definition process_read (env : kcryptd_env) (cc : crypt_config)
    (st : kcryptd_state) : option kcryptd_state :=
  let io := k_io st in
  let base := base_bio io in
  let sect := wrap64 (bi_sector base - begin (target io)) in
  let st1 := inc_pending st in
  let st2 := bio_allocated st1 in
  if bio_alloc_bioset_fails env (k_bios st) (bio_segments base)
  then do_dec_pending env st2 (- ENOMEM)
  else
    match clone_init cc io fresh_bio, dev cc with
    | Some clone, Some bdev =>
        let vcnt := wrap16 (bio_segments base) in
        let vecs := skipn (Z.to_nat (bi_idx base)) (bi_io_vec base) in
        if (bio_segments base <? vcnt)
           || (List.length vecs <? Z.to_nat vcnt)%nat
        then None
        else
          let clone' :=
            Build_bio (wrap64 (start cc + sect)) (bi_rw clone)
                      (bi_flags clone) vcnt 0 (bi_size base)
                      (firstn (Z.to_nat vcnt) vecs) (bi_private clone) in
          Some (emit st2 [generic_make_request clone' bdev])
    | _, _ => None
    end.

(** The end of a round of the loop of [process_write], once the clone
    is encrypted: the clone gets its sector and is submitted, and while
    data remains another reference is taken before and congestion is
    waited for after.  The bytes that remain, the next sector and the
    state. *)
Definition process_write_submit (cc : crypt_config) (bdev : string)
    (clone : bio) (remaining sect : Z) (st : kcryptd_state)
    : Z * Z * kcryptd_state :=
  let clone' := bio_with_sector clone (wrap64 (start cc + sect)) in
  let remaining' := wrap32 (remaining - bi_size clone') in
  let sect' := wrap64 (sect + bio_sectors clone') in
  let st1 := if remaining' =? 0 then st else inc_pending st in
  let st2 := emit st1 [generic_make_request clone' bdev] in
  let st3 := if remaining' =? 0 then st2 else emit st2 [congestion_wait] in
  (remaining', sect', st3).

(** The loop of [process_write] in the build without [CONFIG_OCF_DM_CRYPT];
    [fuel] bounds its rounds and those of each conversion.  [None] is a
    fault of [crypt_alloc_buffer], of [crypt_convert] or of [dec_pending],
    one of the two [BUG_ON]s, or fuel used up. *)
Fixpoint process_write_loop (fuel : nat) (env : kcryptd_env)
    (cc : crypt_config) (ctx : convert_context) (remaining sect : Z)
    (st : kcryptd_state) : option kcryptd_state :=
  match fuel with
  | O => None
  | S fuel' =>
      if remaining =? 0 then Some st
      else
        match crypt_alloc_buffer env cc st remaining, dev cc with
        | Some (None, st1), _ => do_dec_pending env st1 (- ENOMEM)
        | Some (Some clone, st1), Some bdev =>
            let ctx1 :=
              {| bio_in := bio_in ctx; bio_out := Some clone;
                 offset_in := offset_in ctx; offset_out := offset_out ctx;
                 idx_in := idx_in ctx; idx_out := 0;
                 sector := sector ctx; write := write ctx |} in
            match crypt_convert fuel (k_cipher env) cc ctx1 (k_hist st1) with
            | None => None
            | Some (r, ctx2, hist2) =>
                let st2 := set_hist st1 hist2 in
                if r <? 0 then put_buffer_clone env clone (- EIO) st2
                else if idx_out ctx2 <? bi_vcnt clone then None
                else
                  let '(remaining', sect', st3) :=
                    process_write_submit cc bdev clone remaining sect st2 in
                  process_write_loop fuel' env cc ctx2 remaining' sect' st3
            end
        | _, _ => None
        end
  end.

(** [process_write(io)], in the build without [CONFIG_OCF_DM_CRYPT]. *)
Definition process_write (fuel : nat) (env : kcryptd_env)
    (cc : crypt_config) (st : kcryptd_state) : option kcryptd_state :=
  let io := k_io st in
  let base := base_bio io in
  let remaining := bi_size base in
  let sect := wrap64 (bi_sector base - begin (target io)) in
  let st1 := inc_pending st in
  let ctx := crypt_convert_init cc None (Some base) sect 1 in
  process_write_loop fuel env cc ctx remaining sect st1.

(** [process_read_endio(io)], in the build without
    [CONFIG_OCF_DM_CRYPT]. *)
Definition process_read_endio (fuel : nat) (env : kcryptd_env)
    (cc : crypt_config) (st : kcryptd_state) : option kcryptd_state :=
  let io := k_io st in
  let base := base_bio io in
  let ctx := crypt_convert_init cc (Some base) (Some base)
               (wrap64 (bi_sector base - begin (target io))) 0 in
  match crypt_convert fuel (k_cipher env) cc ctx (k_hist st) with
  | None => None
  | Some (r, _, hist') => do_dec_pending env (set_hist st hist') r
  end.

(** [kcryptd_do_work(work)], on the [crypt_io] that holds [work]. *)
Definition kcryptd_do_work (fuel : nat) (env : kcryptd_env)
    (cc : crypt_config) (st : kcryptd_state) : option kcryptd_state :=
  if negb (post_process (k_io st) =? 0) then process_read_endio fuel env cc st
  else if bio_data_dir (base_bio (k_io st)) =? READ then process_read env cc st
  else process_write fuel env cc st.

(** Assignment to one element of a vector; outside the vector nothing is
    stored. *)
Fixpoint set_nth {A : Type} (l : list A) (n : nat) (v : A) : list A :=
  match l, n with
  | [], _ => []
  | _ :: l', O => v :: l'
  | x :: l', S n' => x :: set_nth l' n' v
  end.

(** The first loop of [crypt_map] under [CONFIG_HIGHMEM], over the
    segments [segs] of the bio from index [i] on: the vector of the new
    bio (none as long as nothing was bounced), the copies made and the
    numbers of page and bio allocations.  [None] is the NULL dereference
    when [bio_alloc] fails, a segment outside the new vector, or the copy
    into a page that was not allocated. *)
Fixpoint crypt_map_bounce (env : kcryptd_env) (b : bio)
    (segs : list bio_vec) (i : nat) (newvec : option (list bio_vec))
    (evs : list request_event) (pages bios : nat)
    : option (option (list bio_vec) * list request_event * nat * nat) :=
  match segs with
  | [] => Some (newvec, evs, pages, bios)
  | from :: segs' =>
      if negb (PageHighMem env (bv_page from))
      then crypt_map_bounce env b segs' (S i) newvec evs pages bios
      else
        let alloc :=
          match newvec with
          | Some v => Some (v, bios)
          | None =>
              if bio_alloc_bioset_fails env bios (bi_vcnt b) then None
              else Some (repeat {| bv_page := 0; bv_len := 0;
                                   bv_offset := 0 |}
                                (Z.to_nat (bi_vcnt b)), S bios)
          end in
        match alloc with
        | None => None
        | Some (v, bios') =>
            if (List.length v <=? i)%nat then None
            else
              let page := page_pool_alloc env pages true in
              let to := {| bv_page := page; bv_len := bv_len from;
                           bv_offset := bv_offset from |} in
              let v' := set_nth v i to in
              if bio_data_dir b =? WRITE then
                if page =? 0 then None
                else
                  crypt_map_bounce env b segs' (S i) (Some v')
                    (evs ++ [bounce_copy page (bv_page from)
                               (bv_offset to) (bv_len to)])
                    (S pages) bios'
              else
                crypt_map_bounce env b segs' (S i) (Some v') evs
                  (S pages) bios'
        end
  end.

(** The second loop of [crypt_map]: segments of the new bio that got no
    page take the segment of the original. *)
Fixpoint crypt_map_fill (tovecs fromvecs : list bio_vec) : list bio_vec :=
  match tovecs, fromvecs with
  | to :: ts, from :: fs =>
      (if bv_page to =? 0 then from else to) :: crypt_map_fill ts fs
  | _, _ => tovecs
  end.

(** [crypt_map(ti, bio)]: the answer and the state, with the [crypt_io]
    that was set up.  The state handed in gives the cipher calls, events
    and allocations so far; its [crypt_io] is not read.  [None] is a fault
    of the first loop, or a [bi_vcnt] or [bi_idx] beyond the vector. *)
Definition crypt_map (env : kcryptd_env) (ti : dm_target) (b : bio)
    (st : kcryptd_state) : option (Z * kcryptd_state) :=
  let submit (b' : bio) (evs : list request_event) (pages bios : nat) :=
    Some (DM_MAPIO_SUBMITTED,
          kcryptd_queue_io
            {| k_io := {| target := ti; base_bio := b'; pending := 0;
                          error := 0; post_process := 0 |};
               k_hist := k_hist st; k_events := k_events st ++ evs;
               k_pages := pages; k_bios := bios |}) in
  if k_highmem env then
    let n := Z.to_nat (bi_vcnt b) in
    let i := Z.to_nat (bi_idx b) in
    if (List.length (bi_io_vec b) <? n)%nat then None
    else
      match crypt_map_bounce env b (skipn i (firstn n (bi_io_vec b))) i
              None [] (k_pages st) (k_bios st) with
      | None => None
      | Some (None, evs, pages, bios) => submit b evs pages bios
      | Some (Some v, evs, pages, bios) =>
          let newbio :=
            Build_bio (bi_sector b) (bi_rw b)
              (Z.lor (bi_flags fresh_bio) (Z.shiftl 1 BIO_BOUNCED))
              (bi_vcnt b) (bi_idx b) (bi_size b)
              (crypt_map_fill v (firstn n (bi_io_vec b))) (Some b) in
          submit newbio evs pages bios
      end
  else submit b [] (k_pages st) (k_bios st).

(** ** The read path of the offload build *)

(** The engine completes up to [n] of the outstanding requests, oldest
    first, and runs their callbacks. *)
Fixpoint complete_many (env : ocf_env) (n : nat) (w : ocf_world)
    : option ocf_world :=
  match n with
  | O => Some w
  | S n' =>
      match inflight w with
      | [] => Some w
      | _ :: _ =>
          match complete_one env w with
          | None => None
          | Some w' => complete_many env n' w'
          end
      end
  end.

(** [process_read_endio(io)] in the build with [CONFIG_OCF_DM_CRYPT], on
    the [crypt_io] of the world.  The result of the conversion is kept in
    a [u32]; [late] is the number of completions that arrive during the
    half second for which the failure branch waits. *)
Definition ocf_process_read_endio (fuel : nat) (env : ocf_env)
    (cc : crypt_config) (late : nat) (w : ocf_world) : option ocf_world :=
  let io := the_io w in
  let ctx := crypt_convert_init cc (Some (base_bio io)) (Some (base_bio io))
               (wrap64 (bi_sector (base_bio io) - begin (target io))) 0 in
  match ocf_crypt_convert fuel env cc ctx w with
  | None => None
  | Some (res, _, w1) =>
      let r := wrap32 res in
      if r <? 0 then
        match complete_many env late w1 with
        | None => None
        | Some w2 =>
            match dec_pending (CONFIG_HIGHMEM env) (the_io w2) (wrap_int r)
            with
            | None => None
            | Some (io', evs) =>
                Some {| mem := mem w2; _crypt_requests := _crypt_requests w2;
                        inflight := inflight w2; dispatched := dispatched w2;
                        wr_priv := wr_priv w2; the_io := io';
                        io_events := io_events w2 ++ evs; klog := klog w2;
                        getreq_calls := getreq_calls w2 |}
            end
        end
      else Some w1
  end.

(** ** Module initialisation *)

(** What the module holds while it is loaded. *)
Inductive module_resource :=
| crypt_io_cache
| kcryptd_workqueue
| crypt_target_registered.

(** What [dm_crypt_init] and [dm_crypt_exit] do: resources taken and
    given back, the messages of [DMERR] (with the number printed, if
    any) and of [printk], and the reset of the request counter together
    with its wait queue. *)
Inductive module_event :=
| acquired (r : module_resource)
| released (r : module_resource)
| DMERR (msg : string) (arg : option Z)
| printk_msg (msg : string)
| crypt_requests_reset.

(** What initialisation asks of the kernel: whether [KMEM_CACHE] and
    [create_workqueue] return NULL, and what [dm_register_target]
    returns. *)
Record init_env := {
  KMEM_CACHE_fails : bool;
  create_workqueue_fails : bool;
  dm_register_target : Z
}.

(** [dm_crypt_init()]: the result and what was done, in order. *)
Definition dm_crypt_init (ocf : bool) (env : init_env)
    : Z * list module_event :=
  if KMEM_CACHE_fails env then (- ENOMEM, [])
  else
    let evs := [acquired crypt_io_cache] in
    if create_workqueue_fails env then
      (- ENOMEM,
       evs ++ [DMERR "couldn't create kcryptd" None;
               released crypt_io_cache])
    else
      let evs := evs ++ [acquired kcryptd_workqueue] in
      let r := dm_register_target env in
      if r <? 0 then
        (r, evs ++ [DMERR "register failed %d" (Some r);
                    released kcryptd_workqueue;
                    released crypt_io_cache])
      else
        (0, evs ++ [acquired crypt_target_registered; crypt_requests_reset]
                ++ (if ocf
                    then [printk_msg
                            (String.append "dm_crypt using the OCF package."
                               (String (ascii_of_nat 10) EmptyString))]
                    else [])).

(** [dm_crypt_exit()]. *)
Definition dm_crypt_exit : list module_event :=
  [released crypt_target_registered; released kcryptd_workqueue;
   released crypt_io_cache].

(** * Part II: the vocabulary of the statements *)
(* ================================================================== *)

(** ** Keys *)

(** A hexadecimal digit of either case. *)
Definition is_xdigit (c : ascii) : bool :=
  match hex_value c with Some _ => true | None => false end.

(** Its value. *)
Definition xdigit_value (c : ascii) : Z :=
  match hex_value c with Some v => v | None => 0 end.

(** An even number of hexadecimal digits. *)
Fixpoint is_hex_pairs (l : list ascii) : bool :=
  match l with
  | [] => true
  | a :: b :: l' => is_xdigit a && is_xdigit b && is_hex_pairs l'
  | _ => false
  end.

(** A well-formed hex key: at least one pair of hexadecimal digits and
    nothing else. *)
Definition well_formed_hex (k : string) : bool :=
  negb (Nat.eqb (String.length k) 0) && is_hex_pairs (list_ascii_of_string k).

(** The bytes a string of digit pairs spells. *)
Fixpoint hex_bytes (l : list ascii) : list Z :=
  match l with
  | a :: b :: l' => (xdigit_value a * 16 + xdigit_value b) :: hex_bytes l'
  | _ => []
  end.

(** The first [n] bytes of the key buffer. *)
Definition key_bytes (cc : crypt_config) (n : Z) : list Z :=
  map (key cc) (seq 0 (Z.to_nat n)).

(** ** IVs *)

(** A power of two. *)
Definition power_of_two (n : Z) : Prop := exists k, 0 <= k /\ n = 2 ^ k.

(** A value that fits a byte. *)
Definition is_byte (b : Z) : Prop := 0 <= b < 256.

(** The IV that goes with a sector: what the installed generator writes,
    and nothing when no generator is installed. *)
Definition iv_of_sector (env : blkcipher_env) (cc : crypt_config) (sect : Z)
    : option (list Z) :=
  match iv_gen_ops cc with
  | Some ops =>
      match generator (crypto_cipher_encrypt_one env) ops cc (iv_buffer cc) sect with
      | Some (_, iv) => Some iv
      | None => None
      end
  | None => None
  end.

(** The IV buffer is large enough for the installed generator and the
    generator's private data is of its kind (what [crypt_ctr] sets up). *)
Definition iv_buffer_fits (cc : crypt_config) : bool :=
  match iv_gen_ops cc with
  | None => true
  | Some crypt_iv_plain_ops => 4 <=? iv_size cc
  | Some crypt_iv_essiv_ops =>
      (8 <=? iv_size cc)
      && match iv_gen_private cc with
         | essiv_tfm t => cipher_blocksize t <=? iv_size cc
         | _ => false
         end
  | Some crypt_iv_benbi_ops =>
      (8 <=? iv_size cc)
      && match iv_gen_private cc with
         | benbi_shift s => (0 <=? s) && (s <? 64)
         | private_zero => true
         | essiv_tfm _ => false
         end
  | Some crypt_iv_null_ops => 0 <=? iv_size cc
  end.

(** ** The latched error *)

(** A run of [dec_pending] calls on one [crypt_io], one per entry of
    [errs], with everything that happened outside. *)
Fixpoint dec_pending_calls (highmem : bool) (io : crypt_io) (errs : list Z)
    : option (crypt_io * list io_event) :=
  match errs with
  | [] => Some (io, [])
  | e :: errs' =>
      match dec_pending highmem io e with
      | None => None
      | Some (io1, ev1) =>
          match dec_pending_calls highmem io1 errs' with
          | None => None
          | Some (io2, ev2) => Some (io2, ev1 ++ ev2)
          end
      end
  end.

(** The first negative entry of a list of results, 0 when there is
    none. *)
Definition first_negative (errs : list Z) : Z :=
  match find (fun e => e <? 0) errs with
  | Some e => e
  | None => 0
  end.

(** The last negative entry, 0 when there is none. *)
Definition last_negative (errs : list Z) : Z := first_negative (rev errs).

(** The last failure of [errs], or [d] when every entry is a success. *)
Definition latest_failure (errs : list Z) (d : Z) : Z :=
  match find (fun e => e <? 0) (rev errs) with
  | Some e => e
  | None => d
  end.

(** The completions of bios among the events, in order. *)
Definition completions (evs : list io_event) : list io_event :=
  filter (fun ev => match ev with bio_endio _ _ => true | _ => false end) evs.

(** The bio the upper layer handed in: the bounced bio's original, or the
    base bio itself. *)
Definition original_bio (highmem : bool) (io : crypt_io) : bio :=
  if highmem && bio_flagged (base_bio io) BIO_BOUNCED
  then match bi_private (base_bio io) with
       | Some origbio => origbio
       | None => base_bio io
       end
  else base_bio io.

(** A bounced bio carries its original, as [crypt_map] sets it up. *)
Definition bounce_linked (highmem : bool) (io : crypt_io) : bool :=
  if highmem && bio_flagged (base_bio io) BIO_BOUNCED
  then match bi_private (base_bio io) with Some _ => true | None => false end
  else true.

(** The reading of the latch under which the first failure wins. *)
Definition first_failure_latched (highmem : bool) (io : crypt_io)
    (errs : list Z) : Prop :=
  forall io' evs,
    dec_pending_calls highmem io errs = Some (io', evs) ->
    error io' = first_negative errs
    /\ completions evs
       = [bio_endio (original_bio highmem io) (first_negative errs)].

(** ** The conversion *)

(** A bio whose counters fit its vector and whose segments do not exceed
    a page. *)
Definition bio_ok (b : bio) : bool :=
  (0 <=? bi_idx b) && (bi_vcnt b <? 2 ^ 16)
  && (bi_vcnt b <=? Z.of_nat (List.length (bi_io_vec b)))
  && forallb (fun bv => (0 <=? bv_len bv) && (bv_len bv <=? PAGE_SIZE))
             (bi_io_vec b).

(** The length of the segment a cursor is in, 0 outside the vector. *)
Definition current_len (b : bio) (idx : Z) : Z :=
  match nth_error (bi_io_vec b) (Z.to_nat idx) with
  | Some bv => bv_len bv
  | None => 0
  end.

(** A context between two rounds of the loop: both bios are there, the
    sector is a [sector_t] value, and the input cursor is at the start of a
    segment or inside it. *)
Definition ctx_ok (ctx : convert_context) : bool :=
  match bio_in ctx, bio_out ctx with
  | Some bin, Some bout =>
      bio_ok bin && bio_ok bout
      && (0 <=? idx_in ctx) && (0 <=? idx_out ctx)
      && (0 <=? sector ctx) && (sector ctx <? 2 ^ 64)
      && ((offset_in ctx =? 0)
          || ((0 <? offset_in ctx)
              && (offset_in ctx <? current_len bin (idx_in ctx))))
  | _, _ => false
  end.

(** One of the two bios has no segment left. *)
Definition exhausted (ctx : convert_context) : bool :=
  match bio_in ctx, bio_out ctx with
  | Some bin, Some bout =>
      negb ((idx_in ctx <? bi_vcnt bin) && (idx_out ctx <? bi_vcnt bout))
  | _, _ => false
  end.

(** An upper bound on the rounds the loop spends on a run of segments. *)
Definition rounds_of (segs : list bio_vec) : Z :=
  fold_right (fun bv acc => Z.max 0 (bv_len bv / 512) + 1 + acc) 0 segs.

(** An upper bound on the rounds the loop can still make, by the input
    side. *)
Definition rounds_left (ctx : convert_context) : Z :=
  match bio_in ctx with
  | Some bin =>
      rounds_of (skipn (Z.to_nat (idx_in ctx))
                       (firstn (Z.to_nat (bi_vcnt bin)) (bi_io_vec bin)))
      - offset_in ctx / 512
  | None => 0
  end.

(** The results the cipher gave to a run of calls made after [hist]. *)
Fixpoint call_results (env : blkcipher_env) (hist calls : list blkcipher_call)
    : list Z :=
  match calls with
  | [] => []
  | c :: cs => blkcipher_result env hist c :: call_results env (hist ++ [c]) cs
  end.

(** The reading of the conversion under which every chunk gets an IV. *)
Definition every_chunk_gets_iv (fuel : nat) (env : blkcipher_env)
    (cc : crypt_config) (ctx : convert_context) : Prop :=
  forall r ctx' calls,
    crypt_convert fuel env cc ctx [] = Some (r, ctx', calls) ->
    Forall (fun c => call_iv c <> None) calls.

(** ** The cipher specification *)


(** ** The offload backend *)

(** Two byte ranges of length [n] that are the same or do not meet. *)
Definition same_or_disjoint (a b n : Z) : Prop :=
  a = b \/ a + n <= b \/ b + n <= a.

(** The reading of the write barrier under which a timeout is a failure:
    a write conversion that returns 0 has seen every completion. *)
Definition timeout_is_failure (fuel : nat) (env : ocf_env)
    (cc : crypt_config) (ctx : convert_context) (w : ocf_world) : Prop :=
  forall r ctx' w',
    ocf_crypt_convert fuel env cc ctx w = Some (r, ctx', w') ->
    r = 0 ->
    inflight w' = []
    /\ forall t p c, ~ In (msg_wr_not_finished t p c) (klog w').

(* ================================================================== *)

(** ** The crypto layer *)

(** The crypto layer reports a failure as a negative error number: an
    [IS_ERR] pointer carries one, and the calls that return [int] answer 0
    or a negative value. *)
Definition errors_are_negative (env : ctr_env) : Prop :=
  (forall h e, crypto_alloc_hash env h = inr e -> e < 0)
  /\ (forall h l, fst (crypto_hash_digest env h l) <= 0)
  /\ (forall c e, crypto_alloc_cipher env c = inr e -> e < 0)
  /\ (forall c l, crypto_cipher_setkey env c l <= 0).

(** ** The sectors of a bio *)

(** [n] consecutive 512-byte chunks of a segment, from offset [off] on,
    as scatterlist entries. *)
Fixpoint seg_chunks (bv : bio_vec) (off : Z) (n : nat) : list scatterlist :=
  match n with
  | O => []
  | S n' =>
      {| sg_page := bv_page bv; sg_length := 512;
         sg_offset := bv_offset bv + off |}
      :: seg_chunks bv (off + 512) n'
  end.

(** The chunks of a run of segments, in order. *)
Definition chunks_of (segs : list bio_vec) : list scatterlist :=
  flat_map (fun bv => seg_chunks bv 0 (Z.to_nat (bv_len bv / 512))) segs.

(** The chunks that lie ahead of a cursor at segment [idx], offset
    [off]. *)
Definition chunks_ahead (b : bio) (idx off : Z) : list scatterlist :=
  match skipn (Z.to_nat idx) (firstn (Z.to_nat (bi_vcnt b)) (bi_io_vec b)) with
  | [] => []
  | bv :: rest =>
      seg_chunks bv off (Z.to_nat ((bv_len bv - off) / 512)) ++ chunks_of rest
  end.

(** A bio made of whole sectors: every segment is a positive multiple of
    512 bytes long and lies inside its page. *)
Definition sector_aligned (b : bio) : bool :=
  bio_ok b
  && forallb (fun bv => (0 <? bv_len bv) && (bv_len bv mod 512 =? 0)
                        && (0 <=? bv_offset bv)
                        && (bv_offset bv + bv_len bv <=? PAGE_SIZE))
             (bi_io_vec b).

(** A cursor at the start of a segment or at a sector boundary inside
    it. *)
Definition cursor_ok (b : bio) (idx off : Z) : Prop :=
  0 <= idx
  /\ (off = 0
      \/ (0 < off < current_len b idx /\ off mod 512 = 0)).

(** ** The fields of the status line *)

(** The cipher specification as [crypt_status] spells it. *)
Definition status_spec (cc : crypt_config) : string :=
  match iv_mode cc with
  | Some m => (cipher cc ++ "-" ++ chainmode cc ++ "-" ++ m)%string
  | None => (cipher cc ++ "-" ++ chainmode cc)%string
  end.

(** Two lower-case hex digits for each byte. *)
Fixpoint hex_of_bytes (l : list Z) : string :=
  match l with
  | [] => EmptyString
  | b :: l' => (format_02x b ++ hex_of_bytes l')%string
  end.

(** The key as [crypt_status] spells it: the no-key string for a target
    without key. *)
Definition status_key (cc : crypt_config) : string :=
  if 0 <? key_size cc
  then hex_of_bytes (map wrap8 (key_bytes cc (key_size cc)))
  else "-"%string.

(** The whole table line of a target on the device [name]. *)
Definition table_line (cc : crypt_config) (name : string) : string :=
  (status_spec cc ++ " " ++ status_key cc ++ " " ++ format_llu (iv_offset cc)
   ++ " " ++ name ++ " " ++ format_llu (start cc))%string.

(** ** Tokens *)

(** A string without any of the delimiters [ct]. *)
Definition free_of (ct : string) (s : string) : bool :=
  forallb (fun c => negb (is_delim ct c)) (list_ascii_of_string s).

(** What a generator's constructor leaves behind when the constructor of
    the target goes on after it. *)
Definition generator_ready (ocf : bool) (cc : crypt_config) : Prop :=
  match iv_gen_ops cc with
  | Some crypt_iv_essiv_ops =>
      exists t, iv_gen_private cc = essiv_tfm t
                /\ cipher_blocksize t
                   = (if ocf then iv_size cc
                      else match tfm cc with
                           | Some b => blk_ivsize b
                           | None => 0
                           end)
  | Some crypt_iv_benbi_ops =>
      exists s, iv_gen_private cc = benbi_shift s /\ 0 <= s <= 9
  | _ => True
  end.

(** The pages that [k] calls of [mempool_alloc] return, from call number
    [start] on, when the first of them is made for vector [i] of an
    encryption buffer: the calls for the first [MIN_BIO_PAGES] vectors may
    wait. *)
Fixpoint pool_pages (env : kcryptd_env) (start : nat) (i : Z) (k : nat)
    : list Z :=
  match k with
  | O => []
  | S k' => page_pool_alloc env start (i <? MIN_BIO_PAGES)
            :: pool_pages env (S start) (i + 1) k'
  end.

(** Segments that lay [size] bytes over the given pages, a page at a
    time from the start of each page. *)
Fixpoint buffer_segments (pages : list Z) (size : Z) : list bio_vec :=
  match pages with
  | [] => []
  | p :: ps =>
      {| bv_page := p; bv_len := Z.min PAGE_SIZE size; bv_offset := 0 |}
      :: buffer_segments ps (size - PAGE_SIZE)
  end.

(** The number of pages that [size] bytes take. *)
Definition pages_for (size : Z) : Z := (size + PAGE_SIZE - 1) / PAGE_SIZE.

(** [n] consecutive sector numbers from [s] on, counted as the loop of
    [crypt_convert] counts them. *)
Fixpoint sector_run (s : Z) (n : nat) : list Z :=
  match n with
  | O => []
  | S n' => s :: sector_run (wrap64 (s + 1)) n'
  end.

(** The entry points of the cipher that encrypt. *)
Definition is_encryption (op : blkcipher_op) : bool :=
  match op with
  | crypto_blkcipher_encrypt_iv | crypto_blkcipher_encrypt => true
  | crypto_blkcipher_decrypt_iv | crypto_blkcipher_decrypt => false
  end.

(** ** What a request leaves behind *)

(** The clones handed to the block layer, in order. *)
Definition submitted (evs : list request_event) : list bio :=
  flat_map (fun ev => match ev with
                      | generic_make_request c _ => [c]
                      | _ => []
                      end) evs.

(** What [dec_pending] and the release of buffers did, in order. *)
Definition io_events_of (evs : list request_event) : list io_event :=
  flat_map (fun ev => match ev with io_ev e => [e] | _ => [] end) evs.

(** The pages given back to the page pool, in order. *)
Definition freed_pages (evs : list io_event) : list Z :=
  flat_map (fun ev => match ev with
                      | mempool_free_page p => [p]
                      | _ => []
                      end) evs.

(** The pages of a bio's segments. *)
Definition pages_of (b : bio) : list Z := map bv_page (bi_io_vec b).

(** A clone that holds a page of the pool in each of its segments. *)
Definition owns_pages (c : bio) : bool :=
  (Z.of_nat (List.length (bi_io_vec c)) =? bi_vcnt c)
  && forallb (fun bv => negb (bv_page bv =? 0)) (bi_io_vec c).

(** Clones that go to consecutive sectors from [sect] on. *)
Fixpoint consecutive_from (sect : Z) (clones : list bio) : Prop :=
  match clones with
  | [] => True
  | c :: rest =>
      bi_sector c = sect
      /\ consecutive_from (wrap64 (sect + bio_sectors c)) rest
  end.

(** The bytes a run of clones carries. *)
Definition total_size (clones : list bio) : Z :=
  fold_right (fun c acc => bi_size c + acc) 0 clones.

(** The clones of a request complete one after the other, each with its
    result: a run of [crypt_endio] calls. *)
Fixpoint crypt_endio_calls (env : kcryptd_env) (done : list (bio * Z))
    (st : kcryptd_state) : option kcryptd_state :=
  match done with
  | [] => Some st
  | (clone, err) :: rest =>
      match crypt_endio env clone err st with
      | None => None
      | Some st1 => crypt_endio_calls env rest st1
      end
  end.

(** ** Bounce pages *)

(** The segments [segs] with every page in high memory replaced by a
    page of the pool, the pages being taken from call [p] on. *)
Fixpoint bounced_segments (env : kcryptd_env) (segs : list bio_vec)
    (p : nat) : list bio_vec :=
  match segs with
  | [] => []
  | bv :: rest =>
      if PageHighMem env (bv_page bv)
      then {| bv_page := page_pool_alloc env p true; bv_len := bv_len bv;
              bv_offset := bv_offset bv |}
           :: bounced_segments env rest (S p)
      else bv :: bounced_segments env rest p
  end.

(** The number of segments in high memory. *)
Definition high_pages (env : kcryptd_env) (segs : list bio_vec) : nat :=
  List.length (filter (fun bv => PageHighMem env (bv_page bv)) segs).

(** The segments of a bio that take part in a request. *)
Definition live_segments (b : bio) : list bio_vec :=
  skipn (Z.to_nat (bi_idx b)) (firstn (Z.to_nat (bi_vcnt b)) (bi_io_vec b)).


(** The segments in high memory, each with the pool page that stands in
    for it. *)
Fixpoint bounce_pairs (env : kcryptd_env) (segs : list bio_vec) (p : nat)
    : list (bio_vec * Z) :=
  match segs with
  | [] => []
  | bv :: rest =>
      if PageHighMem env (bv_page bv)
      then (bv, page_pool_alloc env p true) :: bounce_pairs env rest (S p)
      else bounce_pairs env rest p
  end.

(** A segment as [memset] leaves it. *)
Definition cleared_segment : bio_vec :=
  {| bv_page := 0; bv_len := 0; bv_offset := 0 |}.

(** The vector of the new bio in the first loop of [crypt_map]: the one
    that was allocated, or the cleared vector that the first bounce will
    allocate. *)
Definition new_vector (b : bio) (nv : option (list bio_vec)) : list bio_vec :=
  match nv with
  | Some v => v
  | None => repeat cleared_segment (Z.to_nat (bi_vcnt b))
  end.

(** ** What the module holds *)

Definition module_resource_eqb (a b : module_resource) : bool :=
  match a, b with
  | crypt_io_cache, crypt_io_cache
  | kcryptd_workqueue, kcryptd_workqueue
  | crypt_target_registered, crypt_target_registered => true
  | _, _ => false
  end.

(** The resources held after a run of events, the latest first, as long
    as every resource that is given back is the latest one taken; [None]
    otherwise. *)
Fixpoint held_after (evs : list module_event) (held : list module_resource)
    : option (list module_resource) :=
  match evs with
  | [] => Some held
  | acquired r :: evs' => held_after evs' (r :: held)
  | released r :: evs' =>
      match held with
      | top :: rest =>
          if module_resource_eqb r top then held_after evs' rest else None
      | [] => None
      end
  | _ :: evs' => held_after evs' held
  end.

(** * Part III: concrete inputs of the examples *)
(* ================================================================== *)

(** A bio of one 1024-byte segment on page 7, at sector 8. *)
Definition example_bio (rw : Z) : bio :=
  {| bi_sector := 8; bi_rw := rw; bi_flags := 1; bi_vcnt := 1; bi_idx := 0;
     bi_size := 1024;
     bi_io_vec := [{| bv_page := 7; bv_len := 1024; bv_offset := 0 |}];
     bi_private := None |}.

(** Its [crypt_io], holding [refs] references. *)
Definition example_io (rw : Z) (refs : Z) : crypt_io :=
  {| target := {| begin := 0; len := 2048 |};
     base_bio := example_bio rw; pending := refs; error := 0;
     post_process := 0 |}.

(** A cipher that always succeeds and an identity single-block cipher. *)
Definition example_env : blkcipher_env :=
  {| crypto_cipher_encrypt_one := fun _ block => block;
     blkcipher_result := fun _ _ => 0 |}.

(** A target as [aes-cbc-plain] (generator installed, 16-byte IV) or
    [aes-ecb] (no generator, no IV) leaves it. *)
Definition example_cc (mode : string) (ops : option crypt_iv_operations)
    (ivsz : Z) : crypt_config :=
  {| dev := Some "sda1"%string; start := 0; io_pool := true;
     page_pool := true; bs := true; iv_gen_ops := ops;
     iv_mode := match ops with Some _ => Some "plain"%string | None => None end;
     iv_gen_private := private_zero; iv_offset := 0; iv_size := ivsz;
     cipher := "aes"; chainmode := mode;
     cr_dm := {| cri_alg := 0; cri_klen := 0 |}; ocf_cryptoid := 0;
     tfm := Some {| blk_alg := "aes"; blk_blocksize := 16; blk_ivsize := ivsz |};
     flags := 2; key_size := 0; key := fun _ => 0; key_alloc := 0 |}.

Definition example_cc_plain : crypt_config :=
  example_cc "cbc" (Some crypt_iv_plain_ops) 16.

Definition example_cc_ecb : crypt_config := example_cc "ecb" None 0.

(** A target whose cipher has 16-byte blocks, before and after
    [crypt_iv_benbi_ctr]. *)
Definition example_cc_benbi (priv : iv_gen_private_t) : crypt_config :=
  {| dev := Some "sda1"%string; start := 0; io_pool := true;
     page_pool := true; bs := true; iv_gen_ops := Some crypt_iv_benbi_ops;
     iv_mode := Some "benbi"%string;
     iv_gen_private := priv; iv_offset := 0; iv_size := 16;
     cipher := "aes"; chainmode := "lrw";
     cr_dm := {| cri_alg := 0; cri_klen := 0 |}; ocf_cryptoid := 0;
     tfm := Some {| blk_alg := "lrw(aes)"; blk_blocksize := 16;
                    blk_ivsize := 16 |};
     flags := 2; key_size := 0; key := fun _ => 0; key_alloc := 0 |}.

(** A kernel in which every request of the constructor is granted. *)
Definition example_ctr_env : ctr_env :=
  {| kzalloc_fails := false;
     heap_behind := fun _ => 170;
     crypto_alloc_blkcipher :=
       fun name => inl {| blk_alg := name; blk_blocksize := 16;
                          blk_ivsize := 16 |};
     crypto_blkcipher_setkey := fun _ _ => 0;
     crypto_newsession := fun _ _ => (0, 1);
     crypto_alloc_hash := fun _ => inl 32;
     kmalloc_salt_fails := false;
     crypto_hash_digest := fun _ _ => (0, repeat 0 32);
     crypto_alloc_cipher := fun _ => inl 16;
     crypto_cipher_setkey := fun _ _ => 0;
     mempool_create_slab_pool_fails := false;
     mempool_create_page_pool_fails := false;
     bioset_create_fails := false;
     dm_get_device := fun _ => 0;
     kmalloc_iv_mode_fails := false |}.

(** An engine that accepts every request at once and completes
    [in_time] of them within the 30 seconds of a write barrier; pages lie
    one after the other. *)
Definition example_ocf_env (in_time : nat) : ocf_env :=
  {| CONFIG_HIGHMEM := false;
     page_address := fun p => p * PAGE_SIZE;
     ocf_encrypt_one := fun _ block => block;
     crypto_getreq_fails := fun _ => false;
     crypto_dispatch_refusals := fun _ => 0%nat;
     kmalloc_wr_priv_fails := false;
     completions_in_time := in_time |}.

(** A world at rest, with recognisable memory contents. *)
Definition example_ocf_world : ocf_world :=
  {| mem := fun a => a mod 251;
     _crypt_requests := 0;
     inflight := [];
     dispatched := [];
     wr_priv := None;
     the_io := example_io WRITE 1;
     io_events := [];
     klog := [];
     getreq_calls := 0 |}.

(** A one-sector write: the original bio and the clone it is encrypted
    into. *)
Definition example_write_bio (page : Z) : bio :=
  {| bi_sector := 8; bi_rw := WRITE; bi_flags := 1; bi_vcnt := 1;
     bi_idx := 0; bi_size := 512;
     bi_io_vec := [{| bv_page := page; bv_len := 512; bv_offset := 0 |}];
     bi_private := None |}.

(** A target as [aes-cbc-plain] leaves it in the OCF build. *)
Definition example_cc_ocf : crypt_config :=
  {| dev := Some "sda1"%string; start := 0; io_pool := true;
     page_pool := true; bs := true; iv_gen_ops := Some crypt_iv_plain_ops;
     iv_mode := Some "plain"%string;
     iv_gen_private := private_zero; iv_offset := 0; iv_size := 16;
     cipher := "aes"; chainmode := "cbc";
     cr_dm := {| cri_alg := CRYPTO_AES_CBC; cri_klen := 128 |};
     ocf_cryptoid := 1; tfm := None;
     flags := 2; key_size := 16; key := fun _ => 0; key_alloc := 16 |}.

(** The context of that write: from page 7 into page 9. *)
Definition example_write_ctx : convert_context :=
  {| bio_in := Some (example_write_bio 7);
     bio_out := Some (example_write_bio 9);
     offset_in := 0; offset_out := 0; idx_in := 0; idx_out := 0;
     sector := 8; write := 1 |}.

(* ================================================================== *)

(** A kernel whose page pool hands out pages 100, 101, ... to calls that
    may wait and refuses the others, whose bio allocations succeed, and
    in which the pages below 100 lie in high memory. *)
Definition example_kcryptd_env (highmem : bool) : kcryptd_env :=
  {| k_highmem := highmem;
     k_cipher := example_env;
     page_pool_alloc := fun n wait => if wait then 100 + Z.of_nat n else 0;
     bio_alloc_bioset_fails := fun _ _ => false;
     PageHighMem := fun p => p <? 100 |}.

(** A request for the bio [b], as [crypt_map] queues it. *)
Definition example_request (b : bio) : kcryptd_state :=
  {| k_io := {| target := {| begin := 0; len := 2048 |}; base_bio := b;
                pending := 0; error := 0; post_process := 0 |};
     k_hist := []; k_events := []; k_pages := 0; k_bios := 0 |}.

(** A bio of ten pages at sector 64. *)
Definition example_long_bio (rw : Z) : bio :=
  {| bi_sector := 64; bi_rw := rw; bi_flags := 1; bi_vcnt := 10;
     bi_idx := 0; bi_size := 10 * 4096;
     bi_io_vec := map (fun p => {| bv_page := p; bv_len := 4096;
                                   bv_offset := 0 |})
                      [10; 11; 12; 13; 14; 15; 16; 17; 18; 19];
     bi_private := None |}.

(** A bio of two segments, the second of them in high memory. *)
Definition example_highmem_bio (rw : Z) : bio :=
  {| bi_sector := 8; bi_rw := rw; bi_flags := 1; bi_vcnt := 2;
     bi_idx := 0; bi_size := 1024;
     bi_io_vec := [{| bv_page := 1001; bv_len := 512; bv_offset := 0 |};
                   {| bv_page := 7; bv_len := 512; bv_offset := 512 |}];
     bi_private := None |}.

(** An engine without a free request, and a read request that holds one
    reference. *)
Definition example_ocf_env_busy : ocf_env :=
  {| CONFIG_HIGHMEM := false;
     page_address := fun p => p * PAGE_SIZE;
     ocf_encrypt_one := fun _ block => block;
     crypto_getreq_fails := fun _ => true;
     crypto_dispatch_refusals := fun _ => 0%nat;
     kmalloc_wr_priv_fails := false;
     completions_in_time := 0 |}.

Definition example_ocf_read_world : ocf_world :=
  {| mem := fun a => a mod 251;
     _crypt_requests := 0;
     inflight := [];
     dispatched := [];
     wr_priv := None;
     the_io := example_io READ 1;
     io_events := [];
     klog := [];
     getreq_calls := 0 |}.

(** * Part IV: properties *)
(* ================================================================== *)

(** ** Lists and integers *)

Lemma map_seq_const {A : Type} (f : nat -> A) (c : A) (n s : nat) :
  (forall j, (s <= j < s + n)%nat -> f j = c) ->
  map f (seq s n) = repeat c n.
Proof.
  revert s. induction n as [|n IH]; intros s H; cbn [seq map repeat].
  - reflexivity.
  - rewrite (H s) by lia. f_equal. apply IH. intros j Hj. apply H. lia.
Qed.

Lemma map_seq_nth {A : Type} (f : nat -> A) (l : list A) (d : A) :
  (forall j, (j < List.length l)%nat -> f j = nth j l d) ->
  map f (seq 0 (List.length l)) = l.
Proof.
  intros H. apply (nth_ext _ _ (f 0%nat) d).
  - now rewrite length_map, length_seq.
  - intros n Hn. rewrite length_map, length_seq in Hn.
    rewrite (nth_indep _ _ (f (nth n (seq 0 (List.length l)) 0%nat)));
      [| now rewrite length_map, length_seq].
    rewrite map_nth, seq_nth by assumption. apply H. assumption.
Qed.

Lemma list_pair_ind {A : Type} (P : list A -> Prop) :
  P [] -> (forall a, P [a]) -> (forall a b l, P l -> P (a :: b :: l)) ->
  forall l, P l.
Proof.
  intros H0 H1 H2. fix IH 1. intros [|a [|b l]].
  - exact H0.
  - apply H1.
  - apply H2, IH.
Qed.

Lemma find_app_first {A : Type} (f : A -> bool) (l1 l2 : list A) :
  find f (l1 ++ l2)
  = match find f l1 with Some x => Some x | None => find f l2 end.
Proof.
  induction l1 as [|a l1 IH]; cbn [app find]; [reflexivity|].
  destruct (f a); [reflexivity | exact IH].
Qed.

Lemma skipn_nth_error {A : Type} (l : list A) (n : nat) (x : A) :
  nth_error l n = Some x -> skipn n l = x :: skipn (S n) l.
Proof.
  revert l. induction n as [|n IH]; intros [|a l] H; try discriminate H.
  - injection H as ->. reflexivity.
  - cbn [skipn]. apply IH. exact H.
Qed.

Lemma last_cons_default {A : Type} (l : list A) :
  forall x d : A, last (x :: l) d = last l x.
Proof.
  induction l as [|y l IH]; intros x d; [reflexivity|].
  change (last (x :: y :: l) d) with (last (y :: l) d).
  now rewrite !IH.
Qed.

Lemma firstn_repeat_app {A : Type} (c : A) (m : nat) (l : list A) :
  firstn m (repeat c m ++ l) = repeat c m.
Proof.
  rewrite firstn_app, repeat_length, Nat.sub_diag, firstn_O, app_nil_r.
  apply firstn_all2. now rewrite repeat_length.
Qed.

Lemma skipn_repeat_app {A : Type} (c : A) (m : nat) (l : list A) :
  skipn m (repeat c m ++ l) = l.
Proof.
  rewrite skipn_app, repeat_length, Nat.sub_diag.
  rewrite skipn_all2 by now rewrite repeat_length.
  reflexivity.
Qed.

Lemma length_list_ascii_of_string (s : string) :
  List.length (list_ascii_of_string s) = String.length s.
Proof.
  induction s as [|c s IH]; cbn [list_ascii_of_string List.length String.length];
    congruence.
Qed.

Lemma wrap_int_small (v : Z) : - 2 ^ 31 <= v < 2 ^ 31 -> wrap_int v = v.
Proof.
  intros H. unfold wrap_int. rewrite Z.mod_small; lia.
Qed.

Lemma wrap64_succ_add (s k : Z) :
  wrap64 (wrap64 (s + 1) + k) = wrap64 (s + (k + 1)).
Proof.
  unfold wrap64. rewrite Zplus_mod_idemp_l. f_equal. lia.
Qed.

(** ** Flag words *)

Lemma test_bit_set_bit_same (nr f : Z) :
  0 <= nr -> test_bit nr (set_bit nr f) = true.
Proof.
  intros Hnr. unfold test_bit, set_bit.
  rewrite Z.lor_spec, Z.shiftl_spec by assumption.
  replace (nr - nr) with 0 by lia.
  apply orb_true_r.
Qed.

Lemma test_bit_clear_bit_same (nr f : Z) :
  0 <= nr -> test_bit nr (clear_bit nr f) = false.
Proof.
  intros Hnr. unfold test_bit, clear_bit.
  rewrite Z.land_spec, Z.lnot_spec, Z.shiftl_spec by assumption.
  replace (nr - nr) with 0 by lia.
  apply andb_false_r.
Qed.

Lemma test_bit_set_bit_other (nr m f : Z) :
  0 <= m -> nr <> m -> test_bit m (set_bit nr f) = test_bit m f.
Proof.
  intros Hm Hne. unfold test_bit, set_bit.
  rewrite Z.lor_spec, Z.shiftl_spec by assumption.
  destruct (Z.ltb_spec (m - nr) 0) as [Hlt | Hge].
  - rewrite (Z.testbit_neg_r 1) by assumption. apply orb_false_r.
  - replace (Z.testbit 1 (m - nr)) with false; [apply orb_false_r|].
    symmetry. apply (Z.bits_above_log2 1 (m - nr)); simpl; lia.
Qed.

Lemma test_bit_clear_bit_other (nr m f : Z) :
  0 <= m -> nr <> m -> test_bit m (clear_bit nr f) = test_bit m f.
Proof.
  intros Hm Hne. unfold test_bit, clear_bit.
  rewrite Z.land_spec, Z.lnot_spec, Z.shiftl_spec by assumption.
  destruct (Z.ltb_spec (m - nr) 0) as [Hlt | Hge].
  - rewrite (Z.testbit_neg_r 1) by assumption. apply andb_true_r.
  - replace (Z.testbit 1 (m - nr)) with false; [apply andb_true_r|].
    symmetry. apply (Z.bits_above_log2 1 (m - nr)); simpl; lia.
Qed.

(** The two flags of the target, each set and cleared without touching
    the other. *)
Lemma key_valid_set (f : Z) :
  test_bit DM_CRYPT_KEY_VALID (set_bit DM_CRYPT_KEY_VALID f) = true.
Proof. apply test_bit_set_bit_same. unfold DM_CRYPT_KEY_VALID. lia. Qed.

Lemma key_valid_cleared (f : Z) :
  test_bit DM_CRYPT_KEY_VALID (clear_bit DM_CRYPT_KEY_VALID f) = false.
Proof. apply test_bit_clear_bit_same. unfold DM_CRYPT_KEY_VALID. lia. Qed.

Lemma suspended_set (f : Z) :
  test_bit DM_CRYPT_SUSPENDED (set_bit DM_CRYPT_SUSPENDED f) = true.
Proof. apply test_bit_set_bit_same. unfold DM_CRYPT_SUSPENDED. lia. Qed.

Lemma key_valid_suspend (f : Z) :
  test_bit DM_CRYPT_KEY_VALID (set_bit DM_CRYPT_SUSPENDED f)
  = test_bit DM_CRYPT_KEY_VALID f.
Proof.
  apply test_bit_set_bit_other;
    unfold DM_CRYPT_KEY_VALID, DM_CRYPT_SUSPENDED; lia.
Qed.

Lemma suspended_key_valid (f : Z) :
  test_bit DM_CRYPT_SUSPENDED (set_bit DM_CRYPT_KEY_VALID f)
  = test_bit DM_CRYPT_SUSPENDED f.
Proof.
  apply test_bit_set_bit_other;
    unfold DM_CRYPT_KEY_VALID, DM_CRYPT_SUSPENDED; lia.
Qed.

Lemma suspended_key_wiped (f : Z) :
  test_bit DM_CRYPT_SUSPENDED (clear_bit DM_CRYPT_KEY_VALID f)
  = test_bit DM_CRYPT_SUSPENDED f.
Proof.
  apply test_bit_clear_bit_other;
    unfold DM_CRYPT_KEY_VALID, DM_CRYPT_SUSPENDED; lia.
Qed.

Create Rewrite HintDb dm_crypt_flags.
#[export] Hint Rewrite key_valid_set key_valid_cleared suspended_set
  key_valid_suspend suspended_key_valid suspended_key_wiped : dm_crypt_flags.

(** ** Resume and the message interface *)

Lemma crypt_postsuspend_suspended (cc : crypt_config) :
  test_bit DM_CRYPT_SUSPENDED (flags (crypt_postsuspend cc)) = true.
Proof.
  unfold crypt_postsuspend. cbn [flags with_flags].
  now autorewrite with dm_crypt_flags.
Qed.

Lemma crypt_message_key_wipe (cc : crypt_config) :
  test_bit DM_CRYPT_SUSPENDED (flags cc) = true ->
  crypt_message cc ["key"; "wipe"]%string = crypt_wipe_key cc.
Proof.
  intros H. unfold crypt_message. cbv beta iota zeta. rewrite H.
  reflexivity.
Qed.

Lemma crypt_message_key_set (cc : crypt_config) (k : string) :
  test_bit DM_CRYPT_SUSPENDED (flags cc) = true ->
  crypt_message cc ["key"; "set"; k]%string = crypt_set_key cc k.
Proof.
  intros H. unfold crypt_message. cbv beta iota zeta. rewrite H.
  reflexivity.
Qed.

Lemma crypt_wipe_key_flags (cc : crypt_config) :
  test_bit DM_CRYPT_KEY_VALID (flags (snd (crypt_wipe_key cc))) = false.
Proof.
  unfold crypt_wipe_key. cbn [snd flags with_flags with_key].
  now autorewrite with dm_crypt_flags.
Qed.

(** C6.  [crypt_preresume] answers -EAGAIN exactly when the key-valid flag
    is not set and 0 otherwise; whatever the target's state, after
    [crypt_postsuspend] and a [key wipe] message (which is accepted) the
    resume is refused with -EAGAIN. *)
Theorem crypt_preresume_refuses_wiped_key (cc : crypt_config) :
  crypt_preresume cc
    = (if test_bit DM_CRYPT_KEY_VALID (flags cc) then 0 else - EAGAIN)
  /\ fst (crypt_message (crypt_postsuspend cc) ["key"; "wipe"]%string) = 0
  /\ crypt_preresume
       (snd (crypt_message (crypt_postsuspend cc) ["key"; "wipe"]%string))
     = - EAGAIN.
Proof.
  rewrite (crypt_message_key_wipe _ (crypt_postsuspend_suspended cc)).
  split; [|split].
  - unfold crypt_preresume. destruct (test_bit _ _); reflexivity.
  - reflexivity.
  - unfold crypt_preresume. rewrite crypt_wipe_key_flags. reflexivity.
Qed.

(** ** Wiping the key *)

(** C7.  [crypt_wipe_key] returns 0, clears the key-valid flag and leaves
    every one of the [key_size] bytes of the key buffer zero; the key size
    itself stays as it was. *)
Theorem crypt_wipe_key_zeroes_key (cc : crypt_config) :
  fst (crypt_wipe_key cc) = 0
  /\ test_bit DM_CRYPT_KEY_VALID (flags (snd (crypt_wipe_key cc))) = false
  /\ key_bytes (snd (crypt_wipe_key cc)) (key_size cc)
     = repeat 0 (Z.to_nat (key_size cc))
  /\ key_size (snd (crypt_wipe_key cc)) = key_size cc.
Proof.
  split; [reflexivity|]. split; [apply crypt_wipe_key_flags|].
  split; [|reflexivity].
  unfold key_bytes. apply map_seq_const. intros j Hj.
  unfold crypt_wipe_key, memset_fn.
  cbn [snd key with_key with_flags key_size].
  destruct (Z.ltb_spec (Z.of_nat j) (key_size cc * 1)) as [_|Hge];
    [reflexivity | lia].
Qed.

(** ** Setting the key *)

Lemma hex_value_range (c : ascii) (v : Z) :
  hex_value c = Some v -> 0 <= v < 16.
Proof.
  unfold hex_value.
  destruct ((48 <=? uchar c) && (uchar c <=? 57)) eqn:E1.
  { intros [= <-]. lia. }
  destruct ((97 <=? uchar c) && (uchar c <=? 102)) eqn:E2.
  { intros [= <-]. lia. }
  destruct ((65 <=? uchar c) && (uchar c <=? 70)) eqn:E3.
  { intros [= <-]. lia. }
  discriminate.
Qed.

Lemma xdigit_value_range (c : ascii) : 0 <= xdigit_value c < 16.
Proof.
  unfold xdigit_value. destruct (hex_value c) eqn:E.
  - eapply hex_value_range; eassumption.
  - lia.
Qed.

Lemma tolower_xdigit_not_x (b : ascii) :
  is_xdigit b = true -> (uchar (tolower b) =? 120) = false.
Proof.
  destruct b as [[] [] [] [] [] [] [] []]; intros H;
    solve [reflexivity | discriminate H].
Qed.

Lemma simple_strtoul16_pair (a b : ascii) :
  is_xdigit a = true -> is_xdigit b = true ->
  simple_strtoul16 [a; b] = (xdigit_value a * 16 + xdigit_value b, 2%nat).
Proof.
  intros Ha Hb. unfold simple_strtoul16.
  rewrite (tolower_xdigit_not_x b Hb), andb_false_r.
  unfold is_xdigit, xdigit_value in *. cbn [parse_hex_digits].
  destruct (hex_value a); [|discriminate].
  destruct (hex_value b); [|discriminate].
  f_equal.
Qed.

Lemma hex_bytes_length (l : list ascii) :
  is_hex_pairs l = true ->
  Z.of_nat (List.length l) = 2 * Z.of_nat (List.length (hex_bytes l)).
Proof.
  induction l as [| a | a b l IH] using list_pair_ind; cbn [is_hex_pairs].
  - reflexivity.
  - discriminate.
  - intros H. apply andb_true_iff in H as [_ H].
    cbn [hex_bytes List.length]. specialize (IH H). lia.
Qed.

(** A well-formed key decodes without error, byte for byte. *)
Lemma crypt_decode_key_loop_ok (l : list ascii) :
  is_hex_pairs l = true ->
  forall (kb : nat -> Z) (i : nat),
    fst (crypt_decode_key_loop kb l i (List.length (hex_bytes l))) = 0
    /\ forall j,
         snd (crypt_decode_key_loop kb l i (List.length (hex_bytes l))) j
         = if (i <=? j)%nat && (j <? i + List.length (hex_bytes l))%nat
           then nth (j - i) (hex_bytes l) 0 else kb j.
Proof.
  induction l as [| a | a b l IH] using list_pair_ind; cbn [is_hex_pairs].
  - intros _ kb i.
    cbn [hex_bytes List.length crypt_decode_key_loop fst snd].
    split; [reflexivity|]. intros j.
    destruct (i <=? j)%nat eqn:E1; [|reflexivity].
    destruct (j <? i + 0)%nat eqn:E2; [|reflexivity].
    apply Nat.leb_le in E1. apply Nat.ltb_lt in E2. lia.
  - discriminate.
  - intros H kb i.
    apply andb_true_iff in H as [H Hl]. apply andb_true_iff in H as [Ha Hb].
    cbn [hex_bytes List.length crypt_decode_key_loop].
    rewrite (simple_strtoul16_pair a b Ha Hb). cbn [Nat.eqb negb skipn].
    destruct (IH Hl (store_byte kb i
                (wrap8 (xdigit_value a * 16 + xdigit_value b))) (S i))
      as [IH1 IH2].
    split; [exact IH1|]. intros j. rewrite IH2. unfold store_byte.
    pose proof (xdigit_value_range a). pose proof (xdigit_value_range b).
    destruct (Nat.eqb_spec j i) as [->|Hne].
    + replace (S i <=? i)%nat with false by (symmetry; apply Nat.leb_gt; lia).
      rewrite Nat.leb_refl.
      replace (i <? i + S (List.length (hex_bytes l)))%nat with true
        by (symmetry; apply Nat.ltb_lt; lia).
      cbn [andb]. rewrite Nat.sub_diag. cbn [nth].
      unfold wrap8. apply Z.mod_small. lia.
    + destruct (S i <=? j)%nat eqn:E1.
      * apply Nat.leb_le in E1.
        replace (i <=? j)%nat with true by (symmetry; apply Nat.leb_le; lia).
        replace (i + S (List.length (hex_bytes l)))%nat
          with (S i + List.length (hex_bytes l))%nat by lia.
        destruct (j <? S i + List.length (hex_bytes l))%nat; cbn [andb];
          [|reflexivity].
        replace (j - i)%nat with (S (j - S i)) by lia. reflexivity.
      * apply Nat.leb_gt in E1.
        replace (i <=? j)%nat with false by (symmetry; apply Nat.leb_gt; lia).
        reflexivity.
Qed.

Lemma key_size_of_hex (k : string) :
  is_hex_pairs (list_ascii_of_string k) = true ->
  strlen k < 2 ^ 32 ->
  wrap32 (Z.shiftr (strlen k) 1)
  = Z.of_nat (List.length (hex_bytes (list_ascii_of_string k)))
  /\ strlen k / 2 = Z.of_nat (List.length (hex_bytes (list_ascii_of_string k))).
Proof.
  intros Hp Hlen. pose proof (hex_bytes_length _ Hp) as E.
  rewrite length_list_ascii_of_string in E. unfold strlen in *.
  rewrite Z.shiftr_div_pow2 by lia. change (2 ^ 1) with 2.
  assert (Hdiv : Z.of_nat (String.length k) / 2
           = Z.of_nat (List.length (hex_bytes (list_ascii_of_string k)))).
  { rewrite E. rewrite Z.mul_comm. apply Z.div_mul. lia. }
  split; [|exact Hdiv].
  rewrite Hdiv. unfold wrap32. apply Z.mod_small. lia.
Qed.

(** Once a key size other than zero is stored, no [crypt_set_key] changes
    it. *)
Lemma crypt_set_key_keeps_size (cc : crypt_config) (k : string) :
  key_size cc <> 0 -> key_size (snd (crypt_set_key cc k)) = key_size cc.
Proof.
  intros Hnz. unfold crypt_set_key.
  destruct (Z.eqb_spec (key_size cc) 0) as [E|_]; [contradiction|].
  destruct (Z.eqb_spec (key_size cc) (wrap32 (Z.shiftr (strlen k) 1)))
    as [E|_]; cbn [negb andb]; [|reflexivity].
  rewrite <- E.
  destruct ((key_size cc =? 0) && negb (strcmp k "-" =? 0)); [reflexivity|].
  destruct (negb (key_size cc =? 0)); [|reflexivity].
  destruct (crypt_decode_key _ _ _) as [r kb].
  destruct (r <? 0); reflexivity.
Qed.

Lemma crypt_set_key_length_rule (cc : crypt_config) (k : string) :
  key_size cc <> 0 ->
  fst (crypt_set_key cc k) = - EINVAL
  \/ wrap32 (Z.shiftr (strlen k) 1) = key_size cc.
Proof.
  intros Hnz. unfold crypt_set_key.
  destruct (Z.eqb_spec (key_size cc) 0) as [E|_]; [contradiction|].
  destruct (Z.eqb_spec (key_size cc) (wrap32 (Z.shiftr (strlen k) 1)))
    as [E|_]; cbn [negb andb]; [right; congruence | left; reflexivity].
Qed.

(** What [crypt_set_key] does on a target without a stored key size when
    it is handed a well-formed hex key. *)
Lemma crypt_set_key_fresh (cc : crypt_config) (k : string) :
  key_size cc = 0 ->
  well_formed_hex k = true ->
  strlen k < 2 ^ 32 ->
  fst (crypt_set_key cc k) = 0
  /\ key_size (snd (crypt_set_key cc k)) = strlen k / 2
  /\ 0 < strlen k / 2
  /\ key_bytes (snd (crypt_set_key cc k)) (strlen k / 2)
     = hex_bytes (list_ascii_of_string k)
  /\ test_bit DM_CRYPT_KEY_VALID (flags (snd (crypt_set_key cc k))) = true.
Proof.
  intros Hz Hwf Hlen. unfold well_formed_hex in Hwf.
  apply andb_true_iff in Hwf as [Hne Hp].
  destruct (key_size_of_hex k Hp Hlen) as [Ek Ediv].
  assert (Hpos : 0 < strlen k / 2).
  { rewrite Ediv. pose proof (hex_bytes_length _ Hp) as E.
    rewrite length_list_ascii_of_string in E.
    destruct (String.length k); [discriminate Hne|]. lia. }
  unfold crypt_set_key. rewrite Hz, Ek. cbn [Z.eqb negb andb].
  rewrite <- Ediv.
  destruct (Z.eqb_spec (strlen k / 2) 0) as [E0|_]; [lia|].
  cbn [negb andb]. unfold crypt_decode_key.
  cbn [key with_key_size]. rewrite Ediv, Nat2Z.id.
  destruct (crypt_decode_key_loop_ok _ Hp (key cc) 0%nat) as [L1 L2].
  destruct (crypt_decode_key_loop _ _ _ _) as [r kb] eqn:EL.
  cbn [fst snd] in L1, L2. subst r. cbn [Z.ltb Z.compare fst snd].
  cbn [key_size with_flags with_key with_key_size flags].
  repeat split.
  - rewrite <- Ediv. exact Hpos.
  - unfold key_bytes. rewrite Nat2Z.id. cbn [key with_flags with_key].
    apply (map_seq_nth _ _ 0). intros j Hj. rewrite L2.
    cbn [Nat.leb Nat.add]. rewrite Nat.sub_0_r.
    replace (j <? List.length (hex_bytes (list_ascii_of_string k)))%nat
      with true by (symmetry; apply Nat.ltb_lt; assumption).
    reflexivity.
  - now autorewrite with dm_crypt_flags.
Qed.

(** C9.  The same-length rule is enforced only when the stored key size is
    nonzero.  On a target whose key size is zero, [crypt_set_key] (and with
    it the message [key set] on the suspended target) accepts every
    well-formed hex key, of whatever length, decodes it into the key
    buffer, sets key-valid and stores half the string length as the key
    size; from then on the stored size is permanent: no later
    [crypt_set_key] and no [crypt_wipe_key] changes it, and a later key of
    another length is refused with -EINVAL. *)
Theorem crypt_set_key_zero_size_installs_any_length
    (cc : crypt_config) (k : string) :
  key_size cc = 0 ->
  well_formed_hex k = true ->
  strlen k < 2 ^ 32 ->
  fst (crypt_set_key cc k) = 0
  /\ key_size (snd (crypt_set_key cc k)) = strlen k / 2
  /\ 0 < strlen k / 2
  /\ key_bytes (snd (crypt_set_key cc k)) (strlen k / 2)
     = hex_bytes (list_ascii_of_string k)
  /\ test_bit DM_CRYPT_KEY_VALID (flags (snd (crypt_set_key cc k))) = true
  /\ crypt_message (crypt_postsuspend cc) ["key"; "set"; k]%string
     = crypt_set_key (crypt_postsuspend cc) k
  /\ (forall k2 : string,
        key_size (snd (crypt_set_key (snd (crypt_set_key cc k)) k2))
        = strlen k / 2)
  /\ (forall k2 : string,
        fst (crypt_set_key (snd (crypt_set_key cc k)) k2) = - EINVAL
        \/ wrap32 (Z.shiftr (strlen k2) 1) = strlen k / 2)
  /\ key_size (snd (crypt_wipe_key (snd (crypt_set_key cc k)))) = strlen k / 2.
Proof.
  intros Hz Hwf Hlen.
  destruct (crypt_set_key_fresh cc k Hz Hwf Hlen) as (R & S & P & B & V).
  repeat (split; [assumption|]).
  assert (Hnz : key_size (snd (crypt_set_key cc k)) <> 0) by lia.
  split; [|split; [|split]].
  - apply crypt_message_key_set, crypt_postsuspend_suspended.
  - intros k2. rewrite crypt_set_key_keeps_size; assumption.
  - intros k2. rewrite <- S. apply crypt_set_key_length_rule. assumption.
  - unfold crypt_wipe_key. cbn [snd key_size with_key with_flags]. exact S.
Qed.

(** A target set up with the no-key string, then given a 16-byte key: the
    bytes land behind the allocation, which has no room for a key. *)
Lemma crypt_set_key_zero_size_witness :
  let cc := snd (crypt_set_key (kzalloc_crypt_config 0 (fun _ => 170)) "-") in
  let k := "000102030405060708090a0b0c0d0e0f"%string in
  key_size cc = 0 /\ key_alloc cc = 0
  /\ fst (crypt_set_key cc k) = 0
  /\ key_size (snd (crypt_set_key cc k)) = 16
  /\ key_bytes (snd (crypt_set_key cc k)) 16
     = [0; 1; 2; 3; 4; 5; 6; 7; 8; 9; 10; 11; 12; 13; 14; 15].
Proof.
  intros cc k.
  destruct (crypt_set_key_zero_size_installs_any_length cc k)
    as (R & S & _ & B & _).
  - reflexivity.
  - reflexivity.
  - reflexivity.
  - split; [reflexivity|]. split; [reflexivity|]. split; [exact R|].
    split; [exact S | exact B].
Defined.

(** ** The benbi IV *)

Lemma be_value_snoc (l : list Z) (b : Z) :
  be_value (l ++ [b]) = be_value l * 256 + b.
Proof. unfold be_value. rewrite fold_left_app. reflexivity. Qed.

Lemma be_value_rev_le_bytes (n : nat) (v : Z) :
  be_value (rev (le_bytes n v)) = v mod 256 ^ Z.of_nat n.
Proof.
  revert v. induction n as [|n IH]; intros v.
  - cbn. now rewrite Z.mod_1_r.
  - cbn [le_bytes rev]. rewrite be_value_snoc, IH.
    rewrite Nat2Z.inj_succ, Z.pow_succ_r by lia.
    rewrite (Z.rem_mul_r v 256 (256 ^ Z.of_nat n)) by lia. lia.
Qed.

Lemma le_bytes_length (n : nat) (v : Z) : List.length (le_bytes n v) = n.
Proof.
  revert v. induction n as [|n IH]; intros v; cbn [le_bytes List.length];
    [reflexivity | now rewrite IH].
Qed.

Lemma le_bytes_are_bytes (n : nat) (v : Z) : Forall is_byte (le_bytes n v).
Proof.
  revert v. induction n as [|n IH]; intros v; cbn [le_bytes]; constructor.
  - unfold is_byte. apply Z.mod_pos_bound. lia.
  - apply IH.
Qed.

Lemma cpu_to_be64_value (v : Z) :
  0 <= v < 2 ^ 64 -> be_value (cpu_to_be64 v) = v.
Proof.
  intros Hv. unfold cpu_to_be64. rewrite be_value_rev_le_bytes.
  apply Z.mod_small. exact Hv.
Qed.

Lemma power_of_two_log2 (n : Z) : power_of_two n <-> n = 2 ^ Z.log2 n /\ 0 < n.
Proof.
  split.
  - intros (k & Hk & ->). rewrite Z.log2_pow2 by assumption.
    split; [reflexivity|]. apply Z.pow_pos_nonneg; lia.
  - intros [E Hpos]. exists (Z.log2 n). split; [apply Z.log2_nonneg | exact E].
Qed.

Lemma crypt_iv_benbi_ctr_spec (cc : crypt_config) (t : crypto_blkcipher) :
  tfm cc = Some t ->
  0 < blk_blocksize t < 2 ^ 32 ->
  exists r cc' err,
    crypt_iv_benbi_ctr cc = Some (r, cc', err)
    /\ ((power_of_two (blk_blocksize t) /\ blk_blocksize t <= 512
         /\ r = 0 /\ err = None
         /\ iv_gen_private cc' = benbi_shift (9 - Z.log2 (blk_blocksize t)))
        \/ (~ (power_of_two (blk_blocksize t) /\ blk_blocksize t <= 512)
            /\ r = - EINVAL /\ cc' = cc)).
Proof.
  intros Ht Hb. unfold crypt_iv_benbi_ctr. rewrite Ht.
  set (b := blk_blocksize t) in *.
  unfold ilog2. destruct (Z.eqb_spec b 0) as [E|_]; [lia|].
  pose proof (Z.log2_nonneg b) as Hl0.
  destruct (Z.ltb_spec (Z.log2 b) 0) as [Hneg|_]; [lia|].
  destruct (Z.log2_spec b (proj1 Hb)) as [Hlo Hhi].
  rewrite Z.shiftl_1_l.
  assert (Hw : wrap32 (2 ^ Z.log2 b) = 2 ^ Z.log2 b).
  { unfold wrap32. apply Z.mod_small. split; [|lia].
    apply Z.pow_nonneg. lia. }
  rewrite Hw.
  destruct (Z.eqb_spec (2 ^ Z.log2 b) b) as [E|NE]; cbn [negb].
  - assert (Hp : power_of_two b)
      by (apply power_of_two_log2; split; [congruence | lia]).
    destruct (Z.ltb_spec 9 (Z.log2 b)) as [Hgt|Hle].
    + eexists _, _, _. split; [reflexivity|]. right.
      split; [|split; reflexivity].
      intros [_ H512].
      assert (2 ^ 10 <= 2 ^ Z.log2 b) by (apply Z.pow_le_mono_r; lia).
      change (2 ^ 10) with 1024 in *. lia.
    + eexists _, _, _. split; [reflexivity|]. left.
      split; [exact Hp|]. split; [|repeat split].
      assert (2 ^ Z.log2 b <= 2 ^ 9) by (apply Z.pow_le_mono_r; lia).
      change (2 ^ 9) with 512 in *. lia.
  - eexists _, _, _. split; [reflexivity|]. right.
    split; [|split; reflexivity].
    intros [Hp _]. apply power_of_two_log2 in Hp as [E _]. congruence.
Qed.

Lemma crypt_iv_benbi_gen_spec (cg : crypt_config) (s : Z) (iv : list Z)
    (sect : Z) :
  read_benbi_shift (iv_gen_private cg) = Some s ->
  0 <= s < 64 ->
  8 <= iv_size cg ->
  Z.of_nat (List.length iv) = iv_size cg ->
  exists iv',
    crypt_iv_benbi_gen cg iv sect = Some (0, iv')
    /\ List.length iv' = List.length iv
    /\ Forall is_byte iv'
    /\ firstn (Z.to_nat (iv_size cg - 8)) iv'
       = repeat 0 (Z.to_nat (iv_size cg - 8))
    /\ skipn (Z.to_nat (iv_size cg - 8)) iv'
       = cpu_to_be64 ((sect * 2 ^ s + 1) mod 2 ^ 64)
    /\ be_value (skipn (Z.to_nat (iv_size cg - 8)) iv')
       = (sect * 2 ^ s + 1) mod 2 ^ 64.
Proof.
  intros Hp Hs Hsz Hlen. unfold crypt_iv_benbi_gen.
  set (m := Z.to_nat (iv_size cg - 8)).
  assert (Hm : List.length iv = (m + 8)%nat) by lia.
  unfold memset.
  replace ((0 <=? iv_size cg - 8)
           && (iv_size cg - 8 <=? Z.of_nat (List.length iv))) with true
    by (symmetry; apply andb_true_iff; split; apply Z.leb_le; lia).
  rewrite Hp.
  replace ((s <? 0) || (64 <=? s)) with false
    by (symmetry; apply orb_false_iff; split;
        [apply Z.ltb_ge | apply Z.leb_gt]; lia).
  fold m.
  assert (Hv : wrap64 (wrap64 (Z.shiftl sect s) + 1)
               = (sect * 2 ^ s + 1) mod 2 ^ 64).
  { unfold wrap64. rewrite Z.shiftl_mul_pow2 by lia.
    apply Zplus_mod_idemp_l. }
  rewrite Hv. set (val := cpu_to_be64 ((sect * 2 ^ s + 1) mod 2 ^ 64)).
  assert (Hval : List.length val = 8%nat).
  { unfold val, cpu_to_be64. now rewrite length_rev, le_bytes_length. }
  assert (Hskip : List.length (skipn m iv) = 8%nat)
    by (rewrite length_skipn; lia).
  unfold store_bytes. rewrite Hval, length_app, repeat_length, Hskip.
  replace ((0 <=? iv_size cg - 8)
           && (iv_size cg - 8 + Z.of_nat 8 <=? Z.of_nat (m + 8))) with true
    by (symmetry; apply andb_true_iff; split; apply Z.leb_le; lia).
  rewrite firstn_repeat_app.
  rewrite (skipn_all2 (n := (m + 8)%nat))
    by (rewrite length_app, repeat_length, Hskip; lia).
  rewrite app_nil_r.
  eexists. split; [reflexivity|].
  split; [rewrite length_app, repeat_length, Hval; lia|].
  split.
  { apply Forall_app. split.
    - apply Forall_forall. intros x Hx. apply repeat_spec in Hx. subst x.
      unfold is_byte. lia.
    - unfold val, cpu_to_be64. apply Forall_rev, le_bytes_are_bytes. }
  split; [apply firstn_repeat_app|].
  rewrite skipn_repeat_app. split; [reflexivity|].
  unfold val. apply cpu_to_be64_value. apply Z.mod_pos_bound. lia.
Qed.

(** C4.  [crypt_iv_benbi_ctr] stores the shift 9 - log2(block size) and
    returns 0 when the cipher block size is a power of two not above 512,
    and fails with -EINVAL otherwise; [crypt_iv_benbi_gen] returns 0 with
    an IV whose bytes are all zero except the last eight, which hold
    (sector << shift) + 1 (as a 64-bit value) in big-endian order. *)
Theorem crypt_iv_benbi_shift_and_counter
    (cc : crypt_config) (t : crypto_blkcipher)
    (cg : crypt_config) (s : Z) (iv : list Z) (sect : Z) :
  tfm cc = Some t ->
  0 < blk_blocksize t < 2 ^ 32 ->
  iv_gen_private cg = benbi_shift s ->
  0 <= s <= 9 ->
  8 <= iv_size cg ->
  Z.of_nat (List.length iv) = iv_size cg ->
  (exists r cc' err,
     crypt_iv_benbi_ctr cc = Some (r, cc', err)
     /\ ((power_of_two (blk_blocksize t) /\ blk_blocksize t <= 512
          /\ r = 0 /\ err = None
          /\ iv_gen_private cc' = benbi_shift (9 - Z.log2 (blk_blocksize t)))
         \/ (~ (power_of_two (blk_blocksize t) /\ blk_blocksize t <= 512)
             /\ r = - EINVAL /\ cc' = cc)))
  /\ (exists iv',
        crypt_iv_benbi_gen cg iv sect = Some (0, iv')
        /\ List.length iv' = List.length iv
        /\ Forall is_byte iv'
        /\ firstn (Z.to_nat (iv_size cg - 8)) iv'
           = repeat 0 (Z.to_nat (iv_size cg - 8))
        /\ skipn (Z.to_nat (iv_size cg - 8)) iv'
           = cpu_to_be64 ((sect * 2 ^ s + 1) mod 2 ^ 64)
        /\ be_value (skipn (Z.to_nat (iv_size cg - 8)) iv')
           = (sect * 2 ^ s + 1) mod 2 ^ 64).
Proof.
  intros Ht Hb Hp Hs Hsz Hlen. split.
  - apply crypt_iv_benbi_ctr_spec; assumption.
  - apply crypt_iv_benbi_gen_spec; try (assumption || lia).
    rewrite Hp. reflexivity.
Qed.

(** A cipher with 16-byte blocks: the shift is 5, and sector 3 gives the
    counter 3 * 32 + 1. *)
Lemma crypt_iv_benbi_shift_and_counter_witness :
  (exists cc' err,
     crypt_iv_benbi_ctr (example_cc_benbi private_zero) = Some (0, cc', err)
     /\ iv_gen_private cc' = benbi_shift 5)
  /\ (exists iv',
        crypt_iv_benbi_gen (example_cc_benbi (benbi_shift 5)) (repeat 255 16) 3
        = Some (0, iv')
        /\ firstn 8 iv' = repeat 0 8
        /\ be_value (skipn 8 iv') = 97).
Proof.
  destruct (crypt_iv_benbi_shift_and_counter
              (example_cc_benbi private_zero)
              {| blk_alg := "lrw(aes)"; blk_blocksize := 16; blk_ivsize := 16 |}
              (example_cc_benbi (benbi_shift 5)) 5 (repeat 255 16) 3)
    as [(r & cc' & err & E & D) (iv' & G & _ & _ & F & _ & V)].
  - reflexivity.
  - cbn. lia.
  - reflexivity.
  - lia.
  - cbn. lia.
  - reflexivity.
  - split.
    + destruct D as [(_ & _ & -> & _ & P) | (N & _)].
      * exists cc', err. split; [exact E | exact P].
      * exfalso. apply N. split; [exists 4; split; [lia | reflexivity] | cbn; lia].
    + exists iv'. split; [exact G|]. split; [exact F | exact V].
Defined.

(** ** The latched error of a request *)

Lemma latest_failure_cons (e : Z) (errs : list Z) (d : Z) :
  latest_failure (e :: errs) d
  = latest_failure errs (if e <? 0 then e else d).
Proof.
  unfold latest_failure. cbn [rev]. rewrite find_app_first.
  destruct (find _ (rev errs)); [reflexivity|].
  cbn [find]. destruct (e <? 0); reflexivity.
Qed.

Lemma latest_failure_snoc (errs : list Z) (e d : Z) :
  latest_failure (errs ++ [e]) d
  = (if e <? 0 then e else latest_failure errs d).
Proof.
  unfold latest_failure. rewrite rev_app_distr. cbn [rev app find].
  destruct (e <? 0); reflexivity.
Qed.

Lemma completions_copy_back (ts fs : list bio_vec) :
  completions (bounce_copy_back ts fs) = [].
Proof.
  revert fs. induction ts as [|t ts IH]; intros [|f fs];
    cbn [bounce_copy_back]; try reflexivity.
  destruct (bv_page t =? bv_page f); [apply IH|].
  unfold completions. cbn [filter]. apply IH.
Qed.

Lemma completions_free (fs ts : list bio_vec) :
  completions (bounce_free fs ts) = [].
Proof.
  revert ts. induction fs as [|f fs IH]; intros [|t ts];
    cbn [bounce_free]; try reflexivity.
  destruct (bv_page t =? bv_page f); [apply IH|].
  unfold completions. cbn [filter]. apply IH.
Qed.

Lemma completions_app (l1 l2 : list io_event) :
  completions (l1 ++ l2) = completions l1 ++ completions l2.
Proof. unfold completions. apply filter_app. Qed.

(** A call that is not the last one only moves the counter and,
    for a failure, the latch. *)
Lemma dec_pending_not_last (hm : bool) (io : crypt_io) (e : Z) :
  1 < pending io < 2 ^ 31 ->
  exists io',
    dec_pending hm io e = Some (io', [])
    /\ pending io' = pending io - 1
    /\ error io' = (if e <? 0 then e else error io)
    /\ base_bio io' = base_bio io.
Proof.
  intros Hp. unfold dec_pending, atomic_dec_and_test.
  destruct (e <? 0); cbn [pending error base_bio target post_process];
    rewrite wrap_int_small by lia;
    (destruct (Z.eqb_spec (pending io - 1) 0) as [E|_]; [lia|]);
    cbn [negb]; eexists; (split; [reflexivity|]); repeat split.
Qed.

(** The last call completes the original bio with the latch. *)
Lemma dec_pending_last (hm : bool) (io : crypt_io) (e : Z) :
  pending io = 1 ->
  bounce_linked hm io = true ->
  exists io' evs,
    dec_pending hm io e = Some (io', evs)
    /\ pending io' = 0
    /\ error io' = (if e <? 0 then e else error io)
    /\ completions evs
       = [bio_endio (original_bio hm io) (if e <? 0 then e else error io)].
Proof.
  intros Hp Hb. unfold dec_pending, atomic_dec_and_test.
  unfold bounce_linked in Hb. unfold original_bio.
  destruct (e <? 0); cbn [pending error base_bio target post_process];
    rewrite Hp; cbn [Z.sub Z.add Z.opp Z.pos_sub];
    change (wrap_int 0) with 0; cbn [Z.eqb negb];
    (destruct (hm && bio_flagged (base_bio io) BIO_BOUNCED);
     [ destruct (bi_private (base_bio io)) as [o|]; [|discriminate Hb]
     | ]);
    eexists _, _; (split; [reflexivity|]); (split; [reflexivity|]);
    (split; [reflexivity|]);
    rewrite ?completions_app, ?completions_free;
    try (destruct (bio_data_dir (base_bio io) =? READ);
         rewrite ?completions_copy_back);
    reflexivity.
Qed.

(** While references remain, a run of calls completes nothing and leaves
    the last failure in the latch. *)
Lemma dec_pending_calls_open (hm : bool) (errs : list Z) :
  forall (io : crypt_io) (k : Z),
    0 < k ->
    pending io = Z.of_nat (List.length errs) + k ->
    pending io < 2 ^ 31 ->
    exists io',
      dec_pending_calls hm io errs = Some (io', [])
      /\ pending io' = k
      /\ error io' = latest_failure errs (error io)
      /\ base_bio io' = base_bio io.
Proof.
  induction errs as [|e errs IH]; intros io k Hk Hp Hlt.
  - exists io. cbn in *. repeat split. lia.
  - cbn [List.length] in Hp. cbn [dec_pending_calls].
    destruct (dec_pending_not_last hm io e) as (io1 & E1 & P1 & L1 & B1);
      [lia|].
    rewrite E1.
    destruct (IH io1 k Hk) as (io2 & E2 & P2 & L2 & B2); [lia | lia |].
    rewrite E2. exists io2. split; [reflexivity|]. split; [exact P2|].
    split; [|congruence].
    rewrite latest_failure_cons, L2, L1. reflexivity.
Qed.

Lemma dec_pending_calls_app (hm : bool) (l1 l2 : list Z) (io : crypt_io) :
  dec_pending_calls hm io (l1 ++ l2)
  = match dec_pending_calls hm io l1 with
    | None => None
    | Some (io1, ev1) =>
        match dec_pending_calls hm io1 l2 with
        | None => None
        | Some (io2, ev2) => Some (io2, ev1 ++ ev2)
        end
    end.
Proof.
  revert io. induction l1 as [|e l1 IH]; intros io; cbn [app dec_pending_calls].
  - destruct (dec_pending_calls hm io l2) as [[io2 ev2]|]; reflexivity.
  - destruct (dec_pending hm io e) as [[io1 ev1]|]; [|reflexivity].
    rewrite IH.
    destruct (dec_pending_calls hm io1 l1) as [[io2 ev2]|]; [|reflexivity].
    destruct (dec_pending_calls hm io2 l2) as [[io3 ev3]|]; [|reflexivity].
    now rewrite app_assoc.
Qed.

(** C1, as the code has it.  When [dec_pending] is called once per
    reference on a request whose latch starts at 0, the calls return, only
    the last of them completes a bio, and it completes the original bio
    exactly once, with the latched error; the latch holds the LAST negative
    error passed (0 if none was): a success never changes it, a later
    failure replaces an earlier one. *)
Theorem dec_pending_latches_last_failure
    (hm : bool) (io : crypt_io) (errs : list Z) :
  errs <> [] ->
  pending io = Z.of_nat (List.length errs) ->
  pending io < 2 ^ 31 ->
  error io = 0 ->
  bounce_linked hm io = true ->
  exists io' evs io1,
    dec_pending_calls hm io errs = Some (io', evs)
    /\ pending io' = 0
    /\ error io' = last_negative errs
    /\ completions evs = [bio_endio (original_bio hm io) (last_negative errs)]
    /\ dec_pending_calls hm io (removelast errs) = Some (io1, []).
Proof.
  intros Hne Hp Hlt He Hb.
  destruct (exists_last Hne) as (l & e & ->).
  rewrite removelast_last.
  rewrite length_app in Hp. cbn [List.length] in Hp.
  destruct (dec_pending_calls_open hm l io 1) as (io1 & E1 & P1 & L1 & B1);
    [lia | lia | lia |].
  assert (Hb1 : bounce_linked hm io1 = true)
    by (unfold bounce_linked in *; rewrite B1; exact Hb).
  destruct (dec_pending_last hm io1 e P1 Hb1) as (io2 & evs & E2 & P2 & L2 & C2).
  rewrite dec_pending_calls_app, E1. cbn [dec_pending_calls]. rewrite E2.
  exists io2, (evs ++ []), io1. split; [reflexivity|].
  split; [exact P2|].
  assert (Hlast : (if e <? 0 then e else error io1) = last_negative (l ++ [e])).
  { change (last_negative (l ++ [e])) with (latest_failure (l ++ [e]) 0).
    rewrite latest_failure_snoc, L1, He. reflexivity. }
  split; [congruence|]. split; [|reflexivity].
  rewrite app_nil_r, C2, Hlast. unfold original_bio. rewrite B1. reflexivity.
Qed.

(** Three references, dropped with a failure, a success and another
    failure. *)
Lemma dec_pending_latches_last_failure_witness :
  exists io' evs,
    dec_pending_calls false (example_io WRITE 3) [- EIO; 0; - ENOMEM]
    = Some (io', evs)
    /\ error io' = - ENOMEM
    /\ completions evs = [bio_endio (example_bio WRITE) (- ENOMEM)].
Proof.
  destruct (dec_pending_latches_last_failure false (example_io WRITE 3)
              [- EIO; 0; - ENOMEM])
    as (io' & evs & io1 & H1 & H2 & H3 & H4 & H5).
  - discriminate.
  - reflexivity.
  - reflexivity.
  - reflexivity.
  - reflexivity.
  - exists io', evs. split; [exact H1|]. split; [exact H3 | exact H4].
Defined.

(** C1 as stated fails: two references dropped with -EIO and then -ENOMEM
    complete the bio with -ENOMEM, the later failure, not with -EIO. *)
Lemma dec_pending_first_failure_not_kept :
  ~ first_failure_latched false (example_io WRITE 2) [- EIO; - ENOMEM].
Proof.
  unfold first_failure_latched. intros H.
  destruct (H _ _ eq_refl) as [E _].
  vm_compute in E. discriminate E.
Qed.

(** ** IV generation *)

Lemma memset_ok (buf : list Z) (c n : Z) :
  0 <= n <= Z.of_nat (List.length buf) ->
  exists buf', memset buf c n = Some buf'
               /\ List.length buf' = List.length buf.
Proof.
  intros H. unfold memset.
  replace ((0 <=? n) && (n <=? Z.of_nat (List.length buf))) with true
    by (symmetry; apply andb_true_iff; split; apply Z.leb_le; lia).
  eexists. split; [reflexivity|].
  rewrite length_app, repeat_length, length_skipn. lia.
Qed.

Lemma store_bytes_ok (buf : list Z) (off : Z) (bytes : list Z) :
  0 <= off ->
  off + Z.of_nat (List.length bytes) <= Z.of_nat (List.length buf) ->
  exists buf', store_bytes buf off bytes = Some buf'
               /\ List.length buf' = List.length buf.
Proof.
  intros H0 H1. unfold store_bytes.
  replace ((0 <=? off)
           && (off + Z.of_nat (List.length bytes)
               <=? Z.of_nat (List.length buf))) with true
    by (symmetry; apply andb_true_iff; split; apply Z.leb_le; lia).
  eexists. split; [reflexivity|].
  rewrite !length_app, length_firstn, length_skipn. lia.
Qed.

Lemma iv_buffer_length (cc : crypt_config) :
  0 <= iv_size cc -> Z.of_nat (List.length (iv_buffer cc)) = iv_size cc.
Proof. intros H. unfold iv_buffer. rewrite repeat_length. lia. Qed.

(** With a buffer that fits, every generator returns 0 and an IV. *)
Lemma generator_returns (enc : crypto_cipher -> list Z -> list Z)
    (cc : crypt_config) (ops : crypt_iv_operations) (sect : Z) :
  iv_gen_ops cc = Some ops ->
  iv_buffer_fits cc = true ->
  exists iv, generator enc ops cc (iv_buffer cc) sect = Some (0, iv).
Proof.
  intros Hops Hfit. unfold iv_buffer_fits in Hfit. rewrite Hops in Hfit.
  destruct ops; cbn [generator].
  - apply Z.leb_le in Hfit.
    pose proof (iv_buffer_length cc ltac:(lia)) as HL.
    unfold crypt_iv_plain_gen.
    destruct (memset_ok (iv_buffer cc) 0 (iv_size cc)) as (b1 & -> & L1);
      [lia|].
    destruct (store_bytes_ok b1 0 (cpu_to_le32 (Z.land sect 4294967295)))
      as (b2 & -> & L2);
      [lia | unfold cpu_to_le32; rewrite le_bytes_length; lia |].
    eexists; reflexivity.
  - apply andb_true_iff in Hfit as [H8 Hp]. apply Z.leb_le in H8.
    destruct (iv_gen_private cc) as [| t | s] eqn:Ep; try discriminate Hp.
    apply Z.leb_le in Hp.
    pose proof (iv_buffer_length cc ltac:(lia)) as HL.
    unfold crypt_iv_essiv_gen. rewrite Ep.
    destruct (memset_ok (iv_buffer cc) 0 (iv_size cc)) as (b1 & -> & L1);
      [lia|].
    destruct (store_bytes_ok b1 0 (cpu_to_le64 sect)) as (b2 & -> & L2);
      [lia | unfold cpu_to_le64; rewrite le_bytes_length; lia |].
    set (n := Z.to_nat (cipher_blocksize t)).
    destruct (store_bytes_ok b2 0 (firstn n (enc t (firstn n b2))))
      as (b3 & -> & L3); [lia | |].
    { pose proof (firstn_le_length n (enc t (firstn n b2))). lia. }
    eexists; reflexivity.
  - apply andb_true_iff in Hfit as [H8 Hp]. apply Z.leb_le in H8.
    pose proof (iv_buffer_length cc ltac:(lia)) as HL.
    assert (Hs : exists s, read_benbi_shift (iv_gen_private cc) = Some s
                           /\ 0 <= s < 64).
    { destruct (iv_gen_private cc) as [| t | s]; try discriminate Hp.
      - exists 0. split; [reflexivity | lia].
      - apply andb_true_iff in Hp as [Ha Hb].
        apply Z.leb_le in Ha. apply Z.ltb_lt in Hb.
        exists s. split; [reflexivity | lia]. }
    destruct Hs as (s & Es & Hs).
    destruct (crypt_iv_benbi_gen_spec cc s (iv_buffer cc) sect Es Hs H8 HL)
      as (iv' & E & _).
    exists iv'. exact E.
  - apply Z.leb_le in Hfit.
    pose proof (iv_buffer_length cc ltac:(lia)) as HL.
    unfold crypt_iv_null_gen.
    destruct (memset_ok (iv_buffer cc) 0 (iv_size cc)) as (b1 & -> & L1);
      [lia|].
    eexists; reflexivity.
Qed.

(** ** The cursor of the conversion *)

Lemma bio_ok_inv (b : bio) :
  bio_ok b = true ->
  0 <= bi_idx b /\ bi_vcnt b < 2 ^ 16
  /\ bi_vcnt b <= Z.of_nat (List.length (bi_io_vec b))
  /\ forall i bv, nth_error (bi_io_vec b) i = Some bv ->
                  0 <= bv_len bv <= PAGE_SIZE.
Proof.
  unfold bio_ok. intros H.
  apply andb_true_iff in H as [H Hall]. apply andb_true_iff in H as [H Hlen].
  apply andb_true_iff in H as [Hidx Hv].
  apply Z.leb_le in Hidx, Hlen. apply Z.ltb_lt in Hv.
  repeat (split; [assumption|]).
  intros i bv Hn. apply nth_error_In in Hn.
  rewrite forallb_forall in Hall. specialize (Hall bv Hn).
  apply andb_true_iff in Hall as [H1 H2].
  apply Z.leb_le in H1, H2. lia.
Qed.

Lemma segment_at (b : bio) (idx : Z) :
  bio_ok b = true -> 0 <= idx < bi_vcnt b ->
  exists bv,
    nth_error (bi_io_vec b) (Z.to_nat idx) = Some bv
    /\ 0 <= bv_len bv <= PAGE_SIZE
    /\ skipn (Z.to_nat idx) (firstn (Z.to_nat (bi_vcnt b)) (bi_io_vec b))
       = bv :: skipn (S (Z.to_nat idx))
                     (firstn (Z.to_nat (bi_vcnt b)) (bi_io_vec b)).
Proof.
  intros Hok Hidx. destruct (bio_ok_inv b Hok) as (_ & _ & Hlen & Hall).
  destruct (nth_error (bi_io_vec b) (Z.to_nat idx)) as [bv|] eqn:E.
  - exists bv. split; [reflexivity|]. split; [eapply Hall; eassumption|].
    apply skipn_nth_error. rewrite nth_error_firstn.
    replace (Z.to_nat idx <? Z.to_nat (bi_vcnt b))%nat with true
      by (symmetry; apply Nat.ltb_lt; lia).
    exact E.
  - apply nth_error_None in E. lia.
Qed.

Lemma rounds_of_nonneg (segs : list bio_vec) : 0 <= rounds_of segs.
Proof.
  induction segs as [|bv segs IH]; cbn [rounds_of fold_right]; [lia|].
  fold (rounds_of segs). lia.
Qed.

(** One round of the loop moves the input cursor to the start of the next
    segment or further into the current one, and uses up a round. *)
Lemma input_cursor_step (bin : bio) (idx off : Z) (bv : bio_vec) :
  bio_ok bin = true ->
  0 <= idx < bi_vcnt bin ->
  nth_error (bi_io_vec bin) (Z.to_nat idx) = Some bv ->
  off = 0 \/ 0 < off < bv_len bv ->
  let off1 := wrap32 (off + Z.shiftl 1 SECTOR_SHIFT) in
  let done := bv_len bv <=? off1 in
  let off' := if done then 0 else off1 in
  let idx' := if done then wrap32 (idx + 1) else idx in
  0 <= idx'
  /\ ((off' =? 0) || ((0 <? off') && (off' <? current_len bin idx')) = true)
  /\ 0 <= rounds_of (skipn (Z.to_nat idx')
                       (firstn (Z.to_nat (bi_vcnt bin)) (bi_io_vec bin)))
          - off' / 512
  /\ rounds_of (skipn (Z.to_nat idx')
                  (firstn (Z.to_nat (bi_vcnt bin)) (bi_io_vec bin)))
     - off' / 512
     <= rounds_of (skipn (Z.to_nat idx)
                     (firstn (Z.to_nat (bi_vcnt bin)) (bi_io_vec bin)))
        - off / 512 - 1.
Proof.
  intros Hok Hidx Hbv Hoff.
  destruct (bio_ok_inv bin Hok) as (_ & Hv & _ & _).
  destruct (segment_at bin idx Hok Hidx) as (bv' & E & Hlen & Hskip).
  rewrite Hbv in E. injection E as <-.
  change (Z.shiftl 1 SECTOR_SHIFT) with 512.
  change PAGE_SIZE with 4096 in Hlen.
  assert (Hw : wrap32 (off + 512) = off + 512)
    by (unfold wrap32; apply Z.mod_small; lia).
  rewrite Hw. cbv zeta.
  destruct (Z.leb_spec (bv_len bv) (off + 512)) as [Hdone|Hmore].
  - assert (Hi : wrap32 (idx + 1) = idx + 1)
      by (unfold wrap32; apply Z.mod_small; lia).
    rewrite Hi. split; [lia|]. split; [reflexivity|].
    rewrite Hskip. replace (Z.to_nat (idx + 1)) with (S (Z.to_nat idx)) by lia.
    cbn [rounds_of fold_right]. fold (rounds_of
      (skipn (S (Z.to_nat idx))
         (firstn (Z.to_nat (bi_vcnt bin)) (bi_io_vec bin)))).
    change (0 / 512) with 0.
    assert (off / 512 <= bv_len bv / 512) by (apply Z.div_le_mono; lia).
    pose proof (rounds_of_nonneg (skipn (S (Z.to_nat idx))
      (firstn (Z.to_nat (bi_vcnt bin)) (bi_io_vec bin)))).
    lia.
  - split; [lia|]. split.
    + unfold current_len. rewrite Hbv.
      replace (off + 512 =? 0) with false by (symmetry; apply Z.eqb_neq; lia).
      replace (0 <? off + 512) with true by (symmetry; apply Z.ltb_lt; lia).
      replace (off + 512 <? bv_len bv) with true
        by (symmetry; apply Z.ltb_lt; lia).
      reflexivity.
    + rewrite Hskip. cbn [rounds_of fold_right]. fold (rounds_of
        (skipn (S (Z.to_nat idx))
           (firstn (Z.to_nat (bi_vcnt bin)) (bi_io_vec bin)))).
      pose proof (rounds_of_nonneg (skipn (S (Z.to_nat idx))
        (firstn (Z.to_nat (bi_vcnt bin)) (bi_io_vec bin)))).
      assert ((off + 512) / 512 <= bv_len bv / 512)
        by (apply Z.div_le_mono; lia).
      replace (off + 512) with (off + 1 * 512) in * by lia.
      rewrite Z.div_add in * by lia. lia.
Qed.

Lemma ctx_ok_inv (ctx : convert_context) :
  ctx_ok ctx = true ->
  exists bin bout,
    bio_in ctx = Some bin /\ bio_out ctx = Some bout
    /\ bio_ok bin = true /\ bio_ok bout = true
    /\ 0 <= idx_in ctx /\ 0 <= idx_out ctx
    /\ 0 <= sector ctx < 2 ^ 64
    /\ (offset_in ctx = 0
        \/ 0 < offset_in ctx < current_len bin (idx_in ctx)).
Proof.
  unfold ctx_ok. intros H.
  destruct (bio_in ctx) as [bin|]; [|discriminate H].
  destruct (bio_out ctx) as [bout|]; [|discriminate H].
  exists bin, bout.
  apply andb_true_iff in H as [H Hoff].
  apply andb_true_iff in H as [H Hs2]. apply andb_true_iff in H as [H Hs1].
  apply andb_true_iff in H as [H Hio]. apply andb_true_iff in H as [H Hii].
  apply andb_true_iff in H as [Hbi Hbo].
  apply Z.leb_le in Hs1, Hio, Hii. apply Z.ltb_lt in Hs2.
  repeat (split; [first [reflexivity | assumption | lia]|]).
  apply orb_true_iff in Hoff as [Hoff|Hoff].
  - left. apply Z.eqb_eq. assumption.
  - right. apply andb_true_iff in Hoff as [Hlo Hhi].
    apply Z.ltb_lt in Hlo, Hhi. lia.
Qed.

Lemma crypt_convert_init_ok (cc : crypt_config) (bout bin : bio)
    (sect wr : Z) :
  bio_ok bin = true -> bio_ok bout = true ->
  ctx_ok (crypt_convert_init cc (Some bout) (Some bin) sect wr) = true.
Proof.
  intros Hi Ho. unfold ctx_ok, crypt_convert_init.
  cbn [bio_in bio_out idx_in idx_out sector offset_in].
  rewrite Hi, Ho. cbn [andb].
  destruct (bio_ok_inv bin Hi) as (Hii & _).
  destruct (bio_ok_inv bout Ho) as (Hio & _).
  pose proof (Z.mod_pos_bound (sect + iv_offset cc) (2 ^ 64) ltac:(lia)).
  unfold wrap64.
  replace (0 <=? bi_idx bin) with true by (symmetry; apply Z.leb_le; lia).
  replace (0 <=? bi_idx bout) with true by (symmetry; apply Z.leb_le; lia).
  replace (0 <=? (sect + iv_offset cc) mod 2 ^ 64) with true
    by (symmetry; apply Z.leb_le; lia).
  replace ((sect + iv_offset cc) mod 2 ^ 64 <? 2 ^ 64) with true
    by (symmetry; apply Z.ltb_lt; lia).
  reflexivity.
Qed.

Lemma sector_aligned_inv (b : bio) :
  sector_aligned b = true ->
  bio_ok b = true
  /\ forall i bv, nth_error (bi_io_vec b) i = Some bv ->
       0 < bv_len bv /\ bv_len bv mod 512 = 0
       /\ 0 <= bv_offset bv /\ bv_offset bv + bv_len bv <= PAGE_SIZE.
Proof.
  unfold sector_aligned. intros H. apply andb_true_iff in H as [Hok Hall].
  split; [exact Hok|]. intros i bv Hn. apply nth_error_In in Hn.
  rewrite forallb_forall in Hall. specialize (Hall bv Hn).
  apply andb_true_iff in Hall as [Hall H4].
  apply andb_true_iff in Hall as [Hall H3].
  apply andb_true_iff in Hall as [H1 H2].
  apply Z.ltb_lt in H1. apply Z.eqb_eq in H2. apply Z.leb_le in H3, H4.
  repeat split; assumption.
Qed.

(** Past the last segment nothing lies ahead. *)
Lemma chunks_ahead_end (b : bio) (idx off : Z) :
  0 <= idx -> bi_vcnt b <= idx -> chunks_ahead b idx off = [].
Proof.
  intros H0 H. unfold chunks_ahead.
  rewrite skipn_all2; [reflexivity|].
  rewrite length_firstn. lia.
Qed.

(** One round of the loop on one of the two bios: the chunk it hands to
    the cipher is the first that lies ahead, and the cursor moves to the
    next. *)
Lemma cursor_chunk (b : bio) (idx off : Z) (bv : bio_vec) :
  sector_aligned b = true ->
  cursor_ok b idx off ->
  idx < bi_vcnt b ->
  nth_error (bi_io_vec b) (Z.to_nat idx) = Some bv ->
  let off1 := wrap32 (off + Z.shiftl 1 SECTOR_SHIFT) in
  let done := bv_len bv <=? off1 in
  let off' := if done then 0 else off1 in
  let idx' := if done then wrap32 (idx + 1) else idx in
  chunks_ahead b idx off
  = {| sg_page := bv_page bv; sg_length := Z.shiftl 1 SECTOR_SHIFT;
       sg_offset := wrap32 (bv_offset bv + off) |}
    :: chunks_ahead b idx' off'
  /\ cursor_ok b idx' off'.
Proof.
  intros Hal (Hi0 & Hoff) Hidx Hbv.
  destruct (sector_aligned_inv b Hal) as [Hok Hall].
  destruct (bio_ok_inv b Hok) as (_ & Hv & _ & _).
  destruct (segment_at b idx Hok ltac:(lia)) as (bv' & E & _ & Hskip).
  rewrite Hbv in E. injection E as <-.
  destruct (Hall _ _ Hbv) as (Hpos & Hmod & Ho0 & Hpage).
  change (Z.shiftl 1 SECTOR_SHIFT) with 512.
  change PAGE_SIZE with 4096 in Hpage.
  assert (Hoff' : 0 <= off < bv_len bv /\ off mod 512 = 0).
  { destruct Hoff as [-> | [Hlt Hm]]; [split; [lia | reflexivity]|].
    unfold current_len in Hlt. rewrite Hbv in Hlt. split; [lia | exact Hm]. }
  destruct Hoff' as [Hlt Hm].
  assert (Hle : off + 512 <= bv_len bv).
  { apply Z.mod_divide in Hm, Hmod; try lia.
    destruct Hm as [a ->]. destruct Hmod as [c Hc]. rewrite Hc in *. lia. }
  assert (Hw : wrap32 (off + 512) = off + 512)
    by (unfold wrap32; apply Z.mod_small; lia).
  assert (Hwo : wrap32 (bv_offset bv + off) = bv_offset bv + off)
    by (unfold wrap32; apply Z.mod_small; lia).
  rewrite Hw, Hwo. cbv zeta.
  assert (Hn : Z.to_nat ((bv_len bv - off) / 512)
               = S (Z.to_nat ((bv_len bv - (off + 512)) / 512))).
  { replace (bv_len bv - off) with (bv_len bv - (off + 512) + 1 * 512) by lia.
    rewrite Z.div_add by lia.
    assert (0 <= (bv_len bv - (off + 512)) / 512) by (apply Z.div_pos; lia).
    lia. }
  unfold chunks_ahead at 1. rewrite Hskip, Hn. cbn [seg_chunks app].
  destruct (Z.leb_spec (bv_len bv) (off + 512)) as [Hdone|Hmore].
  - assert (Hi : wrap32 (idx + 1) = idx + 1)
      by (unfold wrap32; apply Z.mod_small; lia).
    rewrite Hi. split; [|split; [lia | left; reflexivity]].
    f_equal.
    replace (bv_len bv - (off + 512)) with 0 by lia.
    cbn [Z.div Z.to_nat seg_chunks app].
    unfold chunks_ahead.
    replace (Z.to_nat (idx + 1)) with (S (Z.to_nat idx)) by lia.
    destruct (skipn (S (Z.to_nat idx)) _) as [|bv2 rest] eqn:E2;
      [reflexivity|].
    cbn [chunks_of flat_map]. now rewrite Z.sub_0_r.
  - split.
    + f_equal. unfold chunks_ahead. now rewrite Hskip.
    + split; [lia|]. right. unfold current_len. rewrite Hbv.
      split; [lia|].
      replace (off + 512) with (off + 1 * 512) by lia.
      now rewrite Z.mod_add by lia.
Qed.

(** Something lies ahead of a cursor inside the bio. *)
Lemma chunks_ahead_inside (b : bio) (idx off : Z) :
  sector_aligned b = true ->
  cursor_ok b idx off ->
  idx < bi_vcnt b ->
  exists bv, nth_error (bi_io_vec b) (Z.to_nat idx) = Some bv.
Proof.
  intros Hal (Hi0 & _) Hidx.
  destruct (sector_aligned_inv b Hal) as [Hok _].
  destruct (segment_at b idx Hok ltac:(lia)) as (bv & E & _).
  exists bv. exact E.
Qed.

Lemma iter_shift {A : Type} (f : A -> A) (n : nat) (x : A) :
  Nat.iter n f (f x) = f (Nat.iter n f x).
Proof.
  induction n as [|n IH]; [reflexivity|].
  now rewrite !Nat.iter_succ, IH.
Qed.

(** Counting sectors up one by one is adding, on 64 bits. *)
Lemma iter_wrap64 (n : nat) (s : Z) :
  0 <= s < 2 ^ 64 ->
  Nat.iter n (fun x => wrap64 (x + 1)) s = wrap64 (s + Z.of_nat n).
Proof.
  intros Hs. induction n as [|n IH].
  - cbn [Nat.iter nat_rect Z.of_nat]. rewrite Z.add_0_r. unfold wrap64.
    now rewrite Z.mod_small.
  - rewrite Nat.iter_succ, IH. unfold wrap64. rewrite Zplus_mod_idemp_l.
    f_equal. lia.
Qed.

(** ** The conversion loop *)

Section SynchronousConversion.

Variable env : blkcipher_env.
Variable cc : crypt_config.
Hypothesis Hfit : iv_buffer_fits cc = true.

(** One sector through [crypt_convert_scatterlist]: exactly one cipher
    call, with the IV of that sector. *)
Lemma crypt_convert_scatterlist_spec (out inp : scatterlist)
    (n wr sect : Z) (hist : list blkcipher_call) :
  exists c,
    crypt_convert_scatterlist env cc out inp n wr sect hist
    = Some (blkcipher_result env hist c, hist ++ [c])
    /\ call_iv c = iv_of_sector env cc sect
    /\ call_nbytes c = n /\ call_dst c = out /\ call_src c = inp.
Proof.
  unfold crypt_convert_scatterlist, iv_of_sector.
  destruct (iv_gen_ops cc) as [ops|] eqn:Hops.
  - destruct (generator_returns (crypto_cipher_encrypt_one env) cc ops sect
                Hops Hfit) as (iv & ->).
    cbn [Z.ltb Z.compare]. eexists. split; [reflexivity|]. repeat split.
  - eexists. split; [reflexivity|]. repeat split.
Qed.

(** The loop of [crypt_convert] on a well-formed context: it returns, it
    makes one cipher call of 512 bytes per round with the IV of the
    running sector, and it stops at the first negative result or when a
    bio is used up. *)
Lemma crypt_convert_loop_spec :
  forall (fuel : nat) (ctx : convert_context) (r : Z)
         (hist : list blkcipher_call),
    ctx_ok ctx = true ->
    (0 < fuel)%nat ->
    rounds_left ctx < Z.of_nat fuel ->
    exists r' ctx' calls,
      crypt_convert_loop fuel env cc ctx r hist = Some (r', ctx', hist ++ calls)
      /\ Forall (fun c => call_nbytes c = 512
                          /\ sg_length (call_src c) = 512
                          /\ sg_length (call_dst c) = 512) calls
      /\ map call_iv calls
         = map (fun k => iv_of_sector env cc (wrap64 (sector ctx + Z.of_nat k)))
               (seq 0 (List.length calls))
      /\ ((Forall (fun x => 0 <= x) (call_results env hist calls)
           /\ exhausted ctx' = true
           /\ sector ctx' = wrap64 (sector ctx + Z.of_nat (List.length calls))
           /\ r' = last (call_results env hist calls) r)
          \/ (exists pre x,
                call_results env hist calls = pre ++ [x]
                /\ Forall (fun x => 0 <= x) pre
                /\ x < 0 /\ r' = x
                /\ sector ctx'
                   = wrap64 (sector ctx + Z.of_nat (List.length pre)))).
Proof.
  induction fuel as [|fuel IH]; intros ctx r hist Hok Hpos Hfuel;
    [lia|].
  destruct (ctx_ok_inv ctx Hok)
    as (bin & bout & Ei & Eo & Hbi & Hbo & Hii & Hio & Hs & Hoff).
  cbn [crypt_convert_loop]. rewrite Ei, Eo.
  destruct ((idx_in ctx <? bi_vcnt bin) && (idx_out ctx <? bi_vcnt bout))
    eqn:Hcond.
  2:{ exists r, ctx, []. rewrite app_nil_r. split; [reflexivity|].
      split; [constructor|]. split; [reflexivity|]. left.
      split; [constructor|]. split.
      - unfold exhausted. rewrite Ei, Eo, Hcond. reflexivity.
      - split; [|reflexivity]. cbn [List.length Z.of_nat].
        rewrite Z.add_0_r. unfold wrap64. symmetry. apply Z.mod_small. lia. }
  apply andb_true_iff in Hcond as [Hci Hco].
  apply Z.ltb_lt in Hci, Hco.
  destruct (segment_at bin (idx_in ctx) Hbi ltac:(lia)) as (bvi & Eni & Hli & _).
  destruct (segment_at bout (idx_out ctx) Hbo ltac:(lia)) as (bvo & Eno & _ & _).
  rewrite Eni, Eno.
  assert (Hoff' : offset_in ctx = 0 \/ 0 < offset_in ctx < bv_len bvi).
  { unfold current_len in Hoff. rewrite Eni in Hoff. exact Hoff. }
  pose proof (input_cursor_step bin (idx_in ctx) (offset_in ctx) bvi Hbi
                ltac:(lia) Eni Hoff') as Hstep.
  cbv zeta in Hstep. destruct Hstep as (Hidx' & Hoffok & Hr0 & Hrdec).
  unfold rounds_left in Hfuel. rewrite Ei in Hfuel.
  cbv zeta. cbn [sg_length write sector bio_in bio_out offset_in offset_out
                 idx_in idx_out].
  match goal with
  | |- context [crypt_convert_scatterlist env cc ?o ?i ?n ?w ?s hist] =>
      destruct (crypt_convert_scatterlist_spec o i n w s hist)
        as (c & Ec & Civ & Cn & Cd & Cs)
  end.
  rewrite Ec.
  assert (Hc512 : call_nbytes c = 512 /\ sg_length (call_src c) = 512
                  /\ sg_length (call_dst c) = 512).
  { rewrite Cn, Cd, Cs. repeat split. }
  assert (Hs0 : wrap64 (sector ctx + 0) = sector ctx).
  { rewrite Z.add_0_r. unfold wrap64. apply Z.mod_small. lia. }
  destruct (Z.ltb_spec (blkcipher_result env hist c) 0) as [Hneg|Hnn].
  - eexists _, _, [c]. split; [reflexivity|].
    split; [constructor; [exact Hc512 | constructor]|].
    split.
    { cbn [map seq List.length Z.of_nat]. rewrite Hs0, Civ. reflexivity. }
    right. exists [], (blkcipher_result env hist c).
    split; [reflexivity|]. split; [constructor|]. split; [exact Hneg|].
    split; [reflexivity|]. cbn [List.length Z.of_nat sector].
    symmetry. exact Hs0.
  - match goal with
    | |- context [crypt_convert_loop fuel env cc ?ctx2 ?r2 ?h2] =>
        destruct (IH ctx2 r2 h2) as (r' & ctx' & calls & E & F & M & O)
    end.
    + unfold ctx_ok.
      cbn [bio_in bio_out idx_in idx_out sector offset_in].
      rewrite ?Ei, ?Eo, Hbi, Hbo. cbn [andb].
      replace (0 <=? (if bv_len bvi <=? wrap32 (offset_in ctx + Z.shiftl 1 SECTOR_SHIFT)
                      then wrap32 (idx_in ctx + 1) else idx_in ctx)) with true
        by (symmetry; apply Z.leb_le; exact Hidx').
      replace (0 <=? (if bv_len bvo <=? wrap32 (offset_out ctx + Z.shiftl 1 SECTOR_SHIFT)
                      then wrap32 (idx_out ctx + 1) else idx_out ctx)) with true.
      2:{ symmetry. apply Z.leb_le.
          destruct (bv_len bvo <=? _); [|lia].
          unfold wrap32. apply Z.mod_pos_bound. lia. }
      pose proof (Z.mod_pos_bound (sector ctx + 1) (2 ^ 64) ltac:(lia)) as Hw.
      unfold wrap64.
      replace (0 <=? (sector ctx + 1) mod 2 ^ 64) with true
        by (symmetry; apply Z.leb_le; lia).
      replace ((sector ctx + 1) mod 2 ^ 64 <? 2 ^ 64) with true
        by (symmetry; apply Z.ltb_lt; lia).
      cbn [andb]. exact Hoffok.
    + lia.
    + unfold rounds_left. cbn [bio_in idx_in offset_in]. lia.
    + rewrite <- app_assoc in E. cbn [app] in E.
      exists r', ctx', (c :: calls). split; [exact E|].
      split; [constructor; assumption|].
      split.
      { cbn [map seq List.length].
        cbn [Z.of_nat]. rewrite Hs0, Civ. f_equal.
        rewrite M. rewrite <- seq_shift, map_map.
        apply map_ext. intros k. cbn [sector].
        rewrite wrap64_succ_add. do 2 f_equal. lia. }
      cbn [call_results]. destruct O as [(OA & OB & OC & OD) | (pre & x & OA & OB & OC & OD & OE)].
      * left. split; [constructor; assumption|]. split; [exact OB|].
        split.
        { rewrite OC. cbn [sector List.length]. rewrite wrap64_succ_add.
          f_equal. lia. }
        rewrite last_cons_default. exact OD.
      * right. exists (blkcipher_result env hist c :: pre), x.
        split; [rewrite OA; reflexivity|].
        split; [constructor; assumption|]. split; [exact OC|].
        split; [exact OD|]. rewrite OE. cbn [sector List.length].
        rewrite wrap64_succ_add. f_equal. lia.
Qed.

(** One call of [crypt_convert_scatterlist]: what it hands to the cipher,
    and through which entry point. *)
Lemma crypt_convert_scatterlist_call (out inp : scatterlist)
    (n wr sect : Z) (hist : list blkcipher_call) :
  exists c,
    crypt_convert_scatterlist env cc out inp n wr sect hist
    = Some (blkcipher_result env hist c, hist ++ [c])
    /\ call_iv c = iv_of_sector env cc sect
    /\ call_nbytes c = n /\ call_dst c = out /\ call_src c = inp
    /\ is_encryption (call_op c) = negb (wr =? 0).
Proof.
  unfold crypt_convert_scatterlist, iv_of_sector.
  destruct (iv_gen_ops cc) as [ops|] eqn:Hops.
  - destruct (generator_returns (crypto_cipher_encrypt_one env) cc ops sect
                Hops Hfit) as (iv & ->).
    cbn [Z.ltb Z.compare]. eexists. split; [reflexivity|].
    cbn [call_iv call_nbytes call_dst call_src call_op].
    repeat split. now destruct (wr =? 0).
  - eexists. split; [reflexivity|].
    cbn [call_iv call_nbytes call_dst call_src call_op].
    repeat split. now destruct (wr =? 0).
Qed.

(** The loop of [crypt_convert] on bios of whole sectors, round by round:
    each round hands the cipher the next chunk of the input and the next
    chunk of the output, with the IV of the running sector, and the loop
    ends when one side is used up or with the first negative result. *)
Lemma crypt_convert_loop_rounds :
  forall (fuel : nat) (ctx : convert_context) (bin bout : bio) (r : Z)
         (hist : list blkcipher_call),
    bio_in ctx = Some bin -> bio_out ctx = Some bout ->
    sector_aligned bin = true -> sector_aligned bout = true ->
    cursor_ok bin (idx_in ctx) (offset_in ctx) ->
    cursor_ok bout (idx_out ctx) (offset_out ctx) ->
    let cin := chunks_ahead bin (idx_in ctx) (offset_in ctx) in
    let cout := chunks_ahead bout (idx_out ctx) (offset_out ctx) in
    let n := Nat.min (List.length cin) (List.length cout) in
    (n < fuel)%nat ->
    exists r' ctx' calls,
      crypt_convert_loop fuel env cc ctx r hist = Some (r', ctx', hist ++ calls)
      /\ (List.length calls <= n)%nat
      /\ map call_src calls = firstn (List.length calls) cin
      /\ map call_dst calls = firstn (List.length calls) cout
      /\ Forall (fun c => call_nbytes c = 512
                          /\ sg_length (call_src c) = 512
                          /\ sg_length (call_dst c) = 512
                          /\ is_encryption (call_op c)
                             = negb (write ctx =? 0)) calls
      /\ map call_iv calls
         = map (iv_of_sector env cc)
               (sector_run (sector ctx) (List.length calls))
      /\ chunks_ahead bin (idx_in ctx') (offset_in ctx')
         = skipn (List.length calls) cin
      /\ chunks_ahead bout (idx_out ctx') (offset_out ctx')
         = skipn (List.length calls) cout
      /\ ((Forall (fun x => 0 <= x) (call_results env hist calls)
           /\ List.length calls = n
           /\ exhausted ctx' = true
           /\ sector ctx'
              = Nat.iter (List.length calls) (fun s => wrap64 (s + 1))
                         (sector ctx)
           /\ r' = last (call_results env hist calls) r)
          \/ (exists pre x,
                call_results env hist calls = pre ++ [x]
                /\ Forall (fun x => 0 <= x) pre
                /\ x < 0 /\ r' = x
                /\ sector ctx'
                   = Nat.iter (List.length pre) (fun s => wrap64 (s + 1))
                              (sector ctx))).
Proof.
  induction fuel as [|fuel IH];
    intros ctx bin bout r hist Ei Eo Hai Hao Hci Hco cin cout n Hfuel;
    [lia|].
  cbn [crypt_convert_loop]. rewrite Ei, Eo.
  destruct (Z.ltb_spec (idx_in ctx) (bi_vcnt bin)) as [Hin|Hin].
  2:{ assert (E : cin = [])
        by (apply chunks_ahead_end; [apply Hci | lia]).
      cbn [andb]. exists r, ctx, []. rewrite app_nil_r.
      subst n. rewrite E.
      cbn [List.length Nat.min firstn skipn map Nat.iter sector_run
           call_results last].
      fold cout. fold cin. rewrite E.
      repeat match goal with |- _ /\ _ => split end;
        try reflexivity; try (constructor; fail); try lia.
      left.
      repeat match goal with |- _ /\ _ => split end;
        try reflexivity; try (constructor; fail).
      unfold exhausted. rewrite Ei, Eo.
      replace (idx_in ctx <? bi_vcnt bin) with false
        by (symmetry; apply Z.ltb_ge; lia).
      reflexivity. }
  destruct (Z.ltb_spec (idx_out ctx) (bi_vcnt bout)) as [Hout|Hout].
  2:{ assert (E : cout = [])
        by (apply chunks_ahead_end; [apply Hco | lia]).
      cbn [andb]. exists r, ctx, []. rewrite app_nil_r.
      subst n. rewrite E, Nat.min_0_r.
      cbn [List.length firstn skipn map Nat.iter sector_run
           call_results last].
      fold cin. fold cout. rewrite E.
      repeat match goal with |- _ /\ _ => split end;
        try reflexivity; try (constructor; fail); try lia.
      left.
      repeat match goal with |- _ /\ _ => split end;
        try reflexivity; try (constructor; fail).
      unfold exhausted. rewrite Ei, Eo.
      replace (idx_out ctx <? bi_vcnt bout) with false
        by (symmetry; apply Z.ltb_ge; lia).
      now rewrite andb_false_r. }
  cbn [andb].
  destruct (chunks_ahead_inside bin _ _ Hai Hci Hin) as (bvi & Ebi).
  destruct (chunks_ahead_inside bout _ _ Hao Hco Hout) as (bvo & Ebo).
  rewrite Ebi, Ebo. cbv zeta.
  destruct (cursor_chunk bin _ _ bvi Hai Hci Hin Ebi) as [Cin Hci'].
  destruct (cursor_chunk bout _ _ bvo Hao Hco Hout Ebo) as [Cout Hco'].
  cbv zeta in Cin, Hci', Cout, Hco'.
  cbn [sg_length write sector bio_in bio_out offset_in offset_out
       idx_in idx_out].
  match goal with
  | |- context [crypt_convert_scatterlist env cc ?o ?i ?len ?w ?s hist] =>
      destruct (crypt_convert_scatterlist_call o i len w s hist)
        as (c & Ec & Hiv & Hn & Hd & Hs & Hop); rewrite Ec
  end.
  assert (Hc512 : call_nbytes c = 512 /\ sg_length (call_src c) = 512
                  /\ sg_length (call_dst c) = 512
                  /\ is_encryption (call_op c) = negb (write ctx =? 0)).
  { rewrite Hn, Hd, Hs. repeat split. exact Hop. }
  destruct (Z.ltb_spec (blkcipher_result env hist c) 0) as [Hneg|Hnn].
  - eexists _, _, [c]. split; [reflexivity|].
    subst n cin cout. rewrite Cin, Cout.
    cbn [List.length firstn skipn map Nat.iter nat_rect sector_run
         call_results idx_in idx_out offset_in offset_out sector].
    rewrite Hs, Hd, Hiv.
    repeat match goal with |- _ /\ _ => split end;
      try reflexivity; try lia.
    { constructor; [exact Hc512 | constructor]. }
    right. exists [], (blkcipher_result env hist c).
    repeat match goal with |- _ /\ _ => split end;
      try reflexivity; try (constructor; fail); try lia.
  - match goal with
    | |- context [crypt_convert_loop fuel env cc ?ctx1 ?r1 ?h1] =>
        destruct (IH ctx1 bin bout r1 h1)
          as (r' & ctx' & calls & E & Sk & Si & So & Sn & Siv & Ai & Ao & O);
          [reflexivity | reflexivity | exact Hai | exact Hao | exact Hci'
          | exact Hco' | |]
    end.
    { cbn [idx_in idx_out offset_in offset_out].
      subst n cin cout. rewrite Cin, Cout in Hfuel.
      cbn [List.length] in Hfuel.
      rewrite <- Nat.succ_min_distr in Hfuel. lia. }
    cbn [idx_in idx_out offset_in offset_out sector write]
      in E, Sk, Si, So, Sn, Siv, Ai, Ao, O.
    exists r', ctx', (c :: calls). rewrite E.
    split; [now rewrite <- app_assoc|].
    subst n cin cout. rewrite Cin, Cout. cbn [List.length].
    rewrite <- Nat.succ_min_distr.
    cbn [firstn skipn map Nat.iter sector_run call_results].
    rewrite Si, So, Hs, Hd, Hiv, Siv, Ai, Ao.
    split; [lia|].
    split; [reflexivity|]. split; [reflexivity|].
    split; [constructor; [exact Hc512 | exact Sn]|].
    split; [reflexivity|]. split; [reflexivity|]. split; [reflexivity|].
    destruct O as [(OA & OB & OC & OD & OE)
                  | (pre & x & OA & OB & OC & OD & OE)].
    + left. split; [constructor; assumption|].
      split; [lia|]. split; [exact OC|].
      split.
      { rewrite OD, Nat.iter_succ.
        apply (iter_shift (fun s => wrap64 (s + 1))). }
      rewrite last_cons_default. exact OE.
    + right. exists (blkcipher_result env hist c :: pre), x.
      split; [rewrite OA; reflexivity|].
      split; [constructor; assumption|]. split; [exact OC|].
      split; [exact OD|]. rewrite OE. cbn [List.length].
      rewrite Nat.iter_succ.
      apply (iter_shift (fun s => wrap64 (s + 1))).
Qed.

End SynchronousConversion.

(** Consecutive sectors, counted from the first. *)
Lemma sector_run_seq (s : Z) (n : nat) :
  0 <= s < 2 ^ 64 ->
  sector_run s n = map (fun k => wrap64 (s + Z.of_nat k)) (seq 0 n).
Proof.
  revert s. induction n as [|n IH]; intros s Hs; [reflexivity|].
  cbn [sector_run seq map Z.of_nat]. f_equal.
  - rewrite Z.add_0_r. unfold wrap64. symmetry. apply Z.mod_small. exact Hs.
  - rewrite IH by (unfold wrap64; apply Z.mod_pos_bound; lia).
    rewrite <- seq_shift, map_map. apply map_ext. intros k.
    rewrite wrap64_succ_add. f_equal. lia.
Qed.

(** C3, as the code has it.  [crypt_convert_init] sets the running sector
    to the request's sector plus the target's [iv_offset] (as a 64-bit
    sum).  [crypt_convert], run on bios of whole sectors with both cursors
    at a sector boundary, returns; its rounds go through the chunks that
    lie ahead of the two cursors, one 512-byte chunk of the input and one
    of the output per round and in order, each round with exactly one
    call of the cipher in the direction of the context, with the IV the
    installed generator writes for the running sector (and with no IV at
    all when the target has no generator installed); the sector goes up by
    one after each chunk that did not fail.  The loop ends when one of the
    bios has no chunk left, and then after as many rounds as the shorter
    side has chunks, or with the first negative result of the cipher,
    which it returns. *)
Theorem crypt_convert_one_sector_per_round
    (env : blkcipher_env) (cc : crypt_config)
    (bout0 bin0 : option bio) (sect wr : Z)
    (ctx : convert_context) (bin bout : bio) (fuel : nat)
    (hist : list blkcipher_call) :
  iv_buffer_fits cc = true ->
  bio_in ctx = Some bin -> bio_out ctx = Some bout ->
  sector_aligned bin = true -> sector_aligned bout = true ->
  cursor_ok bin (idx_in ctx) (offset_in ctx) ->
  cursor_ok bout (idx_out ctx) (offset_out ctx) ->
  0 <= sector ctx < 2 ^ 64 ->
  let cin := chunks_ahead bin (idx_in ctx) (offset_in ctx) in
  let cout := chunks_ahead bout (idx_out ctx) (offset_out ctx) in
  let n := Nat.min (List.length cin) (List.length cout) in
  (n < fuel)%nat ->
  sector (crypt_convert_init cc bout0 bin0 sect wr)
  = wrap64 (sect + iv_offset cc)
  /\ exists r ctx' calls,
       crypt_convert fuel env cc ctx hist = Some (r, ctx', hist ++ calls)
       /\ (List.length calls <= n)%nat
       /\ map call_src calls = firstn (List.length calls) cin
       /\ map call_dst calls = firstn (List.length calls) cout
       /\ Forall (fun c => call_nbytes c = 512
                           /\ sg_length (call_src c) = 512
                           /\ sg_length (call_dst c) = 512
                           /\ is_encryption (call_op c)
                              = negb (write ctx =? 0)) calls
       /\ map call_iv calls
          = map (fun k => iv_of_sector env cc
                            (wrap64 (sector ctx + Z.of_nat k)))
                (seq 0 (List.length calls))
       /\ (iv_gen_ops cc = None -> Forall (fun c => call_iv c = None) calls)
       /\ chunks_ahead bin (idx_in ctx') (offset_in ctx')
          = skipn (List.length calls) cin
       /\ chunks_ahead bout (idx_out ctx') (offset_out ctx')
          = skipn (List.length calls) cout
       /\ ((Forall (fun x => 0 <= x) (call_results env hist calls)
            /\ List.length calls = n
            /\ exhausted ctx' = true
            /\ sector ctx'
               = wrap64 (sector ctx + Z.of_nat (List.length calls))
            /\ r = last (call_results env hist calls) 0)
           \/ (exists pre x,
                 call_results env hist calls = pre ++ [x]
                 /\ Forall (fun x => 0 <= x) pre
                 /\ x < 0 /\ r = x
                 /\ sector ctx'
                    = wrap64 (sector ctx + Z.of_nat (List.length pre)))).
Proof.
  intros Hfit Ei Eo Hai Hao Hci Hco Hs cin cout n Hfuel.
  split; [reflexivity|].
  unfold crypt_convert.
  destruct (crypt_convert_loop_rounds env cc Hfit fuel ctx bin bout 0 hist
              Ei Eo Hai Hao Hci Hco Hfuel)
    as (r & ctx' & calls & E & Sk & Si & So & Sn & Siv & Ai & Ao & O).
  fold cin cout in Si, So, Ai, Ao. fold cin cout n in Sk, O.
  assert (Hiv : map call_iv calls
                = map (fun k => iv_of_sector env cc
                                  (wrap64 (sector ctx + Z.of_nat k)))
                      (seq 0 (List.length calls))).
  { rewrite Siv, (sector_run_seq _ _ Hs), map_map. reflexivity. }
  exists r, ctx', calls.
  split; [exact E|]. split; [exact Sk|]. split; [exact Si|].
  split; [exact So|]. split; [exact Sn|]. split; [exact Hiv|].
  split.
  { intros Hnone. apply Forall_forall. intros c Hc.
    apply (in_map call_iv) in Hc. rewrite Hiv in Hc.
    apply in_map_iff in Hc as (k & Hk & _).
    unfold iv_of_sector in Hk. rewrite Hnone in Hk. now symmetry. }
  split; [exact Ai|]. split; [exact Ao|].
  destruct O as [(OA & OB & OC & OD & OE) | (pre & x & OA & OB & OC & OD & OE)].
  - left. rewrite (iter_wrap64 _ _ Hs) in OD. repeat split; assumption.
  - right. exists pre, x. rewrite (iter_wrap64 _ _ Hs) in OE.
    repeat split; assumption.
Qed.

(** Decrypting the two sectors of a 1024-byte segment in place, from
    sector 8, with the plain IV. *)
Lemma crypt_convert_one_sector_per_round_witness :
  let ctx := crypt_convert_init example_cc_plain (Some (example_bio READ))
               (Some (example_bio READ)) 8 0 in
  exists r ctx' calls,
    crypt_convert 4 example_env example_cc_plain ctx [] = Some (r, ctx', calls)
    /\ map call_src calls
       = [{| sg_page := 7; sg_length := 512; sg_offset := 0 |};
          {| sg_page := 7; sg_length := 512; sg_offset := 512 |}]
    /\ map call_iv calls
       = [iv_of_sector example_env example_cc_plain 8;
          iv_of_sector example_env example_cc_plain 9].
Proof.
  intros ctx.
  destruct (crypt_convert_one_sector_per_round example_env
              example_cc_plain None None 0 0 ctx (example_bio READ)
              (example_bio READ) 4 [])
    as (_ & r & ctx' & calls & E & _ & Si & _ & _ & M & _).
  - reflexivity.
  - reflexivity.
  - reflexivity.
  - reflexivity.
  - reflexivity.
  - split; [vm_compute; discriminate | left; reflexivity].
  - split; [vm_compute; discriminate | left; reflexivity].
  - vm_compute. split; [discriminate | reflexivity].
  - vm_compute. lia.
  - exists r, ctx', calls. split; [exact E|].
    vm_compute in E. injection E as _ _ <-. split; reflexivity.
Defined.

(** C3 as stated fails: a target without IV generator (chaining mode ecb)
    converts its sectors without generating any IV. *)
Lemma crypt_convert_without_generator_no_iv :
  ~ every_chunk_gets_iv 4 example_env example_cc_ecb
      (crypt_convert_init example_cc_ecb (Some (example_bio READ))
         (Some (example_bio READ)) 8 0).
Proof.
  unfold every_chunk_gets_iv. intros H.
  specialize (H _ _ _ eq_refl). inversion H as [|c l Hc _].
  apply Hc. reflexivity.
Qed.

(** Such a target is what [crypt_ctr] constructs from [aes-ecb]. *)
Lemma crypt_ctr_ecb_installs_no_generator :
  exists err cc,
    crypt_ctr false example_ctr_env ["aes-ecb"; "-"; "0"; "sda1"; "0"]%string
    = Some (0, err, Some cc)
    /\ iv_gen_ops cc = None /\ iv_mode cc = None
    /\ chainmode cc = "ecb"%string.
Proof.
  eexists _, _. split; [vm_compute; reflexivity|]. repeat split.
Qed.

(** ** Construction: the cipher specification *)

Lemma split_at_delim_none (ct s : string) :
  forallb (fun c => negb (is_delim ct c)) (list_ascii_of_string s) = true ->
  split_at_delim ct s = (s, None).
Proof.
  induction s as [|c s IH]; cbn [list_ascii_of_string forallb split_at_delim].
  - reflexivity.
  - intros H. apply andb_true_iff in H as [Hc Hs].
    apply negb_true_iff in Hc. rewrite Hc, (IH Hs). reflexivity.
Qed.

Lemma split_at_delim_first (ct s rest : string) (d : ascii) :
  forallb (fun c => negb (is_delim ct c)) (list_ascii_of_string s) = true ->
  is_delim ct d = true ->
  split_at_delim ct (s ++ String d rest) = (s, Some rest).
Proof.
  intros Hs Hd.
  induction s as [|c s IH];
    cbn [list_ascii_of_string forallb split_at_delim String.append] in *.
  - rewrite Hd. reflexivity.
  - apply andb_true_iff in Hs as [Hc Hs].
    apply negb_true_iff in Hc. rewrite Hc, (IH Hs). reflexivity.
Qed.





(** Case analysis along the tests and matches of a hypothesis, dropping
    the branches it contradicts. *)
Ltac case_analysis H :=
  repeat first
    [ discriminate H
    | match type of H with
      | context [if ?b then _ else _] => destruct b eqn:?
      | context [match ?x with _ => _ end] => destruct x eqn:?
      end ].







(** ** Construction: the key slot *)

(** The constructors of the IV generators leave the key slot alone. *)
Lemma ops_ctr_keeps_key (ocf : bool) (env : ctr_env)
    (o : crypt_iv_operations)
    (ctr : crypt_config -> option string
           -> option (Z * crypt_config * option string))
    (cc cc' : crypt_config) (opts err : option string) (rc : Z) :
  ops_ctr ocf env o = Some ctr ->
  ctr cc opts = Some (rc, cc', err) ->
  flags cc' = flags cc /\ key_size cc' = key_size cc /\ key cc' = key cc
  /\ key_alloc cc' = key_alloc cc /\ iv_gen_ops cc' = iv_gen_ops cc.
Proof.
  destruct o; cbn [ops_ctr]; intros [= <-] H.
  - unfold crypt_iv_essiv_ctr in H. case_analysis H.
    all: injection H as <- <- <-; repeat split; reflexivity.
  - unfold crypt_iv_benbi_ctr in H. case_analysis H.
    all: injection H as <- <- <-; repeat split; reflexivity.
Qed.

Lemma ops_dtr_keeps_key (o : crypt_iv_operations)
    (dtr : crypt_config -> crypt_config) (cc : crypt_config) :
  ops_dtr o = Some dtr ->
  flags (dtr cc) = flags cc /\ key_size (dtr cc) = key_size cc
  /\ key (dtr cc) = key cc /\ key_alloc (dtr cc) = key_alloc cc.
Proof.
  destruct o; cbn [ops_dtr]; intros [= <-]; repeat split; reflexivity.
Qed.

Lemma iv_gen_ctr_keeps_key (ocf : bool) (env : ctr_env)
    (cc cc' : crypt_config) (ivopts err : option string) (ok : bool) :
  iv_gen_ctr ocf env cc ivopts = Some (ok, cc', err) ->
  flags cc' = flags cc /\ key_size cc' = key_size cc /\ key cc' = key cc
  /\ key_alloc cc' = key_alloc cc /\ iv_gen_ops cc' = iv_gen_ops cc.
Proof.
  unfold iv_gen_ctr. intros H.
  destruct (iv_gen_ops cc) as [o|] eqn:Eo.
  2:{ injection H as _ <- _. rewrite Eo. repeat split. }
  destruct (ops_ctr ocf env o) as [ctr|] eqn:Ec.
  2:{ injection H as _ <- _. rewrite Eo. repeat split. }
  destruct (ctr cc ivopts) as [[[rc cc1] e1]|] eqn:Er; [|discriminate H].
  destruct (ops_ctr_keeps_key ocf env o ctr cc cc1 ivopts e1 rc Ec Er)
    as (F & S & K & A & O).
  destruct (rc <? 0); injection H as _ <- _; rewrite <- Eo; repeat split;
    assumption.
Qed.

(** The frame of [iv_gen_ctr], brought in for an equation at hand. *)
Ltac use_iv_gen_ctr :=
  match goal with
  | E : iv_gen_ctr _ _ _ _ = Some _ |- _ =>
      apply iv_gen_ctr_keeps_key in E;
      cbn [flags key_size key key_alloc iv_gen_ops with_dev with_start with_io_pool
           with_page_pool with_bs with_iv_gen_ops with_iv_mode
           with_iv_gen_private with_iv_offset with_iv_size with_cipher
           with_chainmode with_cr_dm with_ocf_cryptoid with_tfm] in E;
      destruct E as (? & ? & ? & ? & ?)
  end.

(** The second half of the constructor leaves the key slot alone. *)
Lemma crypt_ctr_setup_keeps_key (ocf : bool) (env : ctr_env)
    (cc0 : crypt_config) (c chain a_off a_dev a_start : string)
    (ivmode ivopts : option string) (ksize r : Z)
    (err : option string) (cc : crypt_config) :
  crypt_ctr_setup ocf env cc0 c chain ivmode ivopts ksize
    a_off a_dev a_start = Some (r, err, Some cc) ->
  flags cc = flags cc0 /\ key_size cc = key_size cc0 /\ key cc = key cc0
  /\ key_alloc cc = key_alloc cc0.
Proof.
  unfold crypt_ctr_setup, ctr_bad. cbv beta iota zeta.
  intros H. destruct ocf.
  - case_analysis H.
    all: injection H as <- <- <-.
    all: match goal with E : _ = inl _ |- _ => case_analysis E end.
    all: match goal with E : inl _ = inl _ |- _ => injection E as <- <- end.
    all: subst.
    all: try use_iv_gen_ctr.
    all: cbn [flags key_size key key_alloc iv_gen_ops with_dev with_start with_io_pool
           with_page_pool with_bs with_iv_gen_ops with_iv_mode
           with_iv_gen_private with_iv_offset with_iv_size with_cipher
           with_chainmode with_cr_dm with_ocf_cryptoid with_tfm].
    all: repeat split; assumption.
  - case_analysis H.
    all: injection H as <- <- <-.
    all: match goal with E : _ = inl _ |- _ => case_analysis E end.
    all: match goal with E : inl _ = inl _ |- _ => injection E as <- <- end.
    all: subst.
    all: try match goal with
             | E : match iv_gen_ctr _ _ _ _ with _ => _ end = Some _ |- _ =>
                 case_analysis E; injection E as <- <-
             end.
    all: subst.
    all: try use_iv_gen_ctr.
    all: try match goal with
             | E : ops_dtr _ = Some ?d |- context [?d ?x] =>
                 destruct (ops_dtr_keeps_key _ d x E) as (? & ? & ? & ?)
             end.
    all: cbn [flags key_size key key_alloc iv_gen_ops with_dev with_start with_io_pool
           with_page_pool with_bs with_iv_gen_ops with_iv_mode
           with_iv_gen_private with_iv_offset with_iv_size with_cipher
           with_chainmode with_cr_dm with_ocf_cryptoid with_tfm] in *.
    all: repeat split; congruence.
Qed.

(** What [crypt_set_key] does with the no-key string on a target without
    stored key size. *)
Lemma crypt_set_key_no_key (cc : crypt_config) :
  key_size cc = 0 ->
  crypt_set_key cc "-"
  = (0, with_flags (with_key_size cc 0)
          (set_bit DM_CRYPT_KEY_VALID (flags cc))).
Proof.
  intros Hz. unfold crypt_set_key. rewrite Hz. reflexivity.
Qed.

(** C10.  [crypt_set_key] with the no-key string on a target without
    stored key size returns 0 and sets key-valid while it stores size 0 and
    writes no key byte; and a target that [crypt_ctr] constructed with the
    key argument [-] has key-valid set though its key size is 0, its
    allocation has no room for a key and nothing was written behind it,
    and [crypt_preresume] returns 0 for it. *)
Theorem crypt_set_key_no_key_sets_valid
    (cc0 : crypt_config) (ocf : bool) (env : ctr_env)
    (a_cipher a_off a_dev a_start : string)
    (err : option string) (cc : crypt_config) :
  key_size cc0 = 0 ->
  crypt_ctr ocf env [a_cipher; "-"%string; a_off; a_dev; a_start]
  = Some (0, err, Some cc) ->
  (fst (crypt_set_key cc0 "-") = 0
   /\ test_bit DM_CRYPT_KEY_VALID (flags (snd (crypt_set_key cc0 "-"))) = true
   /\ key_size (snd (crypt_set_key cc0 "-")) = 0
   /\ key (snd (crypt_set_key cc0 "-")) = key cc0)
  /\ test_bit DM_CRYPT_KEY_VALID (flags cc) = true
  /\ key_size cc = 0
  /\ key_alloc cc = 0
  /\ (forall i : nat, key cc i = heap_behind env i)
  /\ crypt_preresume cc = 0.
Proof.
  intros Hz H. split.
  - rewrite (crypt_set_key_no_key cc0 Hz). cbn [fst snd].
    split; [reflexivity|]. split; [|split; reflexivity].
    cbn [flags with_flags]. now autorewrite with dm_crypt_flags.
  - unfold crypt_ctr in H.
    destruct (strsep (Some a_cipher) "-") as [cipher_tok tmp1].
    destruct (strsep tmp1 "-") as [chain_tok tmp2].
    destruct (strsep tmp2 "-") as [ivopts0 tmp3].
    destruct (strsep ivopts0 ":") as [ivmode ivopts].
    destruct (kzalloc_fails env); [discriminate H|].
    change (wrap32 (Z.shiftr (strlen "-") 1)) with 0 in H.
    rewrite (crypt_set_key_no_key (kzalloc_crypt_config 0 (heap_behind env))
               eq_refl) in H.
    cbn [Z.eqb negb] in H. unfold ctr_bad in H.
    case_analysis H.
    all: apply crypt_ctr_setup_keeps_key in H as (F & S & K & A).
    all: cbn [flags key_size key key_alloc with_flags with_key_size
              kzalloc_crypt_config] in F, S, K, A.
    all: (assert (V : test_bit DM_CRYPT_KEY_VALID (flags cc) = true)
           by (rewrite F; reflexivity)).
    all: split; [exact V|]; split; [exact S|]; split; [exact A|].
    all: split; [|unfold crypt_preresume; rewrite V; reflexivity].
    all: intros i; rewrite K; destruct (Z.ltb_spec (Z.of_nat i) 0) as [L|_];
      [lia | reflexivity].
Qed.

(** A target constructed from [aes-cbc-essiv:sha256] and the key [-]. *)
Lemma crypt_set_key_no_key_sets_valid_witness :
  exists err cc,
    crypt_ctr false example_ctr_env
      ["aes-cbc-essiv:sha256"; "-"; "0"; "sda1"; "0"]%string
    = Some (0, err, Some cc)
    /\ key_size cc = 0
    /\ test_bit DM_CRYPT_KEY_VALID (flags cc) = true
    /\ crypt_preresume cc = 0.
Proof.
  destruct (crypt_ctr false example_ctr_env
              ["aes-cbc-essiv:sha256"; "-"; "0"; "sda1"; "0"]%string)
    as [[[r err] [cc|]]|] eqn:E; try discriminate E.
  destruct (Z.eq_dec r 0) as [->|Hr].
  - destruct (crypt_set_key_no_key_sets_valid
                (kzalloc_crypt_config 0 (fun _ => 0))
                false example_ctr_env "aes-cbc-essiv:sha256" "0" "sda1" "0"
                err cc eq_refl E) as (_ & V & S & _ & _ & P).
    exists err, cc. repeat split; assumption.
  - exfalso. apply Hr. vm_compute in E. injection E as <- _ _. reflexivity.
Defined.

(** ** The OCF offload backend *)

Lemma read_bytes_ext (m1 m2 : Z -> Z) (a n : Z) :
  (forall x, a <= x < a + n -> m1 x = m2 x) ->
  read_bytes m1 a n = read_bytes m2 a n.
Proof.
  intros H. unfold read_bytes. apply map_ext_in. intros i Hi.
  apply in_seq in Hi. apply H. lia.
Qed.

Lemma read_bytes_memcpy_dst (m : Z -> Z) (dst src n : Z) :
  read_bytes (memcpy m dst src n) dst n = read_bytes m src n.
Proof.
  unfold read_bytes. apply map_ext_in. intros i Hi. apply in_seq in Hi.
  unfold memcpy.
  replace ((dst <=? dst + Z.of_nat i) && (dst + Z.of_nat i <? dst + n))
    with true
    by (symmetry; apply andb_true_iff; split;
        [apply Z.leb_le | apply Z.ltb_lt]; lia).
  f_equal. lia.
Qed.

(** Copying a range onto itself leaves every byte as it was. *)
Lemma memcpy_same (m : Z -> Z) (d n a : Z) : memcpy m d d n a = m a.
Proof.
  unfold memcpy. destruct ((d <=? a) && (a <? d + n)); [f_equal; lia|].
  reflexivity.
Qed.

Lemma read_bytes_memcpy_other (m : Z -> Z) (dst src n a : Z) :
  a + n <= dst \/ dst + n <= a ->
  read_bytes (memcpy m dst src n) a n = read_bytes m a n.
Proof.
  intros H. apply read_bytes_ext. intros x Hx. unfold memcpy.
  destruct (Z.leb_spec dst x); destruct (Z.ltb_spec x (dst + n));
    cbn [andb]; try reflexivity; lia.
Qed.

Section Offload.

Variable env : ocf_env.

(** A completion touches neither memory nor the record of what was handed
    to the engine. *)
Lemma complete_one_frame (w w' : ocf_world) :
  complete_one env w = Some w' ->
  mem w' = mem w /\ dispatched w' = dispatched w.
Proof.
  unfold complete_one. destruct (inflight w) as [|crp rest]; [discriminate|].
  destruct (crp_callback crp).
  - unfold dm_ocf_wr_cb. cbn [wr_priv]. destruct (wr_priv w); [|discriminate].
    intros [= <-]. split; reflexivity.
  - unfold dm_ocf_rd_cb. cbn [the_io].
    destruct (crp_opaque crp).
    + intros [= <-]. split; reflexivity.
    + destruct (dec_pending _ _ _) as [[io' evs]|]; [|discriminate].
      intros [= <-]. split; reflexivity.
    + destruct (dec_pending _ _ _) as [[io' evs]|]; [|discriminate].
      intros [= <-]. split; reflexivity.
Qed.

(** However often the engine refuses it, a request that is accepted goes
    on record with the contents its buffer has at that moment. *)
Lemma dispatch_loop_spec (k : nat) (crp : cryptop) :
  forall w w',
    dispatch_loop env k w crp = Some w' ->
    mem w' = mem w
    /\ dispatched w'
       = dispatched w
         ++ [(crp, read_bytes (mem w) (crp_buf crp) (crp_ilen crp))].
Proof.
  induction k as [|k IH]; intros w w'; cbn [dispatch_loop].
  - intros [= <-]. split; reflexivity.
  - destruct (_crypt_requests w =? 0); [apply IH|].
    destruct (complete_one env w) as [w1|] eqn:E; [|discriminate].
    intros H. destruct (complete_one_frame w w1 E) as [M D].
    destruct (IH w1 w' H) as [M' D']. rewrite M', D', M, D.
    split; reflexivity.
Qed.

End Offload.

(** C5.  Whenever [dm_ocf_process] hands a request to the engine, the
    buffer it hands over is the destination buffer and holds, at that
    moment, the contents the source buffer had on entry: when the two
    buffers are distinct the source was copied into the destination, and
    when they are the same buffer nothing had to be copied, so that in
    either case memory is as a copy of the source into the destination
    leaves it; the source is left as it was.  This holds for reads and
    writes alike.  A request is
    handed over exactly when the result is 0, which is the case when the
    engine grants and accepts the request. *)
Theorem dm_ocf_process_dispatches_source_contents
    (env : ocf_env) (cc : crypt_config) (out inp : scatterlist)
    (n : Z) (ivb : list Z) (ivsize wr : Z) (priv : crp_opaque_t)
    (w : ocf_world) :
  same_or_disjoint (sg_virt env out) (sg_virt env inp) n ->
  (forall w',
     dm_ocf_process env cc out inp n (Some ivb) ivsize wr priv w = Some (0, w') ->
     exists crp,
       dispatched w'
       = dispatched w ++ [(crp, read_bytes (mem w) (sg_virt env inp) n)]
       /\ crp_buf crp = sg_virt env out
       /\ crp_ilen crp = n
       /\ read_bytes (mem w') (sg_virt env out) n
          = read_bytes (mem w) (sg_virt env inp) n
       /\ read_bytes (mem w') (sg_virt env inp) n
          = read_bytes (mem w) (sg_virt env inp) n
       /\ mem w'
          = (if sg_virt env out =? sg_virt env inp then mem w
             else memcpy (mem w) (sg_virt env out) (sg_virt env inp) n)
       /\ (forall a,
             mem w' a
             = memcpy (mem w) (sg_virt env out) (sg_virt env inp) n a))
  /\ (forall r w',
        dm_ocf_process env cc out inp n (Some ivb) ivsize wr priv w
        = Some (r, w') ->
        r <> 0 -> dispatched w' = dispatched w)
  /\ (crypto_getreq_fails env (getreq_calls w) = false ->
      crypto_dispatch_refusals env (getreq_calls w) = 0%nat ->
      exists w',
        dm_ocf_process env cc out inp n (Some ivb) ivsize wr priv w
        = Some (0, w')).
Proof.
  intros Hsd. unfold dm_ocf_process. split; [|split].
  - intros w'. destruct (crypto_getreq_fails env (getreq_calls w));
      [discriminate|].
    assert (Hd : sg_virt env out <> sg_virt env inp ->
                 sg_virt env out + n <= sg_virt env inp
                 \/ sg_virt env inp + n <= sg_virt env out)
      by (intros Ne; destruct Hsd as [?|[?|?]]; [contradiction | lia | lia]).
    destruct (Z.eqb_spec (sg_virt env out) (sg_virt env inp)) as [Eq|Ne];
      destruct (EALG_MAX_BLOCK_LEN <? ivsize);
      cbn [negb]; cbv beta iota zeta;
      match goal with
      | |- context [dispatch_loop env ?k ?w0 ?crp] =>
          destruct (dispatch_loop env k w0 crp) as [w1|] eqn:E;
          [|discriminate];
          destruct (dispatch_loop_spec env k crp w0 w1 E) as [M D]
      end;
      intros [= <-]; eexists; rewrite D, M;
      cbn [crp_buf crp_ilen mem dispatched printk set_mem];
      rewrite ?Eq, ?read_bytes_memcpy_dst;
      (split; [reflexivity|]); (split; [reflexivity|]);
      (split; [reflexivity|]); (split; [reflexivity|]);
      (split; [|split; [reflexivity|]]);
      try reflexivity;
      try (intros a; symmetry; apply memcpy_same);
      apply read_bytes_memcpy_other; specialize (Hd Ne); lia.
  - intros r w'. destruct (crypto_getreq_fails env (getreq_calls w)).
    + intros [= <- <-] _. reflexivity.
    + destruct (dispatch_loop _ _ _ _); [|discriminate].
      intros [= <- <-] Hr. contradiction.
  - intros Hg Hk. rewrite Hg, Hk. cbn [dispatch_loop]. eexists; reflexivity.
Qed.

(** A sector copied from page 7 into page 9 on its way to the engine. *)
Lemma dm_ocf_process_dispatches_source_contents_witness :
  let env := example_ocf_env 0 in
  let out := {| sg_page := 9; sg_length := 512; sg_offset := 0 |} in
  let inp := {| sg_page := 7; sg_length := 512; sg_offset := 0 |} in
  exists w' crp,
    dm_ocf_process env example_cc_ocf out inp 512 (Some (repeat 0 16)) 16 1
      opaque_wr_priv example_ocf_world = Some (0, w')
    /\ dispatched w'
       = [(crp, read_bytes (mem example_ocf_world) (sg_virt env inp) 512)]
    /\ crp_buf crp = sg_virt env out.
Proof.
  intros env out inp.
  destruct (dm_ocf_process_dispatches_source_contents env example_cc_ocf
              out inp 512 (repeat 0 16) 16 1 opaque_wr_priv example_ocf_world)
    as (A & _ & C).
  - right. right. vm_compute. discriminate.
  - destruct (C eq_refl eq_refl) as (w' & E).
    destruct (A w' E) as (crp & D & B & _).
    exists w', crp. split; [exact E|]. split; [exact D | exact B].
Defined.

(** C2 at its failing input.  A one-sector write whose request the engine
    accepts but does not complete within the 30 seconds: the conversion
    logs that the work was not finished, with one request pending and none
    completed, frees its private structure with the request still
    outstanding, and returns 0, the result of the last submission.  So a
    timeout is not a failure result. *)
Theorem ocf_crypt_convert_timeout_returns_zero :
  match ocf_crypt_convert 4 (example_ocf_env 0) example_cc_ocf
          example_write_ctx example_ocf_world with
  | Some (r, ctx', w') =>
      r = 0
      /\ klog w' = [msg_wr_not_finished 30000 1 0]
      /\ List.length (inflight w') = 1%nat
      /\ List.length (dispatched w') = 1%nat
      /\ wr_priv w' = None
  | None => False
  end
  /\ ~ timeout_is_failure 4 (example_ocf_env 0) example_cc_ocf
         example_write_ctx example_ocf_world.
Proof.
  split.
  - vm_compute. repeat split.
  - unfold timeout_is_failure. intros H.
    destruct (ocf_crypt_convert 4 (example_ocf_env 0) example_cc_ocf
                example_write_ctx example_ocf_world)
      as [[[r ctx'] w']|] eqn:E.
    + assert (Hr : r = 0).
      { assert (Hf : fst (fst (r, ctx', w')) = r) by reflexivity.
        assert (Hs : option_map (fun x => fst (fst x)) (Some (r, ctx', w'))
                     = Some r) by reflexivity.
        rewrite <- E in Hs. vm_compute in Hs. congruence. }
      destruct (H r ctx' w' eq_refl Hr) as [Hin _].
      assert (Hl : option_map (fun x => List.length (inflight (snd x)))
                     (Some (r, ctx', w'))
                   = Some (List.length (inflight w'))) by reflexivity.
      rewrite <- E, Hin in Hl. vm_compute in Hl. discriminate Hl.
    + vm_compute in E. discriminate E.
Qed.

(** With the completion in time the same write returns 0 as well, and
    nothing is logged or left outstanding. *)
Lemma ocf_crypt_convert_completed_returns_zero :
  match ocf_crypt_convert 4 (example_ocf_env 1) example_cc_ocf
          example_write_ctx example_ocf_world with
  | Some (r, ctx', w') =>
      r = 0 /\ klog w' = [] /\ inflight w' = [] /\ wr_priv w' = None
  | None => False
  end.
Proof. vm_compute. repeat split. Qed.

(** * Part V: further properties *)

(** ** The IVs of the generators *)

Lemma land_low32 (s : Z) : Z.land s 4294967295 = s mod 2 ^ 32.
Proof. change 4294967295 with (Z.ones 32). apply Z.land_ones. lia. Qed.

(** [memset] over the whole of a buffer leaves nothing of it. *)
Lemma memset_whole (buf : list Z) (c n : Z) :
  Z.of_nat (List.length buf) = n ->
  memset buf c n = Some (repeat c (Z.to_nat n)).
Proof.
  intros H. unfold memset.
  replace ((0 <=? n) && (n <=? Z.of_nat (List.length buf))) with true
    by (symmetry; apply andb_true_iff; split; apply Z.leb_le; lia).
  rewrite skipn_all2 by lia. now rewrite app_nil_r.
Qed.

(** X1.  [crypt_iv_plain_gen] writes the low 32 bits of the sector, least
    significant byte first, and zeros behind them; the upper bits of the
    sector do not enter the IV, so that two sectors 2^32 apart get the same
    IV. *)
Theorem crypt_iv_plain_gen_low_32_bits
    (cc : crypt_config) (iv : list Z) (sect : Z) :
  4 <= iv_size cc ->
  Z.of_nat (List.length iv) = iv_size cc ->
  crypt_iv_plain_gen cc iv sect
  = Some (0, le_bytes 4 (sect mod 2 ^ 32)
             ++ repeat 0 (Z.to_nat (iv_size cc) - 4))
  /\ crypt_iv_plain_gen cc iv (sect + 2 ^ 32) = crypt_iv_plain_gen cc iv sect.
Proof.
  intros H4 HL. split.
  - unfold crypt_iv_plain_gen. rewrite (memset_whole iv 0 _ HL).
    unfold store_bytes, cpu_to_le32. rewrite land_low32.
    rewrite le_bytes_length, repeat_length.
    replace ((0 <=? 0) && (0 + Z.of_nat 4 <=? Z.of_nat (Z.to_nat (iv_size cc))))
      with true
      by (symmetry; apply andb_true_iff; split; apply Z.leb_le; lia).
    cbn [Z.to_nat firstn app Nat.add].
    do 3 f_equal.
    replace (Z.to_nat (iv_size cc)) with (4 + (Z.to_nat (iv_size cc) - 4))%nat
      at 1 by lia.
    rewrite repeat_app, skipn_app, repeat_length.
    rewrite skipn_all2 by (rewrite repeat_length; lia).
    cbn [app Nat.sub skipn]. reflexivity.
  - unfold crypt_iv_plain_gen. rewrite !land_low32.
    replace ((sect + 2 ^ 32) mod 2 ^ 32) with (sect mod 2 ^ 32); [reflexivity|].
    rewrite <- (Z.mul_1_l (2 ^ 32)) at 2. now rewrite Z.mod_add by lia.
Qed.

Lemma crypt_iv_plain_gen_low_32_bits_witness :
  crypt_iv_plain_gen example_cc_plain (repeat 255 16) (2 ^ 32 + 258)
  = Some (0, [2; 1; 0; 0; 0; 0; 0; 0; 0; 0; 0; 0; 0; 0; 0; 0]).
Proof.
  destruct (crypt_iv_plain_gen_low_32_bits example_cc_plain (repeat 255 16)
              (2 ^ 32 + 258)) as [E _].
  - cbn. lia.
  - reflexivity.
  - rewrite E. reflexivity.
Defined.

(** A store that ends at the end of the buffer, over zeros. *)
Lemma memset_then_store_tail (iv : list Z) (n : Z) (val : list Z) :
  Z.of_nat (List.length iv) = n ->
  Z.of_nat (List.length val) <= n ->
  match memset iv 0 (n - Z.of_nat (List.length val)) with
  | Some iv1 => store_bytes iv1 (n - Z.of_nat (List.length val)) val
  | None => None
  end
  = Some (repeat 0 (Z.to_nat (n - Z.of_nat (List.length val))) ++ val).
Proof.
  intros HL Hv. set (k := n - Z.of_nat (List.length val)).
  unfold memset.
  replace ((0 <=? k) && (k <=? Z.of_nat (List.length iv))) with true
    by (symmetry; apply andb_true_iff; split; apply Z.leb_le; lia).
  unfold store_bytes.
  rewrite length_app, repeat_length, length_skipn.
  replace ((0 <=? k)
           && (k + Z.of_nat (List.length val)
               <=? Z.of_nat (Z.to_nat k + (List.length iv - Z.to_nat k))))
    with true
    by (symmetry; apply andb_true_iff; split; apply Z.leb_le; lia).
  rewrite firstn_app, repeat_length, Nat.sub_diag, firstn_O, app_nil_r.
  rewrite firstn_all2 by (rewrite repeat_length; lia).
  rewrite skipn_all2
    by (rewrite length_app, repeat_length, length_skipn; lia).
  now rewrite app_nil_r.
Qed.

(** X2.  Every generator overwrites the whole IV buffer: what it leaves in
    a buffer of [iv_size] bytes does not depend on what the buffer held
    before, so nothing of the uninitialised array on the stack reaches the
    cipher. *)
Theorem generator_overwrites_buffer
    (enc : crypto_cipher -> list Z -> list Z) (ops : crypt_iv_operations)
    (cc : crypt_config) (iv1 iv2 : list Z) (sect : Z) :
  Z.of_nat (List.length iv1) = iv_size cc ->
  Z.of_nat (List.length iv2) = iv_size cc ->
  generator enc ops cc iv1 sect = generator enc ops cc iv2 sect.
Proof.
  intros H1 H2. destruct ops; cbn [generator].
  - unfold crypt_iv_plain_gen.
    now rewrite (memset_whole iv1 0 _ H1), (memset_whole iv2 0 _ H2).
  - unfold crypt_iv_essiv_gen.
    now rewrite (memset_whole iv1 0 _ H1), (memset_whole iv2 0 _ H2).
  - unfold crypt_iv_benbi_gen.
    destruct (read_benbi_shift (iv_gen_private cc)) as [s|].
    + destruct ((s <? 0) || (64 <=? s)).
      * destruct (memset iv1 0 _), (memset iv2 0 _); reflexivity.
      * set (val := cpu_to_be64 _).
        assert (Hv : List.length val = 8%nat)
          by (unfold val, cpu_to_be64; now rewrite length_rev, le_bytes_length).
        destruct (Z_le_gt_dec 8 (iv_size cc)) as [Hge|Hlt].
        -- pose proof (memset_then_store_tail iv1 (iv_size cc) val H1) as E1.
           pose proof (memset_then_store_tail iv2 (iv_size cc) val H2) as E2.
           rewrite Hv in E1, E2. change (Z.of_nat 8) with 8 in E1, E2.
           specialize (E1 Hge). specialize (E2 Hge).
           destruct (memset iv1 0 (iv_size cc - 8)) as [a|]; [|discriminate E1].
           destruct (memset iv2 0 (iv_size cc - 8)) as [b|]; [|discriminate E2].
           now rewrite E1, E2.
        -- unfold memset.
           replace (0 <=? iv_size cc - 8) with false
             by (symmetry; apply Z.leb_gt; lia).
           reflexivity.
    + destruct (memset iv1 0 _), (memset iv2 0 _); reflexivity.
  - unfold crypt_iv_null_gen.
    now rewrite (memset_whole iv1 0 _ H1), (memset_whole iv2 0 _ H2).
Qed.

Lemma generator_overwrites_buffer_witness :
  generator (fun _ b => b) crypt_iv_benbi_ops (example_cc_benbi (benbi_shift 5))
    (repeat 255 16) 3
  = generator (fun _ b => b) crypt_iv_benbi_ops
      (example_cc_benbi (benbi_shift 5)) (iv_buffer (example_cc_benbi (benbi_shift 5))) 3.
Proof.
  apply (generator_overwrites_buffer (fun _ b => b) crypt_iv_benbi_ops
           (example_cc_benbi (benbi_shift 5)) (repeat 255 16)
           (iv_buffer (example_cc_benbi (benbi_shift 5))) 3);
    reflexivity.
Defined.

(** X3.  The benbi IVs of a target do not repeat: as long as the block
    count (sector << shift) + 1 fits 64 bits, two sectors with the same IV
    are the same sector, and the count an IV carries is at least 1. *)
Theorem crypt_iv_benbi_gen_injective
    (cg : crypt_config) (s : Z) (iv : list Z) (sect1 sect2 : Z) :
  iv_gen_private cg = benbi_shift s ->
  0 <= s <= 9 ->
  8 <= iv_size cg ->
  Z.of_nat (List.length iv) = iv_size cg ->
  0 <= sect1 -> sect1 * 2 ^ s + 1 < 2 ^ 64 ->
  0 <= sect2 -> sect2 * 2 ^ s + 1 < 2 ^ 64 ->
  (crypt_iv_benbi_gen cg iv sect1 = crypt_iv_benbi_gen cg iv sect2 ->
   sect1 = sect2)
  /\ exists iv',
       crypt_iv_benbi_gen cg iv sect1 = Some (0, iv')
       /\ 1 <= be_value (skipn (Z.to_nat (iv_size cg - 8)) iv').
Proof.
  intros Hp Hs H8 HL Hs1 Hf1 Hs2 Hf2.
  assert (Er : read_benbi_shift (iv_gen_private cg) = Some s)
    by (rewrite Hp; reflexivity).
  assert (H2s : 0 < 2 ^ s) by (apply Z.pow_pos_nonneg; lia).
  assert (Hsmall : forall x, 0 <= x -> x * 2 ^ s + 1 < 2 ^ 64 ->
                   (x * 2 ^ s + 1) mod 2 ^ 64 = x * 2 ^ s + 1).
  { intros x Hx Hf. apply Z.mod_small.
    assert (0 <= x * 2 ^ s) by (apply Z.mul_nonneg_nonneg; lia). lia. }
  destruct (crypt_iv_benbi_gen_spec cg s iv sect1 Er ltac:(lia) H8 HL)
    as (iv1 & E1 & _ & _ & _ & _ & V1).
  destruct (crypt_iv_benbi_gen_spec cg s iv sect2 Er ltac:(lia) H8 HL)
    as (iv2 & E2 & _ & _ & _ & _ & V2).
  split.
  - rewrite E1, E2. intros [= ->]. rewrite V1 in V2.
    rewrite !Hsmall in V2 by assumption.
    apply (Z.mul_cancel_r _ _ (2 ^ s)); lia.
  - exists iv1. split; [exact E1|]. rewrite V1, Hsmall by assumption.
    assert (0 <= sect1 * 2 ^ s) by (apply Z.mul_nonneg_nonneg; lia). lia.
Qed.

Lemma crypt_iv_benbi_gen_injective_witness :
  crypt_iv_benbi_gen (example_cc_benbi (benbi_shift 5)) (repeat 0 16) 3
  <> crypt_iv_benbi_gen (example_cc_benbi (benbi_shift 5)) (repeat 0 16) 4.
Proof.
  intros E.
  destruct (crypt_iv_benbi_gen_injective (example_cc_benbi (benbi_shift 5)) 5
              (repeat 0 16) 3 4) as [I _].
  - reflexivity.
  - lia.
  - cbn. lia.
  - reflexivity.
  - lia.
  - cbn. lia.
  - lia.
  - cbn. lia.
  - specialize (I E). discriminate I.
Defined.

(** ** Failing and succeeding key changes *)

(** [crypt_decode_key] answers 0 or -EINVAL. *)
Lemma crypt_decode_key_loop_result (left : nat) :
  forall (kb : nat -> Z) (l : list ascii) (i : nat),
    fst (crypt_decode_key_loop kb l i left) = 0
    \/ fst (crypt_decode_key_loop kb l i left) = - EINVAL.
Proof.
  induction left as [|left IH]; intros kb l i; cbn [crypt_decode_key_loop].
  - destruct l; [left | right]; reflexivity.
  - destruct (simple_strtoul16 _) as [v endp].
    destruct (negb (Nat.eqb endp 2)); [right; reflexivity | apply IH].
Qed.

(** A string with a character left over after the last pair is refused. *)
Lemma crypt_decode_key_loop_odd (left : nat) :
  forall (kb : nat -> Z) (l : list ascii) (i : nat),
    List.length l = (2 * left + 1)%nat ->
    fst (crypt_decode_key_loop kb l i left) = - EINVAL.
Proof.
  induction left as [|left IH]; intros kb l i Hl; cbn [crypt_decode_key_loop].
  - destruct l; [discriminate Hl | reflexivity].
  - destruct l as [|c0 [|c1 l']]; try (cbn in Hl; lia).
    destruct (simple_strtoul16 [c0; c1]) as [v endp].
    destruct (negb (Nat.eqb endp 2)); [reflexivity|].
    cbn [skipn]. apply IH. cbn [List.length] in Hl. lia.
Qed.

(** [crypt_set_key] leaves the suspended flag alone. *)
Lemma crypt_set_key_suspended_flag (cc : crypt_config) (k : string) :
  test_bit DM_CRYPT_SUSPENDED (flags (snd (crypt_set_key cc k)))
  = test_bit DM_CRYPT_SUSPENDED (flags cc).
Proof.
  unfold crypt_set_key.
  destruct (negb (key_size cc =? 0) && negb (key_size cc =? _));
    [reflexivity|].
  destruct ((_ =? 0) && negb (strcmp k "-" =? 0)); [reflexivity|].
  destruct (negb (_ =? 0)).
  - destruct (crypt_decode_key _ _ _) as [r kb].
    destruct (r <? 0); [reflexivity|].
    cbn [snd flags with_flags]. now autorewrite with dm_crypt_flags.
  - cbn [snd flags with_flags]. now autorewrite with dm_crypt_flags.
Qed.

(** The two ways out of [crypt_set_key]. *)
Lemma crypt_set_key_result (cc : crypt_config) (k : string) :
  fst (crypt_set_key cc k) = 0
  /\ flags (snd (crypt_set_key cc k)) = set_bit DM_CRYPT_KEY_VALID (flags cc)
  /\ key_size (snd (crypt_set_key cc k)) = wrap32 (Z.shiftr (strlen k) 1)
  \/ fst (crypt_set_key cc k) = - EINVAL
     /\ flags (snd (crypt_set_key cc k)) = flags cc.
Proof.
  unfold crypt_set_key.
  destruct (negb (key_size cc =? 0) && negb (key_size cc =? _));
    [right; split; reflexivity|].
  destruct ((_ =? 0) && negb (strcmp k "-" =? 0));
    [right; split; reflexivity|].
  destruct (negb (_ =? 0)).
  - destruct (crypt_decode_key _ _ _) as [r kb] eqn:E.
    destruct (r <? 0); [right; split; reflexivity|].
    left. repeat split.
  - left. repeat split.
Qed.

(** X4.  [crypt_set_key] answers 0 or -EINVAL and never clears a flag:
    when it fails the flags are as before (a target whose key was valid
    stays marked valid), when it succeeds key-valid is set, and the
    suspended flag is as before either way. *)
Theorem crypt_set_key_never_clears_flags (cc : crypt_config) (k : string) :
  (fst (crypt_set_key cc k) = 0
   /\ test_bit DM_CRYPT_KEY_VALID (flags (snd (crypt_set_key cc k))) = true
   \/ fst (crypt_set_key cc k) = - EINVAL
      /\ flags (snd (crypt_set_key cc k)) = flags cc)
  /\ test_bit DM_CRYPT_SUSPENDED (flags (snd (crypt_set_key cc k)))
     = test_bit DM_CRYPT_SUSPENDED (flags cc)
  /\ (test_bit DM_CRYPT_KEY_VALID (flags cc) = true ->
      test_bit DM_CRYPT_KEY_VALID (flags (snd (crypt_set_key cc k))) = true).
Proof.
  split; [|split; [apply crypt_set_key_suspended_flag|]].
  - destruct (crypt_set_key_result cc k) as [(R & F & _) | (R & F)].
    + left. split; [exact R|]. rewrite F.
      now autorewrite with dm_crypt_flags.
    + right. split; assumption.
  - intros V.
    destruct (crypt_set_key_result cc k) as [(_ & F & _) | (_ & F)];
      rewrite F; [now autorewrite with dm_crypt_flags | exact V].
Qed.

Lemma crypt_set_key_never_clears_flags_witness :
  let cc := snd (crypt_set_key (kzalloc_crypt_config 2 (fun _ => 0)) "a1b2") in
  fst (crypt_set_key cc "a1zz") = - EINVAL
  /\ test_bit DM_CRYPT_KEY_VALID (flags (snd (crypt_set_key cc "a1zz"))) = true.
Proof.
  intros cc.
  destruct (crypt_set_key_never_clears_flags cc "a1zz") as (_ & _ & V).
  split; [reflexivity | apply V; reflexivity].
Defined.

(** X5.  Keys that are no hex string are refused with -EINVAL whatever the
    target: the empty string, every string of odd length other than the
    no-key string [-], and the no-key string itself once the target has a
    key size. *)
Theorem crypt_set_key_refuses_malformed (cc : crypt_config) (k : string) :
  strlen k < 2 ^ 32 ->
  k = EmptyString
  \/ (Z.odd (strlen k) = true /\ k <> "-"%string)
  \/ (k = "-"%string /\ key_size cc <> 0) ->
  fst (crypt_set_key cc k) = - EINVAL.
Proof.
  intros Hlen H. unfold crypt_set_key.
  set (ksize := wrap32 (Z.shiftr (strlen k) 1)).
  destruct (negb (key_size cc =? 0) && negb (key_size cc =? ksize)) eqn:E0;
    [reflexivity|].
  destruct H as [-> | [[Hodd Hne] | [-> Hk]]].
  - reflexivity.
  - assert (Hs : (strcmp k "-" =? 0) = true -> k = "-"%string).
    { destruct k as [|c [|c' k']]; cbn [strcmp]; try discriminate.
      - destruct (Z.eqb_spec (uchar c) (uchar "-")) as [Ec|_].
        + intros _. f_equal.
          destruct c as [[] [] [] [] [] [] [] []];
            solve [reflexivity | discriminate Ec].
        + destruct (uchar c <? uchar "-"); discriminate.
      - destruct (uchar c =? uchar "-"); [discriminate|].
        destruct (uchar c <? uchar "-"); discriminate. }
    destruct (strcmp k "-" =? 0) eqn:Es; [elim Hne; now apply Hs|].
    cbn [negb]. rewrite andb_true_r.
    destruct (ksize =? 0) eqn:Ez; [reflexivity|]. cbn [negb].
    unfold crypt_decode_key, ksize. cbn [key with_key_size].
    destruct (crypt_decode_key_loop _ _ _ _) as [r kb] eqn:EL.
    assert (Hr : r = - EINVAL).
    { change r with (fst (r, kb)). rewrite <- EL.
      apply crypt_decode_key_loop_odd.
      rewrite length_list_ascii_of_string.
      unfold strlen in *. set (n := String.length k) in *.
      rewrite Z.shiftr_div_pow2 by lia. change (2 ^ 1) with 2.
      unfold wrap32. rewrite Z.mod_small
        by (split; [apply Z.div_pos; lia
                   | apply Z.div_lt_upper_bound; lia]).
      rewrite Z.odd_spec in Hodd. destruct Hodd as [m Hm].
      rewrite Hm. replace (2 * m + 1) with (1 + m * 2) by lia.
      rewrite Z.div_add by lia. change (1 / 2) with 0. lia. }
    rewrite Hr. reflexivity.
  - change ksize with 0 in E0.
    destruct (Z.eqb_spec (key_size cc) 0); [contradiction|].
    discriminate E0.
Qed.

Lemma crypt_set_key_refuses_malformed_witness :
  fst (crypt_set_key (kzalloc_crypt_config 2 (fun _ => 0)) "abc") = - EINVAL.
Proof.
  apply crypt_set_key_refuses_malformed.
  - reflexivity.
  - right. left. split; [reflexivity | discriminate].
Defined.

(** ** The message interface and the key change cycle *)

(** The three things a message can do. *)
Lemma crypt_message_cases (cc : crypt_config) (argv : list string) :
  crypt_message cc argv = (- EINVAL, cc)
  \/ test_bit DM_CRYPT_SUSPENDED (flags cc) = true
     /\ ((exists a0 a1 k, argv = [a0; a1; k]
            /\ crypt_message cc argv = crypt_set_key cc k)
         \/ (exists a0 a1, argv = [a0; a1]
               /\ crypt_message cc argv = crypt_wipe_key cc)).
Proof.
  unfold crypt_message.
  destruct argv as [|a0 [|a1 rest]]; try (left; reflexivity).
  cbv beta iota zeta.
  destruct (Z.of_nat (List.length (a0 :: a1 :: rest)) <? 2);
    [left; reflexivity|].
  destruct (strnicmp a0 _ _ =? 0); [|left; reflexivity].
  destruct (test_bit DM_CRYPT_SUSPENDED (flags cc)) eqn:Es;
    [|left; reflexivity].
  cbn [negb].
  destruct rest as [|k [|x rest]].
  - change (Z.of_nat (List.length [a0; a1])) with 2. cbn [Z.eqb Pos.eqb andb].
    destruct (strnicmp a1 _ _ =? 0).
    + right. split; [reflexivity|]. right. exists a0, a1. split; reflexivity.
    + left. reflexivity.
  - change (Z.of_nat (List.length [a0; a1; k])) with 3.
    cbn [Z.eqb Pos.eqb andb].
    destruct (strnicmp a1 _ _ =? 0).
    + right. split; [reflexivity|]. left. exists a0, a1, k.
      split; reflexivity.
    + left. reflexivity.
  - destruct (Z.eqb_spec (Z.of_nat (List.length (a0 :: a1 :: k :: x :: rest))) 3)
      as [E|_]; [cbn [List.length] in E; lia|].
    destruct (Z.eqb_spec (Z.of_nat (List.length (a0 :: a1 :: k :: x :: rest))) 2)
      as [E|_]; [cbn [List.length] in E; lia|].
    left. reflexivity.
Qed.

(** X6.  [crypt_message] changes the key only while the target is
    suspended: on a target that is not suspended every message is refused
    with -EINVAL and leaves the configuration as it is.  In general a
    message is refused that way, or it is [key set <key>] and does what
    [crypt_set_key] does, or [key wipe] and does what [crypt_wipe_key]
    does; no message changes the suspended flag. *)
Theorem crypt_message_only_while_suspended
    (cc : crypt_config) (argv : list string) :
  (test_bit DM_CRYPT_SUSPENDED (flags cc) = false ->
   crypt_message cc argv = (- EINVAL, cc))
  /\ (crypt_message cc argv = (- EINVAL, cc)
      \/ (exists a0 a1 k, argv = [a0; a1; k]
                          /\ crypt_message cc argv = crypt_set_key cc k)
      \/ (exists a0 a1, argv = [a0; a1]
                        /\ crypt_message cc argv = crypt_wipe_key cc))
  /\ test_bit DM_CRYPT_SUSPENDED (flags (snd (crypt_message cc argv)))
     = test_bit DM_CRYPT_SUSPENDED (flags cc).
Proof.
  destruct (crypt_message_cases cc argv)
    as [E | [Hs [(a0 & a1 & k & -> & E) | (a0 & a1 & -> & E)]]].
  - split; [intros _; exact E|]. split; [left; exact E|].
    rewrite E. reflexivity.
  - split; [intros Hn; congruence|].
    split; [right; left; exists a0, a1, k; split; [reflexivity | exact E]|].
    rewrite E. apply crypt_set_key_suspended_flag.
  - split; [intros Hn; congruence|].
    split; [right; right; exists a0, a1; split; [reflexivity | exact E]|].
    rewrite E. unfold crypt_wipe_key. cbn [snd flags with_key with_flags].
    now autorewrite with dm_crypt_flags.
Qed.

(** A well-formed hex key of the stored length, or any well-formed hex key
    when no length is stored, is installed. *)
Lemma crypt_set_key_accepts (cc : crypt_config) (k : string) :
  key_size cc = 0 \/ key_size cc = strlen k / 2 ->
  well_formed_hex k = true ->
  strlen k < 2 ^ 32 ->
  fst (crypt_set_key cc k) = 0
  /\ key_size (snd (crypt_set_key cc k)) = strlen k / 2
  /\ key_bytes (snd (crypt_set_key cc k)) (strlen k / 2)
     = hex_bytes (list_ascii_of_string k)
  /\ flags (snd (crypt_set_key cc k)) = set_bit DM_CRYPT_KEY_VALID (flags cc).
Proof.
  intros Hz Hwf Hlen. unfold well_formed_hex in Hwf.
  apply andb_true_iff in Hwf as [Hne Hp].
  destruct (key_size_of_hex k Hp Hlen) as [Ek Ediv].
  assert (Hpos : 0 < strlen k / 2).
  { rewrite Ediv. pose proof (hex_bytes_length _ Hp) as E.
    rewrite length_list_ascii_of_string in E.
    destruct (String.length k); [discriminate Hne|]. lia. }
  unfold crypt_set_key. rewrite Ek, <- Ediv.
  replace (negb (key_size cc =? 0) && negb (key_size cc =? strlen k / 2))
    with false
    by (destruct Hz as [-> | ->];
        [reflexivity | rewrite Z.eqb_refl; now rewrite andb_false_r]).
  destruct (Z.eqb_spec (strlen k / 2) 0) as [E0|_]; [lia|].
  cbn [negb andb]. unfold crypt_decode_key.
  cbn [key with_key_size]. rewrite Ediv, Nat2Z.id.
  destruct (crypt_decode_key_loop_ok _ Hp (key cc) 0%nat) as [L1 L2].
  destruct (crypt_decode_key_loop _ _ _ _) as [r kb] eqn:EL.
  cbn [fst snd] in L1, L2. subst r. cbn [Z.ltb Z.compare fst snd].
  cbn [key_size with_flags with_key with_key_size flags].
  repeat split.
  unfold key_bytes. rewrite Nat2Z.id. cbn [key with_flags with_key].
  apply (map_seq_nth _ _ 0). intros j Hj. rewrite L2.
  cbn [Nat.leb Nat.add]. rewrite Nat.sub_0_r.
  replace (j <? List.length (hex_bytes (list_ascii_of_string k)))%nat
    with true by (symmetry; apply Nat.ltb_lt; assumption).
  reflexivity.
Qed.

(** X7.  Changing the key of a live target: after [crypt_postsuspend] the
    message [key wipe] is accepted and resume is then refused with -EAGAIN;
    [key set] with a well-formed hex key of the stored length is accepted,
    installs exactly the bytes the string spells and makes
    [crypt_preresume] return 0; after [crypt_resume] the target is no
    longer suspended, the key is valid, and any further message is
    refused. *)
Theorem crypt_key_change_cycle (cc : crypt_config) (k : string) :
  key_size cc = 0 \/ key_size cc = strlen k / 2 ->
  well_formed_hex k = true ->
  strlen k < 2 ^ 32 ->
  let wiped := crypt_message (crypt_postsuspend cc) ["key"; "wipe"]%string in
  let set := crypt_message (snd wiped) ["key"; "set"; k]%string in
  let resumed := crypt_resume (snd set) in
  fst wiped = 0
  /\ crypt_preresume (snd wiped) = - EAGAIN
  /\ fst set = 0
  /\ crypt_preresume (snd set) = 0
  /\ key_size resumed = strlen k / 2
  /\ key_bytes resumed (strlen k / 2) = hex_bytes (list_ascii_of_string k)
  /\ test_bit DM_CRYPT_KEY_VALID (flags resumed) = true
  /\ test_bit DM_CRYPT_SUSPENDED (flags resumed) = false
  /\ forall argv, crypt_message resumed argv = (- EINVAL, resumed).
Proof.
  intros Hz Hwf Hlen wiped set resumed.
  assert (Ew : wiped = crypt_wipe_key (crypt_postsuspend cc))
    by (apply crypt_message_key_wipe, crypt_postsuspend_suspended).
  assert (Ss : test_bit DM_CRYPT_SUSPENDED (flags (snd wiped)) = true).
  { rewrite Ew. unfold crypt_wipe_key, crypt_postsuspend.
    cbn [snd flags with_key with_flags]. now autorewrite with dm_crypt_flags. }
  assert (Es : set = crypt_set_key (snd wiped) k)
    by (apply crypt_message_key_set; exact Ss).
  assert (Hz' : key_size (snd wiped) = 0 \/ key_size (snd wiped) = strlen k / 2)
    by (rewrite Ew; exact Hz).
  destruct (crypt_set_key_accepts (snd wiped) k Hz' Hwf Hlen)
    as (R & S & B & F).
  rewrite <- Es in R, S, B, F.
  assert (V : test_bit DM_CRYPT_KEY_VALID (flags (snd set)) = true)
    by (rewrite F; now autorewrite with dm_crypt_flags).
  assert (Hsusp : test_bit DM_CRYPT_SUSPENDED (flags resumed) = false).
  { unfold resumed, crypt_resume. cbn [flags with_flags].
    apply test_bit_clear_bit_same. unfold DM_CRYPT_SUSPENDED. lia. }
  split; [rewrite Ew; reflexivity|].
  split; [rewrite Ew; unfold crypt_preresume;
          now rewrite crypt_wipe_key_flags|].
  split; [exact R|].
  split; [unfold crypt_preresume; now rewrite V|].
  split; [exact S|]. split; [exact B|].
  split.
  { unfold resumed, crypt_resume. cbn [flags with_flags].
    rewrite test_bit_clear_bit_other
      by (unfold DM_CRYPT_KEY_VALID, DM_CRYPT_SUSPENDED; lia).
    exact V. }
  split; [exact Hsusp|].
  intros argv. destruct (crypt_message_cases resumed argv) as [E | [Hs' _]];
    [exact E | congruence].
Qed.

Lemma crypt_key_change_cycle_witness :
  let cc := snd (crypt_set_key (kzalloc_crypt_config 2 (fun _ => 0)) "a1b2") in
  let set := crypt_message
               (snd (crypt_message (crypt_postsuspend cc) ["key"; "wipe"]%string))
               ["key"; "set"; "0c0D"]%string in
  fst set = 0 /\ key_bytes (crypt_resume (snd set)) 2 = [12; 13].
Proof.
  intros cc set.
  destruct (crypt_key_change_cycle cc "0c0D") as (_ & _ & R & _ & _ & B & _).
  - right. reflexivity.
  - reflexivity.
  - reflexivity.
  - split; [exact R | exact B].
Defined.

(** ** What the constructor can answer *)

Lemma crypt_ctr_setup_outcomes (ocf : bool) (env : ctr_env)
    (cc0 : crypt_config) (c chain a_off a_dev a_start : string)
    (ivmode ivopts : option string) (ksize r : Z)
    (err : option string) (p : option crypt_config) :
  crypt_ctr_setup ocf env cc0 c chain ivmode ivopts ksize
    a_off a_dev a_start = Some (r, err, p) ->
  (r = 0 /\ exists cc, p = Some cc) \/ (r = - EINVAL /\ p = None).
Proof.
  unfold crypt_ctr_setup, ctr_bad. cbv beta iota zeta.
  intros H. case_analysis H.
  all: injection H as <- <- <-.
  all: solve [left; split; [reflexivity | eexists; reflexivity]
             | right; split; reflexivity].
Qed.

(** [crypt_set_key] does not move the key buffer. *)
Lemma crypt_set_key_key_alloc (cc : crypt_config) (k : string) :
  key_alloc (snd (crypt_set_key cc k)) = key_alloc cc.
Proof.
  unfold crypt_set_key.
  repeat match goal with
         | |- context [if ?b then _ else _] => destruct b
         | |- context [let (_, _) := ?x in _] => destruct x
         end; reflexivity.
Qed.

(** X8.  [crypt_ctr] answers 0, -EINVAL or -ENOMEM.  It hands a
    configuration to the target exactly when it answers 0, and that
    configuration has key-valid set and the key size the key argument
    gives; -ENOMEM is the failure to allocate the configuration, and every
    other failure, whatever error the crypto layer reported for it, is
    answered -EINVAL.  Anything but five arguments is refused. *)
Theorem crypt_ctr_outcomes (ocf : bool) (env : ctr_env) (argv : list string) :
  (List.length argv <> 5%nat ->
   crypt_ctr ocf env argv
   = Some (- EINVAL, Some "Not enough arguments"%string, None))
  /\ forall r err p,
       crypt_ctr ocf env argv = Some (r, err, p) ->
       (r = 0
        /\ exists cc, p = Some cc
            /\ kzalloc_fails env = false
            /\ test_bit DM_CRYPT_KEY_VALID (flags cc) = true
            /\ key_size cc = wrap32 (Z.shiftr (strlen (nth 1 argv EmptyString)) 1)
            /\ key_alloc cc = key_size cc)
       \/ (r = - EINVAL /\ p = None)
       \/ (r = - ENOMEM /\ p = None /\ kzalloc_fails env = true).
Proof.
  split.
  - intros Hn. destruct argv as [|a0 [|a1 [|a2 [|a3 [|a4 [|a5 rest]]]]]];
      try reflexivity. elim Hn. reflexivity.
  - intros r err p H.
    destruct argv as [|a0 [|a1 [|a2 [|a3 [|a4 [|a5 rest]]]]]];
      try (injection H as <- _ <-; right; left; split; reflexivity).
    unfold crypt_ctr in H.
    destruct (strsep (Some a0) "-") as [cipher_tok tmp1].
    destruct (strsep tmp1 "-") as [chain_tok tmp2].
    destruct (strsep tmp2 "-") as [ivopts0 tmp3].
    destruct (strsep ivopts0 ":") as [ivmode ivopts].
    destruct (kzalloc_fails env) eqn:Hk.
    { injection H as <- _ <-. right. right. repeat split. }
    cbn [nth].
    set (ksize := wrap32 (Z.shiftr (strlen a1) 1)) in *.
    pose proof (crypt_set_key_result
                  (kzalloc_crypt_config ksize (heap_behind env)) a1) as HR.
    destruct (crypt_set_key (kzalloc_crypt_config ksize (heap_behind env)) a1)
      as [rk cc0] eqn:EK.
    cbn [fst snd] in HR.
    destruct (Z.eqb_spec rk 0) as [->|Hrk]; cbn [negb] in H.
    2:{ injection H as <- _ <-. right. left. split; reflexivity. }
    destruct HR as [(_ & F & S) | (R & _)]; [|discriminate R].
    unfold ctr_bad in H. case_analysis H.
    all: try (injection H as <- _ <-; right; left; split; reflexivity).
    all: pose proof (crypt_ctr_setup_outcomes _ _ _ _ _ _ _ _ _ _ _ _ _ _ H)
           as [[-> [cc ->]] | [-> ->]];
         [|right; left; split; reflexivity].
    all: left; split; [reflexivity|]; exists cc; split; [reflexivity|].
    all: apply crypt_ctr_setup_keeps_key in H as (F' & S' & _ & A').
    all: split; [reflexivity|].
    all: rewrite F', S', A', F, S.
    all: (split; [now autorewrite with dm_crypt_flags|]).
    all: split; [reflexivity|].
    all: change cc0 with (snd (0, cc0)); rewrite <- EK.
    all: apply crypt_set_key_key_alloc.
Qed.

(** ** The constructor and the IV buffer *)

Lemma iv_gen_ctr_ready (ocf : bool) (env : ctr_env)
    (cc cc' : crypt_config) (ivopts err : option string) :
  errors_are_negative env ->
  iv_gen_ctr ocf env cc ivopts = Some (true, cc', err) ->
  iv_gen_ops cc' = iv_gen_ops cc /\ iv_size cc' = iv_size cc
  /\ tfm cc' = tfm cc /\ generator_ready ocf cc'.
Proof.
  intros (Hh & Hd & Hc & Hs) H. unfold iv_gen_ctr in H.
  unfold generator_ready.
  destruct (iv_gen_ops cc) as [o|] eqn:Eo.
  2:{ injection H as <- _. rewrite Eo. repeat split. }
  destruct o; cbn [ops_ctr] in H.
  - injection H as <- _. rewrite Eo. repeat split.
  - unfold crypt_iv_essiv_ctr in H.
    destruct ivopts as [hash|]; [|discriminate H].
    destruct (crypto_alloc_hash env hash) as [saltsize|e] eqn:Eh.
    2:{ apply Hh in Eh. destruct (Z.ltb_spec e 0); [discriminate H | lia]. }
    destruct (kmalloc_salt_fails env); [discriminate H|].
    pose proof (Hd hash (map (key cc) (seq 0 (Z.to_nat (key_size cc))))) as Hd'.
    destruct (crypto_hash_digest env hash _) as [e salt]. cbn [fst] in Hd'.
    destruct (Z.eqb_spec e 0) as [->|Hne]; cbn [negb] in H.
    2:{ destruct (Z.ltb_spec e 0); [discriminate H | lia]. }
    destruct (crypto_alloc_cipher env (cipher cc)) as [blocksize|e] eqn:Ec.
    2:{ apply Hc in Ec. destruct (Z.ltb_spec e 0); [discriminate H | lia]. }
    destruct ocf.
    + destruct (Z.eqb_spec blocksize (iv_size cc)) as [->|_]; cbn [negb] in H;
        [|discriminate H].
      pose proof (Hs (cipher cc) (firstn (Z.to_nat saltsize) salt)) as Hs'.
      destruct (Z.eqb_spec (crypto_cipher_setkey env (cipher cc)
                  (firstn (Z.to_nat saltsize) salt)) 0) as [E0|Hne];
        cbn [negb] in H.
      2:{ destruct (Z.ltb_spec (crypto_cipher_setkey env (cipher cc)
                  (firstn (Z.to_nat saltsize) salt)) 0);
            [discriminate H | lia]. }
      injection H as <- _.
      cbn [iv_gen_ops iv_size tfm iv_gen_private with_iv_gen_private].
      rewrite Eo. repeat split. eexists. split; reflexivity.
    + destruct (tfm cc) as [b|] eqn:Et; [|discriminate H].
      destruct (Z.eqb_spec blocksize (blk_ivsize b)) as [->|_]; cbn [negb] in H;
        [|discriminate H].
      pose proof (Hs (cipher cc) (firstn (Z.to_nat saltsize) salt)) as Hs'.
      destruct (Z.eqb_spec (crypto_cipher_setkey env (cipher cc)
                  (firstn (Z.to_nat saltsize) salt)) 0) as [E0|Hne];
        cbn [negb] in H.
      2:{ destruct (Z.ltb_spec (crypto_cipher_setkey env (cipher cc)
                  (firstn (Z.to_nat saltsize) salt)) 0);
            [discriminate H | lia]. }
      injection H as <- _.
      cbn [iv_gen_ops iv_size tfm iv_gen_private with_iv_gen_private].
      rewrite Eo, Et. repeat split. eexists. split; reflexivity.
  - unfold crypt_iv_benbi_ctr in H.
    destruct (tfm cc) as [b|] eqn:Et; [|discriminate H].
    destruct (Z.ltb_spec (ilog2 (blk_blocksize b)) 0) as [|Hl0];
      [discriminate H|].
    destruct (negb _); [discriminate H|].
    destruct (Z.ltb_spec 9 (ilog2 (blk_blocksize b))) as [|Hl9];
      [discriminate H|].
    injection H as <- _.
    cbn [iv_gen_ops iv_size tfm iv_gen_private with_iv_gen_private].
    rewrite Eo, Et. repeat split.
    exists (9 - ilog2 (blk_blocksize b)). split; [reflexivity | lia].
  - injection H as <- _. rewrite Eo. repeat split.
Qed.

Ltac use_iv_gen_ctr_ready Hneg :=
  match goal with
  | E : iv_gen_ctr _ _ _ _ = Some (true, _, _) |- _ =>
      apply (iv_gen_ctr_ready _ _ _ _ _ _ Hneg) in E;
      cbn [iv_gen_ops iv_size tfm with_dev with_start with_io_pool
           with_page_pool with_bs with_iv_gen_ops with_iv_mode
           with_iv_gen_private with_iv_offset with_iv_size with_cipher
           with_chainmode with_cr_dm with_ocf_cryptoid with_tfm] in E;
      destruct E as (? & ? & ? & ?)
  end.

Ltac project_config :=
  cbn [iv_gen_ops iv_size iv_gen_private tfm cr_dm chainmode cipher
       with_dev with_start with_io_pool
       with_page_pool with_bs with_iv_gen_ops with_iv_mode
       with_iv_gen_private with_iv_offset with_iv_size with_cipher
       with_chainmode with_cr_dm with_ocf_cryptoid with_tfm] in *.

(** A generator that is ready fits a buffer of at least eight bytes that
    is no shorter than the block of the essiv cipher. *)
Lemma generator_ready_fits (ocf : bool) (cc cc' : crypt_config) :
  generator_ready ocf cc ->
  iv_gen_ops cc' = iv_gen_ops cc ->
  iv_gen_private cc' = iv_gen_private cc ->
  8 <= iv_size cc' ->
  (if ocf then iv_size cc
   else match tfm cc with Some b => blk_ivsize b | None => 0 end)
  <= iv_size cc' ->
  iv_buffer_fits cc' = true.
Proof.
  unfold generator_ready, iv_buffer_fits. intros R -> -> H8 Hb.
  destruct (iv_gen_ops cc) as [[]|]; try reflexivity.
  - apply Z.leb_le. lia.
  - destruct R as (t & -> & Et). apply andb_true_iff.
    split; apply Z.leb_le; lia.
  - destruct R as (s & -> & Hs). apply andb_true_iff.
    split; [apply Z.leb_le; lia|]. apply andb_true_iff.
    split; [apply Z.leb_le | apply Z.ltb_lt]; lia.
  - apply Z.leb_le. lia.
Qed.

Lemma crypt_ctr_setup_fits (ocf : bool) (env : ctr_env)
    (cc0 : crypt_config) (c chain a_off a_dev a_start : string)
    (ivmode ivopts : option string) (ksize : Z)
    (err : option string) (cc : crypt_config) :
  errors_are_negative env ->
  crypt_ctr_setup ocf env cc0 c chain ivmode ivopts ksize
    a_off a_dev a_start = Some (0, err, Some cc) ->
  iv_buffer_fits cc = true.
Proof.
  intros Hneg. unfold crypt_ctr_setup, ctr_bad. cbv beta iota zeta.
  intros H. destruct ocf.
  - case_analysis H.
    all: injection H as <- <-.
    all: match goal with E : _ = inl _ |- _ => case_analysis E end.
    all: match goal with E : inl _ = inl _ |- _ => injection E as <- <- end.
    all: subst.
    all: use_iv_gen_ctr_ready Hneg.
    all: match goal with
         | R : generator_ready true ?c1 |- _ =>
             apply (generator_ready_fits true c1); [exact R | | | | ];
             project_config; try reflexivity; try lia
         end.
  - case_analysis H.
    all: injection H as <- <-.
    all: match goal with E : _ = inl _ |- _ => case_analysis E end.
    all: match goal with E : inl _ = inl _ |- _ => injection E as <- <- end.
    all: subst.
    all: try match goal with
             | E : match iv_gen_ctr _ _ _ _ with _ => _ end = Some _ |- _ =>
                 case_analysis E; injection E as <- <-
             end.
    all: subst.
    all: use_iv_gen_ctr_ready Hneg.
    all: try solve [unfold iv_buffer_fits; project_config; reflexivity].
    all: try solve [unfold iv_buffer_fits; project_config;
                    match goal with
                    | E : iv_gen_ops ?c = None |- context [iv_gen_ops ?c] =>
                        rewrite E; reflexivity
                    end].
    all: match goal with
         | R : generator_ready false ?c1, T : tfm ?c1 = Some _ |- _ =>
             apply (generator_ready_fits false c1); [exact R | | | | ];
             project_config; try reflexivity; try rewrite T; try lia
         end.
Qed.

(** X9.  The constructor leaves the IV buffer large enough for the
    generator it installs: in a configuration that [crypt_ctr] hands to
    the target, the buffer takes the 32-bit sector of plain, the 64-bit
    sector and the whole cipher block of essiv (whose cipher is in place),
    and the 64-bit count of benbi (whose shift lies between 0 and 9); so
    every generator call of the conversion finds room for its IV. *)
Theorem crypt_ctr_iv_buffer_fits (ocf : bool) (env : ctr_env)
    (argv : list string) (err : option string) (cc : crypt_config)
    (enc : crypto_cipher -> list Z -> list Z) (sect : Z) :
  errors_are_negative env ->
  crypt_ctr ocf env argv = Some (0, err, Some cc) ->
  iv_buffer_fits cc = true
  /\ forall ops, iv_gen_ops cc = Some ops ->
       exists iv, generator enc ops cc (iv_buffer cc) sect = Some (0, iv).
Proof.
  intros Hneg H.
  assert (Hfit : iv_buffer_fits cc = true).
  { destruct argv as [|a0 [|a1 [|a2 [|a3 [|a4 [|a5 rest]]]]]];
      try discriminate H.
    unfold crypt_ctr in H.
    destruct (strsep (Some a0) "-") as [cipher_tok tmp1].
    destruct (strsep tmp1 "-") as [chain_tok tmp2].
    destruct (strsep tmp2 "-") as [ivopts0 tmp3].
    destruct (strsep ivopts0 ":") as [ivmode ivopts].
    destruct (kzalloc_fails env); [discriminate H|].
    destruct (crypt_set_key _ a1) as [rk cc0].
    unfold ctr_bad in H. case_analysis H.
    all: eapply crypt_ctr_setup_fits; eassumption. }
  split; [exact Hfit|].
  intros ops Hops. apply generator_returns; assumption.
Qed.

Lemma crypt_ctr_iv_buffer_fits_witness :
  exists err cc,
    crypt_ctr false example_ctr_env
      ["aes-cbc-essiv:sha256"; "00112233445566778899aabbccddeeff"; "0";
       "sda1"; "0"]%string
    = Some (0, err, Some cc)
    /\ iv_buffer_fits cc = true.
Proof.
  destruct (crypt_ctr false example_ctr_env
      ["aes-cbc-essiv:sha256"; "00112233445566778899aabbccddeeff"; "0";
       "sda1"; "0"]%string)
    as [[[r err] [cc|]]|] eqn:E; try discriminate E.
  destruct (Z.eq_dec r 0) as [->|Hr].
  - destruct (crypt_ctr_iv_buffer_fits false example_ctr_env
                ["aes-cbc-essiv:sha256"; "00112233445566778899aabbccddeeff";
                 "0"; "sda1"; "0"]%string err cc
                (fun _ b => b) 0) as [F _].
    + repeat split; intros; try discriminate; cbn; lia.
    + exact E.
    + exists err, cc. split; [reflexivity | exact F].
  - exfalso. apply Hr. vm_compute in E. injection E as <- _ _. reflexivity.
Defined.

(** ** The constructor of the OCF build *)

Lemma uchar_inj (a b : ascii) : uchar a = uchar b -> a = b.
Proof.
  unfold uchar. intros H. apply N2Z.inj in H.
  rewrite <- (ascii_N_embedding a), <- (ascii_N_embedding b). now f_equal.
Qed.

(** [strcmp] answers 0 for equal strings only. *)
Lemma strcmp_eq (a : string) : forall b, strcmp a b = 0 -> a = b.
Proof.
  induction a as [|c a IH]; intros [|d b]; cbn [strcmp]; try discriminate.
  - reflexivity.
  - destruct (Z.eqb_spec (uchar c) (uchar d)) as [E|_].
    + intros H. f_equal; [now apply uchar_inj | now apply IH].
    + destruct (uchar c <? uchar d); discriminate.
Qed.

(** The constructor of a generator touches nothing but the generator's
    private data. *)
Lemma ops_ctr_frame (ocf : bool) (env : ctr_env) (o : crypt_iv_operations)
    (ctr : crypt_config -> option string
           -> option (Z * crypt_config * option string))
    (cc cc' : crypt_config) (opts err : option string) (rc : Z) :
  ops_ctr ocf env o = Some ctr ->
  ctr cc opts = Some (rc, cc', err) ->
  exists p, cc' = with_iv_gen_private cc p.
Proof.
  assert (Hsame : cc = with_iv_gen_private cc (iv_gen_private cc))
    by (destruct cc; reflexivity).
  destruct o; cbn [ops_ctr]; intros [= <-] H.
  - unfold crypt_iv_essiv_ctr in H. case_analysis H.
    all: injection H as _ <- _.
    all: eexists; solve [exact Hsame | reflexivity].
  - unfold crypt_iv_benbi_ctr in H. case_analysis H.
    all: injection H as _ <- _.
    all: eexists; solve [exact Hsame | reflexivity].
Qed.

Lemma iv_gen_ctr_frame (ocf : bool) (env : ctr_env)
    (cc cc' : crypt_config) (ivopts err : option string) (ok : bool) :
  iv_gen_ctr ocf env cc ivopts = Some (ok, cc', err) ->
  exists p, cc' = with_iv_gen_private cc p.
Proof.
  assert (Hsame : cc = with_iv_gen_private cc (iv_gen_private cc))
    by (destruct cc; reflexivity).
  unfold iv_gen_ctr. intros H.
  destruct (iv_gen_ops cc) as [o|].
  2:{ injection H as _ <- _. eexists; exact Hsame. }
  destruct (ops_ctr ocf env o) as [ctr|] eqn:Ec.
  2:{ injection H as _ <- _. eexists; exact Hsame. }
  destruct (ctr cc ivopts) as [[[rc cc1] e1]|] eqn:Er; [|discriminate H].
  destruct (ops_ctr_frame ocf env o ctr cc cc1 ivopts e1 rc Ec Er) as [p ->].
  destruct (rc <? 0); injection H as _ <- _; eexists; reflexivity.
Qed.

Ltac use_iv_gen_ctr_frame :=
  match goal with
  | E : iv_gen_ctr _ _ _ _ = Some _ |- _ =>
      apply iv_gen_ctr_frame in E; destruct E as (? & ->)
  end.

Ltac strcmp_facts :=
  repeat match goal with
         | H : _ && _ = true |- _ => apply andb_true_iff in H as [? ?]
         | H : (strcmp _ _ =? 0) = true |- _ =>
             apply Z.eqb_eq, strcmp_eq in H
         end.

Lemma crypt_ctr_setup_ocf (env : ctr_env)
    (cc0 : crypt_config) (c chain a_off a_dev a_start : string)
    (ivmode ivopts : option string) (ksize : Z)
    (err : option string) (cc : crypt_config) :
  crypt_ctr_setup true env cc0 c chain ivmode ivopts ksize
    a_off a_dev a_start = Some (0, err, Some cc) ->
  chain = "cbc"%string
  /\ chainmode cc = "cbc"%string
  /\ cipher cc = c
  /\ ((c = "aes"%string /\ cri_alg (cr_dm cc) = CRYPTO_AES_CBC
       /\ iv_size cc = 16)
      \/ (c = "des"%string /\ cri_alg (cr_dm cc) = CRYPTO_DES_CBC
          /\ iv_size cc = 8)
      \/ (c = "des3_ede"%string /\ cri_alg (cr_dm cc) = CRYPTO_3DES_CBC
          /\ iv_size cc = 8))
  /\ cri_klen (cr_dm cc) = wrap32 (key_size cc0 * 8)
  /\ tfm cc = tfm cc0
  /\ choose_iv_gen_ops true ivmode = Some (iv_gen_ops cc).
Proof.
  unfold crypt_ctr_setup, ctr_bad. cbv beta iota zeta. intros H.
  case_analysis H.
  all: injection H as <- <-.
  all: match goal with E : _ = inl _ |- _ => case_analysis E end.
  all: match goal with E : inl _ = inl _ |- _ => injection E as <- <- end.
  all: subst.
  all: use_iv_gen_ctr_frame.
  all: strcmp_facts; subst.
  all: project_config.
  all: repeat split; try assumption; try reflexivity.
  all: try match goal with
           | H : (cri_alg _ =? _) = _ |- _ => vm_compute in H; discriminate H
           end.
  all: solve [left; repeat split
             | right; left; repeat split
             | right; right; repeat split].
Qed.

(** [crypt_set_key] touches the key, its size and the flags only. *)
Lemma crypt_set_key_tfm (cc : crypt_config) (k : string) :
  tfm (snd (crypt_set_key cc k)) = tfm cc.
Proof.
  unfold crypt_set_key.
  repeat match goal with
         | |- context [if ?b then _ else _] => destruct b
         | |- context [let (_, _) := ?x in _] => destruct x
         end; reflexivity.
Qed.

(** X10.  In the OCF build [crypt_ctr] constructs nothing but cbc targets
    of the three ciphers the engine is asked for: aes with a 16-byte IV,
    des and des3_ede with an 8-byte IV, each with the session's key length
    in bits.  Such a target always has an IV generator, one of plain,
    essiv and null (benbi does not exist in this build), and no kernel
    block cipher. *)
Theorem crypt_ctr_ocf_only_cbc (env : ctr_env) (argv : list string)
    (err : option string) (cc : crypt_config) :
  crypt_ctr true env argv = Some (0, err, Some cc) ->
  chainmode cc = "cbc"%string
  /\ ((cipher cc = "aes"%string /\ cri_alg (cr_dm cc) = CRYPTO_AES_CBC
       /\ iv_size cc = 16)
      \/ (cipher cc = "des"%string /\ cri_alg (cr_dm cc) = CRYPTO_DES_CBC
          /\ iv_size cc = 8)
      \/ (cipher cc = "des3_ede"%string
          /\ cri_alg (cr_dm cc) = CRYPTO_3DES_CBC /\ iv_size cc = 8))
  /\ cri_klen (cr_dm cc) = wrap32 (key_size cc * 8)
  /\ (iv_gen_ops cc = Some crypt_iv_plain_ops
      \/ iv_gen_ops cc = Some crypt_iv_essiv_ops
      \/ iv_gen_ops cc = Some crypt_iv_null_ops)
  /\ tfm cc = None.
Proof.
  intros H.
  destruct argv as [|a0 [|a1 [|a2 [|a3 [|a4 [|a5 rest]]]]]];
    try discriminate H.
  unfold crypt_ctr in H.
  destruct (strsep (Some a0) "-") as [cipher_tok tmp1].
  destruct (strsep tmp1 "-") as [chain_tok tmp2].
  destruct (strsep tmp2 "-") as [ivopts0 tmp3].
  destruct (strsep ivopts0 ":") as [ivmode ivopts].
  destruct (kzalloc_fails env); [discriminate H|].
  pose proof (crypt_set_key_tfm
                (kzalloc_crypt_config (wrap32 (Z.shiftr (strlen a1) 1))
                   (heap_behind env)) a1) as HT.
  destruct (crypt_set_key _ a1) as [rk cc0]. cbn [snd] in HT.
  unfold ctr_bad in H. case_analysis H.
  all: pose proof (crypt_ctr_setup_keeps_key _ _ _ _ _ _ _ _ _ _ _ _ _ _ H)
         as (_ & S & _ & _).
  all: apply crypt_ctr_setup_ocf in H as (Hch & Hc & Hn & Ha & Hk & Ht & Ho).
  all: try rewrite Hch in *.
  all: try match goal with
           | E : negb (strcmp "cbc" "ecb" =? 0) && true = false |- _ =>
               discriminate E
           end.
  all: split; [exact Hc|]; split; [rewrite Hn; exact Ha|].
  all: split; [rewrite S; exact Hk|].
  all: split; [|rewrite Ht; exact HT].
  all: unfold choose_iv_gen_ops in Ho; cbn [negb andb] in Ho.
  all: repeat match type of Ho with
              | context [if ?b then _ else _] => destruct b
              end.
  all: injection Ho as <- || discriminate Ho.
  all: auto.
Qed.

Lemma crypt_ctr_ocf_only_cbc_witness :
  exists err cc,
    crypt_ctr true example_ctr_env
      ["aes-cbc-plain"; "00112233445566778899aabbccddeeff"; "0"; "sda1"; "0"]%string
    = Some (0, err, Some cc)
    /\ iv_size cc = 16 /\ cri_klen (cr_dm cc) = 128.
Proof.
  destruct (crypt_ctr true example_ctr_env
      ["aes-cbc-plain"; "00112233445566778899aabbccddeeff"; "0"; "sda1"; "0"]%string)
    as [[[r err] [cc|]]|] eqn:E; try discriminate E.
  destruct (Z.eq_dec r 0) as [->|Hr].
  - destruct (crypt_ctr_ocf_only_cbc example_ctr_env
                ["aes-cbc-plain"; "00112233445566778899aabbccddeeff"; "0";
                 "sda1"; "0"]%string err cc E) as (_ & A & K & _).
    exists err, cc. split; [reflexivity|].
    assert (Hks : key_size cc = 16)
      by (vm_compute in E; injection E as _ <-; reflexivity).
    split.
    + destruct A as [(_ & _ & I) | [(C & _) | (C & _)]]; [exact I | | ];
        exfalso; vm_compute in E; injection E as _ <-; discriminate C.
    + rewrite K, Hks. reflexivity.
  - exfalso. apply Hr. vm_compute in E. injection E as <- _ _. reflexivity.
Defined.

(** ** The sectors a conversion goes through *)

Section Coverage.

Variable env : blkcipher_env.
Variable cc : crypt_config.
Hypothesis Hfit : iv_buffer_fits cc = true.
Hypothesis Hcipher : forall hist c, 0 <= blkcipher_result env hist c.

(** The loop of [crypt_convert] on bios of whole sectors, with a cipher
    that does not fail: the chunks it hands over are those that lie ahead
    of the two cursors, pair by pair, until one side is used up. *)
Lemma crypt_convert_loop_chunks :
  forall (fuel : nat) (ctx : convert_context) (bin bout : bio) (r : Z)
         (hist : list blkcipher_call),
    bio_in ctx = Some bin -> bio_out ctx = Some bout ->
    sector_aligned bin = true -> sector_aligned bout = true ->
    cursor_ok bin (idx_in ctx) (offset_in ctx) ->
    cursor_ok bout (idx_out ctx) (offset_out ctx) ->
    0 <= r ->
    let cin := chunks_ahead bin (idx_in ctx) (offset_in ctx) in
    let cout := chunks_ahead bout (idx_out ctx) (offset_out ctx) in
    let n := Nat.min (List.length cin) (List.length cout) in
    (n < fuel)%nat ->
    exists r' ctx' calls,
      crypt_convert_loop fuel env cc ctx r hist = Some (r', ctx', hist ++ calls)
      /\ map call_src calls = firstn n cin
      /\ map call_dst calls = firstn n cout
      /\ Forall (fun c => call_nbytes c = 512) calls
      /\ sector ctx' = Nat.iter n (fun s => wrap64 (s + 1)) (sector ctx)
      /\ exhausted ctx' = true
      /\ 0 <= r'
      /\ bio_in ctx' = Some bin /\ bio_out ctx' = Some bout
      /\ write ctx' = write ctx
      /\ cursor_ok bin (idx_in ctx') (offset_in ctx')
      /\ cursor_ok bout (idx_out ctx') (offset_out ctx')
      /\ chunks_ahead bin (idx_in ctx') (offset_in ctx') = skipn n cin
      /\ chunks_ahead bout (idx_out ctx') (offset_out ctx') = skipn n cout
      /\ map call_iv calls
         = map (iv_of_sector env cc) (sector_run (sector ctx) n)
      /\ Forall (fun c => is_encryption (call_op c)
                          = negb (write ctx =? 0)) calls.
Proof.
  induction fuel as [|fuel IH];
    intros ctx bin bout r hist Ei Eo Hai Hao Hci Hco Hr cin cout n Hfuel;
    [lia|].
  cbn [crypt_convert_loop]. rewrite Ei, Eo.
  destruct (Z.ltb_spec (idx_in ctx) (bi_vcnt bin)) as [Hin|Hin].
  2:{ assert (E : cin = [])
        by (apply chunks_ahead_end; [apply Hci | lia]).
      cbn [andb]. exists r, ctx, []. rewrite app_nil_r.
      subst n. rewrite E.
      cbn [List.length Nat.min firstn skipn map Nat.iter sector_run].
      fold cout.
      repeat match goal with |- _ /\ _ => split end;
        try assumption; try reflexivity; try (constructor; fail).
      unfold exhausted. rewrite Ei, Eo.
      replace (idx_in ctx <? bi_vcnt bin) with false
        by (symmetry; apply Z.ltb_ge; lia).
      reflexivity. }
  destruct (Z.ltb_spec (idx_out ctx) (bi_vcnt bout)) as [Hout|Hout].
  2:{ assert (E : cout = [])
        by (apply chunks_ahead_end; [apply Hco | lia]).
      cbn [andb]. exists r, ctx, []. rewrite app_nil_r.
      subst n. rewrite E, Nat.min_0_r.
      cbn [List.length firstn skipn map Nat.iter sector_run].
      fold cin.
      repeat match goal with |- _ /\ _ => split end;
        try assumption; try reflexivity; try (constructor; fail).
      unfold exhausted. rewrite Ei, Eo.
      replace (idx_out ctx <? bi_vcnt bout) with false
        by (symmetry; apply Z.ltb_ge; lia).
      now rewrite andb_false_r. }
  cbn [andb].
  destruct (chunks_ahead_inside bin _ _ Hai Hci Hin) as (bvi & Ebi).
  destruct (chunks_ahead_inside bout _ _ Hao Hco Hout) as (bvo & Ebo).
  rewrite Ebi, Ebo. cbv zeta.
  destruct (cursor_chunk bin _ _ bvi Hai Hci Hin Ebi) as [Cin Hci'].
  destruct (cursor_chunk bout _ _ bvo Hao Hco Hout Ebo) as [Cout Hco'].
  cbv zeta in Cin, Hci', Cout, Hco'.
  cbn [sg_length write sector bio_in bio_out offset_in offset_out
       idx_in idx_out].
  match goal with
  | |- context [crypt_convert_scatterlist env cc ?o ?i ?len ?w ?s hist] =>
      destruct (crypt_convert_scatterlist_call env cc Hfit o i len w s
                  hist)
        as (c & Ec & Hiv & Hn & Hd & Hs & Hop); rewrite Ec
  end.
  pose proof (Hcipher hist c) as Hc0.
  replace (blkcipher_result env hist c <? 0) with false
    by (symmetry; apply Z.ltb_ge; lia).
  match goal with
  | |- context [crypt_convert_loop fuel env cc ?ctx1 ?r1 ?h1] =>
      destruct (IH ctx1 bin bout r1 h1)
        as (r' & ctx' & calls & E & Si & So & Sn & Ss & Sx & Sr
            & Bi & Bo & Sw & Ci & Co & Ai & Ao & Siv & Sop);
        [reflexivity | reflexivity | exact Hai | exact Hao | exact Hci'
        | exact Hco' | exact Hc0 | |]
  end.
  { cbn [idx_in idx_out offset_in offset_out].
    subst n cin cout. rewrite Cin, Cout in Hfuel.
    cbn [List.length] in Hfuel.
    rewrite <- Nat.succ_min_distr in Hfuel. lia. }
  cbn [idx_in idx_out offset_in offset_out sector write]
    in E, Si, So, Ss, Sw, Ai, Ao, Siv, Sop.
  exists r', ctx', (c :: calls). rewrite E.
  split; [now rewrite <- app_assoc|].
  subst n cin cout. rewrite Cin, Cout. cbn [List.length].
  rewrite <- Nat.succ_min_distr. cbn [firstn skipn map Nat.iter sector_run].
  rewrite Si, So, Hs, Hd, Hiv, Siv.
  split; [reflexivity|]. split; [reflexivity|].
  split; [constructor; [exact Hn | exact Sn]|].
  split.
  { rewrite Ss, Nat.iter_succ.
    apply (iter_shift (fun s => wrap64 (s + 1))). }
  repeat (split; [assumption|]).
  split; [reflexivity|].
  constructor; [exact Hop | exact Sop].
Qed.

End Coverage.

(** X11.  On bios made of whole sectors and with a cipher that does not
    fail, [crypt_convert] goes through the sectors of both bios in order,
    each exactly once: the chunk at a given distance from the start of the
    input is handed to the cipher together with the chunk at the same
    distance from the start of the output, 512 bytes at a time, until the
    shorter of the two is used up, and the running sector has then
    advanced by the number of chunks. *)
Theorem crypt_convert_covers_sectors
    (env : blkcipher_env) (cc : crypt_config) (bout bin : bio)
    (sect wr : Z) (fuel : nat) (hist : list blkcipher_call) :
  iv_buffer_fits cc = true ->
  (forall h c, 0 <= blkcipher_result env h c) ->
  sector_aligned bin = true ->
  sector_aligned bout = true ->
  let ctx := crypt_convert_init cc (Some bout) (Some bin) sect wr in
  let cin := chunks_ahead bin (bi_idx bin) 0 in
  let cout := chunks_ahead bout (bi_idx bout) 0 in
  let n := Nat.min (List.length cin) (List.length cout) in
  (n < fuel)%nat ->
  exists r ctx' calls,
    crypt_convert fuel env cc ctx hist = Some (r, ctx', hist ++ calls)
    /\ 0 <= r
    /\ List.length calls = n
    /\ map call_src calls = firstn n cin
    /\ map call_dst calls = firstn n cout
    /\ Forall (fun c => call_nbytes c = 512) calls
    /\ sector ctx' = wrap64 (sect + iv_offset cc + Z.of_nat n)
    /\ exhausted ctx' = true.
Proof.
  intros Hfit Hcipher Hai Hao ctx cin cout n Hfuel.
  destruct (sector_aligned_inv bin Hai) as [Hoki _].
  destruct (sector_aligned_inv bout Hao) as [Hoko _].
  destruct (bio_ok_inv bin Hoki) as (Hii & _).
  destruct (bio_ok_inv bout Hoko) as (Hio & _).
  destruct (crypt_convert_loop_chunks env cc Hfit Hcipher fuel ctx bin bout
              0 hist)
    as (r & ctx' & calls & E & Si & So & Sn & Ss & Sx & Sr & _);
    try reflexivity; try assumption; try lia.
  - split; [exact Hii | left; reflexivity].
  - split; [exact Hio | left; reflexivity].
  - exists r, ctx', calls. split; [exact E|]. split; [exact Sr|].
    cbn [idx_in idx_out offset_in offset_out ctx crypt_convert_init] in Si, So.
    fold cin cout n in Si, So.
    split.
    { rewrite <- (length_map call_src), Si, length_firstn. subst n. lia. }
    split; [exact Si|]. split; [exact So|]. split; [exact Sn|].
    split; [|exact Sx].
    rewrite Ss. cbn [sector ctx crypt_convert_init idx_in idx_out
                     offset_in offset_out].
    fold cin cout n. rewrite iter_wrap64.
    + unfold wrap64. rewrite Zplus_mod_idemp_l. reflexivity.
    + unfold wrap64. apply Z.mod_pos_bound. lia.
Qed.

(** Decrypting a 1024-byte segment in place: two chunks, at offsets 0 and
    512 of page 7. *)
Lemma crypt_convert_covers_sectors_witness :
  exists r ctx' calls,
    crypt_convert 4 example_env example_cc_plain
      (crypt_convert_init example_cc_plain (Some (example_bio READ))
         (Some (example_bio READ)) 8 0) []
    = Some (r, ctx', calls)
    /\ map call_src calls
       = [{| sg_page := 7; sg_length := 512; sg_offset := 0 |};
          {| sg_page := 7; sg_length := 512; sg_offset := 512 |}]
    /\ sector ctx' = 10.
Proof.
  destruct (crypt_convert_covers_sectors example_env example_cc_plain
              (example_bio READ) (example_bio READ) 8 0 4 [])
    as (r & ctx' & calls & E & _ & _ & Si & _ & _ & Ss & _).
  - reflexivity.
  - intros h c. cbn. lia.
  - reflexivity.
  - reflexivity.
  - vm_compute. lia.
  - exists r, ctx', calls. split; [exact E|]. split; [exact Si | exact Ss].
Defined.

(** ** The status line *)

Lemma string_take_length (n : nat) (s : string) :
  String.length (string_take n s) = Nat.min n (String.length s).
Proof.
  revert s. induction n as [|n IH]; intros [|c s]; cbn [string_take String.length];
    try reflexivity.
  now rewrite IH.
Qed.

Lemma string_take_all (n : nat) (s : string) :
  (String.length s <= n)%nat -> string_take n s = s.
Proof.
  revert s. induction n as [|n IH]; intros [|c s] H; cbn [string_take];
    try reflexivity.
  - cbn in H. lia.
  - f_equal. apply IH. cbn in H. lia.
Qed.

Lemma string_take_app (n : nat) (a b : string) :
  string_take n (a ++ b)
  = (string_take n a ++ string_take (n - String.length a) b)%string.
Proof.
  revert a. induction n as [|n IH]; intros [|c a];
    cbn [string_take String.append String.length Nat.sub]; try reflexivity.
  now rewrite IH.
Qed.

Lemma string_app_assoc (a b c : string) :
  ((a ++ b) ++ c = a ++ (b ++ c))%string.
Proof.
  induction a as [|x a IH]; cbn [String.append]; [reflexivity | now rewrite IH].
Qed.

Lemma string_app_nil_r (a : string) : (a ++ EmptyString)%string = a.
Proof.
  induction a as [|x a IH]; cbn [String.append]; [reflexivity | now rewrite IH].
Qed.

(** A [DMEMIT] after the other: what is in the buffer is the text so far,
    cut off where the buffer ends. *)
Lemma DMEMIT_take (maxlen : Z) (acc text : string) :
  DMEMIT maxlen (string_take (Z.to_nat (maxlen - 1)) acc) text
  = string_take (Z.to_nat (maxlen - 1)) (acc ++ text).
Proof.
  unfold DMEMIT, scnprintf, strlen. rewrite string_take_length.
  set (k := Z.to_nat (maxlen - 1)).
  destruct (Z.leb_spec maxlen (Z.of_nat (Nat.min k (String.length acc))))
    as [Hfull|Hroom].
  - assert (Hk : k = 0%nat) by lia.
    rewrite Hk. destruct acc, text; reflexivity.
  - rewrite string_take_app. f_equal. f_equal. lia.
Qed.

Lemma DMEMIT_first (maxlen : Z) (text : string) :
  DMEMIT maxlen EmptyString text = string_take (Z.to_nat (maxlen - 1)) text.
Proof.
  change text with (EmptyString ++ text)%string at 2.
  rewrite <- DMEMIT_take. now destruct (Z.to_nat (maxlen - 1)).
Qed.

Lemma DMEMIT_fold (maxlen : Z) (f : nat -> string) (l : list nat) :
  forall acc,
    fold_left (fun res i => DMEMIT maxlen res (f i)) l
      (string_take (Z.to_nat (maxlen - 1)) acc)
    = string_take (Z.to_nat (maxlen - 1))
        (acc ++ fold_right (fun i s => (f i ++ s)%string) EmptyString l).
Proof.
  induction l as [|i l IH]; intros acc; cbn [fold_left fold_right].
  - now rewrite string_app_nil_r.
  - rewrite DMEMIT_take, IH. now rewrite string_app_assoc.
Qed.

Lemma hex_of_bytes_fold (g : nat -> Z) (l : list nat) :
  fold_right (fun i s => (format_02x (g i) ++ s)%string) EmptyString l
  = hex_of_bytes (map g l).
Proof.
  induction l as [|i l IH]; cbn [fold_right map hex_of_bytes];
    [reflexivity | now rewrite IH].
Qed.

(** X12.  [crypt_status] never writes past the end of [result]: for the
    table it writes the line
    [cipher-chainmode[-ivmode] key iv_offset device start], cut off after
    [maxlen - 1] characters, so that with the terminating NUL at most
    [maxlen] bytes are used; for the info request it writes the empty
    string. *)
Theorem crypt_status_truncates (cc : crypt_config) (name : string)
    (maxlen : Z) :
  dev cc = Some name ->
  crypt_status cc STATUSTYPE_TABLE maxlen
  = Some (string_take (Z.to_nat (maxlen - 1)) (table_line cc name))
  /\ (forall line, crypt_status cc STATUSTYPE_TABLE maxlen = Some line ->
                   strlen line <= Z.max 0 (maxlen - 1))
  /\ (strlen (table_line cc name) < maxlen ->
      crypt_status cc STATUSTYPE_TABLE maxlen = Some (table_line cc name))
  /\ crypt_status cc STATUSTYPE_INFO maxlen = Some EmptyString.
Proof.
  intros Hd.
  assert (E : crypt_status cc STATUSTYPE_TABLE maxlen
              = Some (string_take (Z.to_nat (maxlen - 1)) (table_line cc name))).
  { unfold crypt_status, table_line, status_spec, status_key.
    rewrite Hd. cbv zeta. f_equal.
    destruct (iv_mode cc) as [m|]; rewrite DMEMIT_first;
      (destruct (0 <? key_size cc);
       [rewrite DMEMIT_fold, hex_of_bytes_fold | rewrite DMEMIT_take]);
      rewrite DMEMIT_take; unfold key_bytes; rewrite ?map_map;
      repeat (progress (rewrite ?string_app_assoc; cbn [String.append]));
      reflexivity. }
  split; [exact E|]. split; [|split; [|reflexivity]].
  - intros line. rewrite E. intros [= <-]. unfold strlen.
    rewrite string_take_length. lia.
  - intros Hlen. rewrite E. f_equal. apply string_take_all.
    unfold strlen in Hlen. lia.
Qed.

Lemma crypt_status_truncates_witness :
  crypt_status example_cc_plain STATUSTYPE_TABLE 10 = Some "aes-cbc-p"%string
  /\ crypt_status example_cc_plain STATUSTYPE_TABLE 4096
     = Some "aes-cbc-plain - 0 sda1 0"%string.
Proof.
  destruct (crypt_status_truncates example_cc_plain "sda1" 10 eq_refl)
    as (E & _).
  destruct (crypt_status_truncates example_cc_plain "sda1" 4096 eq_refl)
    as (_ & _ & F & _).
  split; [rewrite E; reflexivity|].
  rewrite F; [reflexivity | vm_compute; reflexivity].
Defined.

(** ** The status line read back *)

(** The sixteen digits. *)
Lemma digit_cases (d : Z) :
  0 <= d < 16 ->
  d = 0 \/ d = 1 \/ d = 2 \/ d = 3 \/ d = 4 \/ d = 5 \/ d = 6 \/ d = 7
  \/ d = 8 \/ d = 9 \/ d = 10 \/ d = 11 \/ d = 12 \/ d = 13 \/ d = 14
  \/ d = 15.
Proof. lia. Qed.

Lemma digit_char_hex (d : Z) :
  0 <= d < 16 -> hex_value (digit_char d) = Some d.
Proof.
  intros H. destruct (digit_cases d H)
    as [-> | [-> | [-> | [-> | [-> | [-> | [-> | [-> | [-> | [-> | [->
        | [-> | [-> | [-> | [-> | ->]]]]]]]]]]]]]]]; reflexivity.
Qed.

Lemma digit_char_decimal (d : Z) :
  0 <= d < 10 -> uchar (digit_char d) = 48 + d.
Proof.
  intros H. assert (H' : 0 <= d < 16) by lia.
  destruct (digit_cases d H')
    as [-> | [-> | [-> | [-> | [-> | [-> | [-> | [-> | [-> | [-> | [->
        | [-> | [-> | [-> | [-> | ->]]]]]]]]]]]]]]]; try reflexivity; lia.
Qed.

(** What [hex_of_bytes] spells is a string of digit pairs that spells the
    bytes back. *)
Lemma hex_of_bytes_pairs (l : list Z) :
  Forall is_byte l ->
  is_hex_pairs (list_ascii_of_string (hex_of_bytes l)) = true
  /\ hex_bytes (list_ascii_of_string (hex_of_bytes l)) = l
  /\ String.length (hex_of_bytes l) = (2 * List.length l)%nat.
Proof.
  induction 1 as [|b l Hb Hl IH]; [repeat split|].
  destruct IH as (IH1 & IH2 & IH3). unfold is_byte in Hb.
  assert (Hhi : 0 <= b / 16 < 16)
    by (split; [apply Z.div_pos; lia | apply Z.div_lt_upper_bound; lia]).
  assert (Hlo : 0 <= b mod 16 < 16) by (apply Z.mod_pos_bound; lia).
  cbn [hex_of_bytes format_02x String.append list_ascii_of_string
       is_hex_pairs hex_bytes String.length List.length].
  unfold is_xdigit, xdigit_value.
  rewrite (digit_char_hex _ Hhi), (digit_char_hex _ Hlo).
  cbn [andb]. split; [exact IH1|]. split.
  - rewrite IH2. f_equal. rewrite (Z.div_mod b 16) at 3 by lia. lia.
  - rewrite IH3. lia.
Qed.

(** X13.  The key that [crypt_status] prints is one that [crypt_set_key]
    takes back: on a target without key or with a key of the same size it
    is accepted and installs the same key bytes and the same key size; a
    target without key prints the no-key string, which is accepted as
    well. *)
Theorem crypt_status_key_round_trip (cc cc0 : crypt_config) :
  key_size cc < 2 ^ 31 ->
  key_size cc0 = 0 \/ key_size cc0 = key_size cc ->
  (0 < key_size cc ->
   fst (crypt_set_key cc0 (status_key cc)) = 0
   /\ key_size (snd (crypt_set_key cc0 (status_key cc))) = key_size cc
   /\ key_bytes (snd (crypt_set_key cc0 (status_key cc))) (key_size cc)
      = map wrap8 (key_bytes cc (key_size cc)))
  /\ (key_size cc <= 0 ->
      status_key cc = "-"%string
      /\ (key_size cc0 = 0 -> fst (crypt_set_key cc0 (status_key cc)) = 0)).
Proof.
  intros Hlt Hz. split.
  - intros Hpos. unfold status_key.
    replace (0 <? key_size cc) with true by (symmetry; apply Z.ltb_lt; lia).
    set (l := map wrap8 (key_bytes cc (key_size cc))).
    assert (Hb : Forall is_byte l).
    { apply Forall_forall. intros x Hx. apply in_map_iff in Hx as (y & <- & _).
      unfold is_byte, wrap8. apply Z.mod_pos_bound. lia. }
    assert (Hl : Z.of_nat (List.length l) = key_size cc)
      by (unfold l, key_bytes; rewrite !length_map, length_seq; lia).
    destruct (hex_of_bytes_pairs l Hb) as (P1 & P2 & P3).
    assert (Hs : strlen (hex_of_bytes l) / 2 = key_size cc).
    { unfold strlen. rewrite P3, Nat2Z.inj_mul, Z.mul_comm, Z.div_mul by lia.
      exact Hl. }
    destruct (crypt_set_key_accepts cc0 (hex_of_bytes l)) as (R & S & B & _).
    + rewrite Hs. exact Hz.
    + unfold well_formed_hex. rewrite P1, P3.
      destruct (List.length l); [lia | reflexivity].
    + unfold strlen. rewrite P3. lia.
    + rewrite Hs in S, B. rewrite P2 in B. repeat split; assumption.
  - intros Hle. unfold status_key.
    replace (0 <? key_size cc) with false by (symmetry; apply Z.ltb_ge; lia).
    split; [reflexivity|]. intros H0.
    now rewrite (crypt_set_key_no_key cc0 H0).
Qed.

Lemma crypt_status_key_round_trip_witness :
  let cc := snd (crypt_set_key (kzalloc_crypt_config 2 (fun _ => 0)) "A1b2") in
  status_key cc = "a1b2"%string
  /\ key_bytes (snd (crypt_set_key (kzalloc_crypt_config 2 (fun _ => 0))
                       (status_key cc))) 2
     = [161; 178].
Proof.
  intros cc.
  destruct (crypt_status_key_round_trip cc (kzalloc_crypt_config 2 (fun _ => 0)))
    as [H _].
  - reflexivity.
  - left. reflexivity.
  - destruct H as (_ & _ & B); [reflexivity|].
    split; [reflexivity | exact B].
Defined.

(** ** Sector numbers in the status line *)

(** A decimal digit is read as one, and is no white space. *)
Lemma digit_char_read (d : Z) :
  0 <= d < 10 ->
  (48 <=? uchar (digit_char d)) && (uchar (digit_char d) <=? 57) = true
  /\ uchar (digit_char d) - 48 = d
  /\ is_space (digit_char d) = false.
Proof.
  intros H. pose proof (digit_char_decimal d H) as E.
  unfold is_space. rewrite E.
  split; [apply andb_true_iff; split; apply Z.leb_le; lia|].
  split; [lia|].
  replace ((9 <=? 48 + d) && (48 + d <=? 13)) with false
    by (symmetry; apply andb_false_iff; right; apply Z.leb_gt; lia).
  replace (48 + d =? 32) with false by (symmetry; apply Z.eqb_neq; lia).
  replace (48 + d =? 160) with false by (symmetry; apply Z.eqb_neq; lia).
  reflexivity.
Qed.

(** The digits [decimal_digits] writes, read back by [parse_decimal]. *)
Lemma decimal_digits_read (fuel : nat) :
  forall (v : Z) (acc : list ascii),
    0 <= v < 10 ^ Z.of_nat fuel -> (0 < fuel)%nat ->
    exists d ds,
      decimal_digits fuel v acc = (d :: ds) ++ acc
      /\ (48 <=? uchar d) && (uchar d <=? 57) = true
      /\ is_space d = false
      /\ forall a rest,
           0 <= a ->
           a * 10 ^ Z.of_nat (List.length (d :: ds)) + v < 2 ^ 64 ->
           parse_decimal ((d :: ds) ++ rest) a
           = parse_decimal rest (a * 10 ^ Z.of_nat (List.length (d :: ds)) + v).
Proof.
  induction fuel as [|fuel IH]; intros v acc Hv Hf; [lia|].
  cbn [decimal_digits].
  assert (Hm : 0 <= v mod 10 < 10) by (apply Z.mod_pos_bound; lia).
  destruct (digit_char_read _ Hm) as (D1 & D2 & D3).
  destruct (Z.eqb_spec (v / 10) 0) as [E0|Hne].
  - exists (digit_char (v mod 10)), []. split; [reflexivity|].
    split; [exact D1|]. split; [exact D3|].
    intros a rest Ha Hlt. cbn [app parse_decimal List.length] in *.
    rewrite D1, D2.
    assert (Hvm : v mod 10 = v)
      by (rewrite (Z.div_mod v 10) at 2 by lia; lia).
    rewrite Hvm in *. change (10 ^ Z.of_nat 1) with 10 in *.
    unfold wrap64. rewrite Z.mod_small by lia. reflexivity.
  - assert (Hq : 0 <= v / 10 < 10 ^ Z.of_nat fuel).
    { split; [apply Z.div_pos; lia|].
      apply Z.div_lt_upper_bound; [lia|].
      rewrite Nat2Z.inj_succ, Z.pow_succ_r in Hv by lia. lia. }
    assert (Hf' : (0 < fuel)%nat).
    { destruct fuel; [|lia]. cbn in Hq. lia. }
    destruct (IH (v / 10) (digit_char (v mod 10) :: acc) Hq Hf')
      as (d & ds & E & Hd & Hsp & Hp).
    exists d, (ds ++ [digit_char (v mod 10)]).
    split; [rewrite E; cbn [app]; now rewrite <- app_assoc|].
    split; [exact Hd|]. split; [exact Hsp|].
    intros a rest Ha Hlt.
    replace ((d :: ds ++ [digit_char (v mod 10)]) ++ rest)
      with ((d :: ds) ++ digit_char (v mod 10) :: rest)
      by (cbn [app]; now rewrite <- app_assoc).
    assert (HL : Z.of_nat (List.length (d :: ds ++ [digit_char (v mod 10)]))
                 = Z.of_nat (List.length (d :: ds)) + 1)
      by (cbn [List.length]; rewrite length_app; cbn [List.length]; lia).
    rewrite HL in *. rewrite Z.pow_add_r in * by lia.
    change (10 ^ 1) with 10 in *.
    set (p := 10 ^ Z.of_nat (List.length (d :: ds))) in *.
    assert (Hp0 : 0 < p) by (apply Z.pow_pos_nonneg; lia).
    assert (Hv10 : v = 10 * (v / 10) + v mod 10) by (apply Z.div_mod; lia).
    assert (Hap : 0 <= a * p) by (apply Z.mul_nonneg_nonneg; lia).
    rewrite Hp by lia.
    cbn [parse_decimal]. rewrite D1, D2. f_equal.
    unfold wrap64. rewrite Z.mod_small by lia. lia.
Qed.

(** A sector number printed with [%llu] is read back by [sscanf] as the
    same number. *)
Lemma sscanf_llu_format_llu (v : Z) :
  sscanf_llu (format_llu v) = Some (wrap64 v).
Proof.
  unfold sscanf_llu, format_llu.
  rewrite list_ascii_of_string_of_list_ascii.
  assert (Hw : 0 <= wrap64 v < 2 ^ 64)
    by (unfold wrap64; apply Z.mod_pos_bound; lia).
  destruct (decimal_digits_read 20 (wrap64 v) []) as (d & ds & E & Hd & Hsp & Hp).
  - change (10 ^ Z.of_nat 20) with 100000000000000000000.
    change (2 ^ 64) with 18446744073709551616 in Hw. lia.
  - lia.
  - rewrite E, app_nil_r. cbn [skip_spaces]. rewrite Hsp, Hd.
    f_equal. specialize (Hp 0 [] ltac:(lia)).
    rewrite app_nil_r in Hp. rewrite Hp by lia. reflexivity.
Qed.

(** ** The status line handed back to the constructor *)

Lemma free_of_app (ct a b : string) :
  free_of ct (a ++ b) = free_of ct a && free_of ct b.
Proof.
  unfold free_of. induction a as [|c a IH];
    cbn [String.append list_ascii_of_string forallb]; [reflexivity|].
  now rewrite IH, andb_assoc.
Qed.

(** What [split_at_delim] returns: a token free of delimiters, and the
    string put together again from the token, the delimiter and the
    rest. *)
Lemma split_at_delim_inv (ct : string) (s : string) :
  forall tok rest,
    split_at_delim ct s = (tok, rest) ->
    free_of ct tok = true
    /\ match rest with
       | None => s = tok
       | Some r => exists d, is_delim ct d = true
                             /\ s = (tok ++ String d r)%string
       end.
Proof.
  induction s as [|c s IH]; intros tok rest; cbn [split_at_delim].
  - intros [= <- <-]. split; reflexivity.
  - destruct (is_delim ct c) eqn:Ec.
    + intros [= <- <-]. split; [reflexivity|]. exists c. split; [exact Ec|].
      reflexivity.
    + destruct (split_at_delim ct s) as [tok' rest'].
      intros [= <- <-]. destruct (IH tok' rest' eq_refl) as [F R].
      split.
      * unfold free_of in *. cbn [list_ascii_of_string forallb].
        now rewrite Ec, F.
      * destruct rest' as [r|].
        -- destruct R as (d & Hd & ->). exists d. split; [exact Hd|].
           reflexivity.
        -- now rewrite R.
Qed.

(** The pieces of a string without dashes have none either. *)
Lemma split_at_delim_free (ct ct' : string) (s tok : string)
    (rest : option string) :
  split_at_delim ct s = (tok, rest) ->
  free_of ct' s = true ->
  free_of ct' tok = true
  /\ match rest with Some r => free_of ct' r = true | None => True end.
Proof.
  intros H F. destruct (split_at_delim_inv ct s tok rest H) as [_ R].
  destruct rest as [r|].
  - destruct R as (d & _ & ->). rewrite free_of_app in F.
    apply andb_true_iff in F as [F1 F2]. split; [exact F1|].
    unfold free_of in F2. cbn [list_ascii_of_string forallb] in F2.
    apply andb_true_iff in F2 as [_ F2]. exact F2.
  - subst. split; [exact F | exact I].
Qed.

Lemma is_delim_single (c d : ascii) :
  is_delim (String c EmptyString) d = true -> d = c.
Proof.
  unfold is_delim. cbn [list_ascii_of_string existsb]. rewrite orb_false_r.
  intros H. apply Z.eqb_eq in H. symmetry. now apply uchar_inj.
Qed.

Lemma strsep_token (ct : string) (s : string) :
  free_of ct s = true -> strsep (Some s) ct = (Some s, None).
Proof.
  intros H. unfold strsep. now rewrite (split_at_delim_none ct s H).
Qed.

Lemma strsep_more (c : ascii) (s rest : string) :
  free_of (String c EmptyString) s = true ->
  strsep (Some (s ++ String c rest)%string) (String c EmptyString)
  = (Some s, Some rest).
Proof.
  intros H. unfold strsep.
  rewrite (split_at_delim_first (String c EmptyString) s rest c H);
    [reflexivity|].
  unfold is_delim. cbn [list_ascii_of_string existsb].
  now rewrite Z.eqb_refl.
Qed.

(** [parse_decimal] stays within 64 bits. *)
Lemma parse_decimal_range (s : list ascii) :
  forall acc, 0 <= acc < 2 ^ 64 -> 0 <= parse_decimal s acc < 2 ^ 64.
Proof.
  induction s as [|c s IH]; intros acc H; cbn [parse_decimal]; [exact H|].
  destruct ((48 <=? uchar c) && (uchar c <=? 57)); [|exact H].
  apply IH. unfold wrap64. apply Z.mod_pos_bound. lia.
Qed.

Lemma sscanf_llu_range (s : string) (v : Z) :
  sscanf_llu s = Some v -> 0 <= v < 2 ^ 64.
Proof.
  unfold sscanf_llu. destruct (skip_spaces _) as [|c s']; [discriminate|].
  destruct ((48 <=? uchar c) && (uchar c <=? 57)); [|discriminate].
  intros H. injection H as H. rewrite <- H.
  apply (parse_decimal_range (c :: s') 0). lia.
Qed.

(** The constructor looks at its two sector arguments through [sscanf]
    only. *)
Lemma crypt_ctr_setup_sectors (ocf : bool) (env : ctr_env)
    (cc0 : crypt_config) (c chain : string) (ivmode ivopts : option string)
    (ksize : Z) (a_off a_off' a_dev a_start a_start' : string) :
  sscanf_llu a_off' = sscanf_llu a_off ->
  sscanf_llu a_start' = sscanf_llu a_start ->
  crypt_ctr_setup ocf env cc0 c chain ivmode ivopts ksize a_off' a_dev a_start'
  = crypt_ctr_setup ocf env cc0 c chain ivmode ivopts ksize a_off a_dev a_start.
Proof.
  intros H1 H2. unfold crypt_ctr_setup. now rewrite H1, H2.
Qed.

(** What a successful construction leaves in the members that the status
    line shows, for a target with generator. *)
Lemma crypt_ctr_setup_fields (ocf : bool) (env : ctr_env)
    (cc0 : crypt_config) (c chain a_off a_dev a_start : string)
    (ivmode ivopts : option string) (ksize : Z)
    (err : option string) (cc : crypt_config) :
  crypt_ctr_setup ocf env cc0 c chain ivmode ivopts ksize
    a_off a_dev a_start = Some (0, err, Some cc) ->
  iv_gen_ops cc <> None ->
  cipher cc = c /\ chainmode cc = chain
  /\ (exists m, ivmode = Some m
                /\ iv_mode cc = Some match ivopts with
                                     | Some o => (m ++ ":" ++ o)%string
                                     | None => m
                                     end)
  /\ sscanf_llu a_off = Some (iv_offset cc)
  /\ sscanf_llu a_start = Some (start cc)
  /\ dev cc = Some a_dev.
Proof.
  unfold crypt_ctr_setup, ctr_bad. cbv beta iota zeta.
  intros H. destruct ocf.
  - case_analysis H.
    all: injection H as <- <-.
    all: match goal with E : _ = inl _ |- _ => case_analysis E end.
    all: match goal with E : inl _ = inl _ |- _ => injection E as <- <- end.
    all: subst.
    all: use_iv_gen_ctr_frame.
    all: cbn [iv_gen_ops iv_size iv_gen_private tfm cr_dm chainmode cipher
              iv_offset start dev iv_mode with_dev with_start with_io_pool
              with_page_pool with_bs with_iv_gen_ops with_iv_mode
              with_iv_gen_private with_iv_offset with_iv_size with_cipher
              with_chainmode with_cr_dm with_ocf_cryptoid with_tfm].
    all: intros Hg.
    all: try (elim Hg; assumption).
    all: try match goal with
             | E : choose_iv_gen_ops _ None = Some _ |- _ =>
                 injection E as <-; elim Hg; reflexivity
             end.
    all: repeat split; try assumption; try reflexivity.
    all: try (eexists; split; reflexivity).
  - case_analysis H.
    all: injection H as <- <-.
    all: match goal with E : _ = inl _ |- _ => case_analysis E end.
    all: match goal with E : inl _ = inl _ |- _ => injection E as <- <- end.
    all: subst.
    all: try match goal with
             | E : match iv_gen_ctr _ _ _ _ with _ => _ end = Some _ |- _ =>
                 case_analysis E; injection E as <- <-
             end.
    all: subst.
    all: use_iv_gen_ctr_frame.
    all: cbn [iv_gen_ops iv_size iv_gen_private tfm cr_dm chainmode cipher
              iv_offset start dev iv_mode with_dev with_start with_io_pool
              with_page_pool with_bs with_iv_gen_ops with_iv_mode
              with_iv_gen_private with_iv_offset with_iv_size with_cipher
              with_chainmode with_cr_dm with_ocf_cryptoid with_tfm].
    all: intros Hg.
    all: try (elim Hg; assumption).
    all: try (elim Hg; reflexivity).
    all: try match goal with
             | E : choose_iv_gen_ops _ None = Some _ |- _ =>
                 injection E as <-; elim Hg; reflexivity
             end.
    all: repeat split; try assumption; try reflexivity.
    all: try (eexists; split; reflexivity).
Qed.

(** The constructor on a specification of three clean tokens. *)
Lemma crypt_ctr_of_tokens (ocf : bool) (env : ctr_env)
    (c chain m : string) (ivopts : option string)
    (a1 a2 a3 a4 : string) :
  free_of "-" c = true -> free_of "-" chain = true ->
  free_of "-" m = true -> free_of ":" m = true ->
  match ivopts with Some o => free_of "-" o = true | None => True end ->
  kzalloc_fails env = false ->
  crypt_ctr ocf env
    [(c ++ "-" ++ chain ++ "-"
      ++ match ivopts with Some o => m ++ ":" ++ o | None => m end)%string;
     a1; a2; a3; a4]
  = let ksize := wrap32 (Z.shiftr (strlen a1) 1) in
    let (rk, cc0) :=
      crypt_set_key (kzalloc_crypt_config ksize (heap_behind env)) a1 in
    if negb (rk =? 0) then ctr_bad "Error decoding key"
    else if negb (strcmp chain "ecb" =? 0) && false
         then ctr_bad "This chaining mode requires an IV mechanism"
         else crypt_ctr_setup ocf env cc0 c chain (Some m) ivopts ksize
                a2 a3 a4.
Proof.
  intros Fc Fch Fm Fm' Fo Hk.
  set (im := match ivopts with Some o => (m ++ ":" ++ o)%string | None => m end).
  assert (Fim : free_of "-" im = true).
  { unfold im. destruct ivopts as [o|]; [|exact Fm].
    rewrite free_of_app, Fm. cbn [String.append]. unfold free_of in *.
    cbn [list_ascii_of_string forallb]. now rewrite Fo. }
  assert (Sim : strsep (Some im) ":" = (Some m, ivopts)).
  { unfold im. destruct ivopts as [o|].
    - apply (strsep_more ":"%char m o Fm').
    - apply strsep_token. exact Fm'. }
  unfold crypt_ctr. cbn [String.append].
  rewrite (strsep_more "-"%char c _ Fc).
  rewrite (strsep_more "-"%char chain _ Fch).
  fold im. rewrite (strsep_token "-" im Fim), Sim, Hk.
  cbv zeta. destruct (crypt_set_key _ a1) as [rk cc0].
  destruct (negb (rk =? 0)); reflexivity.
Qed.

Lemma strsep_inv (s : option string) (ct : string)
    (tok rest : option string) :
  strsep s ct = (tok, rest) ->
  match s with
  | None => tok = None /\ rest = None
  | Some str => exists t, tok = Some t /\ split_at_delim ct str = (t, rest)
  end.
Proof.
  unfold strsep. destruct s as [str|].
  - destruct (split_at_delim ct str) as [t r]. intros [= <- <-].
    exists t. split; reflexivity.
  - intros [= <- <-]. split; reflexivity.
Qed.

(** X14.  The table line brings the target back: when [crypt_ctr] has
    constructed a target with IV generator, the constructor called again
    with the cipher specification and the two sector numbers as
    [crypt_status] prints them (and the key and the device as before)
    succeeds and constructs the very same configuration.  This holds also
    when the first call relied on the defaults for chaining mode and IV
    mode, which the status line spells out. *)
Theorem crypt_status_rebuilds_target (ocf : bool) (env : ctr_env)
    (a0 a1 a2 a3 a4 : string) (err : option string) (cc : crypt_config) :
  crypt_ctr ocf env [a0; a1; a2; a3; a4] = Some (0, err, Some cc) ->
  iv_gen_ops cc <> None ->
  crypt_ctr ocf env
    [status_spec cc; a1; format_llu (iv_offset cc); a3;
     format_llu (start cc)]
  = Some (0, err, Some cc)
  /\ dev cc = Some a3.
Proof.
  intros H Hg. unfold crypt_ctr in H.
  destruct (strsep (Some a0) "-") as [cipher_tok tmp1] eqn:S1.
  destruct (strsep tmp1 "-") as [chain_tok tmp2] eqn:S2.
  destruct (strsep tmp2 "-") as [ivopts0 tmp3] eqn:S3.
  destruct (strsep ivopts0 ":") as [ivmode ivopts] eqn:S4.
  destruct (kzalloc_fails env) eqn:Hk; [discriminate H|].
  apply strsep_inv in S1 as (c & -> & P1).
  apply strsep_inv in S2. apply strsep_inv in S3. apply strsep_inv in S4.
  destruct (split_at_delim_inv _ _ _ _ P1) as [Fc _].
  (* the tokens the first call went on with *)
  assert (Htok : exists chain m,
             free_of "-" chain = true /\ free_of "-" m = true
             /\ free_of ":" m = true
             /\ match ivopts with
                | Some o => free_of "-" o = true
                | None => True
                end
             /\ (let ksize := wrap32 (Z.shiftr (strlen a1) 1) in
                 let (rk, cc0) :=
                   crypt_set_key
                     (kzalloc_crypt_config ksize (heap_behind env)) a1 in
                 if negb (rk =? 0) then ctr_bad "Error decoding key"
                 else if negb (strcmp chain "ecb" =? 0) && false
                      then ctr_bad
                             "This chaining mode requires an IV mechanism"
                      else crypt_ctr_setup ocf env cc0 c chain (Some m)
                             ivopts ksize a2 a3 a4)
                = Some (0, err, Some cc)).
  { cbv zeta.
    destruct (crypt_set_key _ a1) as [rk cc0].
    destruct (negb (rk =? 0)); [discriminate H|].
    destruct chain_tok as [ch|].
    - destruct tmp1 as [s1|]; [|destruct S2 as [S2 _]; discriminate S2].
      destruct S2 as (ch' & [= <-] & P2).
      destruct (split_at_delim_inv _ _ _ _ P2) as [Fch _].
      destruct ivmode as [m|].
      + destruct ivopts0 as [t3|]; [|destruct S4 as [S4 _]; discriminate S4].
        destruct S4 as (m' & [= <-] & P4).
        destruct tmp2 as [s2|]; [|destruct S3 as [S3 _]; discriminate S3].
        destruct S3 as (t3' & [= <-] & P3).
        destruct (split_at_delim_inv _ _ _ _ P3) as [F3 _].
        destruct (split_at_delim_inv _ _ _ _ P4) as [Fm' _].
        destruct (split_at_delim_free _ "-" _ _ _ P4 F3) as [Fm Fo].
        exists ch, m. repeat (split; [assumption|]).
        rewrite andb_false_r in *. exact H.
      + assert (Eo : ivopts = None).
        { destruct ivopts0 as [t3|].
          - destruct S4 as (m' & [=] & _).
          - destruct S4 as [_ ->]. reflexivity. }
        subst ivopts.
        destruct (Z.eqb_spec (strcmp ch "plain") 0) as [Ep|Np].
        * exists "cbc"%string, "plain"%string.
          repeat (split; [reflexivity|]). exact H.
        * rewrite andb_true_r in H.
          destruct (negb (strcmp ch "ecb" =? 0)); [discriminate H|].
          apply crypt_ctr_setup_fields in H as (_ & _ & (m & [=] & _) & _).
          exact Hg.
    - assert (Eo : ivopts = None /\ ivmode = None).
      { destruct tmp1 as [s1|];
          [destruct S2 as (ch' & [=] & _)|destruct S2 as [_ ->]].
        destruct S3 as [-> _]. destruct S4 as [-> ->]. split; reflexivity. }
      destruct Eo as [-> ->].
      exists "cbc"%string, "plain"%string.
      repeat (split; [reflexivity|]). exact H. }
  destruct Htok as (chain & m & Fch & Fm & Fm' & Fo & Hrun).
  cbv zeta in Hrun.
  destruct (crypt_set_key (kzalloc_crypt_config (wrap32 (Z.shiftr (strlen a1) 1))
              (heap_behind env)) a1) as [rk cc0] eqn:EK.
  destruct (negb (rk =? 0)) eqn:Erk; [discriminate Hrun|].
  rewrite andb_false_r in Hrun.
  pose proof (crypt_ctr_setup_fields _ _ _ _ _ _ _ _ _ _ _ _ _ Hrun Hg)
    as (Ec & Ech & (m' & [= <-] & Eim) & Eoff & Estart & Edev).
  split; [|exact Edev].
  assert (Espec : status_spec cc
                  = (c ++ "-" ++ chain ++ "-"
                     ++ match ivopts with
                        | Some o => m ++ ":" ++ o
                        | None => m
                        end)%string)
    by (unfold status_spec; now rewrite Eim, Ec, Ech).
  rewrite Espec, (crypt_ctr_of_tokens ocf env c chain m ivopts a1 _ a3 _
                    Fc Fch Fm Fm' Fo Hk).
  cbv zeta. rewrite EK, Erk, andb_false_r.
  rewrite <- Hrun. apply crypt_ctr_setup_sectors.
  - rewrite sscanf_llu_format_llu, Eoff. f_equal. unfold wrap64.
    apply Z.mod_small. eapply sscanf_llu_range; eassumption.
  - rewrite sscanf_llu_format_llu, Estart. f_equal. unfold wrap64.
    apply Z.mod_small. eapply sscanf_llu_range; eassumption.
Qed.

Lemma crypt_status_rebuilds_target_witness :
  exists err cc,
    crypt_ctr false example_ctr_env ["aes"; "-"; "8"; "sda1"; "16"]%string
    = Some (0, err, Some cc)
    /\ status_spec cc = "aes-cbc-plain"%string
    /\ crypt_ctr false example_ctr_env
         ["aes-cbc-plain"; "-"; "8"; "sda1"; "16"]%string
       = Some (0, err, Some cc).
Proof.
  destruct (crypt_ctr false example_ctr_env
              ["aes"; "-"; "8"; "sda1"; "16"]%string)
    as [[[r err] [cc|]]|] eqn:E; try discriminate E.
  destruct (Z.eq_dec r 0) as [->|Hr].
  - assert (Hg : iv_gen_ops cc <> None)
      by (vm_compute in E; injection E as _ <-; discriminate).
    assert (Hs : status_spec cc = "aes-cbc-plain"%string
                 /\ format_llu (iv_offset cc) = "8"%string
                 /\ format_llu (start cc) = "16"%string)
      by (vm_compute in E; injection E as _ <-; repeat split).
    destruct Hs as (S1 & S2 & S3).
    destruct (crypt_status_rebuilds_target false example_ctr_env
                "aes" "-" "8" "sda1" "16" err cc E Hg) as [R _].
    rewrite S1, S2, S3 in R.
    exists err, cc. split; [reflexivity|]. split; [exact S1 | exact R].
  - exfalso. apply Hr. vm_compute in E. injection E as <- _ _. reflexivity.
Defined.

Lemma crypt_ctr_outcomes_witness :
  exists err cc,
    crypt_ctr false example_ctr_env
      ["aes-cbc-essiv:sha256"; "a1b2"; "0"; "sda1"; "0"]%string
    = Some (0, err, Some cc)
    /\ test_bit DM_CRYPT_KEY_VALID (flags cc) = true
    /\ key_size cc = 2.
Proof.
  destruct (crypt_ctr false example_ctr_env
              ["aes-cbc-essiv:sha256"; "a1b2"; "0"; "sda1"; "0"]%string)
    as [[[r err] [cc|]]|] eqn:E; try discriminate E.
  destruct (proj2 (crypt_ctr_outcomes false example_ctr_env
                     ["aes-cbc-essiv:sha256"; "a1b2"; "0"; "sda1"; "0"]%string)
              r err (Some cc) E)
    as [(-> & cc' & [= <-] & _ & V & S & _) | [(_ & N) | (_ & N & _)]];
    try discriminate N.
  exists err, cc. split; [reflexivity|]. split; [exact V | exact S].
Defined.

Lemma crypt_message_only_while_suspended_witness :
  crypt_message example_cc_plain ["key"; "wipe"]%string
  = (- EINVAL, example_cc_plain).
Proof.
  apply (proj1 (crypt_message_only_while_suspended example_cc_plain
                  ["key"; "wipe"]%string)).
  reflexivity.
Defined.

(** ** Encryption buffers *)

Lemma pool_pages_length (env : kcryptd_env) (k : nat) :
  forall start i, List.length (pool_pages env start i k) = k.
Proof. induction k; intros; cbn; [reflexivity | now rewrite IHk]. Qed.

Lemma buffer_segments_length (ps : list Z) :
  forall size, List.length (buffer_segments ps size) = List.length ps.
Proof. induction ps; intros; cbn; [reflexivity | now rewrite IHps]. Qed.

Lemma wrap16_small (x : Z) : 0 <= x < 2 ^ 16 -> wrap16 x = x.
Proof. intros H. unfold wrap16. now apply Z.mod_small. Qed.

Lemma wrap32_small (x : Z) : 0 <= x < 2 ^ 32 -> wrap32 x = x.
Proof. intros H. unfold wrap32. now apply Z.mod_small. Qed.

Lemma crypt_alloc_buffer_loop_spec (env : kcryptd_env) :
  forall (left : nat) (i : Z) (wait : bool) (clone : bio) (size : Z)
         (pages : nat),
    wait = (i <? MIN_BIO_PAGES) ->
    0 <= i -> i + Z.of_nat left < 2 ^ 32 ->
    0 <= size ->
    (Z.of_nat left - 1) * PAGE_SIZE < size <= Z.of_nat left * PAGE_SIZE ->
    0 <= bi_size clone -> bi_size clone + size < 2 ^ 32 ->
    0 <= bi_vcnt clone -> bi_vcnt clone + Z.of_nat left < 2 ^ 16 ->
    exists k : nat,
      (k <= left)%nat
      /\ crypt_alloc_buffer_loop env left i wait clone size pages
         = (Build_bio (bi_sector clone) (bi_rw clone) (bi_flags clone)
              (bi_vcnt clone + Z.of_nat k) (bi_idx clone)
              (bi_size clone + Z.min size (Z.of_nat k * PAGE_SIZE))
              (bi_io_vec clone
               ++ buffer_segments (pool_pages env pages i k) size)
              (bi_private clone),
            if (k <? left)%nat then S (pages + k) else (pages + k)%nat)
      /\ Forall (fun p => p <> 0) (pool_pages env pages i k)
      /\ ((k < left)%nat ->
          page_pool_alloc env (pages + k)
            (i + Z.of_nat k <? MIN_BIO_PAGES) = 0).
Proof.
  assert (HP : PAGE_SIZE = 4096) by reflexivity.
  induction left as [|left IH]; intros i wait clone size pages
    Hw Hi Hil Hs Hrange Hb Hbs Hv Hvl.
  - exists 0%nat. cbn [crypt_alloc_buffer_loop pool_pages buffer_segments].
    rewrite app_nil_r, !Nat.add_0_r, !Z.add_0_r.
    replace (Z.min size (Z.of_nat 0 * PAGE_SIZE)) with 0 by lia.
    rewrite Z.add_0_r. destruct clone; cbn.
    repeat split; try constructor; lia.
  - cbn [crypt_alloc_buffer_loop].
    destruct (page_pool_alloc env pages wait =? 0) eqn:Ep.
    + exists 0%nat. cbn [pool_pages buffer_segments].
      rewrite app_nil_r, !Nat.add_0_r, !Z.add_0_r.
      replace (Z.min size (Z.of_nat 0 * PAGE_SIZE)) with 0 by lia.
      rewrite Z.add_0_r. destruct clone; cbn.
      repeat split; try constructor; try lia.
      intros _. rewrite <- Hw. lia.
    + set (len := if PAGE_SIZE <? size then PAGE_SIZE else size).
      assert (Hlen : len = Z.min PAGE_SIZE size).
      { unfold len. destruct (PAGE_SIZE <? size) eqn:E; lia. }
      assert (Hlen' : 0 < len <= size) by lia.
      rewrite (wrap32_small (size - len)) by lia.
      rewrite (wrap32_small (i + 1)) by lia.
      rewrite (wrap32_small (bi_size clone + len)) by lia.
      rewrite (wrap16_small (bi_vcnt clone + 1)) by lia.
      match goal with
      | |- context [crypt_alloc_buffer_loop env left (i + 1) ?w ?c ?s ?p] =>
          destruct (IH (i + 1) w c s p) as (k & Hk & E & Hall & Hstop)
      end; cbn [bi_size bi_vcnt]; try lia.
      { unfold MIN_BIO_PAGES in *.
        destruct (i =? 8 - 1) eqn:E7; [lia|]. rewrite Hw. lia. }
      exists (S k). split; [lia|].
      rewrite E. cbn [bi_sector bi_rw bi_flags bi_vcnt bi_idx bi_size
                      bi_io_vec bi_private pool_pages buffer_segments].
      rewrite <- Hw, <- app_assoc. cbn [app].
      assert (Hrest : buffer_segments (pool_pages env (S pages) (i + 1) k)
                        (size - PAGE_SIZE)
                      = buffer_segments (pool_pages env (S pages) (i + 1) k)
                        (size - len)).
      { destruct (Z_lt_le_dec PAGE_SIZE size) as [Hgt|Hle].
        - now replace len with PAGE_SIZE by lia.
        - assert (k = 0%nat) by lia. subst k. reflexivity. }
      rewrite Hrest, <- Hlen.
      replace (bi_vcnt clone + 1 + Z.of_nat k)
        with (bi_vcnt clone + Z.of_nat (S k)) by lia.
      replace (bi_size clone + len + Z.min (size - len) (Z.of_nat k * PAGE_SIZE))
        with (bi_size clone + Z.min size (Z.of_nat (S k) * PAGE_SIZE)) by lia.
      replace (S pages + k)%nat with (pages + S k)%nat in * by lia.
      replace (i + 1 + Z.of_nat k) with (i + Z.of_nat (S k)) in Hstop by lia.
      change (S k <? S left)%nat with (k <? left)%nat.
      repeat split.
      * constructor; [lia | exact Hall].
      * intros Hlt. apply Hstop. lia.
Qed.

Lemma shiftr_page (x : Z) : Z.shiftr x PAGE_SHIFT = x / PAGE_SIZE.
Proof. unfold PAGE_SHIFT. now rewrite Z.shiftr_div_pow2 by lia. Qed.

Lemma crypt_alloc_buffer_cases (env : kcryptd_env) (cc : crypt_config)
    (st : kcryptd_state) (size : Z) :
  0 < size <= 65535 * PAGE_SIZE ->
  bio_alloc_bioset_fails env (k_bios st) (pages_for size) = false ->
  dev cc <> None ->
  exists k : nat,
    (k <= Z.to_nat (pages_for size))%nat
    /\ Forall (fun p => p <> 0) (pool_pages env (k_pages st) 0 k)
    /\ ((k < Z.to_nat (pages_for size))%nat ->
        page_pool_alloc env (k_pages st + k)
          (Z.of_nat k <? MIN_BIO_PAGES) = 0)
    /\ crypt_alloc_buffer env cc st size
       = let clone :=
           Build_bio 0 (bi_rw (base_bio (k_io st)))
             (Z.shiftl 1 BIO_UPTODATE) (Z.of_nat k) 0
             (Z.min size (Z.of_nat k * PAGE_SIZE))
             (buffer_segments (pool_pages env (k_pages st) 0 k) size)
             None in
         let st' :=
           set_pages (bio_allocated st)
             (if (k <? Z.to_nat (pages_for size))%nat
              then S (k_pages st + k) else (k_pages st + k)%nat) in
         if (k =? 0)%nat
         then Some (None, emit st' [io_ev (bio_put clone)])
         else Some (Some clone, st').
Proof.
  intros Hsize Hbio Hdev.
  assert (HP : PAGE_SIZE = 4096) by reflexivity.
  unfold crypt_alloc_buffer.
  rewrite (wrap32_small (size + PAGE_SIZE - 1)) by lia.
  rewrite shiftr_page. fold (pages_for size). rewrite Hbio.
  unfold clone_init. destruct (dev cc) as [d|]; [clear Hdev | congruence].
  assert (Hn : pages_for size = (size + 4095) / 4096).
  { unfold pages_for. rewrite HP. f_equal. lia. }
  assert (Hn' : (pages_for size - 1) * 4096 < size <= pages_for size * 4096).
  { rewrite Hn.
    pose proof (Z.div_mod (size + 4095) 4096 ltac:(lia)).
    pose proof (Z.mod_pos_bound (size + 4095) 4096 ltac:(lia)). lia. }
  cbn [fresh_bio bi_sector bi_rw bi_flags bi_vcnt bi_idx bi_size bi_io_vec
       bi_private].
  destruct (crypt_alloc_buffer_loop_spec env (Z.to_nat (pages_for size)) 0
              true
              (Build_bio 0 (bi_rw (base_bio (k_io st)))
                 (Z.shiftl 1 BIO_UPTODATE) 0 0 0 [] None)
              size (k_pages st))
    as (k & Hk & E & Hall & Hstop);
    try reflexivity; cbn [bi_size bi_vcnt]; try lia.
  exists k. split; [exact Hk|]. split; [exact Hall|].
  split; [exact Hstop|].
  rewrite E. cbn [bi_sector bi_rw bi_flags bi_vcnt bi_idx bi_size
                  bi_io_vec bi_private app].
  rewrite !Z.add_0_l.
  destruct k as [|k].
  - replace (Z.min size (Z.of_nat 0 * PAGE_SIZE)) with 0 by lia.
    reflexivity.
  - replace (Z.min size (Z.of_nat (S k) * PAGE_SIZE) =? 0) with false
      by (symmetry; apply Z.eqb_neq; lia).
    reflexivity.
Qed.

Lemma crypt_alloc_buffer_inv (env : kcryptd_env) (cc : crypt_config)
    (st st' : kcryptd_state) (size : Z) (res : option bio) :
  0 < size <= 65535 * PAGE_SIZE ->
  crypt_alloc_buffer env cc st size = Some (res, st') ->
  (bio_alloc_bioset_fails env (k_bios st) (pages_for size) = true
   /\ res = None /\ st' = bio_allocated st)
  \/ (bio_alloc_bioset_fails env (k_bios st) (pages_for size) = false
      /\ dev cc <> None).
Proof.
  intros Hsize H.
  assert (HP : PAGE_SIZE = 4096) by reflexivity.
  assert (Hnr : Z.shiftr (wrap32 (size + PAGE_SIZE - 1)) PAGE_SHIFT
                = pages_for size).
  { rewrite (wrap32_small (size + PAGE_SIZE - 1)) by lia.
    now rewrite shiftr_page. }
  unfold crypt_alloc_buffer, clone_init in H. rewrite Hnr in H.
  destruct (bio_alloc_bioset_fails env (k_bios st) (pages_for size)).
  - injection H as <- <-. now left.
  - right. split; [reflexivity|]. destruct (dev cc); congruence.
Qed.

(** X15.  What [crypt_alloc_buffer] returns for a request of [size] bytes
    (at most 65535 pages): NULL only when the bio or the very first page
    could not be had; otherwise a clone of [k >= 1] segments, each on a
    page of its own taken from the pool in order, starting at offset 0 and
    full but for the tail of the request, whose sizes add up to [bi_size];
    the clone has the direction of the original, and it is shorter than
    the request only when the pool refused the next page. *)
Theorem crypt_alloc_buffer_shape (env : kcryptd_env) (cc : crypt_config)
    (st st' : kcryptd_state) (size : Z) (res : option bio) :
  0 < size <= 65535 * PAGE_SIZE ->
  crypt_alloc_buffer env cc st size = Some (res, st') ->
  k_io st' = k_io st
  /\ match res with
     | None =>
         bio_alloc_bioset_fails env (k_bios st) (pages_for size) = true
         \/ page_pool_alloc env (k_pages st) true = 0
     | Some clone =>
         exists k : nat,
           (1 <= k)%nat /\ Z.of_nat k <= pages_for size
           /\ bi_vcnt clone = Z.of_nat k /\ bi_idx clone = 0
           /\ bi_io_vec clone
              = buffer_segments (pool_pages env (k_pages st) 0 k) size
           /\ Forall (fun p => p <> 0) (pool_pages env (k_pages st) 0 k)
           /\ bi_size clone = Z.min size (Z.of_nat k * PAGE_SIZE)
           /\ bi_rw clone = bi_rw (base_bio (k_io st))
           /\ (bi_size clone < size ->
               page_pool_alloc env (k_pages st + k)
                 (Z.of_nat k <? MIN_BIO_PAGES) = 0)
           /\ k_events st' = k_events st
     end.
Proof.
  intros Hsize H.
  assert (HP : PAGE_SIZE = 4096) by reflexivity.
  destruct (crypt_alloc_buffer_inv env cc st st' size res Hsize H)
    as [(Eb & -> & ->) | (Eb & Hdev)]; [split; [reflexivity | now left]|].
  destruct (crypt_alloc_buffer_cases env cc st size Hsize Eb Hdev)
    as (k & Hk & Hall & Hstop & E).
  rewrite E in H. cbv zeta in H.
  assert (Hpf : 0 <= pages_for size).
  { unfold pages_for. apply Z.div_pos; lia. }
  destruct k as [|k]; cbn [Nat.eqb] in H; injection H as <- <-.
  - split; [reflexivity|]. right.
    assert (Hlt : (0 < Z.to_nat (pages_for size))%nat).
    { unfold pages_for. rewrite HP.
      assert (1 <= (size + 4096 - 1) / 4096)
        by (apply Z.div_le_lower_bound; lia).
      lia. }
    specialize (Hstop Hlt). now rewrite Nat.add_0_r in Hstop.
  - split; [reflexivity|]. exists (S k).
    cbn [bi_vcnt bi_idx bi_io_vec bi_size bi_rw set_pages bio_allocated
         k_events].
    repeat split; try assumption; try lia.
    intros Hshort. apply Hstop.
    apply Nat.nle_gt. intros Hge.
    assert (Hn' : size <= pages_for size * 4096).
    { unfold pages_for. rewrite HP.
      pose proof (Z.div_mod (size + 4096 - 1) 4096 ltac:(lia)).
      pose proof (Z.mod_pos_bound (size + 4096 - 1) 4096 ltac:(lia)). lia. }
    lia.
Qed.

(** X16.  With a page pool that, as a mempool does, never refuses a call
    that may wait, [crypt_alloc_buffer] makes progress: provided the bio
    itself can be had, it returns a clone of at least [MIN_BIO_PAGES]
    pages, or of the whole request when that is smaller, and never more
    than was asked for. *)
Theorem crypt_alloc_buffer_progress (env : kcryptd_env) (cc : crypt_config)
    (st : kcryptd_state) (size : Z) :
  0 < size <= 65535 * PAGE_SIZE ->
  (forall n, page_pool_alloc env n true <> 0) ->
  bio_alloc_bioset_fails env (k_bios st) (pages_for size) = false ->
  dev cc <> None ->
  exists clone st',
    crypt_alloc_buffer env cc st size = Some (Some clone, st')
    /\ Z.min size (MIN_BIO_PAGES * PAGE_SIZE) <= bi_size clone <= size.
Proof.
  intros Hsize Hpool Hbio Hdev.
  assert (HP : PAGE_SIZE = 4096) by reflexivity.
  destruct (crypt_alloc_buffer_cases env cc st size Hsize Hbio Hdev)
    as (k & Hk & Hall & Hstop & E).
  rewrite E. cbv zeta.
  assert (Hn' : (pages_for size - 1) * 4096 < size <= pages_for size * 4096).
  { unfold pages_for. rewrite HP.
    pose proof (Z.div_mod (size + 4096 - 1) 4096 ltac:(lia)).
    pose proof (Z.mod_pos_bound (size + 4096 - 1) 4096 ltac:(lia)). lia. }
  assert (Hkk : k = Z.to_nat (pages_for size) \/ MIN_BIO_PAGES <= Z.of_nat k).
  { destruct (Nat.eq_dec k (Z.to_nat (pages_for size))) as [->|Hne];
      [now left | right].
    assert (Hlt : (k < Z.to_nat (pages_for size))%nat) by lia.
    specialize (Hstop Hlt).
    destruct (Z.of_nat k <? MIN_BIO_PAGES) eqn:Ew; [|lia].
    now apply Hpool in Hstop. }
  assert (Hpos : (k =? 0)%nat = false).
  { apply Nat.eqb_neq. unfold MIN_BIO_PAGES in Hkk. lia. }
  rewrite Hpos. eexists _, _. split; [reflexivity|].
  cbn [bi_size]. unfold MIN_BIO_PAGES in *. lia.
Qed.

Lemma free_pages_loop_buffer (ps : list Z) :
  forall size,
    Forall (fun p => p <> 0) ps ->
    exists vs,
      free_pages_loop (buffer_segments ps size)
      = Some (vs, map mempool_free_page ps)
      /\ List.length vs = List.length ps
      /\ Forall (fun bv => bv_page bv = 0) vs
      /\ (ps <> [] -> free_pages_loop vs = None).
Proof.
  induction ps as [|p ps IH]; intros size Hall.
  - exists []. cbn. repeat split; [constructor | congruence].
  - inversion Hall as [|? ? Hp Hps]; subst.
    destruct (IH (size - PAGE_SIZE) Hps) as (vs & E & Hl & Hz & _).
    cbn [buffer_segments free_pages_loop bv_page bv_len bv_offset].
    replace (p =? 0) with false by (symmetry; now apply Z.eqb_neq).
    rewrite E. eexists. split; [reflexivity|].
    split; [cbn; now rewrite Hl|].
    split; [constructor; [reflexivity | exact Hz] | intros _; reflexivity].
Qed.

(** X17.  Freeing what was allocated: [crypt_free_buffer_pages] on a
    clone that [crypt_alloc_buffer] returned gives back to the pool
    exactly the pages that were taken from it for this clone, in order and
    each once; afterwards no segment has a page, so that freeing the same
    clone again runs into the [BUG_ON]. *)
Theorem crypt_free_buffer_pages_returns_pool_pages
    (env : kcryptd_env) (cc : crypt_config) (st st' : kcryptd_state)
    (size : Z) (clone : bio) :
  0 < size <= 65535 * PAGE_SIZE ->
  crypt_alloc_buffer env cc st size = Some (Some clone, st') ->
  exists clone',
    crypt_free_buffer_pages clone
    = Some (clone',
            map mempool_free_page
              (pool_pages env (k_pages st) 0 (Z.to_nat (bi_vcnt clone))))
    /\ Forall (fun bv => bv_page bv = 0) (bi_io_vec clone')
    /\ crypt_free_buffer_pages clone' = None.
Proof.
  intros Hsize H.
  destruct (crypt_alloc_buffer_inv env cc st st' size (Some clone) Hsize H)
    as [(_ & [=] & _) | (Eb & Hdev)].
  destruct (crypt_alloc_buffer_cases env cc st size Hsize Eb Hdev)
    as (k & _ & Hall & _ & E).
  rewrite E in H. cbv zeta in H.
  destruct (k =? 0)%nat eqn:Ek; [discriminate H|].
  apply Nat.eqb_neq in Ek. injection H as <- _.
  cbn [bi_vcnt bi_io_vec]. rewrite Nat2Z.id.
  destruct (free_pages_loop_buffer _ size Hall) as (vs & Ef & Hl & Hz & Hnil).
  rewrite pool_pages_length in Hl.
  unfold crypt_free_buffer_pages. cbn [bi_vcnt bi_io_vec]. rewrite Nat2Z.id.
  rewrite buffer_segments_length, pool_pages_length, Nat.ltb_irrefl.
  rewrite firstn_all2
    by (now rewrite buffer_segments_length, pool_pages_length).
  rewrite Ef, skipn_all2
    by (now rewrite buffer_segments_length, pool_pages_length).
  rewrite app_nil_r.
  eexists. split; [reflexivity|].
  cbn [bi_io_vec bio_with_io_vec bi_vcnt].
  split; [exact Hz|].
  rewrite Nat2Z.id, Hl, Nat.ltb_irrefl.
  rewrite firstn_all2 by lia. rewrite Hnil; [reflexivity|].
  destruct k; [congruence | discriminate].
Qed.

(** ** References to a request *)

Lemma submitted_app (a b : list request_event) :
  submitted (a ++ b) = submitted a ++ submitted b.
Proof. apply flat_map_app. Qed.

Lemma io_events_of_app (a b : list request_event) :
  io_events_of (a ++ b) = io_events_of a ++ io_events_of b.
Proof. apply flat_map_app. Qed.

Lemma freed_pages_app (a b : list io_event) :
  freed_pages (a ++ b) = freed_pages a ++ freed_pages b.
Proof. apply flat_map_app. Qed.

Lemma submitted_io_ev (evs : list io_event) : submitted (map io_ev evs) = [].
Proof. induction evs; [reflexivity | exact IHevs]. Qed.

Lemma io_events_of_io_ev (evs : list io_event) :
  io_events_of (map io_ev evs) = evs.
Proof. induction evs; [reflexivity | cbn; now f_equal]. Qed.

Lemma completions_free_pages (vecs vs : list bio_vec) (evs : list io_event) :
  free_pages_loop vecs = Some (vs, evs) ->
  completions evs = [] /\ freed_pages evs = map bv_page vecs.
Proof.
  revert vs evs. induction vecs as [|bv vecs IH]; intros vs evs H.
  - injection H as <- <-. now split.
  - cbn [free_pages_loop] in H.
    destruct (bv_page bv =? 0); [discriminate H|].
    destruct (free_pages_loop vecs) as [[vs' evs']|]; [|discriminate H].
    injection H as <- <-. destruct (IH _ _ eq_refl) as [Hc Hf].
    split; [exact Hc | cbn; now f_equal].
Qed.

(** [crypt_alloc_buffer] leaves the request alone. *)
Lemma crypt_alloc_buffer_frame (env : kcryptd_env) (cc : crypt_config)
    (st st1 : kcryptd_state) (size : Z) (res : option bio) :
  crypt_alloc_buffer env cc st size = Some (res, st1) ->
  k_io st1 = k_io st /\ k_hist st1 = k_hist st
  /\ exists evs, k_events st1 = k_events st ++ evs
                 /\ submitted evs = []
                 /\ completions (io_events_of evs) = []
                 /\ freed_pages (io_events_of evs) = [].
Proof.
  unfold crypt_alloc_buffer. intros H.
  destruct (bio_alloc_bioset_fails env _ _).
  { injection H as <- <-. repeat split. exists []. now rewrite app_nil_r. }
  destruct (clone_init cc (k_io st) fresh_bio) as [c|]; [|discriminate H].
  destruct (crypt_alloc_buffer_loop env _ 0 true c size (k_pages st))
    as [c' p].
  destruct (bi_size c' =? 0); injection H as <- <-; repeat split.
  - eexists. split; [reflexivity|]. now repeat split.
  - exists []. now rewrite app_nil_r.
Qed.

(** [dec_pending] writes the counter and the latch only. *)
Lemma dec_pending_frame (hm : bool) (io io' : crypt_io) (e : Z)
    (evs : list io_event) :
  dec_pending hm io e = Some (io', evs) ->
  base_bio io' = base_bio io /\ target io' = target io
  /\ post_process io' = post_process io.
Proof.
  unfold dec_pending. intros H.
  destruct (atomic_dec_and_test _) as [p last].
  destruct (negb last); [injection H as <- _; now destruct (e <? 0)|].
  destruct (_ && _).
  - destruct (bi_private (base_bio io)); [|discriminate H].
    injection H as <- _; now destruct (e <? 0).
  - injection H as <- _; now destruct (e <? 0).
Qed.

Lemma do_dec_pending_frame (env : kcryptd_env) (st st' : kcryptd_state)
    (e : Z) :
  do_dec_pending env st e = Some st' ->
  base_bio (k_io st') = base_bio (k_io st)
  /\ target (k_io st') = target (k_io st)
  /\ post_process (k_io st') = post_process (k_io st)
  /\ k_hist st' = k_hist st /\ k_pages st' = k_pages st
  /\ k_bios st' = k_bios st.
Proof.
  unfold do_dec_pending. intros H.
  destruct (dec_pending _ _ _) as [[io' evs]|] eqn:E; [|discriminate H].
  injection H as <-. cbn [emit set_io k_io k_hist k_pages k_bios].
  destruct (dec_pending_frame _ _ _ _ _ E) as (B & T & P).
  now repeat split.
Qed.

(** [dec_pending] while other references are held, and as the last
    reference goes. *)
Lemma do_dec_pending_not_last (env : kcryptd_env) (st : kcryptd_state)
    (e : Z) :
  1 < pending (k_io st) < 2 ^ 31 ->
  exists st',
    do_dec_pending env st e = Some st'
    /\ k_events st' = k_events st /\ k_hist st' = k_hist st
    /\ pending (k_io st') = pending (k_io st) - 1
    /\ error (k_io st') = (if e <? 0 then e else error (k_io st))
    /\ base_bio (k_io st') = base_bio (k_io st).
Proof.
  intros Hp.
  destruct (dec_pending_not_last (k_highmem env) (k_io st) e Hp)
    as (io' & E & P & Er & B).
  unfold do_dec_pending. rewrite E. eexists. split; [reflexivity|].
  cbn [emit set_io k_events k_hist k_io map]. rewrite app_nil_r.
  now repeat split.
Qed.

Lemma do_dec_pending_last (env : kcryptd_env) (st : kcryptd_state) (e : Z) :
  pending (k_io st) = 1 ->
  bounce_linked (k_highmem env) (k_io st) = true ->
  exists st' evs,
    do_dec_pending env st e = Some st'
    /\ k_events st' = k_events st ++ map io_ev evs
    /\ k_hist st' = k_hist st
    /\ pending (k_io st') = 0
    /\ error (k_io st') = (if e <? 0 then e else error (k_io st))
    /\ completions evs
       = [bio_endio (original_bio (k_highmem env) (k_io st))
            (if e <? 0 then e else error (k_io st))]
    /\ base_bio (k_io st') = base_bio (k_io st).
Proof.
  intros Hp Hb.
  destruct (dec_pending_last (k_highmem env) (k_io st) e Hp Hb)
    as (io' & evs & E & P & Er & C).
  destruct (dec_pending_frame _ _ _ _ _ E) as (B & _).
  unfold do_dec_pending. rewrite E. eexists _, evs. split; [reflexivity|].
  cbn [emit set_io k_events k_hist k_io]. now repeat split.
Qed.

Lemma forallb_buffer_segments (ps : list Z) :
  forall size,
    Forall (fun p => p <> 0) ps ->
    forallb (fun bv => negb (bv_page bv =? 0)) (buffer_segments ps size)
    = true.
Proof.
  induction ps as [|p ps IH]; intros size H; [reflexivity|].
  inversion H as [|? ? Hp Hps]; subst. cbn [buffer_segments forallb bv_page].
  rewrite IH by exact Hps.
  now replace (p =? 0) with false by (symmetry; now apply Z.eqb_neq).
Qed.

(** The clone that [crypt_alloc_buffer] returns holds its pages, is not
    empty and not larger than the request. *)
Lemma crypt_alloc_buffer_clone (env : kcryptd_env) (cc : crypt_config)
    (st st1 : kcryptd_state) (size : Z) (clone : bio) :
  0 < size <= 65535 * PAGE_SIZE ->
  crypt_alloc_buffer env cc st size = Some (Some clone, st1) ->
  owns_pages clone = true
  /\ 0 < bi_size clone <= size
  /\ bi_rw clone = bi_rw (base_bio (k_io st))
  /\ dev cc <> None.
Proof.
  intros Hsize H.
  assert (HP : PAGE_SIZE = 4096) by reflexivity.
  destruct (crypt_alloc_buffer_inv env cc st st1 size (Some clone) Hsize H)
    as [(_ & [=] & _) | (Eb & Hdev)].
  destruct (crypt_alloc_buffer_cases env cc st size Hsize Eb Hdev)
    as (k & _ & Hall & _ & E).
  rewrite E in H. cbv zeta in H.
  destruct (k =? 0)%nat eqn:Ek; [discriminate H|].
  apply Nat.eqb_neq in Ek. injection H as <- _.
  unfold owns_pages. cbn [bi_io_vec bi_vcnt bi_size bi_rw].
  rewrite buffer_segments_length, pool_pages_length, Z.eqb_refl.
  rewrite forallb_buffer_segments by exact Hall.
  repeat split; try assumption; lia.
Qed.

Lemma owns_pages_sector (c : bio) (s : Z) :
  owns_pages (bio_with_sector c s) = owns_pages c.
Proof. reflexivity. Qed.

(** Letting go of a clone that holds its pages. *)
Lemma put_buffer_clone_events (env : kcryptd_env) (clone : bio) (e : Z)
    (st st' : kcryptd_state) :
  put_buffer_clone env clone e st = Some st' ->
  exists clone' evs st1,
    crypt_free_buffer_pages clone = Some (clone', evs)
    /\ completions evs = []
    /\ freed_pages evs
       = map bv_page (firstn (Z.to_nat (bi_vcnt clone)) (bi_io_vec clone))
    /\ st1 = emit st (map io_ev evs ++ [io_ev (bio_put clone')])
    /\ do_dec_pending env st1 e = Some st'.
Proof.
  unfold put_buffer_clone, crypt_free_buffer_pages. intros H.
  destruct (_ <? _)%nat; [discriminate H|].
  destruct (free_pages_loop _) as [[vs evs]|] eqn:E; [|discriminate H].
  destruct (completions_free_pages _ _ _ E) as [Hc Hf].
  eexists _, evs, _. split; [reflexivity|].
  split; [exact Hc|]. split; [exact Hf|]. split; [reflexivity | exact H].
Qed.

Lemma wrap64_add_l (a b : Z) : wrap64 (a + wrap64 b) = wrap64 (a + b).
Proof. unfold wrap64. now rewrite Zplus_mod_idemp_r. Qed.

Lemma wrap64_add_r (a b : Z) : wrap64 (wrap64 a + b) = wrap64 (a + b).
Proof. unfold wrap64. now rewrite Zplus_mod_idemp_l. Qed.

Ltac split_ands := repeat match goal with |- _ /\ _ => split end.

Ltac close_easy :=
  split_ands; try reflexivity; try lia; try exact I; try (constructor; fail).

Section Write_loop.

Variable env : kcryptd_env.
Variable cc : crypt_config.

(** What holds of the loop of [process_write] however pool and cipher
    behave, as long as the loop returns. *)
Lemma process_write_loop_inv :
  forall (fuel : nat) (ctx : convert_context) (remaining sect : Z)
         (st st' : kcryptd_state),
    0 < remaining <= 65535 * PAGE_SIZE ->
    1 <= pending (k_io st) ->
    pending (k_io st) + Z.of_nat fuel < 2 ^ 31 ->
    bounce_linked (k_highmem env) (k_io st) = true ->
    process_write_loop fuel env cc ctx remaining sect st = Some st' ->
    exists evs,
      k_events st' = k_events st ++ evs
      /\ base_bio (k_io st') = base_bio (k_io st)
      /\ pending (k_io st')
         = pending (k_io st) - 1 + Z.of_nat (List.length (submitted evs))
      /\ Forall (fun c => owns_pages c = true
                          /\ bi_rw c = bi_rw (base_bio (k_io st)))
                (submitted evs)
      /\ consecutive_from (wrap64 (start cc + sect)) (submitted evs)
      /\ ((error (k_io st') = error (k_io st)
           /\ completions (io_events_of evs) = []
           /\ freed_pages (io_events_of evs) = []
           /\ total_size (submitted evs) = remaining)
          \/ (exists e,
                (e = - ENOMEM \/ e = - EIO)
                /\ error (k_io st') = e
                /\ total_size (submitted evs) < remaining
                /\ completions (io_events_of evs)
                   = if pending (k_io st') =? 0
                     then [bio_endio (original_bio (k_highmem env) (k_io st))
                             e]
                     else []))
      /\ (List.length (submitted evs) <= fuel)%nat.
Proof.
  assert (HP : PAGE_SIZE = 4096) by reflexivity.
  induction fuel as [|fuel IH]; intros ctx remaining sect st st'
    Hrem Hp Hfuel Hlink H; [discriminate H|].
  cbn [process_write_loop] in H.
  replace (remaining =? 0) with false in H
    by (symmetry; apply Z.eqb_neq; lia).
  destruct (crypt_alloc_buffer env cc st remaining) as [[res st1]|] eqn:Ea;
    [|discriminate H].
  destruct (crypt_alloc_buffer_frame env cc st st1 remaining res Ea)
    as (Hio & Hh & eva & Heva & Hsa & Hca & Hfa).
  destruct res as [clone|].
  2:{ (* no buffer *)
      destruct (Z.eq_dec (pending (k_io st)) 1) as [P1|P1].
      - destruct (do_dec_pending_last env st1 (- ENOMEM))
          as (st2 & evs & E & Hev & _ & P & Er & C & B);
          [now rewrite Hio | now rewrite Hio|].
        rewrite E in H. injection H as <-.
        exists (eva ++ map io_ev evs).
        rewrite Hev, Heva, <- app_assoc, submitted_app, Hsa,
          submitted_io_ev, io_events_of_app, io_events_of_io_ev,
          completions_app, Hca, P, C, Er, B, Hio.
        cbn [app List.length Z.of_nat total_size fold_right Z.eqb
             consecutive_from].
        close_easy.
        right. exists (- ENOMEM). close_easy.
      - destruct (do_dec_pending_not_last env st1 (- ENOMEM))
          as (st2 & E & Hev & _ & P & Er & B); [rewrite Hio; lia|].
        rewrite E in H. injection H as <-.
        exists eva.
        rewrite Hev, Heva, Hsa, Hca, P, Er, B, Hio.
        cbn [app List.length Z.of_nat total_size fold_right
             consecutive_from].
        close_easy.
        right. exists (- ENOMEM).
        replace (pending (k_io st) - 1 =? 0) with false
          by (symmetry; apply Z.eqb_neq; lia).
        close_easy. }
  destruct (crypt_alloc_buffer_clone env cc st st1 remaining clone Hrem Ea)
    as (Hown & Hsz & Hrw & Hdev).
  destruct (dev cc) as [bdev|]; [clear Hdev | congruence].
  destruct (crypt_convert _ _ _ _ _) as [[[r ctx2] hist2]|];
    [|discriminate H].
  destruct (r <? 0).
  { (* the conversion failed *)
    destruct (put_buffer_clone_events env clone (- EIO) _ st' H)
      as (clone' & evf & st2 & _ & Hcf & _ & -> & E).
    clear H.
    destruct (Z.eq_dec (pending (k_io st)) 1) as [P1|P1].
    - destruct (do_dec_pending_last env
                  (emit (set_hist st1 hist2)
                     (map io_ev evf ++ [io_ev (bio_put clone')]))
                  (- EIO))
        as (st2 & evs & E' & Hev & _ & P & Er & C & B);
        [cbn [emit set_hist k_io]; now rewrite Hio
        | cbn [emit set_hist k_io]; now rewrite Hio|].
      rewrite E' in E. injection E as <-.
      cbn [emit set_hist k_io k_events] in Hev, Er, C, B.
      exists (eva ++ (map io_ev evf ++ [io_ev (bio_put clone')])
              ++ map io_ev evs).
      rewrite Hev, Heva, <- !app_assoc, !submitted_app, Hsa,
        !submitted_io_ev, !io_events_of_app, !io_events_of_io_ev,
        !completions_app, Hca, Hcf, P, C, Er, B, Hio.
      cbn [app List.length Z.of_nat total_size fold_right Z.eqb submitted
           flat_map io_events_of completions filter consecutive_from].
      close_easy.
      right. exists (- EIO). close_easy.
    - destruct (do_dec_pending_not_last env
                  (emit (set_hist st1 hist2)
                     (map io_ev evf ++ [io_ev (bio_put clone')]))
                  (- EIO))
        as (st2 & E' & Hev & _ & P & Er & B);
        [cbn [emit set_hist k_io]; rewrite Hio; lia|].
      rewrite E' in E. injection E as <-.
      cbn [emit set_hist k_io k_events] in Hev, Er, P, B.
      exists (eva ++ map io_ev evf ++ [io_ev (bio_put clone')]).
      rewrite Hev, Heva, <- !app_assoc, !submitted_app, Hsa,
        !submitted_io_ev, !io_events_of_app, !io_events_of_io_ev,
        !completions_app, Hca, Hcf, P, Er, B, Hio.
      cbn [app List.length Z.of_nat total_size fold_right submitted
           flat_map io_events_of completions filter consecutive_from].
      close_easy.
      right. exists (- EIO).
      replace (pending (k_io st) - 1 =? 0) with false
        by (symmetry; apply Z.eqb_neq; lia).
      close_easy. }
  destruct (idx_out ctx2 <? bi_vcnt clone); [discriminate H|].
  unfold process_write_submit in H. cbv zeta in H.
  change (bi_size (bio_with_sector clone (wrap64 (start cc + sect))))
    with (bi_size clone) in H.
  rewrite (wrap32_small (remaining - bi_size clone)) in H by lia.
  set (clone' := bio_with_sector clone (wrap64 (start cc + sect))) in *.
  destruct (Z.eqb_spec (remaining - bi_size clone) 0) as [Hz|Hnz].
  - (* the last clone *)
    destruct fuel as [|fuel]; [discriminate H|].
    cbn [process_write_loop] in H. rewrite Hz in H. cbn [Z.eqb] in H.
    injection H as <-.
    exists (eva ++ [generic_make_request clone' bdev]).
    cbn [emit set_hist k_events k_io].
    rewrite Heva, <- app_assoc, Hio, submitted_app, Hsa,
      io_events_of_app, completions_app, Hca.
    cbn [app List.length Z.of_nat total_size fold_right submitted flat_map
         io_events_of completions filter consecutive_from].
    split; [reflexivity|]. split; [reflexivity|]. split; [lia|].
    split; [constructor; [now split | constructor]|].
    split; [now split|].
    split; [|lia].
    left. repeat split; try assumption.
    + rewrite freed_pages_app, Hfa. reflexivity.
    + change (bi_size clone') with (bi_size clone). lia.
  - (* more to come *)
    apply IH in H; cbn [emit inc_pending set_io set_hist k_io
                        io_with_pending pending base_bio];
      try (unfold atomic_inc; rewrite wrap_int_small; rewrite Hio; lia);
      try lia.
    2:{ unfold bounce_linked in *. cbn [base_bio]. now rewrite Hio. }
    destruct H as (evs & Hev & B & P & Hall & Hcons & Hout & Hn).
    cbn [emit inc_pending set_io set_hist k_io k_events io_with_pending
         pending base_bio error] in Hev, B, P, Hall, Hout.
    unfold atomic_inc in P. rewrite wrap_int_small in P by (rewrite Hio; lia).
    rewrite Hio in *.
    exists (eva ++ [generic_make_request clone' bdev; congestion_wait] ++ evs).
    rewrite Hev, Heva, <- !app_assoc, !submitted_app, Hsa,
      !io_events_of_app, !completions_app, Hca.
    cbn [app List.length total_size fold_right submitted flat_map
         io_events_of completions filter consecutive_from].
    split; [reflexivity|]. split; [exact B|]. split; [lia|].
    split; [constructor; [now split | exact Hall]|].
    split.
    { split; [reflexivity|].
      change (bio_sectors clone') with (Z.shiftr (bi_size clone) SECTOR_SHIFT)
        in *.
      unfold bio_sectors in Hcons.
      change (bi_size clone') with (bi_size clone) in Hcons.
      now rewrite wrap64_add_l, wrap64_add_r, <- Z.add_assoc in *. }
    change (bi_size clone') with (bi_size clone).
    unfold original_bio in *. cbn [base_bio] in Hout.
    split; [|lia].
    destruct Hout as [(He & Hc & Hf & Ht) | (e & He & Her & Ht & Hc)].
    + left. fold (total_size (submitted evs)).
      split; [exact He|]. split; [exact Hc|].
      split; [rewrite freed_pages_app, Hfa; exact Hf | lia].
    + right. exists e. fold (total_size (submitted evs)).
      split; [exact He|]. split; [exact Her|]. split; [lia | exact Hc].
Qed.

End Write_loop.

(** X18.  The references [process_write] leaves on a request count the
    clones in flight: starting from a request without references, when it
    returns the counter equals the number of clones it has submitted,
    whether it got through the whole bio or gave up for want of memory
    (-ENOMEM) or because the cipher failed (-EIO).  It completes the bio
    itself exactly when it gave up before any clone was submitted, and
    then with that error; otherwise completion is left to the clones. *)
Theorem process_write_reference_count (fuel : nat) (env : kcryptd_env)
    (cc : crypt_config) (st st' : kcryptd_state) :
  pending (k_io st) = 0 ->
  error (k_io st) = 0 ->
  0 < bi_size (base_bio (k_io st)) <= 65535 * PAGE_SIZE ->
  bounce_linked (k_highmem env) (k_io st) = true ->
  Z.of_nat fuel < 2 ^ 31 - 1 ->
  process_write fuel env cc st = Some st' ->
  exists evs,
    k_events st' = k_events st ++ evs
    /\ pending (k_io st') = Z.of_nat (List.length (submitted evs))
    /\ (error (k_io st') = 0 \/ error (k_io st') = - ENOMEM
        \/ error (k_io st') = - EIO)
    /\ completions (io_events_of evs)
       = match submitted evs with
         | [] => [bio_endio (original_bio (k_highmem env) (k_io st))
                    (error (k_io st'))]
         | _ :: _ => []
         end
    /\ (submitted evs = [] -> error (k_io st') <> 0).
Proof.
  intros Hp He Hsize Hlink Hfuel H.
  unfold process_write in H.
  apply process_write_loop_inv in H;
    cbn [inc_pending set_io k_io io_with_pending pending base_bio];
    try (rewrite Hp; change (atomic_inc 0) with 1; lia); try assumption.
  destruct H as (evs & Hev & _ & P & _ & _ & Hout & _).
  cbn [inc_pending set_io k_io k_events io_with_pending pending base_bio
       error] in Hev, P, Hout.
  rewrite Hp in P. change (atomic_inc 0) with 1 in P.
  unfold original_bio in *. cbn [base_bio] in Hout.
  exists evs. split; [exact Hev|]. split; [lia|].
  destruct Hout as [(Her & Hc & _ & Ht) | (e & Hee & Her & Ht & Hc)].
  - rewrite Her, He. split; [now left|].
    destruct (submitted evs) as [|c cs].
    + cbn [total_size fold_right] in Ht. lia.
    + split; [exact Hc | discriminate].
  - rewrite Her. split; [right; exact Hee|].
    rewrite P in Hc.
    destruct (submitted evs) as [|c cs].
    + split; [exact Hc|]. intros _. unfold ENOMEM, EIO in Hee. lia.
    + split; [|discriminate].
      rewrite Hc. cbn [List.length].
      now replace (1 - 1 + Z.of_nat (S (List.length cs)) =? 0) with false
        by (symmetry; apply Z.eqb_neq; lia).
Qed.

(** X19.  The clones that [process_write] submits take the data of the
    bio to the device piece by piece: each holds a page of the pool in
    every segment and has the direction of the original, the first goes
    to sector [start + (bi_sector - begin)] and each next one to the
    sector behind its predecessor, and together they carry [bi_size]
    bytes when [process_write] ends without error, and fewer when it gave
    up. *)
Theorem process_write_clones_cover_bio (fuel : nat) (env : kcryptd_env)
    (cc : crypt_config) (st st' : kcryptd_state) :
  pending (k_io st) = 0 ->
  error (k_io st) = 0 ->
  0 < bi_size (base_bio (k_io st)) <= 65535 * PAGE_SIZE ->
  bounce_linked (k_highmem env) (k_io st) = true ->
  Z.of_nat fuel < 2 ^ 31 - 1 ->
  process_write fuel env cc st = Some st' ->
  let clones := submitted (skipn (List.length (k_events st)) (k_events st')) in
  let first := wrap64 (start cc + (bi_sector (base_bio (k_io st))
                                   - begin (target (k_io st)))) in
  Forall (fun c => owns_pages c = true
                   /\ bio_data_dir c = bio_data_dir (base_bio (k_io st)))
         clones
  /\ consecutive_from first clones
  /\ (error (k_io st') = 0 ->
      total_size clones = bi_size (base_bio (k_io st)))
  /\ (error (k_io st') <> 0 ->
      total_size clones < bi_size (base_bio (k_io st))).
Proof.
  intros Hp He Hsize Hlink Hfuel H clones first.
  unfold process_write in H.
  apply process_write_loop_inv in H;
    cbn [inc_pending set_io k_io io_with_pending pending base_bio];
    try (rewrite Hp; change (atomic_inc 0) with 1; lia); try assumption.
  destruct H as (evs & Hev & _ & _ & Hall & Hcons & Hout & _).
  cbn [inc_pending set_io k_io k_events io_with_pending pending base_bio
       error] in Hev, Hall, Hcons, Hout.
  assert (Hc : clones = submitted evs).
  { subst clones. rewrite Hev, skipn_app, Nat.sub_diag, skipn_all.
    reflexivity. }
  rewrite Hc. rewrite wrap64_add_l in Hcons.
  split.
  { eapply Forall_impl; [|exact Hall]. intros c [Ho Hrw].
    split; [exact Ho|]. unfold bio_data_dir. now rewrite Hrw. }
  split; [exact Hcons|].
  destruct Hout as [(Her & _ & _ & Ht) | (e & Hee & Her & Ht & _)].
  - split; [intros _; exact Ht|]. intros Hne. congruence.
  - split; [|intros _; exact Ht]. intros H0.
    unfold ENOMEM, EIO in Hee. lia.
Qed.

(** ** Completion of the clones *)

Lemma owns_pages_inv (c : bio) :
  owns_pages c = true ->
  Z.to_nat (bi_vcnt c) = List.length (bi_io_vec c)
  /\ Forall (fun bv => bv_page bv <> 0) (bi_io_vec c).
Proof.
  unfold owns_pages. intros H. apply andb_true_iff in H as [Hl Hall].
  apply Z.eqb_eq in Hl. split; [lia|].
  apply Forall_forall. intros bv Hin.
  rewrite forallb_forall in Hall. specialize (Hall bv Hin).
  apply negb_true_iff, Z.eqb_neq in Hall. exact Hall.
Qed.

Lemma free_pages_loop_total (vecs : list bio_vec) :
  Forall (fun bv => bv_page bv <> 0) vecs ->
  exists vs evs, free_pages_loop vecs = Some (vs, evs).
Proof.
  induction 1 as [|bv vecs Hp _ (vs & evs & E)]; [now eexists _, _|].
  cbn [free_pages_loop].
  replace (bv_page bv =? 0) with false by (symmetry; now apply Z.eqb_neq).
  rewrite E. now eexists _, _.
Qed.

(** A clone that holds its pages gives them all back. *)
Lemma crypt_free_buffer_pages_owned (c : bio) :
  owns_pages c = true ->
  exists c' evs,
    crypt_free_buffer_pages c = Some (c', evs)
    /\ completions evs = [] /\ freed_pages evs = pages_of c.
Proof.
  intros H. destruct (owns_pages_inv c H) as [Hl Hall].
  unfold crypt_free_buffer_pages. rewrite Hl, Nat.ltb_irrefl, firstn_all.
  destruct (free_pages_loop_total _ Hall) as (vs & evs & E). rewrite E.
  destruct (completions_free_pages _ _ _ E) as [Hc Hf].
  eexists _, _. split; [reflexivity|]. split; [exact Hc | exact Hf].
Qed.

Section Endio.

Variable env : kcryptd_env.

(** The completions of the write clones of a request that holds one
    reference for each of them. *)
Lemma crypt_endio_calls_write :
  forall (done : list (bio * Z)) (st : kcryptd_state),
    done <> [] ->
    pending (k_io st) = Z.of_nat (List.length done) ->
    Z.of_nat (List.length done) < 2 ^ 31 ->
    bounce_linked (k_highmem env) (k_io st) = true ->
    Forall (fun d => owns_pages (fst d) = true
                     /\ bio_data_dir (fst d) <> READ) done ->
    exists st' evs rest,
      crypt_endio_calls env done st = Some st'
      /\ k_events st' = k_events st ++ evs
      /\ pending (k_io st') = 0
      /\ error (k_io st') = latest_failure (map snd done) (error (k_io st))
      /\ completions (io_events_of evs)
         = [bio_endio (original_bio (k_highmem env) (k_io st))
              (error (k_io st'))]
      /\ freed_pages (io_events_of evs)
         = flat_map pages_of (map fst done) ++ rest
      /\ submitted evs = [].
Proof.
  induction done as [|[c e] done IH]; intros st Hne Hp Hlen Hlink Hall;
    [congruence|].
  inversion Hall as [|? ? [Hown Hdir] Hall']; subst. cbn [fst snd] in *.
  cbn [crypt_endio_calls map flat_map]. unfold crypt_endio.
  replace (bio_data_dir c =? READ) with false
    by (symmetry; now apply Z.eqb_neq).
  cbn [negb]. unfold put_buffer_clone.
  destruct (crypt_free_buffer_pages_owned c Hown) as (c' & evf & E & Hcf & Hff).
  rewrite E. rewrite latest_failure_cons.
  set (st0 := emit st (map io_ev evf ++ [io_ev (bio_put c')])).
  destruct done as [|d done].
  - (* the last clone *)
    destruct (do_dec_pending_last env st0 e)
      as (st1 & evs & E1 & Hev & _ & P & Er & C & _); [exact Hp | exact Hlink|].
    rewrite E1. cbn [crypt_endio_calls map latest_failure flat_map].
    exists st1, ((map io_ev evf ++ [io_ev (bio_put c')]) ++ map io_ev evs),
      (freed_pages evs).
    split; [reflexivity|].
    subst st0. cbn [emit k_events k_io] in Hev, Er, C.
    split; [now rewrite Hev, <- app_assoc|].
    split; [exact P|].
    split.
    { rewrite Er. unfold latest_failure. cbn [rev find app].
      reflexivity. }
    rewrite !io_events_of_app, !io_events_of_io_ev, !submitted_app,
      !submitted_io_ev, !completions_app, !freed_pages_app, Hcf, Hff, C, Er.
    cbn [app io_events_of flat_map completions filter freed_pages submitted].
    rewrite !app_nil_r. now repeat split.
  - (* others are still in flight *)
    destruct (do_dec_pending_not_last env st0 e)
      as (st1 & E1 & Hev & _ & P & Er & B).
    { subst st0. cbn [emit k_io]. rewrite Hp. cbn [List.length] in *. lia. }
    rewrite E1.
    destruct (IH st1) as (st' & evs & rest & E2 & Hev2 & P2 & Er2 & C2 & F2 & S2);
      try discriminate; try exact Hall'.
    { rewrite P. subst st0. cbn [emit k_io]. rewrite Hp.
      cbn [List.length]. lia. }
    { cbn [List.length] in *. lia. }
    { unfold bounce_linked in *. rewrite B. exact Hlink. }
    exists st', ((map io_ev evf ++ [io_ev (bio_put c')]) ++ evs), rest.
    split; [exact E2|].
    subst st0. cbn [emit k_events k_io] in Hev, Er, B.
    split; [now rewrite Hev2, Hev, <- !app_assoc|].
    split; [exact P2|].
    split; [now rewrite Er2, Er|].
    rewrite !io_events_of_app, !io_events_of_io_ev, !submitted_app,
      !submitted_io_ev, !completions_app, !freed_pages_app, Hcf, Hff, C2, F2,
      S2.
    unfold original_bio. rewrite B.
    cbn [app io_events_of flat_map completions filter freed_pages submitted].
    rewrite <- !app_assoc. now repeat split.
Qed.

End Endio.

Lemma combine_fst {A B : Type} (l : list A) (l' : list B) :
  List.length l = List.length l' -> map fst (combine l l') = l.
Proof.
  revert l'. induction l as [|a l IH]; intros [|b l'] H; try discriminate;
    [reflexivity|].
  cbn. f_equal. apply IH. now injection H.
Qed.

Lemma combine_snd {A B : Type} (l : list A) (l' : list B) :
  List.length l = List.length l' -> map snd (combine l l') = l'.
Proof.
  revert l'. induction l as [|a l IH]; intros [|b l'] H; try discriminate;
    [reflexivity|].
  cbn. f_equal. apply IH. now injection H.
Qed.

(** X20.  A write request is completed once, and no page stays behind:
    when [process_write] has submitted its clones and these then complete
    one after the other with results [errs], every [crypt_endio] gives
    back the pages of its clone; the last of them, and only the last,
    completes the original bio, with the latest failure among the
    results or, when every clone succeeded, with the error that
    [process_write] left (0, or -ENOMEM or -EIO when it gave up). *)
Theorem write_request_completes_once (fuel : nat) (env : kcryptd_env)
    (cc : crypt_config) (st st1 : kcryptd_state) (errs : list Z) :
  pending (k_io st) = 0 ->
  error (k_io st) = 0 ->
  0 < bi_size (base_bio (k_io st)) <= 65535 * PAGE_SIZE ->
  bounce_linked (k_highmem env) (k_io st) = true ->
  Z.of_nat fuel < 2 ^ 31 - 1 ->
  bio_data_dir (base_bio (k_io st)) = WRITE ->
  process_write fuel env cc st = Some st1 ->
  let clones :=
    submitted (skipn (List.length (k_events st)) (k_events st1)) in
  clones <> [] ->
  List.length errs = List.length clones ->
  exists st2 rest,
    crypt_endio_calls env (combine clones errs) st1 = Some st2
    /\ pending (k_io st2) = 0
    /\ error (k_io st2) = latest_failure errs (error (k_io st1))
    /\ let evs := skipn (List.length (k_events st1)) (k_events st2) in
       completions (io_events_of evs)
       = [bio_endio (original_bio (k_highmem env) (k_io st))
            (error (k_io st2))]
       /\ freed_pages (io_events_of evs) = flat_map pages_of clones ++ rest
       /\ submitted evs = [].
Proof.
  intros Hp He Hsize Hlink Hfuel Hdir H clones Hne Hlen.
  unfold process_write in H.
  apply process_write_loop_inv in H;
    cbn [inc_pending set_io k_io io_with_pending pending base_bio];
    try (rewrite Hp; change (atomic_inc 0) with 1; lia); try assumption.
  destruct H as (evs & Hev & B & P & Hall & _ & _ & Hn).
  cbn [inc_pending set_io k_io k_events io_with_pending pending base_bio
       error] in Hev, B, P, Hall.
  rewrite Hp in P. change (atomic_inc 0) with 1 in P.
  assert (Hc : clones = submitted evs).
  { subst clones. rewrite Hev, skipn_app, Nat.sub_diag, skipn_all.
    reflexivity. }
  clearbody clones. subst clones.
  destruct (crypt_endio_calls_write env (combine (submitted evs) errs) st1)
    as (st2 & evs2 & rest & E & Hev2 & P2 & Er2 & C2 & F2 & S2).
  - destruct (submitted evs), errs; try discriminate; congruence.
  - rewrite length_combine, <- Hlen, Nat.min_id. lia.
  - rewrite length_combine, <- Hlen, Nat.min_id. lia.
  - unfold bounce_linked in *. now rewrite B.
  - apply Forall_forall. intros [c e] Hin. cbn [fst].
    apply in_combine_l in Hin.
    rewrite Forall_forall in Hall. destruct (Hall c Hin) as [Ho Hrw].
    split; [exact Ho|]. unfold bio_data_dir in *. rewrite Hrw, Hdir.
    discriminate.
  - exists st2, rest. split; [exact E|]. split; [exact P2|].
    rewrite combine_snd in Er2 by (symmetry; exact Hlen).
    split; [exact Er2|].
    cbv zeta. rewrite Hev2, skipn_app, Nat.sub_diag, skipn_all.
    cbn [skipn app].
    rewrite combine_fst in F2 by (symmetry; exact Hlen).
    unfold original_bio in *. rewrite B in C2.
    split; [exact C2|]. split; [exact F2 | exact S2].
Qed.

(** ** The read path *)

(** [process_read] on a request without references, when the bio can be
    had: one clone over the segments of the original, on the device. *)
Lemma process_read_submits (env : kcryptd_env) (cc : crypt_config)
    (st : kcryptd_state) (bdev : string) :
  pending (k_io st) = 0 ->
  bio_ok (base_bio (k_io st)) = true ->
  bi_idx (base_bio (k_io st)) <= bi_vcnt (base_bio (k_io st)) ->
  dev cc = Some bdev ->
  bio_alloc_bioset_fails env (k_bios st) (bio_segments (base_bio (k_io st)))
  = false ->
  let base := base_bio (k_io st) in
  let clone :=
    Build_bio (wrap64 (start cc + wrap64 (bi_sector base
                                          - begin (target (k_io st)))))
      (bi_rw base) (Z.shiftl 1 BIO_UPTODATE) (bi_vcnt base - bi_idx base) 0
      (bi_size base)
      (skipn (Z.to_nat (bi_idx base))
             (firstn (Z.to_nat (bi_vcnt base)) (bi_io_vec base)))
      None in
  process_read env cc st
  = Some (emit (bio_allocated (inc_pending st))
               [generic_make_request clone bdev])
  /\ pending (k_io (inc_pending st)) = 1.
Proof.
  intros Hp Hok Hidx Hdev Hbio base clone.
  destruct (bio_ok_inv _ Hok) as (Hi0 & Hv & Hlen & _).
  unfold process_read, clone_init. rewrite Hbio, Hdev.
  subst clone base.
  set (base := base_bio (k_io st)) in *.
  unfold bio_segments in *.
  rewrite (wrap16_small (bi_vcnt base - bi_idx base)) by lia.
  rewrite Z.ltb_irrefl. cbn [orb].
  rewrite length_skipn.
  destruct (Nat.ltb_spec (List.length (bi_io_vec base)
                          - Z.to_nat (bi_idx base))
              (Z.to_nat (bi_vcnt base - bi_idx base))) as [Hlt|_]; [lia|].
  split.
  - do 3 f_equal.
    cbn [fresh_bio bi_sector bi_rw bi_flags bi_vcnt bi_idx bi_size
         bi_io_vec bi_private].
    rewrite skipn_firstn_comm.
    now replace (Z.to_nat (bi_vcnt base) - Z.to_nat (bi_idx base))%nat
      with (Z.to_nat (bi_vcnt base - bi_idx base)) by lia.
  - cbn [inc_pending set_io k_io io_with_pending pending].
    now rewrite Hp.
Qed.

Lemma chunks_ahead_clone (b : bio) (s rw fl sz : Z) (p : option bio) :
  0 <= bi_idx b <= bi_vcnt b ->
  chunks_ahead
    (Build_bio s rw fl (bi_vcnt b - bi_idx b) 0 sz
       (skipn (Z.to_nat (bi_idx b))
              (firstn (Z.to_nat (bi_vcnt b)) (bi_io_vec b))) p) 0 0
  = chunks_ahead b (bi_idx b) 0.
Proof.
  intros H. unfold chunks_ahead. cbn [bi_vcnt bi_io_vec Z.to_nat skipn].
  rewrite firstn_all2; [reflexivity|].
  rewrite length_skipn, length_firstn. lia.
Qed.

(** X21.  A read request from queue to completion.  kcryptd first sends
    one clone over the segments of the original to the device, at sector
    [start + (bi_sector - begin)], and holds one reference.  When the
    clone comes back up to date, [crypt_endio] queues the request again,
    whatever its error argument; kcryptd then decrypts the original in
    place, every sector once and in order, the k-th with the IV of sector
    [bi_sector - begin + iv_offset + k], and completes the original bio
    with 0, once. *)
Theorem read_request_lifecycle (fuel : nat) (env : kcryptd_env)
    (cc : crypt_config) (st : kcryptd_state) (bdev : string)
    (back : bio) (e : Z) :
  let base := base_bio (k_io st) in
  let sect := wrap64 (bi_sector base - begin (target (k_io st))) in
  let chunks := chunks_ahead base (bi_idx base) 0 in
  pending (k_io st) = 0 -> error (k_io st) = 0 ->
  post_process (k_io st) = 0 ->
  bio_data_dir base = READ ->
  sector_aligned base = true -> bi_idx base <= bi_vcnt base ->
  bounce_linked (k_highmem env) (k_io st) = true ->
  dev cc = Some bdev ->
  bio_alloc_bioset_fails env (k_bios st) (bio_segments base) = false ->
  iv_buffer_fits cc = true ->
  (forall h c, 0 <= blkcipher_result (k_cipher env) h c) ->
  (List.length chunks < fuel)%nat ->
  bio_data_dir back = READ -> bio_flagged back BIO_UPTODATE = true ->
  exists st1 clone st2 st3 calls done,
    kcryptd_do_work fuel env cc st = Some st1
    /\ k_events st1 = k_events st ++ [generic_make_request clone bdev]
    /\ bi_sector clone = wrap64 (start cc + sect)
    /\ bi_size clone = bi_size base
    /\ bio_data_dir clone = READ
    /\ chunks_ahead clone 0 0 = chunks
    /\ pending (k_io st1) = 1 /\ k_hist st1 = k_hist st
    /\ crypt_endio env back e st1 = Some st2
    /\ k_events st2 = k_events st1 ++ [io_ev (bio_put back); queue_work]
    /\ k_hist st2 = k_hist st
    /\ kcryptd_do_work fuel env cc st2 = Some st3
    /\ k_hist st3 = k_hist st ++ calls
    /\ map call_src calls = chunks /\ map call_dst calls = chunks
    /\ map call_iv calls
       = map (iv_of_sector (k_cipher env) cc)
             (sector_run (wrap64 (sect + iv_offset cc))
                         (List.length chunks))
    /\ Forall (fun c => is_encryption (call_op c) = false
                        /\ call_nbytes c = 512) calls
    /\ k_events st3 = k_events st2 ++ map io_ev done
    /\ completions done
       = [bio_endio (original_bio (k_highmem env) (k_io st)) 0]
    /\ pending (k_io st3) = 0 /\ error (k_io st3) = 0.
Proof.
  intros base sect chunks Hp He Hpp Hdir Hal Hidx Hlink Hdev Hbio Hfit
    Hcipher Hfuel Hbdir Hup.
  destruct (sector_aligned_inv base Hal) as [Hok _].
  destruct (bio_ok_inv base Hok) as (Hi0 & _).
  destruct (process_read_submits env cc st bdev Hp Hok Hidx Hdev Hbio)
    as [E1 P1].
  cbv zeta in E1. fold base sect in E1.
  match type of E1 with
  | _ = Some (emit _ [generic_make_request ?c _]) => set (clone := c) in *
  end.
  set (st1 := emit (bio_allocated (inc_pending st))
                   [generic_make_request clone bdev]) in *.
  set (st2 := kcryptd_queue_io
                (set_io (emit st1 [io_ev (bio_put back)])
                        (io_with_post_process (k_io st1) 1))).
  (* the conversion in place *)
  destruct (crypt_convert_loop_chunks (k_cipher env) cc Hfit Hcipher fuel
              (crypt_convert_init cc (Some base) (Some base) sect 0)
              base base 0 (k_hist st))
    as (r & ctx' & calls & Ec & Si & So & Sn & _ & _ & Sr & _ & _ & _ & _
        & _ & _ & _ & Siv & Sop);
    try reflexivity; try assumption; try lia;
    try (split; [exact Hi0 | left; reflexivity]).
  { cbn [crypt_convert_init idx_in idx_out offset_in offset_out].
    fold chunks. rewrite Nat.min_id. exact Hfuel. }
  cbn [crypt_convert_init idx_in idx_out offset_in offset_out sector write]
    in Si, So, Siv, Sop.
  fold chunks in Si, So, Siv. rewrite Nat.min_id in Si, So, Siv.
  rewrite firstn_all in Si, So.
  (* the last reference goes *)
  destruct (do_dec_pending_last env (set_hist st2 (k_hist st ++ calls)) r)
    as (st3 & done & E3 & Hev3 & _ & P3 & Er3 & C3 & _).
  { exact P1. }
  { exact Hlink. }
  exists st1, clone, st2, st3, calls, done.
  split.
  { unfold kcryptd_do_work. rewrite Hpp. cbn [Z.eqb negb].
    fold base. rewrite Hdir. exact E1. }
  split; [reflexivity|]. split; [reflexivity|]. split; [reflexivity|].
  split; [exact Hdir|].
  split; [apply chunks_ahead_clone; lia|].
  split; [exact P1|]. split; [reflexivity|].
  split.
  { unfold crypt_endio. rewrite Hbdir, Hup. reflexivity. }
  split.
  { subst st2. cbn [kcryptd_queue_io emit set_io k_events].
    now rewrite <- app_assoc. }
  split; [reflexivity|].
  split.
  { unfold kcryptd_do_work, process_read_endio.
    change (post_process (k_io st2)) with 1. cbn [Z.eqb negb].
    change (base_bio (k_io st2)) with base.
    change (target (k_io st2)) with (target (k_io st)).
    change (k_hist st2) with (k_hist st).
    fold sect. unfold crypt_convert. rewrite Ec. exact E3. }
  split; [rewrite (proj1 (proj2 (proj2 (proj2 (do_dec_pending_frame _ _ _ _ E3)))));
          reflexivity|].
  split; [exact Si|]. split; [exact So|]. split; [exact Siv|].
  split.
  { rewrite Forall_forall in *. intros c Hin.
    split; [exact (Sop c Hin) | exact (Sn c Hin)]. }
  split; [exact Hev3|].
  assert (Hr : (r <? 0) = false) by (apply Z.ltb_ge; exact Sr).
  rewrite Hr in C3, Er3.
  change (error (k_io (set_hist st2 (k_hist st ++ calls))))
    with (error (k_io st)) in C3, Er3.
  rewrite He in C3, Er3.
  split; [exact C3|]. split; [exact P3 | exact Er3].
Qed.

(** X22.  The two ways a read request fails before anything is
    decrypted.  When kcryptd cannot get a bio for the clone it completes
    the original with -ENOMEM at once and submits nothing.  When the clone
    comes back not up to date, [crypt_endio] completes the original with
    -EIO whatever its error argument says, and the cipher is not
    called. *)
Theorem read_request_failures (fuel : nat) (env : kcryptd_env)
    (cc : crypt_config) (st : kcryptd_state) (bdev : string)
    (back : bio) (e : Z) :
  let base := base_bio (k_io st) in
  pending (k_io st) = 0 -> error (k_io st) = 0 ->
  post_process (k_io st) = 0 ->
  bio_data_dir base = READ ->
  bio_ok base = true -> bi_idx base <= bi_vcnt base ->
  bounce_linked (k_highmem env) (k_io st) = true ->
  dev cc = Some bdev ->
  (bio_alloc_bioset_fails env (k_bios st) (bio_segments base) = true ->
   exists st1 done,
     kcryptd_do_work fuel env cc st = Some st1
     /\ k_events st1 = k_events st ++ map io_ev done
     /\ completions done
        = [bio_endio (original_bio (k_highmem env) (k_io st)) (- ENOMEM)]
     /\ pending (k_io st1) = 0 /\ k_hist st1 = k_hist st)
  /\ (bio_alloc_bioset_fails env (k_bios st) (bio_segments base) = false ->
      bio_data_dir back = READ -> bio_flagged back BIO_UPTODATE = false ->
      exists st1 st2 done,
        kcryptd_do_work fuel env cc st = Some st1
        /\ crypt_endio env back e st1 = Some st2
        /\ k_events st2
           = k_events st1 ++ io_ev (bio_put back) :: map io_ev done
        /\ completions done
           = [bio_endio (original_bio (k_highmem env) (k_io st)) (- EIO)]
        /\ pending (k_io st2) = 0 /\ error (k_io st2) = - EIO
        /\ k_hist st2 = k_hist st).
Proof.
  intros base Hp He Hpp Hdir Hok Hidx Hlink Hdev.
  assert (Hwork : kcryptd_do_work fuel env cc st = process_read env cc st).
  { unfold kcryptd_do_work. rewrite Hpp. cbn [Z.eqb negb].
    fold base. now rewrite Hdir. }
  rewrite Hwork. split.
  - intros Hbio. unfold process_read. fold base. rewrite Hbio.
    destruct (do_dec_pending_last env (bio_allocated (inc_pending st))
                (- ENOMEM))
      as (st1 & done & E & Hev & Hh & P & Er & C & _).
    { cbn [bio_allocated inc_pending set_io k_io io_with_pending pending].
      now rewrite Hp. }
    { exact Hlink. }
    exists st1, done. split; [exact E|]. split; [exact Hev|].
    split; [exact C|]. split; [exact P | exact Hh].
  - intros Hbio Hbdir Hup.
    destruct (process_read_submits env cc st bdev Hp Hok Hidx Hdev Hbio)
      as [E1 P1].
    cbv zeta in E1. rewrite E1.
    match type of E1 with _ = Some ?s => set (st1 := s) in * end.
    destruct (do_dec_pending_last env (emit st1 [io_ev (bio_put back)])
                (- EIO))
      as (st2 & done & E & Hev & Hh & P & Er & C & _).
    { exact P1. }
    { exact Hlink. }
    exists st1, st2, done. split; [reflexivity|].
    split.
    { unfold crypt_endio. rewrite Hbdir, Hup. exact E. }
    split.
    { rewrite Hev. cbn [emit k_events]. now rewrite <- app_assoc. }
    split; [exact C|]. split; [exact P|]. split; [exact Er | exact Hh].
Qed.

(** ** Bouncing *)

Lemma set_nth_middle {A : Type} (done : list A) (x v : A) (rest : list A) :
  set_nth (done ++ x :: rest) (List.length done) v = done ++ v :: rest.
Proof. induction done as [|d done IH]; cbn; [reflexivity | now rewrite IH]. Qed.

Lemma repeat_snoc {A : Type} (x : A) (n : nat) :
  repeat x (S n) = repeat x n ++ [x].
Proof. induction n as [|n IH]; [reflexivity|]. cbn in *. now rewrite <- IH. Qed.

Lemma crypt_map_fill_app (a b a' b' : list bio_vec) :
  List.length a = List.length a' ->
  crypt_map_fill (a ++ b) (a' ++ b')
  = crypt_map_fill a a' ++ crypt_map_fill b b'.
Proof.
  revert a'. induction a as [|x a IH]; intros [|x' a'] H; try discriminate.
  - reflexivity.
  - cbn. f_equal. apply IH. now injection H.
Qed.

Lemma crypt_map_fill_cleared (pre : list bio_vec) :
  crypt_map_fill (repeat cleared_segment (List.length pre)) pre = pre.
Proof. induction pre as [|x pre IH]; cbn; [reflexivity | now rewrite IH]. Qed.

Lemma high_pages_pairs (env : kcryptd_env) (segs : list bio_vec) :
  forall p, List.length (bounce_pairs env segs p) = high_pages env segs.
Proof.
  unfold high_pages.
  induction segs as [|bv segs IH]; intros p; [reflexivity|].
  cbn [bounce_pairs filter]. destruct (PageHighMem env (bv_page bv));
    cbn [List.length]; now rewrite IH.
Qed.

Section Bounce.

Variable env : kcryptd_env.
Variable b : bio.
Hypothesis Hpool : forall n, page_pool_alloc env n true <> 0.

(** The first loop of [crypt_map]: the new vector holds a pool page
    where the original has a page in high memory, and is cleared
    elsewhere, so that the second loop gives the bounced segments. *)
Lemma crypt_map_bounce_spec :
  forall (segs : list bio_vec) (i : nat) (newvec : option (list bio_vec))
         (evs : list request_event) (pages bios : nat)
         (done : list bio_vec) res,
    List.length done = i ->
    (i + List.length segs)%nat = Z.to_nat (bi_vcnt b) ->
    new_vector b newvec = done ++ repeat cleared_segment (List.length segs) ->
    crypt_map_bounce env b segs i newvec evs pages bios = Some res ->
    let '(newvec', evs', pages', bios') := res in
    exists tail,
      new_vector b newvec' = done ++ tail
      /\ List.length tail = List.length segs
      /\ crypt_map_fill tail segs = bounced_segments env segs pages
      /\ pages' = (pages + high_pages env segs)%nat
      /\ evs' = evs
                ++ (if bio_data_dir b =? WRITE
                    then map (fun pr => bounce_copy (snd pr)
                                          (bv_page (fst pr))
                                          (bv_offset (fst pr))
                                          (bv_len (fst pr)))
                             (bounce_pairs env segs pages)
                    else [])
      /\ (newvec' = None <-> newvec = None /\ high_pages env segs = 0%nat).
Proof.
  induction segs as [|bv segs IH];
    intros i newvec evs pages bios done res Hd Hn Hv H.
  - cbn [crypt_map_bounce] in H. injection H as <-.
    exists []. cbn [List.length repeat] in Hv.
    unfold high_pages.
    cbn [filter List.length bounce_pairs map crypt_map_fill
         bounced_segments].
    rewrite Nat.add_0_r.
    split; [exact Hv|]. split; [reflexivity|]. split; [reflexivity|].
    split; [reflexivity|].
    split; [destruct (bio_data_dir b =? WRITE); now rewrite app_nil_r|].
    tauto.
  - cbn [crypt_map_bounce] in H. cbn [List.length] in Hn, Hv.
    unfold high_pages. cbn [bounced_segments bounce_pairs filter].
    destruct (PageHighMem env (bv_page bv)) eqn:Ehigh; cbn [negb] in H.
    + (* a page in high memory *)
      set (nv1 := match newvec with
                  | Some v => Some (v, bios)
                  | None =>
                      if bio_alloc_bioset_fails env bios (bi_vcnt b)
                      then None
                      else Some (repeat cleared_segment
                                   (Z.to_nat (bi_vcnt b)), S bios)
                  end) in *.
      assert (Hnv : forall v bios', nv1 = Some (v, bios') ->
                                    v = new_vector b newvec).
      { intros v bios' E. subst nv1. destruct newvec as [v0|].
        - now injection E as <- _.
        - destruct (bio_alloc_bioset_fails env bios (bi_vcnt b));
            [discriminate E | now injection E as <- _]. }
      change (match newvec with
              | Some v => Some (v, bios)
              | None => _
              end) with nv1 in H.
      destruct nv1 as [[v bios1]|] eqn:Env; [|discriminate H].
      specialize (Hnv v bios1 eq_refl). rewrite Hv in Hnv. subst v.
      rewrite length_app, Hd in H. cbn [repeat List.length] in H.
      destruct (Nat.leb_spec (i + S (List.length (repeat cleared_segment
                                                   (List.length segs)))) i)
        as [Hle|_]; [lia|].
      rewrite <- Hd, set_nth_middle in H.
      set (to := {| bv_page := page_pool_alloc env pages true;
                    bv_len := bv_len bv; bv_offset := bv_offset bv |}) in *.
      cbn [bv_offset bv_len] in H.
      assert (Hstep : forall evs1,
                 crypt_map_bounce env b segs (S (List.length done))
                   (Some (done ++ to :: repeat cleared_segment
                                          (List.length segs)))
                   evs1 (S pages) bios1 = Some res ->
                 let '(newvec', evs', pages', bios') := res in
                 exists tail,
                   new_vector b newvec' = done ++ tail
                   /\ List.length tail = S (List.length segs)
                   /\ crypt_map_fill tail (bv :: segs)
                      = to :: bounced_segments env segs (S pages)
                   /\ pages'
                      = (pages + S (List.length
                                      (filter (fun bv0 => PageHighMem env
                                                            (bv_page bv0))
                                              segs)))%nat
                   /\ evs' = evs1
                             ++ (if bio_data_dir b =? WRITE
                                 then map (fun pr => bounce_copy (snd pr)
                                                       (bv_page (fst pr))
                                                       (bv_offset (fst pr))
                                                       (bv_len (fst pr)))
                                          (bounce_pairs env segs (S pages))
                                 else [])
                   /\ newvec' <> None).
      { intros evs1 H1.
        apply (IH _ _ _ _ _ (done ++ [to])) in H1.
        - destruct res as [[[newvec' evs'] pages'] bios'].
          destruct H1 as (tail & Hv' & Hl & Hf & Hp & He & Hnone).
          exists (to :: tail). rewrite <- app_assoc in Hv'.
          split; [exact Hv'|]. split; [cbn; now rewrite Hl|].
          split.
          { cbn [crypt_map_fill]. subst to. cbn [bv_page].
            replace (page_pool_alloc env pages true =? 0) with false
              by (symmetry; apply Z.eqb_neq; apply Hpool).
            now rewrite Hf. }
          split; [fold (high_pages env segs) in *; lia|].
          split; [exact He|].
          intros Hn0. apply Hnone in Hn0. destruct Hn0 as [Hn0 _].
          discriminate Hn0.
        - rewrite length_app. cbn. lia.
        - lia.
        - cbn [new_vector]. now rewrite <- app_assoc. }
      destruct (bio_data_dir b =? WRITE) eqn:Edir.
      * destruct (page_pool_alloc env pages true =? 0); [discriminate H|].
        apply Hstep in H.
        destruct res as [[[newvec' evs'] pages'] bios'].
        destruct H as (tail & Hv' & Hl & Hf & Hp & He & Hnone).
        exists tail. split; [exact Hv'|]. split; [exact Hl|].
        split; [exact Hf|]. split; [exact Hp|].
        split.
        { rewrite He, <- app_assoc. reflexivity. }
        split; [tauto | intros [_ Habs]; discriminate Habs].
      * apply Hstep in H.
        destruct res as [[[newvec' evs'] pages'] bios'].
        destruct H as (tail & Hv' & Hl & Hf & Hp & He & Hnone).
        exists tail. split; [exact Hv'|]. split; [exact Hl|].
        split; [exact Hf|]. split; [exact Hp|].
        split; [exact He|].
        split; [tauto | intros [_ Habs]; discriminate Habs].
    + (* a page in low memory *)
      apply (IH _ _ _ _ _ (done ++ [cleared_segment])) in H.
      * destruct res as [[[newvec' evs'] pages'] bios'].
        destruct H as (tail & Hv' & Hl & Hf & Hp & He & Hnone).
        exists (cleared_segment :: tail). rewrite <- app_assoc in Hv'.
        split; [exact Hv'|]. split; [cbn; now rewrite Hl|].
        split; [cbn [crypt_map_fill cleared_segment bv_page Z.eqb];
                now rewrite Hf|].
        split; [exact Hp|]. split; [exact He | exact Hnone].
      * rewrite length_app. cbn. lia.
      * lia.
      * rewrite Hv, <- app_assoc. reflexivity.
Qed.

End Bounce.

Lemma bounced_segments_length (env : kcryptd_env) (segs : list bio_vec) :
  forall p, List.length (bounced_segments env segs p) = List.length segs.
Proof.
  induction segs as [|bv segs IH]; intros p; [reflexivity|].
  cbn [bounced_segments]. destruct (PageHighMem env (bv_page bv));
    cbn [List.length]; now rewrite IH.
Qed.

Lemma bounced_segments_none (env : kcryptd_env) (segs : list bio_vec) :
  forall p, high_pages env segs = 0%nat -> bounced_segments env segs p = segs.
Proof.
  unfold high_pages.
  induction segs as [|bv segs IH]; intros p H; [reflexivity|].
  cbn [bounced_segments filter] in *.
  destruct (PageHighMem env (bv_page bv)); [discriminate H|].
  now rewrite IH.
Qed.

(** The bio that [crypt_map] works on is the original as long as no live
    segment lies in high memory, and else a new bio, flagged as bounced
    and pointing to the original, whose live segments are the bounced
    ones. *)
Lemma crypt_map_result (env : kcryptd_env) (ti : dm_target) (b : bio)
    (st st1 : kcryptd_state) (r : Z) :
  k_highmem env = true ->
  (forall n, page_pool_alloc env n true <> 0) ->
  0 <= bi_idx b <= bi_vcnt b ->
  crypt_map env ti b st = Some (r, st1) ->
  let segs := live_segments b in
  let pairs := bounce_pairs env segs (k_pages st) in
  exists base,
    r = DM_MAPIO_SUBMITTED
    /\ k_io st1 = {| target := ti; base_bio := base; pending := 0;
                     error := 0; post_process := 0 |}
    /\ k_hist st1 = k_hist st
    /\ k_pages st1 = (k_pages st + List.length pairs)%nat
    /\ k_events st1
       = k_events st
         ++ (if bio_data_dir b =? WRITE
             then map (fun pr => bounce_copy (snd pr) (bv_page (fst pr))
                                   (bv_offset (fst pr)) (bv_len (fst pr)))
                      pairs
             else [])
         ++ [queue_work]
    /\ (Z.to_nat (bi_vcnt b) <= List.length (bi_io_vec b))%nat
    /\ ((pairs = [] /\ base = b)
        \/ (pairs <> []
            /\ base
               = Build_bio (bi_sector b) (bi_rw b)
                   (Z.lor (Z.shiftl 1 BIO_UPTODATE) (Z.shiftl 1 BIO_BOUNCED))
                   (bi_vcnt b) (bi_idx b) (bi_size b)
                   (firstn (Z.to_nat (bi_idx b)) (bi_io_vec b)
                    ++ bounced_segments env segs (k_pages st))
                   (Some b))).
Proof.
  intros Hhigh Hpool Hidx H segs pairs.
  unfold crypt_map in H. rewrite Hhigh in H.
  destruct (Nat.ltb_spec (List.length (bi_io_vec b)) (Z.to_nat (bi_vcnt b)))
    as [Hlt|Hlen]; [discriminate H|].
  fold (live_segments b) in H. fold segs in H.
  destruct (crypt_map_bounce env b segs (Z.to_nat (bi_idx b)) None []
              (k_pages st) (k_bios st))
    as [[[[newvec evs] pages] bios]|] eqn:E; [|discriminate H].
  assert (Hsegs : List.length segs
                  = (Z.to_nat (bi_vcnt b) - Z.to_nat (bi_idx b))%nat).
  { subst segs. unfold live_segments.
    rewrite length_skipn, length_firstn. lia. }
  pose proof (crypt_map_bounce_spec env b Hpool segs (Z.to_nat (bi_idx b))
                None [] (k_pages st) (k_bios st)
                (repeat cleared_segment (Z.to_nat (bi_idx b)))
                (newvec, evs, pages, bios)
                (repeat_length _ _)) as Hspec.
  specialize (Hspec ltac:(lia)).
  cbn [new_vector] in Hspec.
  rewrite <- repeat_app in Hspec.
  replace (Z.to_nat (bi_idx b) + List.length segs)%nat
    with (Z.to_nat (bi_vcnt b)) in Hspec by lia.
  specialize (Hspec eq_refl E). cbv beta iota in Hspec.
  destruct Hspec as (tail & Hv & Hl & Hf & Hp & He & Hnone).
  cbn [app] in He.
  assert (Hlp : List.length pairs = high_pages env segs)
    by apply high_pages_pairs.
  destruct newvec as [v|].
  - (* bounced *)
    injection H as <- <-.
    eexists. split; [reflexivity|].
    cbn [kcryptd_queue_io emit k_io k_hist k_pages k_events].
    split; [reflexivity|]. split; [reflexivity|].
    split; [lia|].
    split; [now rewrite He, <- app_assoc|].
    split; [exact Hlen|].
    right. split.
    { intros Hnil. fold pairs in Hlp. rewrite Hnil in Hlp.
      assert (Some v = None) by (apply Hnone; split; [reflexivity|];
                                 cbn in Hlp; lia).
      discriminate. }
    f_equal. cbn [new_vector] in Hv. rewrite Hv.
    assert (Hfirst : firstn (Z.to_nat (bi_vcnt b)) (bi_io_vec b)
                     = firstn (Z.to_nat (bi_idx b)) (bi_io_vec b) ++ segs).
    { subst segs. unfold live_segments.
      rewrite <- (firstn_skipn (Z.to_nat (bi_idx b))
                    (firstn (Z.to_nat (bi_vcnt b)) (bi_io_vec b))) at 1.
      f_equal. rewrite firstn_firstn. f_equal. lia. }
    rewrite Hfirst, crypt_map_fill_app, Hf.
    + f_equal.
      rewrite <- (crypt_map_fill_cleared
                    (firstn (Z.to_nat (bi_idx b)) (bi_io_vec b))) at 2.
      rewrite length_firstn. do 2 f_equal. lia.
    + rewrite repeat_length, length_firstn. lia.
  - (* nothing to bounce *)
    injection H as <- <-.
    eexists. split; [reflexivity|].
    cbn [kcryptd_queue_io emit k_io k_hist k_pages k_events].
    split; [reflexivity|]. split; [reflexivity|].
    split; [lia|].
    split; [now rewrite He, <- app_assoc|].
    split; [exact Hlen|].
    left. split; [|reflexivity].
    destruct Hnone as [Hn _]. destruct (Hn eq_refl) as [_ Hz].
    fold pairs in Hlp. rewrite Hz in Hlp.
    now apply length_zero_iff_nil.
Qed.

Section Bounced.

Variable env : kcryptd_env.
Hypothesis Hlow : forall n, PageHighMem env (page_pool_alloc env n true) = false.

Lemma bounced_segments_low (segs : list bio_vec) :
  forall p,
    Forall (fun bv => PageHighMem env (bv_page bv) = false)
           (bounced_segments env segs p)
    /\ map bv_len (bounced_segments env segs p) = map bv_len segs
    /\ map bv_offset (bounced_segments env segs p) = map bv_offset segs.
Proof.
  induction segs as [|bv segs IH]; intros p;
    [repeat split; constructor|].
  cbn [bounced_segments].
  destruct (PageHighMem env (bv_page bv)) eqn:E.
  - destruct (IH (S p)) as (Hf & Hl & Ho). cbn [map bv_len bv_offset].
    split; [constructor; [apply Hlow | exact Hf]|].
    split; now f_equal.
  - destruct (IH p) as (Hf & Hl & Ho). cbn [map].
    split; [constructor; [exact E | exact Hf]|].
    split; now f_equal.
Qed.




End Bounced.




Lemma live_segments_bounced (b : bio) (fl : Z) (segs : list bio_vec)
    (p : option bio) :
  0 <= bi_idx b <= bi_vcnt b ->
  (Z.to_nat (bi_vcnt b) <= List.length (bi_io_vec b))%nat ->
  List.length segs = List.length (live_segments b) ->
  live_segments
    (Build_bio (bi_sector b) (bi_rw b) fl (bi_vcnt b) (bi_idx b) (bi_size b)
       (firstn (Z.to_nat (bi_idx b)) (bi_io_vec b) ++ segs) p)
  = segs.
Proof.
  intros Hidx Hlen Hl. unfold live_segments in *.
  cbn [bi_idx bi_vcnt bi_io_vec].
  rewrite length_skipn, length_firstn in Hl.
  rewrite firstn_all2 by (rewrite length_app, length_firstn; lia).
  rewrite skipn_app, length_firstn.
  rewrite skipn_all2 by (rewrite length_firstn; lia).
  replace (Z.to_nat (bi_idx b)
           - Nat.min (Z.to_nat (bi_idx b)) (List.length (bi_io_vec b)))%nat
    with 0%nat by lia.
  reflexivity.
Qed.

Lemma set_nth_length {A : Type} (l : list A) (n : nat) (v : A) :
  List.length (set_nth l n v) = List.length l.
Proof.
  revert n. induction l as [|x l IH]; intros [|n]; cbn; try reflexivity.
  now rewrite IH.
Qed.

(** The first loop of [crypt_map] comes to its end when the new bio can
    be allocated and the pool gives a page to every call. *)
Lemma crypt_map_bounce_returns (env : kcryptd_env) (b : bio) :
  (forall n, page_pool_alloc env n true <> 0) ->
  forall (segs : list bio_vec) (i : nat) (newvec : option (list bio_vec))
         (evs : list request_event) (pages bios : nat),
    (i + List.length segs)%nat = Z.to_nat (bi_vcnt b) ->
    List.length (new_vector b newvec) = Z.to_nat (bi_vcnt b) ->
    (newvec = None -> bio_alloc_bioset_fails env bios (bi_vcnt b) = false) ->
    exists res, crypt_map_bounce env b segs i newvec evs pages bios = Some res.
Proof.
  intros Hpool. induction segs as [|bv segs IH];
    intros i newvec evs pages bios Hn Hv Halloc.
  - eexists. reflexivity.
  - cbn [crypt_map_bounce]. cbn [List.length] in Hn.
    destruct (PageHighMem env (bv_page bv)); cbn [negb].
    + assert (Ev : match newvec with
                   | Some v => Some (v, bios)
                   | None =>
                       if bio_alloc_bioset_fails env bios (bi_vcnt b)
                       then None
                       else Some (repeat {| bv_page := 0; bv_len := 0;
                                            bv_offset := 0 |}
                                         (Z.to_nat (bi_vcnt b)), S bios)
                   end
                   = Some (new_vector b newvec,
                           match newvec with
                           | Some _ => bios
                           | None => S bios
                           end)).
      { destruct newvec as [v|]; [reflexivity|].
        now rewrite (Halloc eq_refl). }
      rewrite Ev.
      destruct (Nat.leb_spec (List.length (new_vector b newvec)) i)
        as [Hle|_]; [lia|].
      replace (page_pool_alloc env pages true =? 0) with false
        by (symmetry; apply Z.eqb_neq; apply Hpool).
      destruct (bio_data_dir b =? WRITE);
        apply IH; try lia; try discriminate;
        cbn [new_vector]; now rewrite set_nth_length.
    + apply IH; [lia | exact Hv | exact Halloc].
Qed.

(** [crypt_map] returns when the vector of the bio holds its segments, a
    new bio can be had and the pool gives a page to every call. *)
Lemma crypt_map_returns (env : kcryptd_env) (ti : dm_target) (b : bio)
    (st : kcryptd_state) :
  k_highmem env = true ->
  (forall n, page_pool_alloc env n true <> 0) ->
  0 <= bi_idx b <= bi_vcnt b ->
  bi_vcnt b <= Z.of_nat (List.length (bi_io_vec b)) ->
  bio_alloc_bioset_fails env (k_bios st) (bi_vcnt b) = false ->
  exists r st1, crypt_map env ti b st = Some (r, st1).
Proof.
  intros Hhigh Hpool Hidx Hlen Halloc.
  unfold crypt_map. rewrite Hhigh.
  destruct (Nat.ltb_spec (List.length (bi_io_vec b)) (Z.to_nat (bi_vcnt b)))
    as [Hlt|_]; [lia|].
  destruct (crypt_map_bounce_returns env b Hpool
              (skipn (Z.to_nat (bi_idx b))
                 (firstn (Z.to_nat (bi_vcnt b)) (bi_io_vec b)))
              (Z.to_nat (bi_idx b)) None [] (k_pages st) (k_bios st))
    as ([[[newvec evs] pages] bios] & E).
  - rewrite length_skipn, length_firstn. lia.
  - cbn [new_vector]. apply repeat_length.
  - intros _. exact Halloc.
  - rewrite E. destruct newvec; eexists _, _; reflexivity.
Qed.

(** X23.  Under [CONFIG_HIGHMEM], [crypt_map] keeps pages in high memory
    away from the request.  When the bio's vector holds its segments, a
    new bio can be had and the pool gives low pages, [crypt_map] returns
    [DM_MAPIO_SUBMITTED] and has queued a request without references,
    without error and before decryption.  The bio of the request is the
    original itself when no live segment lies in high memory; else it is
    a new bio, flagged as bounced, that points back to the original, with
    the same sector, direction, counters and size, in which every live
    segment in high memory has been given a page of the pool, with length
    and offset as before; for a write the data of each such segment is
    copied into its new page. *)
Theorem crypt_map_bounces_high_pages (env : kcryptd_env)
    (ti : dm_target) (b : bio) (st : kcryptd_state) :
  k_highmem env = true ->
  (forall n, page_pool_alloc env n true <> 0) ->
  (forall n, PageHighMem env (page_pool_alloc env n true) = false) ->
  0 <= bi_idx b <= bi_vcnt b ->
  bi_vcnt b <= Z.of_nat (List.length (bi_io_vec b)) ->
  bio_alloc_bioset_fails env (k_bios st) (bi_vcnt b) = false ->
  bio_flagged b BIO_BOUNCED = false ->
  exists st1,
    crypt_map env ti b st = Some (DM_MAPIO_SUBMITTED, st1)
    /\ let io := k_io st1 in
       let base := base_bio io in
       let pairs := bounce_pairs env (live_segments b) (k_pages st) in
       target io = ti /\ pending io = 0 /\ error io = 0
       /\ post_process io = 0
       /\ (high_pages env (live_segments b) = 0%nat -> base = b)
       /\ (high_pages env (live_segments b) <> 0%nat ->
           base <> b /\ bio_flagged base BIO_BOUNCED = true
           /\ bi_private base = Some b)
       /\ original_bio true io = b /\ bounce_linked true io = true
       /\ bi_sector base = bi_sector b /\ bi_rw base = bi_rw b
       /\ bi_vcnt base = bi_vcnt b /\ bi_idx base = bi_idx b
       /\ bi_size base = bi_size b
       /\ live_segments base
          = bounced_segments env (live_segments b) (k_pages st)
       /\ Forall (fun bv => PageHighMem env (bv_page bv) = false)
                 (live_segments base)
       /\ map bv_len (live_segments base) = map bv_len (live_segments b)
       /\ map bv_offset (live_segments base)
          = map bv_offset (live_segments b)
       /\ k_pages st1
          = (k_pages st + high_pages env (live_segments b))%nat
       /\ k_events st1
          = k_events st
            ++ (if bio_data_dir b =? WRITE
                then map (fun pr => bounce_copy (snd pr) (bv_page (fst pr))
                                      (bv_offset (fst pr)) (bv_len (fst pr)))
                         pairs
                else [])
            ++ [queue_work].
Proof.
  intros Hhigh Hpool Hlow Hidx Hvec Halloc Hflag.
  destruct (crypt_map_returns env ti b st Hhigh Hpool Hidx Hvec Halloc)
    as (r & st1 & H).
  destruct (crypt_map_result env ti b st st1 r Hhigh Hpool Hidx H)
    as (base' & Hr & Hio & _ & Hpg & Hev & Hlen & Hbase).
  cbv zeta in Hev, Hbase, Hpg.
  rewrite high_pages_pairs in Hpg.
  exists st1. rewrite H, Hr. split; [reflexivity|].
  intros io base pairs. fold pairs in Hev, Hbase.
  pose proof (high_pages_pairs env (live_segments b) (k_pages st)) as Hhp.
  fold pairs in Hhp.
  destruct (bounced_segments_low env Hlow (live_segments b) (k_pages st))
    as (Hf & Hl & Ho).
  subst io base. rewrite Hio. cbn [target pending error post_process base_bio].
  do 4 (split; [reflexivity|]).
  destruct Hbase as [[Hnil ->] | [Hne ->]].
  - rewrite Hnil in Hhp. cbn [List.length] in Hhp.
    split; [reflexivity|]. split; [intros Hn; now elim Hn|].
    unfold original_bio, bounce_linked. cbn [base_bio andb].
    rewrite Hflag. do 7 (split; [reflexivity|]).
    assert (Hsame : bounced_segments env (live_segments b) (k_pages st)
                    = live_segments b)
      by (apply bounced_segments_none; now symmetry).
    rewrite Hsame in *.
    split; [reflexivity|]. split; [exact Hf|].
    split; [reflexivity|]. split; [reflexivity|].
    split; [exact Hpg | exact Hev].
  - assert (Hpos : high_pages env (live_segments b) <> 0%nat).
    { rewrite <- Hhp. destruct pairs; [now elim Hne | discriminate]. }
    split; [intros Hz; now elim Hpos|].
    split.
    { intros _. split; [|split; reflexivity].
      intros Heq. apply (f_equal (fun x => bio_flagged x BIO_BOUNCED)) in Heq.
      rewrite Hflag in Heq. discriminate Heq. }
    unfold original_bio, bounce_linked. cbn [base_bio andb bi_private].
    change (bio_flagged _ BIO_BOUNCED) with true at 1 2.
    cbv iota. do 7 (split; [reflexivity|]).
    rewrite live_segments_bounced;
      [| exact Hidx | exact Hlen | apply bounced_segments_length].
    split; [reflexivity|]. split; [exact Hf|].
    split; [exact Hl|]. split; [exact Ho|].
    split; [exact Hpg | exact Hev].
Qed.


(** ** Encryption of a write *)

Lemma chunks_ahead_start (b : bio) :
  chunks_ahead b 0 0
  = chunks_of (firstn (Z.to_nat (bi_vcnt b)) (bi_io_vec b)).
Proof.
  unfold chunks_ahead. cbn [Z.to_nat skipn].
  destruct (firstn _ _) as [|bv rest]; [reflexivity|].
  cbn [chunks_of flat_map]. now rewrite Z.sub_0_r.
Qed.

Lemma seg_chunks_length (bv : bio_vec) (n : nat) :
  forall off, List.length (seg_chunks bv off n) = n.
Proof. induction n as [|n IH]; intros off; cbn; [reflexivity | now rewrite IH]. Qed.

(** A buffer for a whole number of sectors is made of whole sectors. *)
Lemma buffer_segments_sectors (ps : list Z) :
  forall size,
    0 < size -> size mod 512 = 0 ->
    (Z.of_nat (List.length ps) - 1) * PAGE_SIZE < size ->
    forallb (fun bv => (0 <=? bv_len bv) && (bv_len bv <=? PAGE_SIZE))
            (buffer_segments ps size) = true
    /\ forallb (fun bv => (0 <? bv_len bv) && (bv_len bv mod 512 =? 0)
                          && (0 <=? bv_offset bv)
                          && (bv_offset bv + bv_len bv <=? PAGE_SIZE))
               (buffer_segments ps size) = true
    /\ Z.of_nat (List.length (chunks_of (buffer_segments ps size)))
       = Z.min size (Z.of_nat (List.length ps) * PAGE_SIZE) / 512.
Proof.
  assert (HP : PAGE_SIZE = 4096) by reflexivity.
  induction ps as [|p ps IH]; intros size Hpos Hmod Hlen.
  - cbn. rewrite Z.min_r by lia. now repeat split.
  - cbn [buffer_segments forallb bv_len bv_offset chunks_of flat_map
         List.length] in *.
    rewrite length_app, seg_chunks_length.
    fold (chunks_of (buffer_segments ps (size - PAGE_SIZE))).
    assert (Hmin : 0 < Z.min PAGE_SIZE size <= PAGE_SIZE
                   /\ Z.min PAGE_SIZE size mod 512 = 0).
    { split; [lia|]. destruct (Z.min_spec PAGE_SIZE size) as [[_ ->]|[_ ->]];
        [now rewrite HP | exact Hmod]. }
    destruct Hmin as [Hm1 Hm2].
    replace (0 <=? Z.min PAGE_SIZE size) with true
      by (symmetry; apply Z.leb_le; lia).
    replace (Z.min PAGE_SIZE size <=? PAGE_SIZE) with true
      by (symmetry; apply Z.leb_le; lia).
    replace (0 <? Z.min PAGE_SIZE size) with true
      by (symmetry; apply Z.ltb_lt; lia).
    replace (0 + Z.min PAGE_SIZE size <=? PAGE_SIZE) with true
      by (symmetry; apply Z.leb_le; lia).
    rewrite Hm2. cbn [Z.eqb Z.leb Z.compare andb].
    destruct ps as [|p' ps'].
    + cbn [buffer_segments forallb chunks_of flat_map List.length].
      repeat split.
      rewrite Nat.add_0_r, Z2Nat.id by (apply Z.div_pos; lia).
      change (Z.of_nat (List.length [p])) with 1. f_equal. lia.
    + assert (Hsz : PAGE_SIZE < size).
      { cbn [List.length] in Hlen. lia. }
      destruct (IH (size - PAGE_SIZE)) as (H1 & H2 & H3); try lia.
      { rewrite HP. rewrite Zminus_mod, Hmod. reflexivity. }
      rewrite H1, H2. split; [reflexivity|]. split; [reflexivity|].
      rewrite Nat2Z.inj_add, H3, Z2Nat.id by (apply Z.div_pos; lia).
      rewrite Z.min_l by lia. rewrite HP.
      change (4096 / 512) with 8.
      replace (Z.min size (Z.of_nat (S (List.length (p' :: ps'))) * 4096))
        with (Z.min (size - 4096)
                    (Z.of_nat (List.length (p' :: ps')) * 4096) + 8 * 512)
        by lia.
      rewrite Z.div_add by lia. lia.
Qed.

(** The clone that [crypt_alloc_buffer] builds for a whole number of
    sectors. *)
Lemma buffer_clone_sectors (env : kcryptd_env) (rw fl size : Z) (p k : nat)
    (priv : option bio) :
  0 < size <= 65535 * PAGE_SIZE -> size mod 512 = 0 ->
  (1 <= k)%nat -> (k <= Z.to_nat (pages_for size))%nat ->
  let clone :=
    Build_bio 0 rw fl (Z.of_nat k) 0 (Z.min size (Z.of_nat k * PAGE_SIZE))
      (buffer_segments (pool_pages env p 0 k) size) priv in
  sector_aligned clone = true
  /\ Z.of_nat (List.length (chunks_ahead clone 0 0)) = bi_size clone / 512
  /\ 512 <= bi_size clone <= size /\ bi_size clone mod 512 = 0
  /\ List.length (bi_io_vec clone) = Z.to_nat (bi_vcnt clone).
Proof.
  intros Hsize Hmod Hk1 Hk2 clone.
  assert (HP : PAGE_SIZE = 4096) by reflexivity.
  assert (Hn' : (pages_for size - 1) * 4096 < size <= pages_for size * 4096).
  { unfold pages_for. rewrite HP.
    pose proof (Z.div_mod (size + 4096 - 1) 4096 ltac:(lia)).
    pose proof (Z.mod_pos_bound (size + 4096 - 1) 4096 ltac:(lia)). lia. }
  destruct (buffer_segments_sectors (pool_pages env p 0 k) size)
    as (H1 & H2 & H3); try lia.
  { rewrite pool_pages_length, HP. lia. }
  rewrite pool_pages_length in H3.
  assert (Hlen : List.length (bi_io_vec clone) = k).
  { subst clone. cbn [bi_io_vec].
    now rewrite buffer_segments_length, pool_pages_length. }
  assert (Hmod' : Z.min size (Z.of_nat k * PAGE_SIZE) mod 512 = 0).
  { destruct (Z.min_spec size (Z.of_nat k * PAGE_SIZE)) as [[_ ->]|[_ ->]];
      [exact Hmod|].
    rewrite HP. replace (Z.of_nat k * 4096) with (Z.of_nat k * 8 * 512) by lia.
    apply Z.mod_mul. lia. }
  split.
  { unfold sector_aligned, bio_ok. subst clone.
    cbn [bi_idx bi_vcnt bi_io_vec]. rewrite H1, H2.
    rewrite buffer_segments_length, pool_pages_length.
    replace (Z.of_nat k <? 2 ^ 16) with true by (symmetry; apply Z.ltb_lt; lia).
    rewrite !Z.leb_refl. reflexivity. }
  split.
  { rewrite chunks_ahead_start. subst clone. cbn [bi_vcnt bi_io_vec bi_size].
    rewrite Nat2Z.id, firstn_all2
      by (rewrite buffer_segments_length, pool_pages_length; lia).
    exact H3. }
  split.
  { subst clone. cbn [bi_size].
    assert (0 < Z.min size (Z.of_nat k * PAGE_SIZE)) by lia.
    split; [|lia].
    apply Z.mod_divide in Hmod'; [|lia]. destruct Hmod' as [q Hq]. lia. }
  split; [exact Hmod'|].
  rewrite Hlen. subst clone. cbn [bi_vcnt]. lia.
Qed.

(** When nothing lies ahead of a cursor, the cursor is past the last
    segment and at offset 0. *)
Lemma cursor_used_up (b : bio) (idx off : Z) :
  sector_aligned b = true ->
  cursor_ok b idx off ->
  List.length (bi_io_vec b) = Z.to_nat (bi_vcnt b) ->
  chunks_ahead b idx off = [] ->
  bi_vcnt b <= idx /\ off = 0.
Proof.
  intros Hal Hc Hlen Hnil.
  assert (Hidx : bi_vcnt b <= idx).
  { destruct (Z_lt_le_dec idx (bi_vcnt b)) as [Hlt|Hge]; [|exact Hge].
    destruct (chunks_ahead_inside b idx off Hal Hc Hlt) as (bv & Ebv).
    destruct (cursor_chunk b idx off bv Hal Hc Hlt Ebv) as [E _].
    cbv zeta in E. rewrite Hnil in E. discriminate E. }
  split; [exact Hidx|].
  destruct Hc as (Hi0 & [H0 | [Hlt _]]); [exact H0|].
  unfold current_len in Hlt.
  rewrite (proj2 (nth_error_None _ _)) in Hlt by lia. lia.
Qed.

Lemma sector_run_app (a : nat) :
  forall (s : Z) (b : nat),
    sector_run s (a + b)
    = sector_run s a
      ++ sector_run (Nat.iter a (fun x => wrap64 (x + 1)) s) b.
Proof.
  induction a as [|a IH]; intros s b; [reflexivity|].
  cbn [Nat.add sector_run app]. rewrite IH. do 2 f_equal.
  rewrite Nat.iter_succ.
  now rewrite (iter_shift (fun x => wrap64 (x + 1))).
Qed.

Section Write_run.

Variable env : kcryptd_env.
Variable cc : crypt_config.
Variable bdev : string.
Variable base : bio.
Hypothesis Hdev : dev cc = Some bdev.
Hypothesis Hfit : iv_buffer_fits cc = true.
Hypothesis Hcipher : forall h c, 0 <= blkcipher_result (k_cipher env) h c.
Hypothesis Hpool : forall n, page_pool_alloc env n true <> 0.
Hypothesis Hbio : forall n k, bio_alloc_bioset_fails env n k = false.
Hypothesis Hal : sector_aligned base = true.

(** The loop of [process_write] when memory is there and the cipher
    does not fail: clone after clone, the sectors of the original are
    encrypted in order into the clones. *)
Lemma process_write_loop_run :
  forall (fuel : nat) (ctx : convert_context) (remaining sect : Z)
         (st : kcryptd_state),
    bio_in ctx = Some base -> write ctx = 1 -> offset_out ctx = 0 ->
    cursor_ok base (idx_in ctx) (offset_in ctx) ->
    let cin := chunks_ahead base (idx_in ctx) (offset_in ctx) in
    remaining = 512 * Z.of_nat (List.length cin) ->
    remaining <= 65535 * PAGE_SIZE ->
    (List.length cin + 1 < fuel)%nat ->
    exists st' calls evs,
      process_write_loop fuel env cc ctx remaining sect st = Some st'
      /\ k_hist st' = k_hist st ++ calls
      /\ k_events st' = k_events st ++ evs
      /\ map call_src calls = cin
      /\ map call_dst calls
         = flat_map (fun c => chunks_ahead c 0 0) (submitted evs)
      /\ map call_iv calls
         = map (iv_of_sector (k_cipher env) cc)
               (sector_run (sector ctx) (List.length cin))
      /\ Forall (fun c => is_encryption (call_op c) = true
                          /\ call_nbytes c = 512) calls
      /\ error (k_io st') = error (k_io st)
      /\ completions (io_events_of evs) = [].
Proof.
  assert (HP : PAGE_SIZE = 4096) by reflexivity.
  induction fuel as [|fuel IH];
    intros ctx remaining sect st Ei Ew Eoff Hci cin Hrem Hmax Hfuel; [lia|].
  cbn [process_write_loop].
  destruct (Z.eqb_spec remaining 0) as [Hz|Hnz].
  { assert (Hnil : cin = []) by (destruct cin; [reflexivity | cbn in *; lia]).
    exists st, [], []. rewrite !app_nil_r, Hnil.
    repeat split; constructor. }
  assert (Hpos : 0 < remaining <= 65535 * PAGE_SIZE) by lia.
  assert (Hmod : remaining mod 512 = 0).
  { rewrite Hrem, Z.mul_comm. apply Z.mod_mul. lia. }
  destruct (crypt_alloc_buffer_cases env cc st remaining Hpos (Hbio _ _))
    as (k & Hk & Hall & Hstop & Ea); [congruence|].
  assert (Hk1 : (1 <= k)%nat).
  { destruct k as [|k]; [|lia]. exfalso.
    assert (Hlt : (0 < Z.to_nat (pages_for remaining))%nat).
    { unfold pages_for. rewrite HP.
      assert (1 <= (remaining + 4096 - 1) / 4096)
        by (apply Z.div_le_lower_bound; lia).
      lia. }
    apply (Hpool (k_pages st + 0)). exact (Hstop Hlt). }
  rewrite Ea. cbv zeta.
  replace (k =? 0)%nat with false by (symmetry; apply Nat.eqb_neq; lia).
  rewrite Hdev.
  set (clone := Build_bio 0 (bi_rw (base_bio (k_io st)))
                  (Z.shiftl 1 BIO_UPTODATE) (Z.of_nat k) 0
                  (Z.min remaining (Z.of_nat k * PAGE_SIZE))
                  (buffer_segments (pool_pages env (k_pages st) 0 k)
                     remaining) None).
  set (st1 := set_pages (bio_allocated st) _).
  destruct (buffer_clone_sectors env (bi_rw (base_bio (k_io st)))
              (Z.shiftl 1 BIO_UPTODATE) remaining (k_pages st) k None
              Hpos Hmod Hk1 Hk)
    as (Hcal & Hcn & Hcs & Hcm & Hcl).
  fold clone in Hcal, Hcn, Hcs, Hcm, Hcl.
  set (ctx1 := {| bio_in := bio_in ctx; bio_out := Some clone;
                  offset_in := offset_in ctx; offset_out := offset_out ctx;
                  idx_in := idx_in ctx; idx_out := 0;
                  sector := sector ctx; write := write ctx |}).
  set (cout := chunks_ahead clone 0 0) in *.
  assert (Hn : Nat.min (List.length cin) (List.length cout)
               = List.length cout).
  { apply Nat.min_r.
    assert (bi_size clone / 512 <= remaining / 512)
      by (apply Z.div_le_mono; lia).
    rewrite Hrem, Z.mul_comm, Z.div_mul in H by lia. lia. }
  assert (Hc1 : (1 <= List.length cout)%nat).
  { assert (1 <= bi_size clone / 512)
      by (apply Z.div_le_lower_bound; lia).
    lia. }
  unfold crypt_convert.
  destruct (crypt_convert_loop_chunks (k_cipher env) cc Hfit Hcipher (S fuel)
              ctx1 base clone 0 (k_hist st1))
    as (r & ctx2 & calls1 & Ec & Si & So & Sn & Ss & _ & Sr & Bi & _ & Sw
        & Ci & Co & Ai & Ao & Siv & Sop);
    try reflexivity; try assumption; try lia.
  { cbn [ctx1 idx_out offset_out]. rewrite Eoff.
    split; [lia | left; reflexivity]. }
  { cbn [ctx1 idx_in idx_out offset_in offset_out]. rewrite Eoff.
    fold cin cout. rewrite Hn. lia. }
  cbn [ctx1 idx_in idx_out offset_in offset_out sector write]
    in Si, So, Ss, Sw, Ai, Ao, Siv, Sop.
  rewrite Eoff in Si, So, Ss, Ai, Ao, Siv.
  fold cin cout in Si, So, Ss, Ai, Ao, Siv.
  rewrite Hn in Si, So, Ss, Ai, Ao, Siv.
  rewrite firstn_all in So. rewrite skipn_all in Ao.
  destruct (cursor_used_up clone _ _ Hcal Co Hcl Ao) as [Hout Hoff0].
  rewrite Ec.
  replace (r <? 0) with false by (symmetry; apply Z.ltb_ge; exact Sr).
  replace (idx_out ctx2 <? bi_vcnt clone) with false
    by (symmetry; apply Z.ltb_ge; exact Hout).
  unfold process_write_submit. cbv zeta.
  change (bi_size (bio_with_sector clone (wrap64 (start cc + sect))))
    with (bi_size clone).
  rewrite (wrap32_small (remaining - bi_size clone)) by lia.
  set (clone' := bio_with_sector clone (wrap64 (start cc + sect))).
  set (st2 := set_hist st1 (k_hist st1 ++ calls1)).
  match goal with
  | |- context [process_write_loop fuel env cc ctx2 ?rem ?s ?st3] =>
      destruct (IH ctx2 rem s st3)
        as (st' & calls2 & evs2 & E & Hh & Hev & Hs & Hd & Hiv & Hop & Her
            & Hcp)
  end; try assumption.
  { rewrite Sw. exact Ew. }
  { rewrite Ai, length_skipn. rewrite Hrem.
    replace (bi_size clone) with (512 * (bi_size clone / 512)).
    - rewrite <- Hcn. lia.
    - rewrite Z.mul_comm. symmetry. apply Z.div_exact in Hcm; lia. }
  { lia. }
  { rewrite Ai, length_skipn. lia. }
  exists st', (calls1 ++ calls2).
  exists ([generic_make_request clone' bdev]
          ++ (if remaining - bi_size clone =? 0 then []
              else [congestion_wait]) ++ evs2).
  split; [exact E|].
  assert (Hst3 : forall P : kcryptd_state -> Prop,
             P (emit st2 [generic_make_request clone' bdev]) ->
             P (emit (emit (inc_pending st2)
                           [generic_make_request clone' bdev])
                     [congestion_wait]) ->
             P (if remaining - bi_size clone =? 0
                then emit (if remaining - bi_size clone =? 0 then st2
                           else inc_pending st2)
                          [generic_make_request clone' bdev]
                else emit (emit (if remaining - bi_size clone =? 0 then st2
                                 else inc_pending st2)
                                [generic_make_request clone' bdev])
                          [congestion_wait])).
  { intros P P1 P2. destruct (remaining - bi_size clone =? 0); assumption. }
  split.
  { rewrite Hh. apply Hst3; cbn [emit inc_pending set_io k_hist st2 set_hist];
      now rewrite app_assoc. }
  split.
  { rewrite Hev.
    destruct (remaining - bi_size clone =? 0);
      cbn [emit inc_pending set_io k_events st2 set_hist st1 set_pages
           bio_allocated app];
      now rewrite <- ?app_assoc. }
  split.
  { rewrite map_app, Si, Hs, Ai. apply firstn_skipn. }
  split.
  { rewrite map_app, So, Hd, !submitted_app.
    destruct (remaining - bi_size clone =? 0); reflexivity. }
  split.
  { rewrite map_app, Siv, Hiv, Ai, length_skipn, Ss, <- map_app.
    f_equal. rewrite <- sector_run_app. f_equal. lia. }
  split.
  { apply Forall_app. split; [|exact Hop].
    rewrite Forall_forall in *. intros c Hin.
    split; [|exact (Sn c Hin)]. rewrite (Sop c Hin), Ew. reflexivity. }
  split.
  { rewrite Her. now destruct (remaining - bi_size clone =? 0). }
  rewrite !io_events_of_app, !completions_app, Hcp.
  now destruct (remaining - bi_size clone =? 0).
Qed.

End Write_run.

(** X25.  A write whose memory is there and whose cipher does not fail:
    [process_write] returns, and on its way every sector of the original
    bio has been encrypted exactly once and in order, 512 bytes at a
    time, from the pages of the original into the pages of the clones,
    the k-th with the IV of sector [bi_sector - begin + iv_offset + k];
    the original's pages are sources only.  No error is recorded and the
    bio is not completed: that is left to the clones. *)
Theorem process_write_encrypts_every_sector (fuel : nat)
    (env : kcryptd_env) (cc : crypt_config) (st : kcryptd_state)
    (bdev : string) :
  let base := base_bio (k_io st) in
  let sect := wrap64 (bi_sector base - begin (target (k_io st))) in
  let chunks := chunks_ahead base (bi_idx base) 0 in
  dev cc = Some bdev ->
  iv_buffer_fits cc = true ->
  (forall h c, 0 <= blkcipher_result (k_cipher env) h c) ->
  (forall n, page_pool_alloc env n true <> 0) ->
  (forall n k, bio_alloc_bioset_fails env n k = false) ->
  sector_aligned base = true ->
  bi_size base = 512 * Z.of_nat (List.length chunks) ->
  bi_size base <= 65535 * PAGE_SIZE ->
  (List.length chunks + 1 < fuel)%nat ->
  exists st' calls,
    process_write fuel env cc st = Some st'
    /\ k_hist st' = k_hist st ++ calls
    /\ map call_src calls = chunks
    /\ (let clones :=
          submitted (skipn (List.length (k_events st)) (k_events st')) in
        map call_dst calls = flat_map (fun c => chunks_ahead c 0 0) clones)
    /\ map call_iv calls
       = map (iv_of_sector (k_cipher env) cc)
             (sector_run (wrap64 (sect + iv_offset cc))
                         (List.length chunks))
    /\ Forall (fun c => is_encryption (call_op c) = true
                        /\ call_nbytes c = 512) calls
    /\ error (k_io st') = error (k_io st)
    /\ completions
         (io_events_of (skipn (List.length (k_events st)) (k_events st')))
       = [].
Proof.
  intros base sect chunks Hdev Hfit Hcipher Hpool Hbio Hal Hsize Hmax Hfuel.
  destruct (sector_aligned_inv base Hal) as [Hok _].
  destruct (bio_ok_inv base Hok) as (Hi0 & _).
  unfold process_write. fold base sect.
  destruct (process_write_loop_run env cc bdev base Hdev Hfit Hcipher Hpool
              Hbio Hal fuel
              (crypt_convert_init cc None (Some base) sect 1)
              (bi_size base) sect (inc_pending st))
    as (st' & calls & evs & E & Hh & Hev & Hs & Hd & Hiv & Hop & Her & Hc);
    try reflexivity; try assumption.
  { split; [exact Hi0 | left; reflexivity]. }
  cbn [crypt_convert_init idx_in offset_in sector inc_pending set_io k_hist
       k_events k_io io_with_pending error] in Hs, Hiv, Hh, Hev, Her.
  fold chunks in Hs, Hiv.
  exists st', calls. split; [exact E|].
  rewrite Hev, skipn_app, Nat.sub_diag, skipn_all. cbn [skipn app].
  repeat (split; [assumption|]). exact Hc.
Qed.

(** ** Reads in the offload build *)

Lemma wrap32_nonneg (x : Z) : (wrap32 x <? 0) = false.
Proof.
  apply Z.ltb_ge. unfold wrap32.
  pose proof (Z.mod_pos_bound x (2 ^ 32) ltac:(lia)). lia.
Qed.

Section Ocf_read.

Variable env : ocf_env.
Variable cc : crypt_config.
Variable b : bio.
Hypothesis Hgetreq : forall n, crypto_getreq_fails env n = false.
Hypothesis Haccept : forall n, crypto_dispatch_refusals env n = 0%nat.
Hypothesis Hgen : iv_gen_ops cc <> None.
Hypothesis Hfit : iv_buffer_fits cc = true.
Hypothesis Hal : sector_aligned b = true.

(** One sector of a read handed to an engine that accepts it: the
    request joins those in flight, and nothing else that matters below
    changes. *)
Lemma ocf_read_request (sg : scatterlist) (len sect : Z)
    (priv : crp_opaque_t) (w : ocf_world) :
  exists w' crp,
    ocf_crypt_convert_scatterlist env cc sg sg len 0 sect priv w
    = Some (0, w')
    /\ inflight w' = inflight w ++ [crp]
    /\ crp_opaque crp = priv /\ crp_callback crp = dm_ocf_rd_cb_fn
    /\ crp_buf crp = sg_virt env sg /\ crp_ilen crp = len
    /\ Z.land (crd_flags (crp_desc crp)) CRD_F_ENCRYPT = 0
    /\ the_io w' = the_io w /\ io_events w' = io_events w
    /\ wr_priv w' = wr_priv w /\ mem w' = mem w.
Proof.
  unfold ocf_crypt_convert_scatterlist.
  destruct (iv_gen_ops cc) as [ops|] eqn:Eops; [|congruence].
  destruct (generator_returns (ocf_encrypt_one env) cc ops sect Eops Hfit)
    as (iv & ->).
  cbn [Z.ltb Z.compare]. unfold dm_ocf_process.
  rewrite Hgetreq, Haccept, Z.eqb_refl. cbn [negb Z.eqb dispatch_loop].
  destruct (EALG_MAX_BLOCK_LEN <? iv_size cc);
    eexists _, _; (split; [reflexivity|]);
    cbn [inflight printk the_io io_events wr_priv mem crp_opaque
         crp_callback crp_buf crp_ilen crp_desc crd_flags];
    repeat split.
Qed.

Lemma chunks_ahead_nonempty (idx off : Z) :
  cursor_ok b idx off -> idx < bi_vcnt b -> chunks_ahead b idx off <> [].
Proof.
  intros Hc Hlt.
  destruct (chunks_ahead_inside b idx off Hal Hc Hlt) as (bv & Ebv).
  destruct (cursor_chunk b idx off bv Hal Hc Hlt Ebv) as [E _].
  cbv zeta in E. rewrite E. discriminate.
Qed.

(** The loop of [ocf_crypt_convert] for a read in place: one request per
    sector, and the [crypt_io] travels with the last of them only. *)
Lemma ocf_crypt_convert_loop_read :
  forall (fuel : nat) (ctx : convert_context) (r : Z) (priv : crp_opaque_t)
         (w : ocf_world),
    bio_in ctx = Some b -> bio_out ctx = Some b ->
    idx_out ctx = idx_in ctx -> offset_out ctx = offset_in ctx ->
    write ctx = 0 ->
    cursor_ok b (idx_in ctx) (offset_in ctx) ->
    let cs := chunks_ahead b (idx_in ctx) (offset_in ctx) in
    (cs <> [] -> priv = opaque_NULL) ->
    (List.length cs < fuel)%nat ->
    exists ctx' w' crps,
      ocf_crypt_convert_loop fuel env cc ctx r 0 priv w
      = Some (match cs with [] => r | _ :: _ => 0 end, ctx', 0, w')
      /\ inflight w' = inflight w ++ crps
      /\ map crp_buf crps = map (sg_virt env) cs
      /\ map crp_opaque crps
         = match cs with
           | [] => []
           | _ :: rest => repeat opaque_NULL (List.length rest) ++ [opaque_io]
           end
      /\ Forall (fun c => crp_callback c = dm_ocf_rd_cb_fn
                          /\ crp_ilen c = 512
                          /\ Z.land (crd_flags (crp_desc c)) CRD_F_ENCRYPT
                             = 0) crps
      /\ the_io w' = the_io w /\ io_events w' = io_events w
      /\ mem w' = mem w.
Proof.
  induction fuel as [|fuel IH];
    intros ctx r priv w Ei Eo Eidx Eoff Ew Hc cs Hpriv Hfuel; [lia|].
  cbn [ocf_crypt_convert_loop]. rewrite Ei, Eo, Eidx, Eoff.
  destruct (Z.ltb_spec (idx_in ctx) (bi_vcnt b)) as [Hin|Hin].
  2:{ assert (E : cs = []) by (apply chunks_ahead_end; [apply Hc | lia]).
      cbn [andb]. exists ctx, w, []. rewrite E, app_nil_r.
      repeat split; constructor. }
  cbn [andb].
  destruct (chunks_ahead_inside b _ _ Hal Hc Hin) as (bv & Ebv).
  rewrite Ebv. cbv zeta.
  destruct (cursor_chunk b _ _ bv Hal Hc Hin Ebv) as [Ecs Hc'].
  cbv zeta in Ecs, Hc'. fold cs in Ecs.
  cbn [sg_length write sector bio_in bio_out offset_in offset_out
       idx_in idx_out].
  rewrite Ew. cbn [Z.eqb negb].
  set (off' := if bv_len bv <=? wrap32 (offset_in ctx + Z.shiftl 1 SECTOR_SHIFT)
               then 0
               else wrap32 (offset_in ctx + Z.shiftl 1 SECTOR_SHIFT)) in *.
  set (idx' := if bv_len bv <=? wrap32 (offset_in ctx + Z.shiftl 1 SECTOR_SHIFT)
               then wrap32 (idx_in ctx + 1) else idx_in ctx) in *.
  set (rest := chunks_ahead b idx' off') in *.
  rewrite andb_diag.
  set (priv1 := if negb (idx' <? bi_vcnt b) then opaque_io else priv).
  assert (Hp0 : priv = opaque_NULL) by (apply Hpriv; rewrite Ecs; discriminate).
  assert (Hlast : match rest with
                  | [] => priv1 = opaque_io
                  | _ :: _ => priv1 = opaque_NULL
                  end).
  { subst priv1. destruct (Z.ltb_spec idx' (bi_vcnt b)) as [Hlt|Hge].
    - pose proof (chunks_ahead_nonempty idx' off' Hc' Hlt) as Hne.
      fold rest in Hne. destruct rest; [congruence | exact Hp0].
    - assert (E : rest = []) by (apply chunks_ahead_end; [apply Hc' | lia]).
      now rewrite E. }
  match goal with
  | |- context [ocf_crypt_convert_scatterlist env cc ?sg ?sg ?len 0 ?s
                  priv1 w] =>
      destruct (ocf_read_request sg len s priv1 w)
        as (w1 & crp & E1 & Hfl & Hop & Hcb & Hbuf & Hlen & Henc & Hio & Hev
            & _ & Hmem);
        rewrite E1
  end.
  cbn [Z.ltb Z.compare].
  match goal with
  | |- context [ocf_crypt_convert_loop fuel env cc ?ctx1 0 0 priv1 w1] =>
      destruct (IH ctx1 0 priv1 w1)
        as (ctx' & w' & crps & E & Hfl' & Hbufs & Hops & Hall & Hio' & Hev'
            & Hmem')
  end; try reflexivity; try exact Hc'.
  { cbn [idx_in offset_in]. fold rest.
    destruct rest; [congruence | intros _; exact Hlast]. }
  { cbn [idx_in offset_in]. fold rest. rewrite Ecs in Hfuel.
    cbn [List.length] in Hfuel. lia. }
  cbn [idx_in offset_in] in E, Hbufs, Hops. fold rest in E, Hbufs, Hops.
  exists ctx', w', (crp :: crps).
  rewrite Ecs. split.
  { rewrite E. now destruct rest. }
  split; [rewrite Hfl', Hfl, <- app_assoc; reflexivity|].
  split; [cbn [map]; now rewrite Hbuf, Hbufs|].
  split.
  { cbn [map]. rewrite Hop, Hops.
    destruct rest as [|c rest']; [now rewrite Hlast|].
    rewrite Hlast. reflexivity. }
  split; [constructor; [now repeat split | exact Hall]|].
  split; [now rewrite Hio', Hio|].
  split; [now rewrite Hev', Hev | now rewrite Hmem', Hmem].
Qed.

End Ocf_read.

(** Completions of read requests that carry no [crypt_io] leave the
    request alone. *)
Lemma complete_many_idle (env : ocf_env) :
  forall (crps rest : list cryptop) (w : ocf_world),
    inflight w = crps ++ rest ->
    Forall (fun c => crp_callback c = dm_ocf_rd_cb_fn
                     /\ crp_opaque c = opaque_NULL) crps ->
    exists w',
      complete_many env (List.length crps) w = Some w'
      /\ inflight w' = rest /\ the_io w' = the_io w
      /\ io_events w' = io_events w.
Proof.
  induction crps as [|c crps IH]; intros rest w Hfl Hall.
  - exists w. now repeat split.
  - inversion Hall as [|? ? [Hcb Hop] Hall']; subst.
    cbn [List.length complete_many]. rewrite Hfl. cbn [app].
    unfold complete_one. rewrite Hfl. cbn [app]. rewrite Hcb.
    unfold dm_ocf_rd_cb. rewrite Hop.
    match goal with
    | |- context [complete_many env _ ?w1] =>
        destruct (IH rest w1 eq_refl Hall') as (w' & E & H1 & H2 & H3)
    end.
    exists w'. split; [exact E|]. now repeat split.
Qed.

Lemma Forall_app_repeat (crps : list cryptop) (n : nat) :
  map crp_opaque crps = repeat opaque_NULL n ++ [opaque_io] ->
  exists idle last,
    crps = idle ++ [last] /\ List.length idle = n
    /\ Forall (fun c => crp_opaque c = opaque_NULL) idle
    /\ crp_opaque last = opaque_io.
Proof.
  revert crps. induction n as [|n IH]; intros crps H.
  - destruct crps as [|c [|c' crps]]; try discriminate.
    exists [], c. cbn in H. injection H as H. now repeat split.
  - destruct crps as [|c crps]; [discriminate|].
    cbn [map repeat app] in H. injection H as Hc H.
    destruct (IH crps H) as (idle & last & -> & Hl & Hall & Hlast).
    exists (c :: idle), last. cbn. repeat split; try assumption.
    + now rewrite Hl.
    + now constructor.
Qed.

(** The failure branch of [process_read_endio] is never taken. *)
Lemma ocf_process_read_endio_result (fuel : nat) (env : ocf_env)
    (cc : crypt_config) (late : nat) (w : ocf_world) :
  ocf_process_read_endio fuel env cc late w
  = match ocf_crypt_convert fuel env cc
            (crypt_convert_init cc (Some (base_bio (the_io w)))
               (Some (base_bio (the_io w)))
               (wrap64 (bi_sector (base_bio (the_io w))
                        - begin (target (the_io w)))) 0) w with
    | None => None
    | Some (_, _, w1) => Some w1
    end.
Proof.
  unfold ocf_process_read_endio.
  destruct (ocf_crypt_convert _ _ _ _ _) as [[[res c] w1]|]; [|reflexivity].
  cbv zeta. now rewrite wrap32_nonneg.
Qed.

(** X26.  In the offload build a read whose decryption fails is dropped:
    [process_read_endio] keeps the result of the conversion in a [u32],
    so its test for a failure never holds and it never calls
    [dec_pending]; what it leaves is what [ocf_crypt_convert] leaves.
    When, say, [crypto_getreq] fails for the first sector, no request is
    in flight for the [crypt_io] and nothing has completed it: the bio
    stays pending. *)
Theorem ocf_read_failure_is_dropped (fuel : nat) (env : ocf_env)
    (cc : crypt_config) (late : nat) (w : ocf_world) :
  let io := the_io w in
  let base := base_bio io in
  let ctx := crypt_convert_init cc (Some base) (Some base)
               (wrap64 (bi_sector base - begin (target io))) 0 in
  ocf_process_read_endio fuel env cc late w
  = match ocf_crypt_convert fuel env cc ctx w with
    | None => None
    | Some (_, _, w1) => Some w1
    end
  /\ (iv_gen_ops cc <> None -> iv_buffer_fits cc = true ->
      bio_ok base = true -> bi_idx base < bi_vcnt base ->
      crypto_getreq_fails env (getreq_calls w) = true ->
      (0 < fuel)%nat ->
      exists w',
        ocf_process_read_endio fuel env cc late w = Some w'
        /\ the_io w' = the_io w /\ io_events w' = io_events w
        /\ inflight w' = inflight w
        /\ klog w' = klog w ++ [msg_getreq_failed; msg_scatterlist_failed]).
Proof.
  intros io base ctx.
  pose proof (ocf_process_read_endio_result fuel env cc late w) as Hdead.
  fold io base ctx in Hdead.
  split; [exact Hdead|].
  intros Hgen Hfit Hok Hidx Hfail Hfuel. rewrite Hdead.
  destruct (bio_ok_inv base Hok) as (Hi0 & _).
  destruct (segment_at base (bi_idx base) Hok ltac:(lia)) as (bv & Ebv & _).
  destruct fuel as [|fuel]; [lia|].
  unfold ocf_crypt_convert.
  cbn [ctx crypt_convert_init write Z.eqb negb ocf_crypt_convert_loop
       bio_in bio_out idx_in idx_out offset_in offset_out sector].
  replace (bi_idx base <? bi_vcnt base) with true
    by (symmetry; apply Z.ltb_lt; exact Hidx).
  cbn [andb]. rewrite Ebv. cbv zeta.
  cbn [write Z.eqb negb sector sg_length].
  unfold ocf_crypt_convert_scatterlist.
  destruct (iv_gen_ops cc) as [ops|] eqn:Eops; [|congruence].
  match goal with
  | |- context [generator (ocf_encrypt_one env) ops cc (iv_buffer cc) ?s] =>
      destruct (generator_returns (ocf_encrypt_one env) cc ops s Eops Hfit)
        as (iv & ->)
  end.
  cbn [Z.ltb Z.compare]. unfold dm_ocf_process. rewrite Hfail.
  change (- ENOMEM <? 0) with true. cbv iota.
  eexists. split; [reflexivity|].
  cbn [printk the_io io_events inflight klog].
  rewrite <- app_assoc. now repeat split.
Qed.

(** X27.  In the offload build a read that goes well is released once,
    by its last sector.  With an engine that accepts every request,
    [process_read_endio] hands it one request per sector of the bio, each
    for the 512 bytes of that sector in place and none flagged for
    encryption, and returns without touching the [crypt_io]; the
    [crypt_io] travels with the last request only, so that when the
    engine has completed them all in order, [dec_pending] has been called
    exactly once, with 0, and no request is left in flight. *)
Theorem ocf_read_releases_io_once (fuel : nat) (env : ocf_env)
    (cc : crypt_config) (late : nat) (w : ocf_world) (io' : crypt_io)
    (evs : list io_event) :
  let io := the_io w in
  let base := base_bio io in
  let chunks := chunks_ahead base (bi_idx base) 0 in
  (forall n, crypto_getreq_fails env n = false) ->
  (forall n, crypto_dispatch_refusals env n = 0%nat) ->
  iv_gen_ops cc <> None -> iv_buffer_fits cc = true ->
  sector_aligned base = true ->
  chunks <> [] ->
  (List.length chunks < fuel)%nat ->
  inflight w = [] ->
  dec_pending (CONFIG_HIGHMEM env) io 0 = Some (io', evs) ->
  exists w1 w2,
    ocf_process_read_endio fuel env cc late w = Some w1
    /\ the_io w1 = io /\ io_events w1 = io_events w /\ mem w1 = mem w
    /\ map crp_buf (inflight w1) = map (sg_virt env) chunks
    /\ Forall (fun c => crp_callback c = dm_ocf_rd_cb_fn
                        /\ crp_ilen c = 512
                        /\ Z.land (crd_flags (crp_desc c)) CRD_F_ENCRYPT = 0)
              (inflight w1)
    /\ complete_many env (List.length chunks - 1) w1
       = Some w2
    /\ the_io w2 = io /\ io_events w2 = io_events w
    /\ exists w3,
         complete_many env 1 w2 = Some w3
         /\ the_io w3 = io' /\ io_events w3 = io_events w ++ evs
         /\ inflight w3 = [].
Proof.
  intros io base chunks Hgetreq Haccept Hgen Hfit Hal Hne Hfuel Hfl Hdec.
  destruct (sector_aligned_inv base Hal) as [Hok _].
  destruct (bio_ok_inv base Hok) as (Hi0 & _).
  pose proof (ocf_process_read_endio_result fuel env cc late w) as Hdead.
  fold io base in Hdead. rewrite Hdead.
  unfold ocf_crypt_convert.
  cbn [crypt_convert_init write Z.eqb negb].
  destruct (ocf_crypt_convert_loop_read env cc base Hgetreq Haccept Hgen Hfit
              Hal fuel
              (crypt_convert_init cc (Some base) (Some base)
                 (wrap64 (bi_sector base - begin (target io))) 0)
              0 opaque_NULL w)
    as (ctx' & w1 & crps & E & Hfl1 & Hbufs & Hops & Hall & Hio & Hev & Hmem);
    try reflexivity; try assumption.
  { split; [exact Hi0 | left; reflexivity]. }
  cbn [crypt_convert_init idx_in offset_in] in E, Hbufs, Hops.
  fold chunks in E, Hbufs, Hops.
  cbn [crypt_convert_init] in E. rewrite E.
  rewrite Hfl in Hfl1. cbn [app] in Hfl1.
  destruct chunks as [|c0 rest] eqn:Ech; [congruence|].
  destruct (Forall_app_repeat crps (List.length rest) Hops)
    as (idle & last & Ecrps & Hl & Hidle & Hlast).
  assert (Hallidle : Forall (fun c => crp_callback c = dm_ocf_rd_cb_fn
                                      /\ crp_opaque c = opaque_NULL) idle).
  { rewrite Ecrps in Hall. apply Forall_app in Hall as [Hall _].
    rewrite Forall_forall in *. intros c Hin.
    split; [apply (Hall c Hin) | apply (Hidle c Hin)]. }
  destruct (complete_many_idle env idle [last] w1) as (w2 & E2 & F2 & I2 & V2);
    [now rewrite Hfl1, Ecrps | exact Hallidle |].
  exists w1, w2. split; [reflexivity|].
  split; [exact Hio|]. split; [exact Hev|]. split; [exact Hmem|].
  split; [now rewrite Hfl1|]. split; [now rewrite Hfl1|].
  replace (List.length (c0 :: rest) - 1)%nat with (List.length idle)
    by (cbn [List.length]; lia).
  split; [exact E2|]. split; [now rewrite I2|]. split; [now rewrite V2|].
  cbn [complete_many]. rewrite F2. unfold complete_one. rewrite F2.
  assert (Hcb : crp_callback last = dm_ocf_rd_cb_fn).
  { rewrite Ecrps in Hall. apply Forall_app in Hall as [_ Hall].
    inversion Hall as [|? ? [H _] _]; exact H. }
  rewrite Hcb. unfold dm_ocf_rd_cb. rewrite Hlast. cbn [the_io].
  rewrite I2, Hio. fold io. rewrite Hdec.
  eexists. split; [reflexivity|].
  cbn [crypt_requests_dec the_io io_events inflight].
  rewrite V2, Hev. now repeat split.
Qed.

(** ** Edge cases and the module *)

(** X28.  A write of no bytes is never completed: for a request whose
    bio has size 0, [kcryptd_do_work] goes to [process_write], which
    takes its reference and returns at once; it submits no clone,
    allocates nothing, calls neither the cipher nor [dec_pending], and so
    leaves a reference that nothing will drop and a bio that nothing will
    complete. *)
Theorem process_write_empty_bio_stays_pending (fuel : nat)
    (env : kcryptd_env) (cc : crypt_config) (st : kcryptd_state) :
  bi_size (base_bio (k_io st)) = 0 ->
  post_process (k_io st) = 0 ->
  bio_data_dir (base_bio (k_io st)) = WRITE ->
  pending (k_io st) = 0 ->
  (0 < fuel)%nat ->
  exists st',
    kcryptd_do_work fuel env cc st = Some st'
    /\ process_write fuel env cc st = Some st'
    /\ k_io st' = io_with_pending (k_io st) 1
    /\ pending (k_io st') = 1
    /\ k_events st' = k_events st /\ k_hist st' = k_hist st
    /\ k_pages st' = k_pages st /\ k_bios st' = k_bios st
    /\ error (k_io st') = error (k_io st).
Proof.
  intros Hsize Hpp Hdir Hp Hfuel.
  unfold kcryptd_do_work. rewrite Hpp, Hdir.
  cbn [Z.eqb negb]. change (WRITE =? READ) with false. cbv iota.
  unfold process_write. rewrite Hsize.
  destruct fuel as [|fuel]; [lia|].
  cbn [process_write_loop Z.eqb].
  eexists. split; [reflexivity|]. split; [reflexivity|].
  cbn [inc_pending set_io k_io k_events k_hist k_pages k_bios
       io_with_pending pending error].
  rewrite Hp. now repeat split.
Qed.

(** X29.  Loading and unloading the module leave nothing behind.
    [dm_crypt_init] returns 0 when cache, workqueue and target
    registration succeed, and then holds these three; it returns -ENOMEM
    when cache or workqueue cannot be had and the negative result of
    [dm_register_target] when registration fails, and then holds
    nothing: what it had taken it has given back, the latest first.
    [dm_crypt_exit] after a successful [dm_crypt_init] gives back all
    three, the latest first. *)
Theorem dm_crypt_init_exit_balanced (ocf : bool) (env : init_env) :
  let r := fst (dm_crypt_init ocf env) in
  let evs := snd (dm_crypt_init ocf env) in
  (r = 0
   /\ KMEM_CACHE_fails env = false /\ create_workqueue_fails env = false
   /\ 0 <= dm_register_target env
   /\ held_after evs []
      = Some [crypt_target_registered; kcryptd_workqueue; crypt_io_cache]
   /\ held_after (evs ++ dm_crypt_exit) [] = Some [])
  \/ (r < 0
      /\ held_after evs [] = Some []
      /\ ((r = - ENOMEM
           /\ (KMEM_CACHE_fails env = true
               \/ create_workqueue_fails env = true))
          \/ (r = dm_register_target env
              /\ KMEM_CACHE_fails env = false
              /\ create_workqueue_fails env = false))).
Proof.
  unfold dm_crypt_init.
  destruct (KMEM_CACHE_fails env) eqn:E1.
  { right. cbn. repeat split; try reflexivity. left. split; [reflexivity | now left]. }
  destruct (create_workqueue_fails env) eqn:E2.
  { right. cbn. repeat split; try reflexivity. left. split; [reflexivity | now right]. }
  destruct (Z.ltb_spec (dm_register_target env) 0) as [Hneg|Hpos].
  { right. cbn [fst snd]. split; [exact Hneg|]. split; [reflexivity|].
    right. now repeat split. }
  left. cbn [fst snd].
  split; [reflexivity|]. split; [reflexivity|]. split; [reflexivity|].
  split; [exact Hpos|].
  destruct ocf; split; reflexivity.
Qed.

(** ** The further properties on concrete requests *)

Ltac evaluate :=
  solve [ vm_compute; reflexivity | vm_compute; discriminate
        | vm_compute; split; discriminate | vm_compute; lia
        | intros; cbn; lia ].

(** A buffer of 5000 bytes for a write. *)
Lemma crypt_alloc_buffer_shape_witness :
  exists clone st',
    crypt_alloc_buffer (example_kcryptd_env false) example_cc_plain
      (example_request (example_bio WRITE)) 5000 = Some (Some clone, st')
    /\ k_io st' = k_io (example_request (example_bio WRITE))
    /\ bi_rw clone = WRITE.
Proof.
  eexists _, _. split; [vm_compute; reflexivity|].
  destruct (crypt_alloc_buffer_shape (example_kcryptd_env false)
              example_cc_plain (example_request (example_bio WRITE)) _ 5000
              (Some _) ltac:(vm_compute; split; congruence)
              ltac:(vm_compute; reflexivity))
    as (Hio & k & _ & _ & _ & _ & _ & _ & _ & Hrw & _).
  split; [exact Hio | exact Hrw].
Defined.

(** Ten pages are asked for; the pool grants the first eight. *)
Lemma crypt_alloc_buffer_progress_witness :
  exists clone st',
    crypt_alloc_buffer (example_kcryptd_env false) example_cc_plain
      (example_request (example_long_bio WRITE)) 40960
    = Some (Some clone, st')
    /\ 32768 <= bi_size clone <= 40960.
Proof.
  destruct (crypt_alloc_buffer_progress (example_kcryptd_env false)
              example_cc_plain (example_request (example_long_bio WRITE))
              40960)
    as (clone & st' & E & H).
  - vm_compute. split; congruence.
  - intros n. change (100 + Z.of_nat n <> 0). lia.
  - reflexivity.
  - discriminate.
  - exists clone, st'. split; [exact E | exact H].
Defined.

Lemma crypt_free_buffer_pages_returns_pool_pages_witness :
  exists clone st' clone',
    crypt_alloc_buffer (example_kcryptd_env false) example_cc_plain
      (example_request (example_bio WRITE)) 5000 = Some (Some clone, st')
    /\ crypt_free_buffer_pages clone
       = Some (clone', [mempool_free_page 100; mempool_free_page 101])
    /\ crypt_free_buffer_pages clone' = None.
Proof.
  eexists _, _.
  destruct (crypt_free_buffer_pages_returns_pool_pages
              (example_kcryptd_env false) example_cc_plain
              (example_request (example_bio WRITE)) _ 5000 _
              ltac:(vm_compute; split; congruence)
              ltac:(vm_compute; reflexivity))
    as (clone' & E & _ & E2).
  exists clone'. split; [vm_compute; reflexivity|].
  split; [exact E | exact E2].
Defined.

(** The write of the 1024-byte bio: one clone, one reference. *)
Lemma process_write_reference_count_witness :
  exists st' evs,
    process_write 10 (example_kcryptd_env false) example_cc_plain
      (example_request (example_bio WRITE)) = Some st'
    /\ k_events st' = evs
    /\ pending (k_io st') = Z.of_nat (List.length (submitted evs)).
Proof.
  eexists _.
  destruct (process_write_reference_count 10 (example_kcryptd_env false)
              example_cc_plain (example_request (example_bio WRITE)) _
              eq_refl eq_refl ltac:(vm_compute; split; congruence) eq_refl
              ltac:(vm_compute; reflexivity)
              ltac:(vm_compute; reflexivity))
    as (evs & Hev & P & _).
  exists evs. split; [vm_compute; reflexivity|].
  split; [exact Hev | exact P].
Defined.

Lemma process_write_clones_cover_bio_witness :
  exists st',
    process_write 100 (example_kcryptd_env false) example_cc_plain
      (example_request (example_long_bio WRITE)) = Some st'
    /\ total_size (submitted (k_events st')) = 40960
    /\ consecutive_from 64 (submitted (k_events st')).
Proof.
  eexists. split; [vm_compute; reflexivity|].
  destruct (process_write_clones_cover_bio 100 (example_kcryptd_env false)
              example_cc_plain (example_request (example_long_bio WRITE)) _
              eq_refl eq_refl ltac:(vm_compute; split; congruence) eq_refl
              ltac:(vm_compute; reflexivity)
              ltac:(vm_compute; reflexivity))
    as (_ & Hcons & Hsize & _).
  split; [exact (Hsize eq_refl) | exact Hcons].
Defined.

(** The two clones of the ten-page write complete, the second with
    -EIO. *)
Lemma write_request_completes_once_witness :
  exists st1 st2 clones,
    process_write 100 (example_kcryptd_env false) example_cc_plain
      (example_request (example_long_bio WRITE)) = Some st1
    /\ clones = submitted (k_events st1)
    /\ crypt_endio_calls (example_kcryptd_env false)
         (combine clones [0; - EIO]) st1 = Some st2
    /\ pending (k_io st2) = 0 /\ error (k_io st2) = - EIO.
Proof.
  eexists _.
  destruct (write_request_completes_once 100 (example_kcryptd_env false)
              example_cc_plain (example_request (example_long_bio WRITE)) _
              [0; - EIO]
              eq_refl eq_refl ltac:(vm_compute; split; congruence) eq_refl
              ltac:(vm_compute; reflexivity) eq_refl
              ltac:(vm_compute; reflexivity)
              ltac:(vm_compute; discriminate) eq_refl)
    as (st2 & rest & E & P & Er & _).
  exists st2. eexists. split; [vm_compute; reflexivity|].
  split; [reflexivity|].
  split; [exact E|]. split; [exact P | exact Er].
Defined.

(** The read of the 1024-byte bio: two sectors, decrypted in place. *)
Lemma read_request_lifecycle_witness :
  exists st1 st2 st3,
    kcryptd_do_work 10 (example_kcryptd_env false) example_cc_plain
      (example_request (example_bio READ)) = Some st1
    /\ crypt_endio (example_kcryptd_env false) (example_bio READ) (- EIO) st1
       = Some st2
    /\ kcryptd_do_work 10 (example_kcryptd_env false) example_cc_plain st2
       = Some st3
    /\ map call_src (k_hist st3)
       = [{| sg_page := 7; sg_length := 512; sg_offset := 0 |};
          {| sg_page := 7; sg_length := 512; sg_offset := 512 |}]
    /\ pending (k_io st3) = 0 /\ error (k_io st3) = 0.
Proof.
  destruct (read_request_lifecycle 10 (example_kcryptd_env false)
              example_cc_plain (example_request (example_bio READ))
              "sda1" (example_bio READ) (- EIO))
    as (st1 & clone & st2 & st3 & calls & done & E1 & _ & _ & _ & _ & _ & _
        & _ & E2 & _ & _ & E3 & Hh & Hs & _ & _ & _ & _ & _ & P & Er);
    [evaluate .. |].
  exists st1, st2, st3. split; [exact E1|]. split; [exact E2|].
  split; [exact E3|]. rewrite Hh. cbn [example_request k_hist app].
  split; [exact Hs|]. split; [exact P | exact Er].
Defined.

(** The same read when the clone comes back not up to date. *)
Lemma read_request_failures_witness :
  exists st1 st2,
    kcryptd_do_work 10 (example_kcryptd_env false) example_cc_plain
      (example_request (example_bio READ)) = Some st1
    /\ crypt_endio (example_kcryptd_env false)
         (Build_bio 8 READ 0 1 0 1024 [] None) 0 st1 = Some st2
    /\ error (k_io st2) = - EIO /\ k_hist st2 = [].
Proof.
  destruct (read_request_failures 10 (example_kcryptd_env false)
              example_cc_plain (example_request (example_bio READ))
              "sda1" (Build_bio 8 READ 0 1 0 1024 [] None) 0)
    as [_ H]; [evaluate .. |].
  destruct (H eq_refl eq_refl eq_refl)
    as (st1 & st2 & done & E1 & E2 & _ & _ & _ & Er & Hh).
  exists st1, st2. split; [exact E1|]. split; [exact E2|].
  split; [exact Er | exact Hh].
Defined.

(** A write with one segment in high memory: page 7 is replaced by page
    100 of the pool. *)
Lemma crypt_map_bounces_high_pages_witness :
  exists st1,
    crypt_map (example_kcryptd_env true) {| begin := 0; len := 2048 |}
      (example_highmem_bio WRITE)
      (example_request (example_bio READ)) = Some (0, st1)
    /\ bi_private (base_bio (k_io st1)) = Some (example_highmem_bio WRITE)
    /\ map bv_page (live_segments (base_bio (k_io st1))) = [1001; 100]
    /\ k_events st1 = [bounce_copy 100 7 512 512; queue_work].
Proof.
  destruct (crypt_map_bounces_high_pages (example_kcryptd_env true)
              {| begin := 0; len := 2048 |} (example_highmem_bio WRITE)
              (example_request (example_bio READ)))
    as (st1 & E & _ & _ & _ & _ & _ & Hb & _ & _ & _ & _ & _ & _ & _
        & Hseg & _ & _ & _ & _ & Hev);
    [ reflexivity
    | intros n; change (100 + Z.of_nat n <> 0); lia
    | intros n; change ((100 + Z.of_nat n <? 100) = false);
      apply Z.ltb_ge; lia
    | vm_compute; split; discriminate
    | vm_compute; discriminate
    | reflexivity
    | reflexivity
    | ].
  exists st1. split; [exact E|].
  split; [apply Hb; vm_compute; discriminate|].
  split; [exact (f_equal (map bv_page) Hseg) | exact Hev].
Defined.


(** The write of the 1024-byte bio: its two sectors are encrypted from
    page 7 into page 100. *)
Lemma process_write_encrypts_every_sector_witness :
  exists st',
    process_write 10 (example_kcryptd_env false) example_cc_plain
      (example_request (example_bio WRITE)) = Some st'
    /\ map call_src (k_hist st')
       = [{| sg_page := 7; sg_length := 512; sg_offset := 0 |};
          {| sg_page := 7; sg_length := 512; sg_offset := 512 |}]
    /\ map call_dst (k_hist st')
       = [{| sg_page := 100; sg_length := 512; sg_offset := 0 |};
          {| sg_page := 100; sg_length := 512; sg_offset := 512 |}].
Proof.
  destruct (process_write_encrypts_every_sector 10
              (example_kcryptd_env false) example_cc_plain
              (example_request (example_bio WRITE)) "sda1")
    as (st' & calls & E & Hh & Hs & Hd & _);
    [first [evaluate | intros n; change (100 + Z.of_nat n <> 0); lia] .. |].
  exists st'. split; [exact E|]. rewrite Hh.
  cbn [example_request k_hist app]. split; [exact Hs|].
  rewrite Hd.
  assert (E' : Some st' = process_write 10 (example_kcryptd_env false)
                            example_cc_plain
                            (example_request (example_bio WRITE)))
    by (symmetry; exact E).
  vm_compute in E'. injection E' as ->. vm_compute. reflexivity.
Defined.

(** A read in the offload build when the engine has no request to
    give. *)
Lemma ocf_read_failure_is_dropped_witness :
  exists w',
    ocf_process_read_endio 10 example_ocf_env_busy example_cc_ocf 0
      example_ocf_read_world = Some w'
    /\ pending (the_io w') = 1 /\ io_events w' = [] /\ inflight w' = [].
Proof.
  destruct (ocf_read_failure_is_dropped 10 example_ocf_env_busy
              example_cc_ocf 0 example_ocf_read_world) as [_ H].
  destruct H as (w' & E & Hio & Hev & Hfl & _);
    [ discriminate | reflexivity | reflexivity | vm_compute; reflexivity
    | reflexivity | lia | ].
  exists w'. split; [exact E|]. rewrite Hio, Hev, Hfl. now repeat split.
Defined.

(** The same read with an engine that serves: two requests, the second
    of which completes the bio. *)
Lemma ocf_read_releases_io_once_witness :
  exists w1 w2 w3,
    ocf_process_read_endio 10 (example_ocf_env 0) example_cc_ocf 0
      example_ocf_read_world = Some w1
    /\ List.length (inflight w1) = 2%nat
    /\ complete_many (example_ocf_env 0) 1 w1 = Some w2
    /\ io_events w2 = []
    /\ complete_many (example_ocf_env 0) 1 w2 = Some w3
    /\ io_events w3 = [bio_endio (example_bio READ) 0; mempool_free_io].
Proof.
  destruct (dec_pending false (the_io example_ocf_read_world) 0)
    as [[io' evs]|] eqn:Ed; [|vm_compute in Ed; discriminate Ed].
  destruct (ocf_read_releases_io_once 10 (example_ocf_env 0) example_cc_ocf
              0 example_ocf_read_world io' evs)
    as (w1 & w2 & E1 & _ & _ & _ & Hb & _ & E2 & _ & Hev2 & w3 & E3 & _
        & Hev3 & _);
    [ reflexivity | reflexivity | discriminate | reflexivity | reflexivity
    | vm_compute; discriminate | vm_compute; lia | reflexivity | exact Ed | ].
  exists w1, w2, w3. split; [exact E1|].
  split; [exact (eq_trans (eq_sym (length_map crp_buf _))
                          (f_equal (@List.length Z) Hb))|].
  split; [exact E2|]. split; [exact Hev2|]. split; [exact E3|].
  rewrite Hev3. vm_compute in Ed. injection Ed as _ <-. reflexivity.
Defined.

(** A write of no bytes, with fuel for one round. *)
Lemma process_write_empty_bio_stays_pending_witness :
  exists st',
    kcryptd_do_work 1 (example_kcryptd_env false) example_cc_plain
      (example_request (Build_bio 8 WRITE 1 0 0 0 [] None)) = Some st'
    /\ pending (k_io st') = 1 /\ k_events st' = [].
Proof.
  destruct (process_write_empty_bio_stays_pending 1
              (example_kcryptd_env false) example_cc_plain
              (example_request (Build_bio 8 WRITE 1 0 0 0 [] None))
              eq_refl eq_refl eq_refl eq_refl ltac:(lia))
    as (st' & E & _ & _ & P & Hev & _).
  exists st'. split; [exact E|]. split; [exact P | exact Hev].
Defined.
